(* ===== verification/_CoqProject ===== *)
-Q . S2P
Prelude.v
RustStr.v
RustPath.v
Types.v
RustNet.v
Env.v
Demo.v
Supervisor.v
Contract.v
KeyManagement.v
Config.v
Capabilities.v
Ca.v
Brokerage.v
MqttClient.v
CloudGateway.v
GatewayMqtt.v
Handshake.v
Proxy.v
CaSchema.v
Peer.v
Gateway.v
Tasks.v
Services.v
ServiceLaws.v
Registry.v
MessageLoop.v
Broadcast.v
System.v
App.v
Main.v
