(* ===== verification/Prelude.v ===== *)
(** * Hamlet: a verification development of the PlaceNet node

    This library models the Rust program under src/src and proves what makes it
    correct.  A Hamlet node is one process.  It runs a local MQTT broker (mosquitto, a child
    process) and an MQTT client of it; listens for beacons over HTTP(S), signs their
    certificates with its own CA and hands them their MQTT topics; announces its URL to
    them with a token derived from a rotating key; connects to the gateways they
    advertise; and keeps a connection of its own to a cloud gateway.

    ** The parts and how they interact

    - [RustStr], [RustPath], [RustNet]: the functions of Rust's standard library the
      program uses (string slicing, integer and IP address parsing, paths, UTF-8),
      as executable functions.
    - [Types]: the data the components exchange, with the source's constructors
      (services/mod.rs, mqtt_client/internals/types.rs,
      beacon_management/internals/types.rs, cloud_gateway/messages.rs,
      gateway_mqtt/protocol.rs).
    - [Env]: the outside world and the monad.  [Prog S A] is a program on the state [S].
      What is not under src/ is either a function of the class [Ext] (serde, rcgen's
      parsers, HMAC, ...) or a [Call], answered by an arbitrary oracle that also sees
      how many calls came before; each call is recorded in the trace.  So every theorem
      holds for any behaviour of files, clock, random numbers, database driver, network
      and peers, unless it says otherwise.  [silent], [stateless] and [steady] are the
      program logics used throughout: what a program adds to the trace, whether it
      changes the state, and that it only ever moves the world forward.
    - [Demo]: one concrete world, used only to compute the witnesses and examples.
    - [Supervisor] (supervisor.rs): the trait [ManagedService] as a class, the command
      handlers, the command loop [serve], the shutdown.  Contract: the automaton
      [lifecycle].
    - [Contract]: what the supervisor and its services promise each other, the class
      [LawfulService]; the theorems about the supervisor that need the promise.
      [ServiceLaws]: the instances for the five services and the boxed one.
    - [Config] (config.rs): the configuration as a function of the environment
      variables, and the mosquitto configuration file.
    - [Capabilities] (services/capabilities.rs): the binaries found on the host.
    - [Ca] (infra/ca): the CA and its SQLite tables.  Contract: [CaSpec] and
      [spec_step].  [CaSchema]: the types of the stored rows.
    - [KeyManagement] (beacon_management/key_management.rs): the table of broadcast keys,
      rotation, tokens.
    - [Brokerage] (mqtt_brokerage): broker certificates, users, the child process.
    - [MqttClient] (mqtt_client): the handle, the event-loop and command tasks, the
      connection options, the managed service.
    - [CloudGateway] (cloud_gateway): the WebSocket task and service.
    - [GatewayMqtt] (gateway_mqtt): the login over HTTPS, the connection task, the service.
    - [Handshake] and [Gateway] (beacon_management): request parsing, the handlers, the
      dispatcher and proxy; TLS set-up, the listener as a managed service.  [Proxy]
      (internals/proxy.rs): a whole connection, over the requests hyper reads on it.
    - [Peer] (services/peer): the message one node sends to another.
    - [Tasks]: how the background tasks of the other files end.
    - [Services]: the five concrete services behind the supervisor's trait, and the
      managers' registration and start functions.
    - [Registry] (beacon_management/registry.rs): the beacons known, and the sweep of
      stale ones, which a [select!] may drop at any await.
    - [MessageLoop], [Broadcast], [App] (app.rs): the message loop as a sequence of
      arrivals, one cycle of the broadcasts, the start of the node.  [Main] (main.rs): the
      process.
    - [System]: the listener, the message loop and the broadcasts put together.

    A handshake request goes [Gateway] -> [Proxy] -> [Handshake.dispatch] -> [Ca.sign_csr]; the topics it
    offers (a [TrySendTopic] call) are the [ArrChannel] arrivals of [MessageLoop], whose list of
    topics is what a cycle of [Broadcast] publishes to, through the handle and command
    task of [MqttClient].  [App.initialize] registers the services of [Services] on the
    [Supervisor] and starts them.

    ** What the theorems show

    - Lifecycles: every command moves one service along [lifecycle] and is answered
      (process_refines_lifecycle, serve_replies_and_invariant, unavailable_forever,
      spawn_stops_every_service); over lawful services the statuses tell the truth and
      nothing is left up at the end (status_tells_truth, spawn_leaves_nothing_up); three
      services can only ever be started once (one_shot_services_never_restart); starting
      the node and the process (initialize_outcome, main_outcome); the listener
      (gateway_start_opens_listener) and the broker process (mosquitto_stop_ends_child);
      every background task ends when told to (background_tasks_end).
    - From end to end: broadcasts only go to beacons that have shaken hands
      (announces_only_to_handshaken), and a beacon that is heard of keeps being announced
      to (heard_beacon_is_announced).
    - Beacons: one connection per gateway at any time and never to the node itself
      (open_connections_invariant), when a message opens one (message_connects_when_new),
      which topics are published to (beacon_topics_published), what a complete and a
      dropped sweep do (check_timeouts_complete, check_timeouts_is_swept,
      check_timeouts_interrupted), and a
      gateway the program loses for good (unstored_connection_loses_gateway).
    - Broadcasts and keys: what a cycle publishes and how long it waits
      (broadcast_cycle_announces, broadcast_cycle_waits); the key table's invariant,
      rotation, expiry, the over-the-air fields and the tolerated clock drift.
    - Certificates: the CA refines its contract; the node's identity and the CA's key are
      stable; revocation lasts until the device enrols again; the broker's certificate
      is the one the CA signed for its addresses; the database stays well typed
      (operations_keep_db_typed).
    - Requests and connections: validation, routing and outcome of the handshake; whole
      connections (connection_outcome); messages between nodes (send_message_attempts,
      peer_message_is_forwarded); login URLs, the TLS of the login and the ways it can
      end (login_outcome); credentials and back-off of the two gateway tasks; the MQTT
      tasks.
    - Configuration: bounds of every numeric setting, the addresses of the broker's
      certificate read back (parse_san_ips_padded), the broker file always demands
      authentication, and exactly when the node's own client matches its broker.

    ** Conventions and bounds

    Integers are [Z] with the wrap-around of the width written out where an operation can
    leave it ([wrap_i64], [wrap_u64]); parsers check the width (u16, u32).  Strings are
    their UTF-8 bytes.  No fuel is used: loops over data recurse on it, and the
    endless tasks are run on the list of what their [select!]s deliver, of any length,
    so that a theorem about all lists is one about every moment of the run.  A hash map
    whose order matters is iterated in an order given as an argument.

    ** What is not modelled

    Logging, except for the line a connection ends with; the bodies of HTTP, TLS, WebSocket
    and MQTT protocol exchanges (third-party crates): hyper reads the requests of a
    connection and the models take them as an argument.  The handles' plumbing (cloning a
    sender).  rendering (empty) and lib.rs (module declarations).  Connections are served
    one after the other: requests of different connections may interleave in the program
    at their awaits, and only single SQL statements are atomic there.  Time passes only
    through the clock calls: an await that never returns is outside the model, and so is
    the lock that makes the message loop wait while a broadcast cycle sleeps. *)

From Stdlib Require Import ZArith Lia.
From stdpp Require Export base tactics list gmap strings fin_maps.

#[global] Set Default Goal Selector "!".
#[global] Set Warnings "-clear-no-such-hyp".

(** ** Results

    Rust's [Result<A, E>].  The program's error type is [String] almost
    everywhere. *)
Inductive result (A E : Type) : Type :=
| Ok (a : A)
| Err (e : E).
Arguments Ok {_ _} _.
Arguments Err {_ _} _.

#[export] Instance result_eq_dec `{EqDecision A, EqDecision E} : EqDecision (result A E).
Proof. solve_decision. Defined.

#[export] Instance result_ret E : MRet (fun A => result A E) := fun A a => Ok a.
#[export] Instance result_bind E : MBind (fun A => result A E) :=
  fun A B f r => match r with Ok a => f a | Err e => Err e end.
#[export] Instance result_fmap E : FMap (fun A => result A E) :=
  fun A B f r => match r with Ok a => Ok (f a) | Err e => Err e end.

Section Result.
Context {A E : Type}.

Definition is_ok (r : result A E) : bool :=
  match r with Ok _ => true | Err _ => false end.

Definition map_err {F : Type} (f : E -> F) (r : result A E) : result A F :=
  match r with Ok a => Ok a | Err e => Err (f e) end.

Definition ok_or (e : E) (o : option A) : result A E :=
  match o with Some a => Ok a | None => Err e end.

Lemma is_ok_true (r : result A E) : is_ok r = true <-> exists a, r = Ok a.
Proof. destruct r; naive_solver. Qed.

Lemma map_err_ok {F} (f : E -> F) (r : result A E) a : map_err f r = Ok a <-> r = Ok a.
Proof. destruct r; naive_solver. Qed.

Lemma ok_or_ok (e : E) (o : option A) a : ok_or e o = Ok a <-> o = Some a.
Proof. destruct o; naive_solver. Qed.
End Result.

(** ** Lists *)
Section Lists.
Context {A : Type}.
Implicit Types l : list A.

(** Filtering first can only lower a count. *)
Lemma filter_filter_length (P Q : A -> Prop)
    `{!forall x, Decision (P x)} `{!forall x, Decision (Q x)} l :
  (length (filter P (filter Q l)) <= length (filter P l))%nat.
Proof.
  induction l as [|x l IH]; [done|].
  destruct (decide (Q x)).
  - rewrite (filter_cons_True Q) by done.
    destruct (decide (P x)); rewrite ?filter_cons_True, ?filter_cons_False by done; cbn; lia.
  - rewrite (filter_cons_False Q) by done.
    destruct (decide (P x)); rewrite ?filter_cons_True, ?filter_cons_False by done; cbn; lia.
Qed.

Lemma list_filter_true (P : A -> Prop) `{!forall x, Decision (P x)} l :
  (forall x, x ∈ l -> P x) -> filter P l = l.
Proof.
  induction l as [|x l IH]; intros Hall; [done|].
  rewrite filter_cons_True by (apply Hall; by left). f_equal. apply IH. intros y Hy. apply Hall. by right.
Qed.
End Lists.
