(* ===== verification/RustStr.v ===== *)
(** * RustStr: the part of Rust's [str] and integer-parsing API the program uses

    A [&str] / [String] is its sequence of UTF-8 bytes, a Rocq [string].  Each
    function is named after the standard-library method it models and is
    executable; the lemmas below are the algebra the components need. *)

From Stdlib Require Import ZArith Lia Ascii.
From Stdlib Require Import Init.Byte.
From stdpp Require Import base list strings pretty numbers.
From S2P Require Import Prelude.

#[local] Arguments String.append !_ _ : simpl nomatch.

(** ** Searching and splitting *)

(** [s.starts_with(p)] *)
Fixpoint starts_with (p s : string) : bool :=
  match p, s with
  | "", _ => true
  | String a p', String b s' => if decide (a = b) then starts_with p' s' else false
  | String _ _, "" => false
  end.

(** [s.strip_prefix(p)] *)
Fixpoint strip_prefix (p s : string) : option string :=
  match p, s with
  | "", _ => Some s
  | String a p', String b s' => if decide (a = b) then strip_prefix p' s' else None
  | String _ _, "" => None
  end.

(** [s.strip_suffix(x)] *)
Fixpoint strip_suffix (x s : string) : option string :=
  if decide (s = x) then Some ""
  else match s with
       | "" => None
       | String a s' => String a <$> strip_suffix x s'
       end.

(** [s.ends_with(x)] *)
Definition ends_with (x s : string) : bool :=
  match strip_suffix x s with Some _ => true | None => false end.

(** [s.split_once(pat)] for a string pattern: around the first occurrence. *)
Fixpoint split_once (pat s : string) : option (string * string) :=
  match strip_prefix pat s with
  | Some r => Some ("", r)
  | None => match s with
            | "" => None
            | String a s' => '(l, r) ← split_once pat s'; Some (String a l, r)
            end
  end.

(** [s.rsplit_once(c)] for a character: around the last occurrence. *)
Fixpoint rsplit_once (c : ascii) (s : string) : option (string * string) :=
  match s with
  | "" => None
  | String a s' =>
      match rsplit_once c s' with
      | Some (l, r) => Some (String a l, r)
      | None => if decide (a = c) then Some ("", s') else None
      end
  end.

(** [match s.find(c) { Some(i) => (&s[..i], Some(&s[i..])), None => (s, None) }]:
    the text before the first [c], and the text from it on. *)
Fixpoint split_at_find (c : ascii) (s : string) : string * option string :=
  match s with
  | "" => ("", None)
  | String a s' =>
      if decide (a = c) then ("", Some s)
      else let '(l, r) := split_at_find c s' in (String a l, r)
  end.

(** [s.split(c)] collected. *)
Fixpoint split_char (c : ascii) (s : string) : list string :=
  match s with
  | "" => [""]
  | String a s' =>
      if decide (a = c) then "" :: split_char c s'
      else match split_char c s' with
           | w :: ws => String a w :: ws
           | [] => [String a ""]
           end
  end.

(** [s.replacen(pat, new, 1)] *)
Definition replacen1 (pat new s : string) : string :=
  match split_once pat s with
  | Some (l, r) => l +:+ new +:+ r
  | None => s
  end.

(** [s.contains(c)] *)
Fixpoint contains_char (c : ascii) (s : string) : bool :=
  match s with
  | "" => false
  | String a s' => if decide (a = c) then true else contains_char c s'
  end.

(** [s.contains(pat)] *)
Fixpoint contains_str (pat s : string) : bool :=
  starts_with pat s ||
  match s with
  | "" => false
  | String _ s => contains_str pat s
  end.

(** ** Trimming *)

(** [s.trim_end_matches(c)] *)
Fixpoint trim_end_matches (c : ascii) (s : string) : string :=
  match s with
  | "" => ""
  | String a s' =>
      match trim_end_matches c s' with
      | "" => if decide (a = c) then "" else String a ""
      | t => String a t
      end
  end.

Definition byte_is (n : nat) (a : ascii) : bool := bool_decide (nat_of_ascii a = n).

Definition byte_in (lo hi : nat) (a : ascii) : bool :=
  bool_decide (lo <= nat_of_ascii a <= hi).

(** [char::is_whitespace] on UTF-8: the Unicode [White_Space] characters of one
    byte (U+0009-000D, U+0020), of two (U+0085, U+00A0) and of three (U+1680,
    U+2000-200A, U+2028, U+2029, U+202F, U+205F, U+3000). *)
Definition ws1 (a : ascii) : bool := byte_in 9 13 a || byte_is 32 a.
Definition ws2 (a b : ascii) : bool := byte_is 194 a && (byte_is 133 b || byte_is 160 b).
Definition ws3 (a b c : ascii) : bool :=
  (byte_is 225 a && byte_is 154 b && byte_is 128 c)
  || (byte_is 226 a && byte_is 128 b
      && (byte_in 128 138 c || byte_is 168 c || byte_is 169 c || byte_is 175 c))
  || (byte_is 226 a && byte_is 129 b && byte_is 159 c)
  || (byte_is 227 a && byte_is 128 b && byte_is 128 c).

(** [s.trim_start()] *)
Fixpoint trim_start (s : string) : string :=
  match s with
  | String a s1 =>
      if ws1 a then trim_start s1
      else match s1 with
           | String b s2 =>
               if ws2 a b then trim_start s2
               else match s2 with
                    | String c s3 => if ws3 a b c then trim_start s3 else s
                    | "" => s
                    end
           | "" => s
           end
  | "" => ""
  end.

Definition all_whitespace (s : string) : bool := bool_decide (trim_start s = "").

(** [s.trim_end()] *)
Fixpoint trim_end (s : string) : string :=
  if all_whitespace s then ""
  else match s with
       | "" => ""
       | String a s' => String a (trim_end s')
       end.

(** [s.trim()] *)
Definition trim (s : string) : string := trim_end (trim_start s).

(** [text.lines().next()]: the first line, without its ["\n"] or ["\r\n"]. *)
Definition lines_next (s : string) : option string :=
  match s with
  | "" => None
  | _ =>
      let '(l, r) := split_at_find (ascii_of_nat 10) s in
      Some (match r with
            | Some _ => match rsplit_once (ascii_of_nat 13) l with
                        | Some (l', "") => l'
                        | _ => l
                        end
            | None => l
            end)
  end.

(** ** ASCII case *)

Definition ascii_lower (a : ascii) : ascii :=
  if byte_in 65 90 a then ascii_of_nat (nat_of_ascii a + 32) else a.

(** [s.eq_ignore_ascii_case(t)] *)
Fixpoint eq_ignore_ascii_case (s t : string) : bool :=
  match s, t with
  | "", "" => true
  | String a s', String b t' =>
      if decide (ascii_lower a = ascii_lower b) then eq_ignore_ascii_case s' t' else false
  | _, _ => false
  end.

(** ** Integers *)

(** Largest values of the unsigned types the program parses. *)
Definition u16_max : Z := 65535.
Definition u32_max : Z := 4294967295.

Definition digit_val (a : ascii) : option Z :=
  let n := nat_of_ascii a in
  if decide (48 <= n <= 57)%nat then Some (Z.of_nat n - 48)%Z else None.

Fixpoint digits_val (acc : Z) (s : string) : option Z :=
  match s with
  | "" => Some acc
  | String a s' => d ← digit_val a; digits_val (acc * 10 + d)%Z s'
  end.

(** [s.parse::<uN>().ok()] for the unsigned type whose maximum is [max]: an
    optional ['+'], then one or more ASCII digits, and no overflow.  Rust stops
    at the first digit that overflows; the value only grows from there, so
    comparing the final value gives the same answer. *)
Definition parse_uint (max : Z) (s : string) : option Z :=
  let body := match s with
              | String a s' => if decide (a = "+"%char) then s' else s
              | "" => ""
              end in
  match body with
  | "" => None
  | _ => n ← digits_val 0 body; if decide (n <= max)%Z then Some n else None
  end.

(** [format!("{}", n)] of an unsigned integer. *)
Definition display (n : Z) : string := pretty n.

(** ** Laws of [+:+] and of the searching functions *)

Lemma app_str_assoc (a b c : string) : (a +:+ b) +:+ c = a +:+ (b +:+ c).
Proof. induction a as [|x a IH]; [done|]. cbn. by rewrite IH. Qed.

Lemma app_str_nil_r (a : string) : a +:+ "" = a.
Proof. induction a as [|x a IH]; [done|]. cbn. by rewrite IH. Qed.

Lemma app_str_cons (x : ascii) (a b : string) : String x a +:+ b = String x (a +:+ b).
Proof. done. Qed.

Lemma app_str_inj_l (a b c : string) : a +:+ b = a +:+ c -> b = c.
Proof. induction a as [|x a IH]; [done|]. cbn. intros [= H]. auto. Qed.

Lemma app_str_length (a b : string) :
  String.length (a +:+ b) = (String.length a + String.length b)%nat.
Proof. induction a as [|x a IH]; [done|]. cbn. by rewrite IH. Qed.

Lemma app_str_inj_r (a b c : string) : a +:+ c = b +:+ c -> a = b.
Proof.
  revert b. induction a as [|x a IH]; intros [|y b] H; [done| | |].
  - apply (f_equal String.length) in H. rewrite app_str_length in H. cbn in H.
    rewrite app_str_length in H. lia.
  - apply (f_equal String.length) in H. cbn in H. rewrite app_str_length in H. lia.
  - cbn in H. injection H as -> H. f_equal. auto.
Qed.

Lemma starts_with_spec (p s : string) : starts_with p s = true <-> exists r, s = p +:+ r.
Proof.
  revert s. induction p as [|a p IH]; intros s; cbn; [naive_solver|].
  destruct s as [|b s]; [naive_solver|]. case_decide; subst.
  - rewrite IH. naive_solver.
  - split; [done|]. intros [r [= ]]. congruence.
Qed.

Lemma strip_prefix_spec (p s r : string) : strip_prefix p s = Some r <-> s = p +:+ r.
Proof.
  revert s. induction p as [|a p IH]; intros s; cbn; [naive_solver|].
  destruct s as [|b s]; [naive_solver|]. case_decide; subst.
  - rewrite IH. naive_solver.
  - split; [done|]. intros [= ]. congruence.
Qed.

Lemma strip_suffix_spec (x s r : string) : strip_suffix x s = Some r <-> s = r +:+ x.
Proof.
  revert r. induction s as [|a s IH]; intros r; cbn; case_decide as Hd.
  - subst. split; [naive_solver|]. destruct r; [done|]. cbn. naive_solver.
  - split; [done|]. destruct r; cbn; naive_solver.
  - subst. split; [naive_solver|]. intros H. f_equal.
    symmetry. apply (app_str_inj_r _ _ (String a s)). by rewrite <- H.
  - split.
    + intros (t & Ht & ->)%fmap_Some. apply IH in Ht as ->. done.
    + destruct r as [|b r]; cbn; [naive_solver|]. intros [= <- H].
      apply IH in H. by rewrite H.
Qed.

Lemma strip_suffix_app (x r : string) : strip_suffix x (r +:+ x) = Some r.
Proof. by apply strip_suffix_spec. Qed.

Lemma ends_with_spec (x s : string) : ends_with x s = true <-> exists r, s = r +:+ x.
Proof.
  unfold ends_with. destruct (strip_suffix x s) as [r|] eqn:E.
  - apply strip_suffix_spec in E. naive_solver.
  - split; [done|]. intros [r Hr]. apply strip_suffix_spec in Hr. congruence.
Qed.

Lemma contains_char_app c (s t : string) :
  contains_char c (s +:+ t) = contains_char c s || contains_char c t.
Proof. induction s as [|a s IH]; [done|]. cbn. case_decide; [done|]. apply IH. Qed.

Lemma split_once_app (a : ascii) (pat l r : string) :
  contains_char a l = false ->
  split_once (String a pat) (l +:+ String a pat +:+ r) = Some (l, r).
Proof.
  induction l as [|x l IH]; intros Hl.
  - cbn. destruct (decide (a = a)); [|done].
    by rewrite (proj2 (strip_prefix_spec pat (pat +:+ r) r) eq_refl).
  - cbn in *. case_decide; [done|]. destruct (decide (a = x)); [congruence|].
    specialize (IH Hl). cbn in IH. by rewrite IH.
Qed.

Lemma rsplit_once_None c (s : string) : rsplit_once c s = None <-> contains_char c s = false.
Proof.
  induction s as [|a s IH]; [done|]. cbn.
  destruct (rsplit_once c s) as [[l r]|] eqn:E; case_decide; naive_solver.
Qed.

Lemma rsplit_once_app c (l r : string) :
  contains_char c r = false -> rsplit_once c (l +:+ String c r) = Some (l, r).
Proof.
  intros Hr%rsplit_once_None. induction l as [|a l IH]; cbn.
  - rewrite Hr. by destruct (decide (c = c)).
  - by rewrite IH.
Qed.

Lemma split_at_find_app c (l r : string) :
  contains_char c l = false ->
  split_at_find c (l +:+ String c r) = (l, Some (String c r)).
Proof.
  induction l as [|a l IH]; cbn; intros Hl.
  - by destruct (decide (c = c)).
  - case_decide; [done|]. by rewrite IH.
Qed.

Lemma split_at_find_None c (l : string) :
  contains_char c l = false -> split_at_find c l = (l, None).
Proof.
  induction l as [|a l IH]; cbn; intros Hl; [done|].
  case_decide; [done|]. by rewrite IH.
Qed.

Fixpoint str_repeat (c : ascii) (n : nat) : string :=
  match n with O => "" | S n => String c (str_repeat c n) end.

Lemma str_repeat_snoc c n : str_repeat c (S n) = str_repeat c n +:+ String c "".
Proof. induction n as [|n IH]; [done|]. cbn in *. by rewrite IH at 1. Qed.

(** [trim_end_matches] removes exactly a run of [c] at the end. *)
Lemma trim_end_matches_app c (s : string) :
  exists n, s = trim_end_matches c s +:+ str_repeat c n.
Proof.
  induction s as [|a s [n IH]]; [by exists 0%nat|]. cbn.
  destruct (trim_end_matches c s) as [|b t] eqn:E.
  - case_decide as Ha.
    + exists (S n). cbn in *. by rewrite <- IH, Ha.
    + exists n. cbn in *. by rewrite <- IH.
  - exists n. cbn in *. by rewrite <- IH.
Qed.

Lemma trim_end_matches_last c (s r : string) : trim_end_matches c s <> r +:+ String c "".
Proof.
  revert r. induction s as [|a s IH]; intros r; cbn; [by destruct r|].
  destruct (trim_end_matches c s) as [|b t] eqn:E.
  - case_decide as Ha; [by destruct r|].
    destruct r as [|x r]; cbn; intros [= ]; [congruence|]. by destruct r.
  - destruct r as [|x r]; cbn; [intros [= ]|]. intros [= _ H]. by apply (IH r).
Qed.

Lemma trim_end_matches_id c (s : string) :
  ends_with (String c "") s = false -> trim_end_matches c s = s.
Proof.
  intros Hs. destruct (trim_end_matches_app c s) as [[|n] Hn].
  - by rewrite app_str_nil_r in Hn.
  - exfalso. apply not_true_iff_false in Hs. apply Hs, ends_with_spec.
    rewrite str_repeat_snoc, <- app_str_assoc in Hn. eauto.
Qed.

Lemma trim_end_matches_repeat c (s : string) n :
  trim_end_matches c (s +:+ str_repeat c n) = trim_end_matches c s.
Proof.
  induction s as [|a s IH]; cbn.
  - induction n as [|n IH]; [done|]. cbn. rewrite IH. by rewrite decide_True.
  - by rewrite IH.
Qed.

(** The end of a concatenation is the end of its last part, if that is not empty. *)
Lemma ends_with_app c (p s : string) :
  s <> "" -> ends_with (String c "") s = false -> ends_with (String c "") (p +:+ s) = false.
Proof.
  intros Hs Hn. apply not_true_iff_false. intros [r Hr]%ends_with_spec.
  apply not_true_iff_false in Hn. apply Hn, ends_with_spec.
  revert r Hr. induction p as [|a p IH]; intros r Hr; [by exists r|]. cbn in Hr.
  destruct r as [|b r]; cbn in Hr; injection Hr as _ Hr.
  - by destruct p, s.
  - by apply (IH r).
Qed.

(** ** Parsing what was displayed *)

Lemma digit_val_char (d : N) :
  (d < 10)%N -> digit_val (pretty_N_char d) = Some (Z.of_N d).
Proof. intros H. destruct d as [|p]; [done|]. repeat (destruct p as [p|p|]; try done; try lia). Qed.

Lemma digits_val_go (n : N) (s : string) :
  digits_val 0 (pretty_N_go n s) = digits_val (Z.of_N n) s.
Proof.
  revert s. induction (N.lt_wf_0 n) as [n _ IH]; intros s.
  destruct (decide (n = 0)%N) as [->|Hn]; [done|].
  assert (Hdiv : (n `div` 10 < n)%N) by (apply N.div_lt; lia).
  assert (Hmod : (n `mod` 10 < 10)%N) by (apply N.mod_lt; lia).
  rewrite pretty_N_go_step by lia. rewrite (IH _ Hdiv).
  cbn [digits_val]. rewrite digit_val_char by done. cbn [mbind option_bind]. f_equal.
  rewrite N2Z.inj_div, N2Z.inj_mod. pose proof (Z.div_mod (Z.of_N n) 10). lia.
Qed.

Lemma pretty_N_go_cons (n : N) (s : string) :
  (0 < n)%N -> exists d t, pretty_N_go n s = String d t /\ is_Some (digit_val d).
Proof.
  revert s. induction (N.lt_wf_0 n) as [n _ IH]; intros s Hn.
  assert (Hdiv : (n `div` 10 < n)%N) by (apply N.div_lt; lia).
  assert (Hmod : (n `mod` 10 < 10)%N) by (apply N.mod_lt; lia).
  rewrite pretty_N_go_step by lia.
  destruct (decide (n `div` 10 = 0)%N) as [E|E].
  - rewrite E, pretty_N_go_0. do 2 eexists. split; [done|]. by rewrite digit_val_char.
  - apply IH; [done|]. by apply N.neq_0_lt_0.
Qed.

Lemma display_of_N (n : N) : display (Z.of_N n) = pretty n.
Proof. by destruct n. Qed.

Lemma digits_val_display (n : Z) : (0 <= n)%Z -> digits_val 0 (display n) = Some n.
Proof.
  intros Hn. rewrite <- (Z2N.id n) by done. rewrite display_of_N.
  unfold pretty, pretty_N. case_decide as E; [by rewrite E|]. apply digits_val_go.
Qed.

Lemma display_cons (n : Z) :
  (0 <= n)%Z -> exists d t, display n = String d t /\ is_Some (digit_val d).
Proof.
  intros Hn. rewrite <- (Z2N.id n) by done. rewrite display_of_N.
  unfold pretty, pretty_N. case_decide as E; [by do 2 eexists|].
  apply pretty_N_go_cons. lia.
Qed.

(** Round trip: parsing the decimal display of a value of the type gives it back. *)
Lemma parse_uint_display (max n : Z) :
  (0 <= n <= max)%Z -> parse_uint max (display n) = Some n.
Proof.
  intros [H0 Hm]. unfold parse_uint.
  destruct (display_cons n H0) as (d & t & E & Hd).
  pose proof (digits_val_display n H0) as Hv. rewrite E in *.
  destruct (decide (d = "+"%char)) as [->|_]; [by destruct Hd|].
  rewrite Hv. cbn. by rewrite decide_True.
Qed.

Lemma digits_val_nonneg (s : string) (acc n : Z) :
  (0 <= acc)%Z -> digits_val acc s = Some n -> (0 <= n)%Z.
Proof.
  revert acc. induction s as [|a s IH]; cbn; intros acc Ha; [naive_solver|].
  unfold digit_val at 1. case_decide; cbn; [|done]. apply IH. lia.
Qed.

Lemma parse_uint_bounds (max n : Z) (s : string) : parse_uint max s = Some n -> (0 <= n <= max)%Z.
Proof.
  unfold parse_uint. set (body := match s with "" => "" | _ => _ end).
  destruct body as [|a t]; [done|].
  intros (m & Hm & Hd)%bind_Some. case_decide; simplify_eq.
  apply digits_val_nonneg in Hm; lia.
Qed.

(** The digits of a display: no other character occurs in it. *)
Fixpoint all_digits (s : string) : bool :=
  match s with
  | "" => true
  | String a s' => match digit_val a with Some _ => all_digits s' | None => false end
  end.

Lemma digits_val_all (s : string) (acc n : Z) : digits_val acc s = Some n -> all_digits s = true.
Proof.
  revert acc. induction s as [|a s IH]; cbn; intros acc; [done|].
  destruct (digit_val a); cbn; [eauto|done].
Qed.

Lemma all_digits_contains c (s : string) :
  digit_val c = None -> all_digits s = true -> contains_char c s = false.
Proof.
  intros Hc. induction s as [|a s IH]; cbn; [done|].
  destruct (digit_val a) eqn:E; [|done]. case_decide; [congruence|]. done.
Qed.

Lemma display_contains c (n : Z) :
  (0 <= n)%Z -> digit_val c = None -> contains_char c (display n) = false.
Proof.
  intros Hn Hc. apply all_digits_contains; [done|].
  eapply digits_val_all, digits_val_display, Hn.
Qed.

(** ** [String::from_utf8_lossy]

    Well-formed sequences are kept; each maximal prefix of a sequence that is not
    well-formed becomes U+FFFD (bytes EF BF BD), as [core::str::lossy] does. *)

Definition in_range (lo hi : nat) (b : byte) : bool := bool_decide (lo <= Byte.to_nat b <= hi)%nat.

Definition continuation (b : byte) : bool := in_range 128 191 b.

(** The second byte a lead byte of three or of four admits. *)
Definition second_of_3 (a b : byte) : bool :=
  (in_range 224 224 a && in_range 160 191 b) || (in_range 225 236 a && in_range 128 191 b)
  || (in_range 237 237 a && in_range 128 159 b) || (in_range 238 239 a && in_range 128 191 b).
Definition second_of_4 (a b : byte) : bool :=
  (in_range 240 240 a && in_range 144 191 b) || (in_range 241 243 a && in_range 128 191 b)
  || (in_range 244 244 a && in_range 128 143 b).

Definition replacement : list byte := [xef; xbf; xbd].

Fixpoint lossy (l : list byte) : list byte :=
  match l with
  | [] => []
  | a :: r1 =>
      if in_range 0 127 a then a :: lossy r1
      else if in_range 194 223 a then
        match r1 with
        | b :: r2 => if continuation b then a :: b :: lossy r2 else replacement ++ lossy r1
        | [] => replacement
        end
      else if in_range 224 239 a then
        match r1 with
        | b :: r2 =>
            if second_of_3 a b then
              match r2 with
              | c :: r3 => if continuation c then a :: b :: c :: lossy r3 else replacement ++ lossy r2
              | [] => replacement
              end
            else replacement ++ lossy r1
        | [] => replacement
        end
      else if in_range 240 244 a then
        match r1 with
        | b :: r2 =>
            if second_of_4 a b then
              match r2 with
              | c :: r3 =>
                  if continuation c then
                    match r3 with
                    | d :: r4 =>
                        if continuation d then a :: b :: c :: d :: lossy r4 else replacement ++ lossy r3
                    | [] => replacement
                    end
                  else replacement ++ lossy r2
              | [] => replacement
              end
            else replacement ++ lossy r1
        | [] => replacement
        end
      else replacement ++ lossy r1
  end.

Definition from_utf8_lossy (l : list byte) : string := String.string_of_list_byte (lossy l).

(** ASCII text is unchanged. *)
Lemma lossy_ascii l : forallb (in_range 0 127) l = true -> lossy l = l.
Proof.
  induction l as [|a l IH]; [done|]. cbn [forallb lossy]. intros [Ha Hl]%andb_prop.
  rewrite Ha. by rewrite IH.
Qed.

Example lossy_ex : lossy [x68; xff; xe2; x82; x69; xe2; x82; xac]
  = [x68] ++ replacement ++ replacement ++ [x69; xe2; x82; xac].
Proof. reflexivity. Qed.
