(* ===== verification/RustPath.v ===== *)
(** * RustPath: the part of [std::path] (on Unix) the program uses

    A [PathBuf] is its text.  [join] is [Path::join], [parent] is
    [Path::parent] (a prefix of the text, the components ["."] and the empty
    ones skipped as [Components] does), [is_absolute] is [Path::is_absolute]. *)

From Stdlib Require Import ZArith Lia Ascii.
From stdpp Require Import base list strings.
From S2P Require Import Prelude RustStr.

#[local] Arguments String.append !_ _ : simpl nomatch.

Definition sep : ascii := "/"%char.

Definition is_absolute (p : string) : bool := starts_with "/" p.

(** [base.join(p)]: an absolute [p] replaces [base]; otherwise a separator is
    added unless [base] is empty or already ends with one. *)
Definition join (base p : string) : string :=
  if is_absolute p then p
  else if decide (base = "") then p
  else if ends_with "/" base then base +:+ p
  else base +:+ "/" +:+ p.

Fixpoint intercalate (segs : list string) : string :=
  match segs with
  | [] => ""
  | [x] => x
  | x :: rest => x +:+ String sep (intercalate rest)
  end.

Definition trivial_segment (x : string) : bool := bool_decide (x = "" \/ x = ".").

(** Drop the empty and ["."] components at the end of [segs] (a reversed list of
    components); [keep_dot] says the last one standing is the first component
    of a relative path, where ["."] counts. *)
Fixpoint drop_trivial (keep_dot : bool) (rsegs : list string) : list string :=
  match rsegs with
  | [] => []
  | [x] => if decide (x = "") then []
           else if trivial_segment x && negb keep_dot then [] else [x]
  | x :: rest => if trivial_segment x then drop_trivial keep_dot rest else rsegs
  end.

(** [p.parent()] *)
Definition parent (p : string) : option string :=
  let abs := is_absolute p in
  let body := if abs then split_char sep (String.substring 1 (String.length p - 1) p)
              else split_char sep p in
  match drop_trivial (negb abs) (reverse body) with
  | [] => None
  | _ :: rest =>
      let txt := intercalate (reverse (drop_trivial (negb abs) rest)) in
      Some (if abs then String sep txt else txt)
  end.

Example parent_ex1 : parent "/a/b/c.txt" = Some "/a/b". Proof. reflexivity. Qed.
Example parent_ex2 : parent "foo" = Some "". Proof. reflexivity. Qed.
Example parent_ex3 : parent "/" = None. Proof. reflexivity. Qed.
Example parent_ex4 : parent "/a//b/./c/" = Some "/a//b". Proof. reflexivity. Qed.
Example parent_ex5 : parent "./x" = Some ".". Proof. reflexivity. Qed.

(** ** Laws *)

Lemma join_absolute (base p : string) : is_absolute p = true -> join base p = p.
Proof. unfold join. by intros ->. Qed.

Lemma join_relative (base p : string) :
  is_absolute p = false -> base <> "" -> ends_with "/" base = false ->
  join base p = base +:+ "/" +:+ p.
Proof. unfold join. intros -> Hb ->. by rewrite decide_False. Qed.

Lemma split_char_app c (a b : string) :
  split_char c (a +:+ String c b) = split_char c a ++ split_char c b.
Proof.
  induction a as [|x a IH]; cbn.
  - by rewrite decide_True.
  - case_decide; [by rewrite IH|]. rewrite IH.
    destruct (split_char c a) as [|w ws] eqn:E; [|done].
    exfalso. clear -E. destruct a as [|y a]; cbn in E; [done|].
    case_decide; [done|]. by destruct (split_char c a).
Qed.

Lemma split_char_none c (a : string) : contains_char c a = false -> split_char c a = [a].
Proof.
  induction a as [|x a IH]; cbn; [done|]. case_decide; [done|]. intros Ha. by rewrite IH.
Qed.

Lemma split_char_cons c (a : string) : exists w ws, split_char c a = w :: ws.
Proof.
  destruct a as [|y a]; cbn; [eauto|]. case_decide; [eauto|].
  destruct (split_char c a); eauto.
Qed.

Lemma intercalate_split (a : string) : intercalate (split_char sep a) = a.
Proof.
  induction a as [|x a IH]; cbn; [done|].
  destruct (split_char_cons sep a) as (w & ws & E). case_decide.
  - subst x. rewrite E in *. cbn. by rewrite <- IH.
  - rewrite E in *. cbn in *. destruct ws; cbn in *; by rewrite <- IH.
Qed.

Lemma drop_trivial_keep kd x rest :
  trivial_segment x = false -> drop_trivial kd (x :: rest) = x :: rest.
Proof.
  intros H. destruct rest as [|y rest]; cbn; rewrite H; [|done].
  case_decide; [by subst|done].
Qed.

(** A plain file or directory name: one component, not skipped by [Components]. *)
Definition plain_name (x : string) : bool :=
  negb (contains_char sep x) && negb (trivial_segment x).

Lemma plain_name_spec x :
  plain_name x = true -> contains_char sep x = false /\ trivial_segment x = false.
Proof. unfold plain_name. intros [H1 H2]%andb_prop. by rewrite !negb_true_iff in *. Qed.

Lemma substring_all (s : string) : String.substring 0 (String.length s) s = s.
Proof. induction s as [|a s IH]; cbn; [done|]. by rewrite IH. Qed.

(** [p.join(g).join(f).parent() == p.join(g)] for plain names under an absolute path. *)
Lemma parent_plain (q g f : string) :
  plain_name g = true -> plain_name f = true ->
  parent (String sep (q +:+ String sep g) +:+ String sep f)
  = Some (String sep (q +:+ String sep g)).
Proof.
  intros [Hg Hg']%plain_name_spec [Hf Hf']%plain_name_spec. unfold parent, is_absolute.
  change (starts_with "/" _) with true. cbn -[drop_trivial split_char String.substring reverse].
  rewrite Nat.sub_0_r. cbn -[drop_trivial split_char reverse]. rewrite substring_all.
  rewrite !split_char_app, (split_char_none _ f), (split_char_none _ g) by done.
  rewrite !reverse_app. change (reverse [f]) with [f]. change (reverse [g]) with [g].
  cbn [app]. rewrite !drop_trivial_keep by done.
  rewrite reverse_cons, reverse_involutive.
  f_equal. f_equal. rewrite <- (split_char_none sep g) by done.
  rewrite <- split_char_app. apply intercalate_split.
Qed.
