(* ===== verification/Types.v ===== *)
(** * Types: the data the components exchange

    The structs and enums of the program that more than one component reads or
    writes, with the source's constructors and fields (field names carry a short
    prefix, since Rocq's projections share one name space).  A component's
    private state is in its own file. *)

From Stdlib Require Import ZArith.
From Stdlib Require Export Init.Byte.
From stdpp Require Import base list strings vector.
From S2P Require Import Prelude.

(** Bytes on the wire; [Vec<u8>], [Bytes] and [&[u8]] alike. *)
Abbreviation bytes := (list byte).

#[export] Instance byte_eq_dec : EqDecision byte := Byte.byte_eq_dec.

Definition bytes_of_string (s : string) : bytes := String.list_byte_of_string s.

(** ** Services (services/mod.rs) *)

Inductive ServiceId :=
| Gateway
| Mosquitto
| MqttClient
| CloudGateway
| GatewayMqttClient.

#[export] Instance ServiceId_eq_dec : EqDecision ServiceId.
Proof. solve_decision. Defined.

#[export] Instance ServiceId_countable : Countable ServiceId.
Proof.
  refine (inj_countable'
    (fun id => match id with
               | Gateway => 0 | Mosquitto => 1 | MqttClient => 2
               | CloudGateway => 3 | GatewayMqttClient => 4 end)
    (fun n => match n with
              | 0 => Gateway | 1 => Mosquitto | 2 => MqttClient
              | 3 => CloudGateway | _ => GatewayMqttClient end) _).
  by intros [].
Defined.

(** [format!("{:?}", id)] *)
Definition debug_id (id : ServiceId) : string :=
  match id with
  | Gateway => "Gateway"
  | Mosquitto => "Mosquitto"
  | MqttClient => "MqttClient"
  | CloudGateway => "CloudGateway"
  | GatewayMqttClient => "GatewayMqttClient"
  end.

(** ** MQTT (mqtt_client/internals/types.rs) *)

(** [rumqttc::QoS] *)
Inductive QoS := AtMostOnce | AtLeastOnce | ExactlyOnce.

#[export] Instance QoS_eq_dec : EqDecision QoS.
Proof. solve_decision. Defined.

Record MqttMessage := { msg_topic : string; msg_payload : bytes }.

Record TopicSubscription := { sub_topic : string; sub_qos : QoS }.

(** The commands a [MqttClientHandle] sends to the client task.  The reply
    channel each variant carries is not data: the answer read from it is the
    answer to the [CmdReply] call of Env.v. *)
Inductive MqttCommand :=
| Subscribe (topic : string) (qos : QoS)
| Unsubscribe (topic : string)
| Publish (topic : string) (qos : QoS) (payload : bytes).

#[export] Instance MqttCommand_eq_dec : EqDecision MqttCommand.
Proof. solve_decision. Defined.

(** ** Beacon topics and handshake payloads (beacon_management) *)

Record MqttTopicConfig := { tc_topic : string; tc_qos : Z }.

Inductive TopicType := Listen | Broadcast | Hybrid.

Record TopicChannel := {
  ch_beacon_id : string;
  ch_topic : MqttTopicConfig;
  ch_topic_type : TopicType;
}.

Record MdnsConfig := { mdns_hostname : string; mdns_port : Z }.

Record DeviceInfo := {
  dev_address : string;
  dev_mdns : MdnsConfig;
  dev_csr_pem : string;
}.

Record MqttBrokerageInfo := {
  bi_address : string;
  bi_port : Z;
  bi_ca_cert_pem : string;
}.

(** ** Cloud gateway frames (cloud_gateway/messages.rs), over a type of JSON values *)
Inductive GatewayMessage (Value : Type) :=
| Register (server_url : string)
| Connect (target : string)
| ConnectRequest (from : string)
| BeaconRegistration (server_url : string) (payload : Value)
| Relay (from to : string) (payload : Value)
| Ack (ok : bool) (message : option string).
Arguments Register {_} _.
Arguments Connect {_} _.
Arguments ConnectRequest {_} _.
Arguments BeaconRegistration {_} _ _.
Arguments Relay {_} _ _ _.
Arguments Ack {_} _ _.

(** ** Gateway login contract (gateway_mqtt/protocol.rs) *)

Record LoginRequest := { lr_username : string; lr_password : string }.

Record BrokerInfo := { br_host : string; br_port : Z }.

Record DeviceTopics := { dt_cmds : string; dt_connect : string; dt_notify : string }.

Record LoginResponse := {
  lo_protocol_version : string;
  lo_device_id : string;
  lo_mqtt_username : string;
  lo_mqtt_password : string;
  lo_broker : BrokerInfo;
  lo_topics : DeviceTopics;
}.

Inductive Envelope := Alive (device_id : string).

(** ** Certificates

    [std::net::IpAddr] by its octets; [rcgen]'s parameter structs as far as the
    program fills them in. *)

Inductive IpAddr := V4 (octets : vec byte 4) | V6 (octets : vec byte 16).

#[export] Instance IpAddr_eq_dec : EqDecision IpAddr.
Proof. solve_decision. Defined.

(** [sockaddr] of a network interface, by its family; it may also be null. *)
Inductive IfAddr := AfInet (octets : vec byte 4) | AfInet6 (octets : vec byte 16) | AfOther | AfNull.

Inductive KeyUsage := KeyCertSign | CrlSign.
Inductive ExtendedKeyUsage := ServerAuth | ClientAuth.
Inductive SanType := SanIp (ip : IpAddr) | SanDns (name : string).

Record CertParams := {
  cp_is_ca : bool;
  cp_key_usages : list KeyUsage;
  cp_common_name : string;
  cp_organization : string;
  cp_extended_key_usages : list ExtendedKeyUsage;
  cp_subject_alt_names : list SanType;
}.

(** [std::process::Output] *)
Record Output := { out_success : bool; out_stdout : bytes; out_stderr : bytes }.

(** ** HTTP, as far as the handlers look at it

    A request's header names are in lower case, as hyper keeps them; [req_body] is what
    reading the whole body gives.  The request line is passed on, never read. *)

Record HttpRequest := {
  req_line : string;
  req_headers : list (string * bytes);
  req_body : result bytes string;
}.

Record HttpResponse := {
  resp_status : Z;
  resp_content_type : option string;
  resp_body : bytes;
}.

(** [hyper::Uri], as far as a client looks at it. *)
Record Uri := {
  uri_host : option string;
  uri_port : option Z;
  uri_path_and_query : option string;
}.
