(* ===== verification/RustNet.v ===== *)
(** * RustNet: [std::net::IpAddr] parsing, as the program uses it

    The recursive-descent parser of [core::net::parser]: each reader consumes a
    prefix of the text and gives back the rest, or fails and consumes nothing. *)

From Stdlib Require Import ZArith Lia Ascii.
From stdpp Require Import base list strings vector.
From S2P Require Import Prelude RustStr Types.

(** [char::to_digit(radix)] for the radixes 10 and 16. *)
Definition to_digit (radix : Z) (a : ascii) : option Z :=
  let n := Z.of_nat (nat_of_ascii a) in
  let v := if decide (48 <= n <= 57)%Z then Some (n - 48)%Z
           else if decide (97 <= n <= 102)%Z then Some (n - 87)%Z
           else if decide (65 <= n <= 70)%Z then Some (n - 55)%Z else None in
  d ← v; if decide (d < radix)%Z then Some d else None.

Definition read_char (c : ascii) (s : string) : option string :=
  match s with
  | String a rest => if decide (a = c) then Some rest else None
  | "" => None
  end.

(** The digit loop of [read_number]: [count] digits seen so far. *)
Fixpoint read_digits (radix max : Z) (max_digits : nat) (acc : Z) (count : nat) (s : string)
  : option (Z * nat * string) :=
  match s with
  | String a rest =>
      match to_digit radix a with
      | Some d =>
          let acc := (acc * radix + d)%Z in
          if decide (acc <= max)%Z then
            if decide (S count <= max_digits)%nat
            then read_digits radix max max_digits acc (S count) rest else None
          else None
      | None => Some (acc, count, s)
      end
  | "" => Some (acc, count, s)
  end.

Definition read_number (radix max : Z) (max_digits : nat) (allow_zero_prefix : bool) (s : string)
  : option (Z * string) :=
  '(n, count, rest) ← read_digits radix max max_digits 0 0 s;
  if decide (count = 0)%nat then None
  else if negb allow_zero_prefix && starts_with "0" s && bool_decide (1 < count)%nat then None
  else Some (n, rest).

(** [read_separator(sep, index, inner)] *)
Definition read_separator {A} (sep : ascii) (index : nat)
    (inner : string -> option (A * string)) (s : string) : option (A * string) :=
  match index with
  | O => inner s
  | S _ => rest ← read_char sep s; inner rest
  end.

Definition byte_of (n : Z) : byte := default x00 (Byte.of_N (Z.to_N n)).

Definition read_ipv4_addr (s : string) : option (vec byte 4 * string) :=
  let octet i := read_separator "."%char i (read_number 10 255 3 false) in
  '(a, s) ← octet 0%nat s; '(b, s) ← octet 1%nat s; '(c, s) ← octet 2%nat s; '(d, s) ← octet 3%nat s;
  Some ([# byte_of a; byte_of b; byte_of c; byte_of d], s).

(** [read_groups(p, groups)] with [limit - i] groups still to fill: the groups read,
    as bytes, whether they end with an embedded IPv4 address, and the rest. *)
Fixpoint read_groups (left i : nat) (s : string) : bytes * bool * string :=
  match left with
  | O => ([], false, s)
  | S left' =>
      let v4 := if decide (0 < left')%nat
                then read_separator ":"%char i read_ipv4_addr s else None in
      match v4 with
      | Some (v, rest) => (vec_to_list v, true, rest)
      | None =>
          match read_separator ":"%char i (read_number 16 65535 4 true) s with
          | Some (g, rest) =>
              let '(bs, v4, rest') := read_groups left' (S i) rest in
              (byte_of (g / 256) :: byte_of (g mod 256) :: bs, v4, rest')
          | None => ([], false, s)
          end
      end
  end.

Fixpoint vec_of (n : nat) (l : bytes) : vec byte n :=
  match n with
  | O => [#]
  | S n => match l with [] => x00 ::: vec_of n [] | b :: l => b ::: vec_of n l end
  end.

Definition read_ipv6_addr (s : string) : option (vec byte 16 * string) :=
  let '(head, head_ipv4, s) := read_groups 8 0 s in
  if decide (length head = 16)%nat then Some (vec_of 16 head, s)
  else if (head_ipv4 : bool) then None
  else
    s ← read_char ":"%char s; s ← read_char ":"%char s;
    let head_size := (length head / 2)%nat in
    let '(tail, _, s) := read_groups (8 - (head_size + 1)) 0 s in
    Some (vec_of 16 (head ++ replicate (16 - length head - length tail) x00 ++ tail), s).

(** [s.parse::<IpAddr>().ok()] *)
Definition parse_ip (s : string) : option IpAddr :=
  '(ip, rest) ← match read_ipv4_addr s with
                | Some (v, rest) => Some (V4 v, rest)
                | None => '(v, rest) ← read_ipv6_addr s; Some (V6 v, rest)
                end;
  if decide (rest = "") then Some ip else None.

Example parse_ip_v4 : parse_ip "192.168.1.42" = Some (V4 [#xc0; xa8; x01; x2a]). Proof. reflexivity. Qed.
Example parse_ip_zero : parse_ip "192.168.01.42" = None. Proof. reflexivity. Qed.
Example parse_ip_big : parse_ip "1.2.3.256" = None. Proof. reflexivity. Qed.
Example parse_ip_v6 :
  parse_ip "fe80::1" = Some (V6 (vec_of 16 ([xfe; x80] ++ replicate 13 x00 ++ [x01]))).
Proof. reflexivity. Qed.
Example parse_ip_v6_v4 :
  parse_ip "::ffff:10.0.0.1" = Some (V6 (vec_of 16 (replicate 10 x00 ++ [xff; xff; x0a; x00; x00; x01]))).
Proof. reflexivity. Qed.
Example parse_ip_full :
  parse_ip "1:2:3:4:5:6:7:8" =
  Some (V6 (vec_of 16 [x00; x01; x00; x02; x00; x03; x00; x04; x00; x05; x00; x06; x00; x07; x00; x08])).
Proof. reflexivity. Qed.
Example parse_ip_bad : parse_ip "1:2:3:4:5:6:7:8:9" = None /\ parse_ip "::1::" = None /\ parse_ip "" = None.
Proof. by vm_compute. Qed.

(** ** Printing an IPv4 address and reading it back *)

(** [Ipv4Addr]'s [Display] *)
Definition display_v4 (v : vec byte 4) : string :=
  let d (i : fin 4) := display (Z.of_N (Byte.to_N (v !!! i))) in
  d 0%fin +:+ "." +:+ d 1%fin +:+ "." +:+ d 2%fin +:+ "." +:+ d 3%fin.

Definition octet (b : byte) : string := display (Z.of_N (Byte.to_N b)).

Lemma read_octet_dot (b : byte) (r : string) :
  read_number 10 255 3 false (octet b +:+ String "." r)
  = Some (Z.of_N (Byte.to_N b), String "." r).
Proof. by destruct b. Qed.

Lemma read_octet_end (b : byte) :
  read_number 10 255 3 false (octet b) = Some (Z.of_N (Byte.to_N b), "").
Proof. by destruct b. Qed.

Lemma byte_of_to_N (b : byte) : byte_of (Z.of_N (Byte.to_N b)) = b.
Proof. by destruct b. Qed.

(** Every IPv4 address reads back from its text. *)
Lemma parse_ip_display_v4 (v : vec byte 4) : parse_ip (display_v4 v) = Some (V4 v).
Proof.
  inv_vec v. intros a b c d.
  change (display_v4 _) with
    (octet a +:+ String "." (octet b +:+ String "." (octet c +:+ String "." (octet d)))).
  unfold parse_ip, read_ipv4_addr, read_separator. rewrite read_octet_dot.
  cbn [mbind option_bind read_char]. rewrite decide_True by done. cbn [mbind option_bind].
  rewrite read_octet_dot. cbn [mbind option_bind read_char]. rewrite decide_True by done. cbn [mbind option_bind].
  rewrite read_octet_dot. cbn [mbind option_bind read_char]. rewrite decide_True by done. cbn [mbind option_bind].
  rewrite read_octet_end. cbn [mbind option_bind]. rewrite decide_True by done.
  by rewrite !byte_of_to_N.
Qed.

(** ** Addresses in a list *)

(** The characters of an IPv4 address; none of them begins a whitespace character. *)
Definition address_char (a : ascii) : bool :=
  match digit_val a with Some _ => true | None => bool_decide (a = "."%char) end.

Fixpoint all_address (s : string) : bool :=
  match s with "" => true | String a s => address_char a && all_address s end.

Lemma address_char_not_white a : address_char a = true ->
  ws1 a = false /\ forall b c, ws2 a b = false /\ ws3 a b c = false.
Proof.
  destruct a as [[] [] [] [] [] [] [] []]; intros H; try discriminate H; by repeat split.
Qed.

Lemma trim_start_address a (s : string) : address_char a = true -> trim_start (String a s) = String a s.
Proof.
  intros (H1 & H2)%address_char_not_white. cbn. rewrite H1. destruct s as [|b [|c s]]; [done|..].
  - by destruct (H2 b b) as [-> _].
  - destruct (H2 b c) as [-> H3]. by rewrite H3.
Qed.

Lemma trim_start_spaces n (s : string) : trim_start (str_repeat " "%char n +:+ s) = trim_start s.
Proof. by induction n. Qed.

Lemma trim_end_spaces n : trim_end (str_repeat " "%char n) = "".
Proof.
  assert (H : all_whitespace (str_repeat " "%char n) = true).
  { unfold all_whitespace. apply bool_decide_eq_true. rewrite <- (app_str_nil_r (str_repeat _ n)).
    by rewrite trim_start_spaces. }
  destruct n as [|n]; [done|]. cbn [str_repeat trim_end] in *. by rewrite H.
Qed.

Lemma trim_end_address (s : string) n : all_address s = true -> trim_end (s +:+ str_repeat " "%char n) = s.
Proof.
  induction s as [|a s IH]; intros H; [apply trim_end_spaces|]. cbn in H. apply andb_true_iff in H as [Ha H].
  rewrite app_str_cons. cbn [trim_end]. unfold all_whitespace. rewrite trim_start_address by done.
  rewrite bool_decide_false by done. by rewrite IH.
Qed.

Lemma trim_address n m (s : string) :
  s <> "" -> all_address s = true -> trim (str_repeat " "%char n +:+ s +:+ str_repeat " "%char m) = s.
Proof.
  intros Hne Hs. unfold trim. rewrite trim_start_spaces. destruct s as [|a s]; [done|].
  pose proof Hs as Hs'. cbn in Hs'. apply andb_true_iff in Hs' as [Ha _].
  rewrite app_str_cons, trim_start_address, <- app_str_cons by done. by apply trim_end_address.
Qed.

Lemma all_address_app (s t : string) : all_address (s +:+ t) = all_address s && all_address t.
Proof. induction s as [|a s IH]; [done|]. rewrite app_str_cons. cbn [all_address]. by rewrite IH, andb_assoc. Qed.

Lemma octet_address (b : byte) : all_address (octet b) = true.
Proof. by destruct b. Qed.

Lemma display_v4_address (v : vec byte 4) : display_v4 v <> "" /\ all_address (display_v4 v) = true.
Proof.
  inv_vec v. intros a b c d.
  change (display_v4 _) with (octet a +:+ "." +:+ octet b +:+ "." +:+ octet c +:+ "." +:+ octet d).
  split; [by destruct (octet a)|]. by rewrite !all_address_app, !octet_address.
Qed.

Lemma address_no_comma (s : string) : all_address s = true -> contains_char ","%char s = false.
Proof.
  induction s as [|a s IH]; [done|]. cbn. intros [Ha Hs]%andb_true_iff.
  case_decide; [by subst|]. by apply IH.
Qed.
