(* ===== verification/Env.v ===== *)
(** * Env: the outside world, and the monad the stateful code is written in

    Everything the program calls that is not under src/ is declared here, once:
    - [Ext] holds the third-party types the code treats as opaque and the
      third-party functions that are functions (parsers, PEM printers, HMAC);
    - [Call] lists the third-party and operating-system operations whose answer
      is not determined by their arguments (files, sockets, the clock, random
      numbers, the SQLite driver, certificate signing, channels to other tasks).
      A [Call X] is answered with an [X].

    An [Env] is an arbitrary oracle that answers calls, together with the trace of
    the calls made so far.  The oracle also sees how many calls came before, so
    the same call may be answered differently each time: no behaviour of the
    outside world is assumed unless a theorem says so.

    [Prog S A] is a program over the state [S] that returns an [A]. *)

From Stdlib Require Import ZArith Lia.
From stdpp Require Import base list strings gmap vector.
From S2P Require Import Prelude Types.

(** ** Machine integers *)

Definition wrap_i64 (z : Z) : Z := (z + 2 ^ 63) `mod` 2 ^ 64 - 2 ^ 63.
Definition wrap_u64 (z : Z) : Z := z `mod` 2 ^ 64.

Lemma wrap_i64_id z : (- 2 ^ 63 <= z < 2 ^ 63)%Z -> wrap_i64 z = z.
Proof. intros H. unfold wrap_i64. rewrite Z.mod_small; lia. Qed.

Lemma wrap_u64_id z : (0 <= z < 2 ^ 64)%Z -> wrap_u64 z = z.
Proof. intros H. by apply Z.mod_small. Qed.

(** ** Opaque types and functions of third-party crates *)
Class Ext := {
  (** serde_json *)
  Value : Type;
  json_from_slice : bytes -> option Value;
  json_of_string : string -> Value;
  json_of_object : list (string * Value) -> Value;
  json_of_int : Z -> Value;
  json_to_string : Value -> string;
  json_to_vec : Value -> bytes;
  (** http: [HeaderValue::to_str] *)
  header_to_str : bytes -> option string;
  (** http: whether a request to this path with this Host header can be built;
      [Uri::from_str]; [StatusCode]'s [is_success] and [Display] *)
  request_valid : string -> string -> result unit string;
  uri_parse : string -> result Uri string;
  status_is_success : Z -> bool;
  status_display : Z -> string;
  (** rustls: [ServerName::try_from] *)
  server_name_valid : string -> result unit string;
  as_object : Value -> option (gmap string Value);
  as_str : Value -> option string;
  (** serde-derived parsers and printers of the wire structs *)
  parse_device_info : bytes -> option DeviceInfo;
  parse_csr_payload : bytes -> option string;
  login_request_to_vec : LoginRequest -> result bytes string;
  parse_login_response : bytes -> result LoginResponse string;
  parse_envelope : bytes -> option Envelope;
  envelope_to_vec : Envelope -> result bytes string;
  gateway_message_to_string : GatewayMessage Value -> result string string;
  parse_gateway_message : string -> option (GatewayMessage Value);
  (** hmac + sha2 *)
  hmac_sha256 : bytes -> bytes -> vec byte 32;
  (** rcgen *)
  KeyPair : Type;
  Certificate : Type;
  CsrParams : Type;
  serialize_pem : KeyPair -> string;
  cert_pem : Certificate -> string;
  keypair_from_pem : string -> result KeyPair string;
  params_from_ca_cert_pem : string -> result CertParams string;
  csr_from_pem : string -> result CsrParams string;
  ia5_valid : string -> bool;
  (** the SQLite driver's message for a violated UNIQUE or PRIMARY KEY constraint *)
  constraint_failed : string;
}.

(** The statements the program sends to SQLite. *)
Inductive SqlStmt :=
| SqlMigrate
| SqlSelectCa | SqlInsertCa
| SqlUpsertDevice | SqlSelectCert | SqlListDevices | SqlRevokeDevice | SqlSelectRevoked
| SqlSelectNode | SqlInsertNode
| SqlSelectActiveKey | SqlRetireKeys | SqlInsertKey | SqlSweepKeys.

#[export] Instance SqlStmt_eq_dec : EqDecision SqlStmt.
Proof. solve_decision. Defined.

(** The tasks the program spawns. *)
Inductive Task :=
| TlsAcceptLoop (addr : string)
| PlainAcceptLoop (addr : string)
| MqttEventLoop
| MqttCommandTask
| WsConnectionTask (server_url ws_url : string)
| GatewayMqttTask (login_url : string)
| StderrReader
| UpstreamConnection
| BroadcastLoop
| BeaconMessageLoop.

Section Env.
Context {X : Ext}.

Inductive Call : Type -> Type :=
(** files; [std::path::Path::exists] *)
| FsCreateDirAll (path : string) : Call (result unit string)
| FsWrite (path contents : string) : Call (result unit string)
| FsRead (path : string) : Call (result bytes string)
| FsExists (path : string) : Call bool
(** [SystemTime::now()] in seconds from the Unix epoch; [Instant::now()] in ns *)
| SystemTimeNow : Call Z
| InstantNow : Call Z
(** [rand::random()], [Uuid::new_v4().to_string()] *)
| RandArray (n : nat) : Call (vec byte n)
| RandU64 : Call Z
| UuidNewV4 : Call string
(** the driver's verdict on a statement: [Some e] when it reports the error [e] *)
| SqlExec (stmt : SqlStmt) : Call (option string)
(** parsing the database URL, opening the pool *)
| DbParseUrl (url : string) : Call (result unit string)
| DbConnect (url : string) : Call (result unit string)
(** rcgen *)
| KeyPairGenerate : Call (result KeyPair string)
| SelfSigned (params : CertParams) (kp : KeyPair) : Call (result Certificate string)
| SignedBy (params : CertParams) (kp : KeyPair) (ca : Certificate) (ca_kp : KeyPair)
    : Call (result Certificate string)
| CsrSignedBy (csr : CsrParams) (ca : Certificate) (ca_kp : KeyPair)
    : Call (result Certificate string)
(** sockets *)
| TcpBind (addr : string) : Call (result unit string)
| TcpLocalAddr (addr : string) : Call (result string string)
| TcpConnect (host : string) (port : Z) : Call (result unit string)
| TcpConnectAddr (addr : string) : Call (result unit string)
(** a request to a task through a bounded channel: whether it was accepted, and
    the reply read back ([None]: the reply sender was dropped) *)
| CmdSend (cmd : MqttCommand) : Call bool
| CmdReply (cmd : MqttCommand) : Call (option (result unit string))
| TrySendTopic (ch : TopicChannel) : Call (result unit string)
| GatewaySend (conn : nat) (msg : GatewayMessage Value) : Call bool
| GatewayMqttSend (msg : MqttMessage) : Call bool
(** the rumqttc client *)
| ClientSubscribe (topic : string) (qos : QoS) : Call (result unit string)
| ClientUnsubscribe (topic : string) : Call (result unit string)
| ClientPublish (topic : string) (qos : QoS) (payload : bytes) : Call (result unit string)
| ClientDisconnect : Call (result unit string)
(** sending on the channels of received messages and of the first connection *)
| InboundSend (msg : MqttMessage) : Call bool
| SignalConnected : Call unit
(** waiting for that signal: [false] when its sender was dropped *)
| AwaitConnected : Call bool
(** rustls: reading the certificates of a PEM file, adding one to a root store *)
| PemCerts (pem : bytes) : Call (list (result bytes string))
| RootAdd (cert : bytes) : Call (result unit string)
| Pkcs8Keys (pem : bytes) : Call (list (result bytes string))
| SingleCertConfig (chain : list bytes) (key : bytes) : Call (result unit string)
(** hyper's client: its handshake on a connection, one request on it *)
| HttpHandshake : Call (result unit string)
| SendRequest (req : HttpRequest) : Call (result HttpResponse string)
| CollectBody : Call (result bytes string)
| TlsConnect (server_name : string) : Call (result unit string)
| TlsAccept : Call (result unit string)
(** the WebSocket connection to a gateway *)
| WsSend (text : string) : Call (result unit string)
| WsPong (data : bytes) : Call (result unit string)
| WsClose : Call (result unit string)
(** child processes; [TryWait] answers whether the child has exited *)
| RunProcess (argv : list string) : Call (result Output string)
| SpawnProcess (argv : list string) : Call (result unit string)
| ChildId : Call (option Z)
| KillTerm (pid : Z) : Call unit
| WaitTimeout (secs : Z) : Call (option (result unit string))
| KillChild : Call unit
| TryWait : Call (result bool string)
(** [getifaddrs]: the addresses in order, [None] when it fails *)
| GetIfAddrs : Call (option (list IfAddr))
(** timers and tasks *)
| Sleep (ms : Z) : Call unit
| SleepNanos (ns : Z) : Call unit
| Spawn (t : Task) : Call unit
| SignalShutdown : Call unit
(** the operator's Ctrl-C *)
| AwaitCtrlC : Call unit.

(** One entry of the trace: a call and its answer. *)
Inductive Event :=
| Ev (Y : Type) (c : Call Y) (y : Y).

#[global] Arguments Ev {_} _ _.

Definition Oracle := forall Y, Call Y -> nat -> Y.

Record Env := mkEnv { oracle : Oracle; clk : nat; trace : list Event }.

Definition Prog (S A : Type) : Type := S -> Env -> A * S * Env.

#[export] Instance prog_ret S : MRet (Prog S) := fun A a s e => (a, s, e).
#[export] Instance prog_bind S : MBind (Prog S) :=
  fun A B k m s e => let '(a, s', e') := m s e in k a s' e'.
#[export] Instance prog_fmap S : FMap (Prog S) :=
  fun A B f m s e => let '(a, s', e') := m s e in (f a, s', e').

Definition call {S Y} (c : Call Y) : Prog S Y := fun s e =>
  let y := oracle e Y c (clk e) in
  (y, s, mkEnv (oracle e) (Datatypes.S (clk e)) (trace e ++ [Ev c y])).

Definition get {S} : Prog S S := fun s e => (s, s, e).
Definition put {S} (s : S) : Prog S unit := fun _ e => (tt, s, e).
Definition modify {S} (f : S -> S) : Prog S unit := fun s e => (tt, f s, e).

(** The [?] operator. *)
Definition bind_ok {S A B} (m : Prog S (result A string))
    (k : A -> Prog S (result B string)) : Prog S (result B string) :=
  r ← m; match r with Ok a => k a | Err err => mret (Err err) end.

(** [m.map_err(|e| format!("{prefix}{e}"))] *)
Definition with_context {S A} (prefix : string) (m : Prog S (result A string))
  : Prog S (result A string) := map_err (fun e => prefix +:+ e) <$> m.

(** Run a program on a component of a larger state. *)
Definition zoom {S T A} (view : T -> S) (update : S -> T -> T) (m : Prog S A) : Prog T A :=
  fun t e => let '(a, s, e') := m (view t) e in (a, update s t, e').

(** [for x in l { body(x) }] *)
Fixpoint for_each {S A} (l : list A) (body : A -> Prog S unit) : Prog S unit :=
  match l with
  | [] => mret tt
  | x :: l => _ ← body x; for_each l body
  end.

(** A statement whose driver error is reported as [prefix: e]. *)
Definition sql {S} (stmt : SqlStmt) (prefix : string) : Prog S (result unit string) :=
  r ← call (SqlExec stmt);
  mret (match r with None => Ok tt | Some e => Err (prefix +:+ e) end).

(** [SystemTime::now().duration_since(UNIX_EPOCH).unwrap_or_default().as_secs() as i64] *)
Definition unix_now {S} : Prog S Z :=
  t ← call SystemTimeNow; mret (wrap_i64 (if decide (t < 0)%Z then 0%Z else t)).

(** The Unix time a program reads when that is the [n]-th call. *)
Definition clock_at (e : Env) (n : nat) : Z :=
  let t := oracle e Z SystemTimeNow n in
  wrap_i64 (if decide (t < 0)%Z then 0%Z else t).

Lemma clock_at_lt (e : Env) n : (clock_at e n < 2 ^ 63)%Z.
Proof.
  unfold clock_at, wrap_i64. set (t := if decide _ then _ else _).
  pose proof (Z.mod_pos_bound (t + 2 ^ 63) (2 ^ 64) ltac:(lia)). lia.
Qed.
End Env.

Notation "x ←? m ; k" := (bind_ok m (fun x => k))
  (at level 20, m at level 100, k at level 200, right associativity).
Notation "' x ←? m ; k" := (bind_ok m (fun x => k))
  (at level 20, x pattern, m at level 100, k at level 200, right associativity).

(** ** Running programs

    [run_prog] computes a program down to the oracle's answers it branches on;
    [case_answer] splits on the first of them. *)
Ltac run_prog :=
  repeat (progress (unfold mbind, prog_bind, mret, prog_ret, fmap, prog_fmap, bind_ok,
                    with_context, map_err, sql, call, get, put, modify, zoom; cbn)).

Ltac case_answer :=
  match goal with
  | |- context [match oracle ?e ?Y ?c ?n with _ => _ end] =>
      destruct (oracle e Y c n) eqn:?
  end.

(** ** Programs that keep silent

    [silent f m]: no event that [f] picks out is among those [m] adds to the trace,
    whatever the outside world answers.  [silence] proves it by following the
    program's structure. *)
Section Silent.
Context {X : Ext} {B : Type} (f : Event -> option B).

Definition silent {S A} (m : Prog S A) : Prop :=
  forall s e, omap f (trace (m s e).2) = omap f (trace e).

Lemma silent_ret {S A} (a : A) : silent (mret a : Prog S A).
Proof. done. Qed.

Lemma silent_get {S} : silent (@get X S).
Proof. done. Qed.

Lemma silent_put {S} (s : S) : silent (put s).
Proof. done. Qed.

Lemma silent_modify {S} (g : S -> S) : silent (modify g).
Proof. done. Qed.

Lemma silent_call {S Y} (c : Call Y) : (forall y, f (Ev c y) = None) -> silent (call (S := S) c).
Proof. intros H s e. cbn. rewrite omap_app. cbn. by rewrite H, app_nil_r. Qed.

Lemma silent_bind {S A C} (m : Prog S A) (k : A -> Prog S C) :
  silent m -> (forall a, silent (k a)) -> silent (m ≫= k).
Proof.
  intros Hm Hk s e. unfold mbind, prog_bind. specialize (Hm s e).
  destruct (m s e) as [[a s'] e']. by rewrite Hk.
Qed.

Lemma silent_bind_ok {S A C} (m : Prog S (result A string)) (k : A -> Prog S (result C string)) :
  silent m -> (forall a, silent (k a)) -> silent (bind_ok m k).
Proof. intros Hm Hk. apply silent_bind; [done|]. by intros []. Qed.

Lemma silent_with_context {S A} p (m : Prog S (result A string)) :
  silent m -> silent (with_context p m).
Proof.
  intros Hm s e. unfold with_context, fmap, prog_fmap. specialize (Hm s e).
  by destruct (m s e) as [[a s'] e'].
Qed.

Lemma silent_zoom {S T A} (view : T -> S) update (m : Prog S A) :
  silent m -> silent (zoom view update m).
Proof. intros Hm t e. unfold zoom. specialize (Hm (view t) e). by destruct (m (view t) e) as [[a s'] e']. Qed.

Lemma silent_for_each {S A} (l : list A) (body : A -> Prog S unit) :
  (forall a, silent (body a)) -> silent (for_each l body).
Proof. intros Hb. induction l as [|a l IH]; [done|]. by apply silent_bind. Qed.

Lemma silent_sql {S} stmt p : (forall y, f (Ev (SqlExec stmt) y) = None) -> silent (sql (S := S) stmt p).
Proof. intros H. apply silent_bind; [by apply silent_call|done]. Qed.

Lemma silent_unix_now {S} : (forall y, f (Ev SystemTimeNow y) = None) -> silent (unix_now (S := S)).
Proof. intros H. apply silent_bind; [by apply silent_call|done]. Qed.
End Silent.

(** The components add their own operations to this base. *)
Create HintDb silent.
Ltac silence :=
  repeat first
    [ match goal with |- forall _, _ => intro end
    | progress cbv beta
    | solve [auto 3 with silent]
    | apply silent_ret | apply silent_get | apply silent_put | apply silent_modify
    | match goal with
      | |- silent _ (bind_ok _ _) => apply silent_bind_ok
      | |- silent _ (mbind _ _) => apply silent_bind
      | |- silent _ (with_context _ _) => apply silent_with_context
      | |- silent _ (zoom _ _ _) => apply silent_zoom
      | |- silent _ (for_each _ _) => apply silent_for_each
      end
    | apply silent_sql; solve [intros; first [reflexivity | auto]] | apply silent_unix_now; solve [intros; first [reflexivity | auto]]
    | apply silent_call; solve [intros; first [reflexivity | auto]]
    | case_match ].

(** ** Programs that leave the state alone *)
Section Stateless.
Context {X : Ext} {S : Type}.

Definition stateless {A} (m : Prog S A) : Prop := forall s e, (m s e).1.2 = s.

Lemma stateless_ret {A} (a : A) : stateless (mret a).
Proof. done. Qed.

Lemma stateless_get : stateless get.
Proof. done. Qed.

Lemma stateless_call {Y} (c : Call Y) : stateless (call c).
Proof. done. Qed.

Lemma stateless_bind {A C} (m : Prog S A) (k : A -> Prog S C) :
  stateless m -> (forall a, stateless (k a)) -> stateless (m ≫= k).
Proof.
  intros Hm Hk s e. unfold mbind, prog_bind. specialize (Hm s e).
  destruct (m s e) as [[a s'] e']. cbn in Hm. subst s'. apply Hk.
Qed.

Lemma stateless_bind_ok {A C} (m : Prog S (result A string)) (k : A -> Prog S (result C string)) :
  stateless m -> (forall a, stateless (k a)) -> stateless (bind_ok m k).
Proof. intros Hm Hk. apply stateless_bind; [done|]. by intros []. Qed.

Lemma stateless_with_context {A} p (m : Prog S (result A string)) :
  stateless m -> stateless (with_context p m).
Proof.
  intros Hm s e. unfold with_context, fmap, prog_fmap. specialize (Hm s e).
  by destruct (m s e) as [[a s'] e'].
Qed.

Lemma stateless_for_each {A} (l : list A) (body : A -> Prog S unit) :
  (forall a, stateless (body a)) -> stateless (for_each l body).
Proof. intros Hb. induction l as [|a l IH]; [done|]. by apply stateless_bind. Qed.
End Stateless.

Create HintDb stateless.

Ltac stateless :=
  repeat first
    [ match goal with |- forall _, _ => intro end
    | progress cbv beta
    | solve [auto 3 with stateless]
    | apply stateless_ret | apply stateless_get | apply stateless_call
    | match goal with
      | |- stateless (bind_ok _ _) => apply stateless_bind_ok
      | |- stateless (mbind _ _) => apply stateless_bind
      | |- stateless (with_context _ _) => apply stateless_with_context
      | |- stateless (for_each _ _) => apply stateless_for_each
      end
    | case_match ].

(** ** Programs only move the world forward

    [steady m]: [m] never changes how the world answers; it only adds to the trace and to
    the count of calls.  True of every program of this monad that is built from its
    operations; [steady] proves it by following the program's structure. *)
Section Steady.
Context {X : Ext}.

Record forward (e e' : Env) : Prop := {
  fw_oracle : oracle e' = oracle e;
  fw_clk : (clk e <= clk e')%nat;
  fw_trace : trace e `prefix_of` trace e';
}.

#[export] Instance forward_preorder : PreOrder forward.
Proof.
  split; [by intros e|]. intros e1 e2 e3 [O1 C1 T1] [O2 C2 T2]. split; [congruence|lia|by etrans].
Qed.

Definition steady {S A} (m : Prog S A) : Prop := forall s e, forward e (m s e).2.

Lemma steady_ret {S A} (a : A) : steady (mret a : Prog S A).
Proof. by intros s e. Qed.

Lemma steady_get {S} : steady (@get X S).
Proof. by intros s e. Qed.

Lemma steady_put {S} (s : S) : steady (put s).
Proof. by intros s' e. Qed.

Lemma steady_modify {S} (g : S -> S) : steady (modify g).
Proof. by intros s e. Qed.

Lemma steady_call {S Y} (c : Call Y) : steady (call (S := S) c).
Proof. intros s e. split; cbn; [done|lia|by apply prefix_app_r]. Qed.

Lemma steady_bind {S A C} (m : Prog S A) (k : A -> Prog S C) :
  steady m -> (forall a, steady (k a)) -> steady (m ≫= k).
Proof.
  intros Hm Hk s e. unfold mbind, prog_bind. specialize (Hm s e).
  destruct (m s e) as [[a s'] e']. etrans; [exact Hm|apply Hk].
Qed.

Lemma steady_bind_ok {S A C} (m : Prog S (result A string)) (k : A -> Prog S (result C string)) :
  steady m -> (forall a, steady (k a)) -> steady (bind_ok m k).
Proof. intros Hm Hk. apply steady_bind; [done|]. intros []; [done|apply steady_ret]. Qed.

Lemma steady_fmap {S A C} (g : A -> C) (m : Prog S A) : steady m -> steady (g <$> m).
Proof. intros Hm s e. unfold fmap, prog_fmap. specialize (Hm s e). by destruct (m s e) as [[a s'] e']. Qed.

Lemma steady_zoom {S T A} (view : T -> S) update (m : Prog S A) : steady m -> steady (zoom view update m).
Proof. intros Hm t e. unfold zoom. specialize (Hm (view t) e). by destruct (m (view t) e) as [[a s'] e']. Qed.

Lemma steady_for_each {S A} (l : list A) (body : A -> Prog S unit) :
  (forall a, steady (body a)) -> steady (for_each l body).
Proof. intros Hb. induction l as [|a l IH]; [apply steady_ret|]. by apply steady_bind. Qed.
End Steady.

Create HintDb steady.
Ltac steady :=
  repeat first
    [ match goal with |- forall _, _ => intro end
    | progress cbv beta
    | solve [auto 3 with steady]
    | apply steady_ret | apply steady_get | apply steady_put | apply steady_modify | apply steady_call
    | match goal with
      | |- steady (bind_ok _ _) => apply steady_bind_ok
      | |- steady (mbind _ _) => apply steady_bind
      | |- steady (with_context _ _) => apply steady_fmap
      | |- steady (fmap _ _) => apply steady_fmap
      | |- steady (zoom _ _ _) => apply steady_zoom
      | |- steady (for_each _ _) => apply steady_for_each
      | |- steady (sql _ _) => unfold sql
      | |- steady unix_now => unfold unix_now
      end
    | case_match ].
