(* ===== verification/Demo.v ===== *)
(** * Demo: concrete outside worlds, to evaluate the model on

    [demo_ext] instantiates the third-party types with plain data, and [calm]
    answers every call with success.  No theorem about the program depends on
    these choices: they are the inputs the witnesses and examples compute with. *)

From Stdlib Require Import ZArith Ascii.
From stdpp Require Import base list strings gmap vector.
From S2P Require Import Prelude RustStr Types Env.

Inductive json :=
| JNull
| JStr (s : string)
| JNum (n : Z)
| JObj1 (key : string) (value : json).

Definition string_of_bytes (b : bytes) : string := String.string_of_list_byte b.

(** A small reader: ["gw:URL"] is the object [{"gateway_url": "URL"}], ["!..."] is
    not JSON, and anything else a JSON string. *)
Definition demo_from_slice (b : bytes) : option json :=
  let s := string_of_bytes b in
  match strip_prefix "gw:" s with
  | Some url => Some (JObj1 "gateway_url" (JStr url))
  | None => if starts_with "!" s then None else Some (JStr s)
  end.

Definition json_str (v : json) : option string :=
  match v with JStr s => Some s | _ => None end.

(** "HOST|CSR" *)
Definition demo_device (b : bytes) : option DeviceInfo :=
  '(h, c) ← split_once "|" (string_of_bytes b);
  Some {| dev_address := "10.0.0.7"; dev_mdns := {| mdns_hostname := h; mdns_port := 80 |};
          dev_csr_pem := c |}.

(** "SCHEME://HOST/PATH", without a port *)
Definition demo_uri (s : string) : result Uri string :=
  match split_once "://" s with
  | None => Err "relative"
  | Some (_, rest) =>
      let '(host, path) := split_at_find "/"%char rest in
      Ok {| uri_host := Some host; uri_port := None; uri_path_and_query := path |}
  end.

Definition demo_login : LoginResponse := {|
  lo_protocol_version := "1"; lo_device_id := "dev"; lo_mqtt_username := "u";
  lo_mqtt_password := "p"; lo_broker := {| br_host := "broker"; br_port := 8883 |};
  lo_topics := {| dt_cmds := "d/cmds"; dt_connect := "d/connect"; dt_notify := "d/notify" |} |}.

#[local] Instance byte_inhabited : Inhabited byte := populate x00.

(** Key pairs and certificates are their PEM texts. *)
Definition demo_ext : Ext := {|
  Value := json;
  json_from_slice := demo_from_slice;
  json_of_string := JStr;
  json_of_object l := match l with (k, v) :: _ => JObj1 k v | [] => JNull end;
  json_of_int := JNum;
  json_to_vec v := bytes_of_string (match v with JStr s => s | _ => "{}" end);
  header_to_str b := if decide (b = [xff]) then None else Some (string_of_bytes b);
  request_valid _ _ := Ok tt;
  uri_parse := demo_uri;
  status_is_success s := bool_decide (200 <= s < 300)%Z;
  status_display s := RustStr.display s;
  server_name_valid _ := Ok tt;
  json_to_string v := match v with JStr s => s | _ => "{}" end;
  as_object v := match v with JObj1 k w => Some {[ k := w ]} | _ => None end;
  as_str := json_str;
  parse_device_info := demo_device;
  parse_csr_payload b := Some (string_of_bytes b);
  login_request_to_vec r := Ok (bytes_of_string (lr_username r));
  parse_login_response _ := Ok demo_login;
  parse_envelope _ := None;
  envelope_to_vec '(Alive d) := Ok (bytes_of_string ("alive:" +:+ d));
  gateway_message_to_string _ := Ok "frame";
  parse_gateway_message _ := None;
  hmac_sha256 key msg := fun_to_vec (fun i : fin 32 => (msg ++ key ++ replicate 32 x00) !!! (i : nat));
  KeyPair := string;
  Certificate := string;
  CsrParams := string;
  serialize_pem k := k;
  cert_pem c := c;
  keypair_from_pem := Ok;
  params_from_ca_cert_pem _ := Ok {| cp_is_ca := true; cp_key_usages := []; cp_common_name := "";
    cp_organization := ""; cp_extended_key_usages := []; cp_subject_alt_names := [] |};
  csr_from_pem s := if decide (s = "garbage") then Err "bad csr" else Ok s;
  ia5_valid _ := true;
  constraint_failed := "UNIQUE constraint failed";
|}.

(** Every call succeeds; the clock shows 1000 s and stands still. *)
Definition calm {X : Ext} (kp : KeyPair) (cert : Certificate) : Oracle := fun Y c n =>
  match c in Call Y return Y with
  | FsCreateDirAll _ | FsWrite _ _ => Ok tt
  | FsRead _ => Ok []
  | FsExists _ => true
  | SystemTimeNow => 1000%Z
  | InstantNow => 0%Z
  | RandArray k => vreplicate k (default x00 (Byte.of_nat n))
  | RandU64 => 0%Z
  | UuidNewV4 => "uuid"
  | SqlExec _ => None
  | DbParseUrl _ | DbConnect _ => Ok tt
  | KeyPairGenerate => Ok kp
  | SelfSigned _ _ => Ok cert
  | SignedBy _ _ _ _ => Ok cert
  | CsrSignedBy _ _ _ => Ok cert
  | TcpBind _ => Ok tt
  | TcpLocalAddr a => Ok a
  | TcpConnect _ _ => Ok tt
  | TcpConnectAddr _ => Ok tt
  | CmdSend _ => true
  | CmdReply _ => Some (Ok tt)
  | TrySendTopic _ => Ok tt
  | GatewaySend _ _ => true
  | GatewayMqttSend _ => true
  | ClientSubscribe _ _ => Ok tt
  | ClientUnsubscribe _ => Ok tt
  | ClientPublish _ _ _ => Ok tt
  | ClientDisconnect => Ok tt
  | InboundSend _ => true
  | SignalConnected => tt
  | AwaitConnected => true
  | PemCerts pem => [Ok pem]
  | RootAdd _ => Ok tt
  | Pkcs8Keys pem => [Ok pem]
  | SingleCertConfig _ _ => Ok tt
  | HttpHandshake => Ok tt
  | CollectBody => Ok []
  | TlsConnect _ => Ok tt
  | TlsAccept => Ok tt
  | SendRequest _ => Ok {| resp_status := 200; resp_content_type := None; resp_body := [] |}
  | WsSend _ => Ok tt
  | WsPong _ => Ok tt
  | WsClose => Ok tt
  | RunProcess _ => Ok {| out_success := true; out_stdout := []; out_stderr := [] |}
  | SpawnProcess _ => Ok tt
  | ChildId => Some 42%Z
  | KillTerm _ => tt
  | WaitTimeout _ => Some (Ok tt)
  | KillChild => tt
  | TryWait => Ok false
  | GetIfAddrs => Some [AfInet [#x0a; x00; x00; x05]; AfInet [#x7f; x00; x00; x01]; AfNull]
  | Sleep _ | SleepNanos _ => tt
  | Spawn _ => tt
  | SignalShutdown => tt
  | AwaitCtrlC => tt
  end.

Definition calm_env {X : Ext} (kp : KeyPair) (cert : Certificate) : Env :=
  mkEnv (calm kp cert) 0 [].

(** The calm world over [demo_ext]. *)
Definition demo_env : @Env demo_ext := @calm_env demo_ext "key" "cert".

(** A run that ends in [Ok], without computing where it ends. *)
Lemma ran_ok {S A E W : Type} (m : result A E * S * W) :
  is_ok m.1.1 = true -> exists a s' e', m = (Ok a, s', e').
Proof. destruct m as [[[a|err] s'] e']; [by exists a, s', e'|discriminate]. Defined.

Lemma ran_ok_unit {S E W : Type} (m : result unit E * S * W) :
  is_ok m.1.1 = true -> m = (Ok tt, m.1.2, m.2).
Proof. by destruct m as [[[[]|err] s'] e']. Defined.
