(* ===== verification/Supervisor.v ===== *)
(** * Supervisor: the process manager (src/src/supervisor.rs)

    [ManagedService] is the trait; [Supervisor S] owns the services (values of a
    type [S] with a [ManagedService] instance, the boxed trait object) and their
    statuses; [handle_start], [handle_stop] and [handle_restart] are the
    command handlers, [process] is the body of the command loop, [serve] the
    loop over the commands received before every handle is dropped, and
    [shutdown] what follows it.

    The contract of the component is the automaton [lifecycle]: the theorems
    show that each command moves the status of the named service along it and
    touches nothing else. *)

From Stdlib Require Import ZArith Lia.
From stdpp Require Import base list strings gmap.
From S2P Require Import Prelude Types Env Demo.

(** Current status of a managed service *)
Inductive ServiceStatus :=
| Unavailable
| Stopped
| Starting
| Running (pid : Z)
| Failed (reason : string).

#[export] Instance ServiceStatus_eq_dec : EqDecision ServiceStatus.
Proof. solve_decision. Defined.

(** Commands of the supervisor channel, without their reply senders. *)
Inductive SupervisorCommand :=
| Start (service : ServiceId)
| Stop (service : ServiceId)
| Restart (service : ServiceId)
| Status.

(** What is sent on a command's reply channel. *)
Inductive Reply :=
| Done (r : result unit string)
| Statuses (m : gmap ServiceId ServiceStatus).

(** The trait of a managed child process. *)
Class ManagedService `{X : Ext} (S : Type) := {
  svc_start : Prog S (result Z string);
  svc_stop : Prog S (result unit string);
  svc_is_running : Prog S bool;
}.

Record Supervisor (S : Type) := mkSupervisor {
  services : gmap ServiceId S;
  statuses : gmap ServiceId ServiceStatus;
  channel_buffer : Z;
}.
Arguments mkSupervisor {S} _ _ _.
Arguments services {S} _.
Arguments statuses {S} _.
Arguments channel_buffer {S} _.

(** The client side of a request: send the command, then wait for the reply.
    [accepted] says whether the channel took the command, [reply] what was
    received on the reply channel ([None] when its sender was dropped). *)
Definition request {A} (accepted : bool) (reply : option (result A string))
  : result A string :=
  if accepted then
    match reply with
    | Some r => r
    | None => Err "supervisor dropped reply"
    end
  else Err "supervisor channel closed".

Definition get_status (accepted : bool) (reply : option (gmap ServiceId ServiceStatus))
  : result (gmap ServiceId ServiceStatus) string :=
  request accepted (Ok <$> reply).

Section Supervisor.
Context `{X : Ext} {S : Type} `{!ManagedService S}.
Implicit Types (s : Supervisor S) (e : Env) (id : ServiceId).

Definition new : Supervisor S := mkSupervisor ∅ ∅ 32.

Definition set_status id (st : ServiceStatus) s : Supervisor S :=
  mkSupervisor (services s) (<[id := st]> (statuses s)) (channel_buffer s).

Definition set_service id (svc : S) s : Supervisor S :=
  mkSupervisor (<[id := svc]> (services s)) (statuses s) (channel_buffer s).

Definition register id (service : S) (available : bool) s : Supervisor S :=
  let initial_status := if available then Stopped else Unavailable in
  set_service id service (set_status id initial_status s).

(** [self.services.get_mut(id).ok_or_else(..)?] followed by a call on it *)
Definition with_service {A} id (m : Prog S A) : Prog (Supervisor S) (result A string) :=
  fun s e =>
    match services s !! id with
    | None => (Err (debug_id id +:+ " not registered"), s, e)
    | Some svc => let '(a, svc', e') := m svc e in (Ok a, set_service id svc' s, e')
    end.

Definition handle_start id : Prog (Supervisor S) (result unit string) :=
  s ← get;
  match statuses s !! id with
  | Some Unavailable => mret (Err (debug_id id +:+ " is not installed on this system"))
  | Some (Running _) => mret (Err (debug_id id +:+ " is already running"))
  | Some Starting => mret (Err (debug_id id +:+ " is already starting"))
  | None => mret (Err (debug_id id +:+ " is not registered"))
  | _ =>
      _ ← modify (set_status id Starting);
      r ←? with_service id svc_start;
      match r with
      | Ok pid => _ ← modify (set_status id (Running pid)); mret (Ok tt)
      | Err err => _ ← modify (set_status id (Failed err)); mret (Err err)
      end
  end.

Definition handle_stop id : Prog (Supervisor S) (result unit string) :=
  s ← get;
  match statuses s !! id with
  | Some Stopped => mret (Err (debug_id id +:+ " is already stopped"))
  | Some Unavailable => mret (Err (debug_id id +:+ " is not available"))
  | _ =>
      r ←? with_service id svc_stop;
      match r with
      | Ok _ => _ ← modify (set_status id Stopped); mret (Ok tt)
      | Err err => mret (Err err)
      end
  end.

Definition is_running_status (o : option ServiceStatus) : bool :=
  match o with Some (Running _) => true | _ => false end.

Definition handle_restart id : Prog (Supervisor S) (result unit string) :=
  s ← get;
  _ ← (if is_running_status (statuses s !! id) then handle_stop id else mret (Ok tt));
  handle_start id.

(** One iteration of the command loop: the reply it sends. *)
Definition process (cmd : SupervisorCommand) : Prog (Supervisor S) Reply :=
  match cmd with
  | Start service => Done <$> handle_start service
  | Stop service => Done <$> handle_stop service
  | Restart service => Done <$> handle_restart service
  | Status => s ← get; mret (Statuses (statuses s))
  end.

Fixpoint serve (cmds : list SupervisorCommand) : Prog (Supervisor S) (list Reply) :=
  match cmds with
  | [] => mret []
  | c :: cmds => r ← process c; rs ← serve cmds; mret (r :: rs)
  end.

(** Once the channel is closed every service is stopped, errors being logged
    only.  [ids] is the order in which the hash map is iterated. *)
Definition shutdown (ids : list ServiceId) : Prog (Supervisor S) unit :=
  for_each ids (fun id => _ ← with_service id svc_stop; mret tt).

(** The task [Supervisor::spawn] runs, on the commands received until the channel
    closes. *)
Definition spawn (cmds : list SupervisorCommand) (order : list ServiceId)
  : Prog (Supervisor S) (list Reply) :=
  rs ← serve cmds; _ ← shutdown order; mret rs.
End Supervisor.

(** ** The contract: a service's lifecycle *)

Definition startable (st : ServiceStatus) : bool :=
  match st with Stopped | Failed _ => true | _ => false end.

Definition stoppable (st : ServiceStatus) : bool :=
  match st with Running _ | Starting | Failed _ => true | _ => false end.

(** [lifecycle id cmd st reply st']: a command about [id] may take the status [st]
    to [st'] with this reply. *)
Inductive lifecycle (id : ServiceId)
  : SupervisorCommand -> ServiceStatus -> result unit string -> ServiceStatus -> Prop :=
| lc_start_ok st pid :
    startable st = true -> lifecycle id (Start id) st (Ok tt) (Running pid)
| lc_start_failed st err :
    startable st = true -> lifecycle id (Start id) st (Err err) (Failed err)
| lc_start_refused st err :
    startable st = false -> lifecycle id (Start id) st (Err err) st
| lc_stop_ok st :
    stoppable st = true -> lifecycle id (Stop id) st (Ok tt) Stopped
| lc_stop_failed st err :
    stoppable st = true -> lifecycle id (Stop id) st (Err err) st
| lc_stop_refused st err :
    stoppable st = false -> lifecycle id (Stop id) st (Err err) st
| lc_restart_stopped st r st' :
    startable st = true -> lifecycle id (Start id) st r st' ->
    lifecycle id (Restart id) st r st'
| lc_restart_running pid r r' st' st'' :
    lifecycle id (Stop id) (Running pid) r st' -> lifecycle id (Start id) st' r' st'' ->
    lifecycle id (Restart id) (Running pid) r' st''
| lc_restart_refused st err :
    startable st = false -> is_running_status (Some st) = false ->
    lifecycle id (Restart id) st (Err err) st.

Definition target (cmd : SupervisorCommand) : option ServiceId :=
  match cmd with Start id | Stop id | Restart id => Some id | Status => None end.

Section Theory.
Context `{X : Ext} {S : Type} `{!ManagedService S}.
Implicit Types (s : Supervisor S) (e : Env) (id : ServiceId).

(** At rest: both maps have the registered ids for keys, and no service is
    half-started. *)
Record wf s : Prop := {
  wf_dom : dom (services s) = dom (statuses s);
  wf_rest id : statuses s !! id <> Some Starting;
}.

(** [s'] differs from [s] at [id] only. *)
Definition only_at id s s' : Prop :=
  (forall id', id' <> id ->
     services s' !! id' = services s !! id' /\ statuses s' !! id' = statuses s !! id')
  /\ dom (services s') = dom (services s)
  /\ channel_buffer s' = channel_buffer s.

Lemma only_at_refl id s : only_at id s s.
Proof. by repeat split. Qed.

Lemma only_at_trans id s1 s2 s3 : only_at id s1 s2 -> only_at id s2 s3 -> only_at id s1 s3.
Proof.
  intros (H1 & D1 & B1) (H2 & D2 & B2). repeat split.
  - etrans; [by apply H2|]. by apply H1.
  - etrans; [by apply H2|]. by apply H1.
  - congruence.
  - congruence.
Qed.

Lemma only_at_status id st s : only_at id s (set_status id st s).
Proof. repeat split; cbn; by rewrite ?lookup_insert_ne. Qed.

Lemma only_at_service id svc s :
  is_Some (services s !! id) -> only_at id s (set_service id svc s).
Proof.
  intros Hs. repeat split; cbn; rewrite ?lookup_insert_ne by done; [done..|].
  apply elem_of_dom in Hs. rewrite dom_insert_L. set_solver.
Qed.

Lemma wf_lookup s id :
  wf s -> is_Some (services s !! id) <-> is_Some (statuses s !! id).
Proof. intros [D _]. by rewrite <- !elem_of_dom, D. Qed.

Lemma wf_new : wf new.
Proof. split; [done|]. intros id. unfold new. cbn [statuses]. by rewrite lookup_empty. Qed.

Lemma wf_set_status s id st :
  wf s -> is_Some (statuses s !! id) -> st <> Starting -> wf (set_status id st s).
Proof.
  intros [D R] Hs Hst. split; cbn.
  - apply elem_of_dom in Hs. rewrite dom_insert_L. set_solver.
  - intros id'. rewrite lookup_insert. case_decide; [congruence|apply R].
Qed.

Lemma wf_register id svc b s : wf s -> wf (register id svc b s).
Proof.
  intros [D R]. split; cbn.
  - by rewrite !dom_insert_L, D.
  - intros id'. rewrite lookup_insert. case_decide; [by destruct b|apply R].
Qed.

(** What one run of a handler promises about the status of [id]. *)
Definition steps id (cmd : SupervisorCommand) s (out : result unit string * Supervisor S * Env)
  : Prop :=
  let '(r, s', _) := out in
  wf s' /\ only_at id s s' /\
  forall st, statuses s !! id = Some st ->
  exists st', statuses s' !! id = Some st' /\ lifecycle id cmd st r st'.

Lemma set_set_status id st st' (s : Supervisor S) :
  set_status id st (set_status id st' s) = set_status id st s.
Proof. unfold set_status. cbn. by rewrite insert_insert_eq. Qed.

(** The three outcomes of [handle_start]. *)
Lemma handle_start_eq id s e :
  wf s ->
  handle_start id s e =
  match statuses s !! id, services s !! id with
  | Some st, Some svc =>
      if startable st then
        let '(r, svc', e') := svc_start svc e in
        match r with
        | Ok pid => (Ok tt, set_status id (Running pid) (set_service id svc' s), e')
        | Err err => (Err err, set_status id (Failed err) (set_service id svc' s), e')
        end
      else (Err (debug_id id +:+ match st with
                 | Unavailable => " is not installed on this system"
                 | _ => " is already running" end), s, e)
  | _, _ => (Err (debug_id id +:+ " is not registered"), s, e)
  end.
Proof.
  intros Hwf. pose proof (wf_lookup s id Hwf) as Hdom. pose proof (wf_rest s Hwf id) as Hrest.
  unfold handle_start, mbind, prog_bind, get.
  destruct (statuses s !! id) as [st|] eqn:Est; [|done].
  destruct (services s !! id) as [svc|] eqn:Esvc; [|naive_solver].
  destruct st; cbn; try done.
  all: unfold bind_ok, with_service, mbind, prog_bind; cbn; rewrite Esvc.
  all: destruct (svc_start svc e) as [[[pid|err] svc'] e'] eqn:Er; cbn.
  all: unfold set_status, set_service; cbn; by rewrite insert_insert_eq.
Qed.

(** Writing back a service already there, and a status that is not [Starting]. *)
Lemma wf_set_service id svc s :
  wf s -> is_Some (services s !! id) -> wf (set_service id svc s) /\ only_at id s (set_service id svc s).
Proof.
  intros [D R] Hs. assert (Ho : only_at id s (set_service id svc s)) by by apply only_at_service.
  split; [|done]. split; [|apply R]. destruct Ho as (_ & -> & _). by rewrite D.
Qed.

Lemma wf_write_back id svc st s :
  wf s -> is_Some (services s !! id) -> st <> Starting ->
  wf (set_status id st (set_service id svc s))
  /\ only_at id s (set_status id st (set_service id svc s)).
Proof.
  intros Hwf Hs Hst. destruct (wf_set_service id svc s Hwf Hs) as [Hw Ho]. split.
  - apply wf_set_status; [done| |done]. by apply (wf_lookup s id Hwf).
  - eapply only_at_trans; [done|]. apply only_at_status.
Qed.

Lemma steps_refused id cmd s e err :
  wf s -> (forall st, statuses s !! id = Some st -> lifecycle id cmd st (Err err) st) ->
  steps id cmd s (Err err, s, e).
Proof.
  intros Hwf H. split; [done|]. split; [apply only_at_refl|]. eauto.
Qed.

Lemma steps_moved id cmd s e r svc st st' :
  wf s -> statuses s !! id = Some st -> st' <> Starting -> lifecycle id cmd st r st' ->
  steps id cmd s (r, set_status id st' (set_service id svc s), e).
Proof.
  intros Hwf Hst Hne Hl.
  destruct (wf_write_back id svc st' s Hwf) as [Hw Ho]; [apply wf_lookup; eauto|done|].
  split; [done|]. split; [done|]. intros st0. rewrite Hst. intros [= <-].
  exists st'. split; [apply lookup_insert_eq|done].
Qed.

Lemma handle_start_steps id s e : wf s -> steps id (Start id) s (handle_start id s e).
Proof.
  intros Hwf. rewrite handle_start_eq by done.
  pose proof (wf_lookup s id Hwf) as Hdom.
  destruct (statuses s !! id) as [st|] eqn:Est.
  2: { apply steps_refused; [done|]. naive_solver. }
  destruct (services s !! id) as [svc|] eqn:Esvc; [|naive_solver].
  destruct (startable st) eqn:Hs.
  - destruct (svc_start svc e) as [[[pid|err] svc'] e'];
      (eapply steps_moved; [done|done|done|by constructor]).
  - apply steps_refused; [done|]. intros st0 [= <-]%(eq_trans (eq_sym Est)). by constructor.
Qed.

(** The outcomes of [handle_stop]. *)
Lemma handle_stop_eq id s e :
  wf s ->
  handle_stop id s e =
  match statuses s !! id, services s !! id with
  | Some st, Some svc =>
      if stoppable st then
        let '(r, svc', e') := svc_stop svc e in
        match r with
        | Ok _ => (Ok tt, set_status id Stopped (set_service id svc' s), e')
        | Err err => (Err err, set_service id svc' s, e')
        end
      else (Err (debug_id id +:+ match st with
                 | Stopped => " is already stopped"
                 | _ => " is not available" end), s, e)
  | _, _ => (Err (debug_id id +:+ " not registered"), s, e)
  end.
Proof.
  intros Hwf. pose proof (wf_lookup s id Hwf) as Hdom.
  unfold handle_stop, mbind, prog_bind, get.
  destruct (statuses s !! id) as [st|] eqn:Est.
  - destruct (services s !! id) as [svc|] eqn:Esvc; [|naive_solver].
    destruct st; cbn; try done.
    all: unfold bind_ok, with_service, mbind, prog_bind; cbn; rewrite Esvc.
    all: by destruct (svc_stop svc e) as [[[[]|err] svc'] e'] eqn:Er.
  - unfold bind_ok, with_service, mbind, prog_bind.
    destruct (services s !! id) as [svc|] eqn:Esvc; [|done]. naive_solver.
Qed.

Lemma handle_stop_steps id s e : wf s -> steps id (Stop id) s (handle_stop id s e).
Proof.
  intros Hwf. rewrite handle_stop_eq by done.
  pose proof (wf_lookup s id Hwf) as Hdom.
  destruct (statuses s !! id) as [st|] eqn:Est.
  2: { apply steps_refused; [done|]. naive_solver. }
  destruct (services s !! id) as [svc|] eqn:Esvc; [|naive_solver].
  destruct (stoppable st) eqn:Hs.
  - destruct (svc_stop svc e) as [[[[]|err] svc'] e'].
    + eapply steps_moved; [done|done|done|by constructor].
    + destruct (wf_set_service id svc' s Hwf) as [Hw Ho]; [eauto|].
      split; [done|]. split; [done|]. intros st0. rewrite Est. intros [= <-].
      exists st. split; [done|by constructor].
  - apply steps_refused; [done|]. intros st0 [= <-]%(eq_trans (eq_sym Est)). by constructor.
Qed.

Lemma handle_restart_steps id s e : wf s -> steps id (Restart id) s (handle_restart id s e).
Proof.
  intros Hwf. unfold handle_restart, mret, prog_ret, mbind, prog_bind, get. cbn.
  destruct (is_running_status (statuses s !! id)) eqn:Hr.
  - destruct (statuses s !! id) as [[| | |pid|]|] eqn:Est; try done.
    pose proof (handle_stop_steps id s e Hwf) as Hstop.
    destruct (handle_stop id s e) as [[r1 s1] e1]. destruct Hstop as (Hw1 & Ho1 & Hl1).
    pose proof (handle_start_steps id s1 e1 Hw1) as Hstart.
    destruct (handle_start id s1 e1) as [[r2 s2] e2]. destruct Hstart as (Hw2 & Ho2 & Hl2).
    split; [done|]. split; [by eapply only_at_trans|]. intros st. rewrite Est. intros [= <-].
    destruct (Hl1 _ Est) as (st1 & E1 & L1). destruct (Hl2 _ E1) as (st2 & E2 & L2).
    exists st2. split; [done|]. by eapply lc_restart_running.
  - pose proof (handle_start_steps id s e Hwf) as Hstart.
    destruct (handle_start id s e) as [[r2 s2] e2]. destruct Hstart as (Hw2 & Ho2 & Hl2).
    split; [done|]. split; [done|]. intros st Est. rewrite Est in Hr.
    destruct (Hl2 _ Est) as (st2 & E2 & L2). exists st2. split; [done|].
    destruct (startable st) eqn:Hs; [by constructor|].
    inversion L2; subst; try congruence. by constructor.
Qed.
(** [process] on any command. *)
Lemma process_steps cmd s e :
  wf s ->
  let '(reply, s', _) := process cmd s e in
  wf s' /\ dom (services s') = dom (services s) /\
  match target cmd with
  | Some id => exists r, reply = Done r /\ steps id cmd s (r, s', e)
  | None => reply = Statuses (statuses s) /\ s' = s
  end.
Proof.
  intros Hwf. destruct cmd as [id|id|id|]; cbn; unfold fmap, prog_fmap; [| | |done].
  - pose proof (handle_start_steps id s e Hwf) as H.
    destruct (handle_start id s e) as [[r s'] e']. destruct H as (Hw & Ho & Hl).
    split; [done|]. split; [by destruct Ho as (_ & D & _)|]. exists r. done.
  - pose proof (handle_stop_steps id s e Hwf) as H.
    destruct (handle_stop id s e) as [[r s'] e']. destruct H as (Hw & Ho & Hl).
    split; [done|]. split; [by destruct Ho as (_ & D & _)|]. exists r. done.
  - pose proof (handle_restart_steps id s e Hwf) as H.
    destruct (handle_restart id s e) as [[r s'] e']. destruct H as (Hw & Ho & Hl).
    split; [done|]. split; [by destruct Ho as (_ & D & _)|]. exists r. done.
Qed.

(** A property of states that every command preserves holds after [serve]; a
    property of single command-reply pairs that holds under it holds of all. *)
Lemma serve_ind (P : Supervisor S -> Prop) (Q : SupervisorCommand -> Reply -> Prop) :
  (forall cmd s e, P s -> let '(r, s', _) := process cmd s e in P s' /\ Q cmd r) ->
  forall cmds s e, P s ->
  let '(rs, s', _) := serve cmds s e in P s' /\ Forall2 Q cmds rs.
Proof.
  intros Hstep cmds. induction cmds as [|c cmds IH]; intros s e HP; [by split|].
  cbn. unfold mbind, prog_bind, mret, prog_ret.
  specialize (Hstep c s e HP). destruct (process c s e) as [[r s1] e1].
  destruct Hstep as [HP1 HQ1]. specialize (IH s1 e1 HP1).
  destruct (serve cmds s1 e1) as [[rs s2] e2]. destruct IH as [HP2 HQ2].
  split; [done|]. by constructor.
Qed.

(** The supervisor as [App::initialize] builds it. *)
Definition registered (regs : list (ServiceId * S * bool)) : Supervisor S :=
  fold_left (fun s '(id, svc, b) => register id svc b s) regs new.

Lemma wf_registered regs : wf (registered regs).
Proof.
  unfold registered. generalize (wf_new). generalize (@new S).
  induction regs as [|[[id svc] b] regs IH]; intros s Hs; [done|].
  cbn. apply IH. by apply wf_register.
Qed.

(** C2: every command about a registered service moves its status along
    [lifecycle], with the reply the automaton gives, and changes nothing else:
    no other service or status, not the set of registered ids, not the
    well-formedness of the supervisor. *)
Theorem process_refines_lifecycle cmd id s e st :
  wf s -> target cmd = Some id -> statuses s !! id = Some st ->
  let '(reply, s', _) := process cmd s e in
  exists r st', reply = Done r /\ statuses s' !! id = Some st' /\
    lifecycle id cmd st r st' /\ wf s' /\ only_at id s s'.
Proof.
  intros Hwf Ht Hst. pose proof (process_steps cmd s e Hwf) as H.
  destruct (process cmd s e) as [[reply s'] e']. rewrite Ht in H.
  destruct H as (Hw & _ & r & -> & _ & Ho & Hl). destruct (Hl _ Hst) as (st' & H1 & H2). eauto 10.
Qed.

(** C38: whatever is registered and whatever commands arrive, each command gets
    exactly one reply, in order, every reported status map covers exactly the
    registered services and shows none of them [Starting], and both maps keep
    the same ids. *)
Theorem serve_replies_and_invariant regs cmds e :
  let s0 := registered regs in
  let '(rs, s', _) := serve cmds s0 e in
  length rs = length cmds /\ wf s' /\ dom (services s') = dom (services s0) /\
  forall m, Statuses m ∈ rs -> dom m = dom (services s0) /\ forall id, m !! id <> Some Starting.
Proof.
  set (s0 := registered regs). cbn zeta.
  set (D := dom (services s0)).
  pose proof (serve_ind (fun s => wf s /\ dom (services s) = D)
    (fun c r => forall m, r = Statuses m -> dom m = D /\ forall id, m !! id <> Some Starting)) as H.
  specialize (fun Hs => H Hs cmds s0 e (conj (wf_registered regs) eq_refl)).
  destruct (serve cmds s0 e) as [[rs s'] e'].
  destruct H as [[Hw HD] HF].
  { intros cmd s e0 [Hw HD]. pose proof (process_steps cmd s e0 Hw) as Hp.
    destruct (process cmd s e0) as [[r s1] e1]. destruct Hp as (Hw1 & HD1 & Ht).
    split; [split; congruence|]. intros m ->. destruct (target cmd); [by destruct Ht as (? & ? & _)|].
    destruct Ht as [[= ->] ->]. destruct Hw as [Hd Hr]. split; [congruence|apply Hr]. }
  split; [by eapply Forall2_length_r in HF|]. split; [done|]. split; [done|].
  intros m (i & Hi)%list_elem_of_lookup. eapply Forall2_lookup_r in HF as (c & _ & HQ); eauto.
Qed.

(** A service registered as unavailable stays so: no sequence of commands
    changes its status or runs any of its code, and every command about it is
    refused with an error. *)
Theorem unavailable_forever regs cmds e id :
  statuses (registered regs) !! id = Some Unavailable ->
  let '(rs, s', _) := serve cmds (registered regs) e in
  statuses s' !! id = Some Unavailable /\
  services s' !! id = services (registered regs) !! id /\
  Forall2 (fun c r => target c = Some id -> exists err, r = Done (Err err)) cmds rs.
Proof.
  intros Hid. set (s0 := registered regs) in *.
  pose proof (serve_ind
    (fun s => wf s /\ statuses s !! id = Some Unavailable /\ services s !! id = services s0 !! id)
    (fun c r => target c = Some id -> exists err, r = Done (Err err))) as H.
  specialize (fun Hs => H Hs cmds s0 e (conj (wf_registered regs) (conj Hid eq_refl))).
  destruct (serve cmds s0 e) as [[rs s'] e'].
  destruct H as [(Hw & H1 & H2) HF]; [|done].
  intros cmd s e0 (Hw & Hs & Hv).
  pose proof (process_steps cmd s e0 Hw) as Hp.
  assert (Hno : target cmd = Some id ->
    exists err, process cmd s e0 = (Done (Err err), s, e0)).
  { destruct (wf_lookup s id Hw) as [_ Hdom]. destruct Hdom as [svc Hsvc]; [eauto|].
    destruct cmd as [i|i|i|]; cbn; intros [= ->]; unfold fmap, prog_fmap.
    - rewrite handle_start_eq, Hs, Hsvc by done. cbn. eauto.
    - rewrite handle_stop_eq, Hs, Hsvc by done. cbn. eauto.
    - unfold handle_restart, mret, prog_ret, mbind, prog_bind, get. rewrite Hs. cbn.
      rewrite handle_start_eq, Hs, Hsvc by done. cbn. eauto. }
  destruct (decide (target cmd = Some id)) as [Ht|Ht].
  - destruct (Hno Ht) as [err ->]. split; [done|]. eauto.
  - destruct (process cmd s e0) as [[r s1] e1]. destruct Hp as (Hw1 & HD1 & Hp).
    split; [|done]. split; [done|].
    destruct (target cmd) as [id'|]; [|by destruct Hp as [_ ->]].
    destruct Hp as (r' & _ & _ & (Ho & _) & _). destruct (Ho id) as [-> ->]; [congruence|done].
Qed.
(** The state a service is left in when its [stop] runs in [e]. *)
Definition stopped_in (svc : S) (e : Env) : S := (svc_stop svc e).1.2.

Lemma shutdown_cons id ids s e :
  shutdown (id :: ids) s e =
  match services s !! id with
  | Some svc => shutdown ids (set_service id (stopped_in svc e) s) (svc_stop svc e).2
  | None => shutdown ids s e
  end.
Proof.
  cbn. unfold mbind, prog_bind, with_service, mret, prog_ret, stopped_in.
  destruct (services s !! id) as [svc|]; [|done].
  by destruct (svc_stop svc e) as [[r svc'] e'].
Qed.

Lemma shutdown_other ids s e id :
  id ∉ ids -> services ((shutdown ids s e).1.2) !! id = services s !! id.
Proof.
  revert s e. induction ids as [|i ids IH]; intros s e Hni; [done|].
  apply not_elem_of_cons in Hni as [Hi Hni]. rewrite shutdown_cons.
  destruct (services s !! i); [|by apply IH]. rewrite IH by done. cbn.
  by rewrite lookup_insert_ne.
Qed.

Lemma shutdown_dom ids s e : dom (services (shutdown ids s e).1.2) = dom (services s).
Proof.
  revert s e. induction ids as [|i ids IH]; intros s e; [done|]. rewrite shutdown_cons.
  destruct (services s !! i) as [svc|] eqn:Hs; [|by apply IH]. rewrite IH. cbn.
  rewrite dom_insert_L. apply elem_of_dom_2 in Hs. set_solver.
Qed.

Lemma shutdown_stops ids s e id svc :
  NoDup ids -> id ∈ ids -> services s !! id = Some svc ->
  exists e1, services ((shutdown ids s e).1.2) !! id = Some (stopped_in svc e1).
Proof.
  revert s e. induction ids as [|i ids IH]; intros s e Hnd Hin Hs; [set_solver|].
  apply NoDup_cons in Hnd as [Hi Hnd]. rewrite shutdown_cons.
  destruct (decide (i = id)) as [->|Hne].
  - rewrite Hs, shutdown_other by done. exists e. apply lookup_insert_eq.
  - assert (id ∈ ids) by set_solver.
    destruct (services s !! i); apply IH; try done. cbn. by rewrite lookup_insert_ne.
Qed.

(** When the command channel closes, every registered service has its [stop]
    run exactly once, in whatever order the hash map is iterated, whether or
    not its stop succeeds; all replies have been sent by then. *)
Theorem spawn_stops_every_service regs cmds order e :
  order ≡ₚ elements (dom (services (registered regs))) ->
  let '(rs, s', _) := spawn cmds order (registered regs) e in
  length rs = length cmds /\
  forall id, is_Some (services (registered regs) !! id) ->
    exists svc e1, services s' !! id = Some (stopped_in svc e1) /\
      services ((serve cmds (registered regs) e).1.2) !! id = Some svc.
Proof.
  intros Hperm. pose proof (serve_ind
    (fun s => wf s /\ dom (services s) = dom (services (registered regs))) (fun _ _ => True)) as H.
  specialize (fun Hs => H Hs cmds (registered regs) e (conj (wf_registered regs) eq_refl)).
  unfold spawn, mbind, prog_bind, mret, prog_ret.
  destruct (serve cmds (registered regs) e) as [[rs s1] e1].
  destruct H as [[Hw HD] HF].
  { intros cmd s e0 [Hw HD]. pose proof (process_steps cmd s e0 Hw) as Hp.
    destruct (process cmd s e0) as [[r s2] e2]. destruct Hp as (Hw1 & HD1 & _).
    repeat split; congruence || apply Hw1. }
  assert (Hnd : NoDup order) by (rewrite Hperm; apply NoDup_elements).
  pose proof (fun id svc => shutdown_stops order s1 e1 id svc Hnd) as Hstop.
  destruct (shutdown order s1 e1) as [[[] s2] e2]. cbn in *.
  split; [by eapply Forall2_length_r in HF|]. intros id Hid%elem_of_dom.
  assert (Hin : id ∈ order) by (rewrite Hperm; by apply elem_of_elements).
  rewrite <- HD in Hid. apply elem_of_dom in Hid as [svc Hsvc].
  destruct (Hstop id svc Hin Hsvc) as [e3 He3]. eauto.
Qed.
End Theory.

(** ** The scenarios of tests/supervisor.rs *)

(** [MockService] of tests/supervisor.rs. *)
Record MockService := { mock_running : bool; mock_fail_start : bool; mock_pid : Z }.

#[export] Instance mock_service {X : Ext} : ManagedService MockService := {|
  svc_start := fun m e =>
    if mock_fail_start m then (Err "mock start failure", m, e)
    else (Ok (mock_pid m),
          {| mock_running := true; mock_fail_start := mock_fail_start m; mock_pid := mock_pid m |}, e);
  svc_stop := fun m e =>
    (Ok tt, {| mock_running := false; mock_fail_start := mock_fail_start m; mock_pid := mock_pid m |}, e);
  svc_is_running := fun m e => (mock_running m, m, e);
|}.

Definition mock (pid : Z) : MockService :=
  {| mock_running := false; mock_fail_start := false; mock_pid := pid |}.

Definition mock_failing : MockService :=
  {| mock_running := false; mock_fail_start := true; mock_pid := 0 |}.

Definition mock_regs : list (ServiceId * MockService * bool) :=
  [(Gateway, mock 1234, true); (Mosquitto, mock 2, false); (MqttClient, mock_failing, true)].

Definition mock_supervisor : Supervisor MockService := registered mock_regs.

Example restart_running_scenario :
  (serve [Start Gateway; Restart Gateway; Start Gateway; Start Mosquitto; Start MqttClient; Status]
     mock_supervisor demo_env).1.1
  = [Done (Ok tt); Done (Ok tt); Done (Err "Gateway is already running");
     Done (Err "Mosquitto is not installed on this system"); Done (Err "mock start failure");
     Statuses {[ Gateway := Running 1234; Mosquitto := Unavailable;
                 MqttClient := Failed "mock start failure" ]}].
Proof. reflexivity. Qed.

Lemma process_refines_lifecycle_witness :
  let '(reply, s', _) := process (Start Gateway) mock_supervisor demo_env in
  exists r st', reply = Done r /\ statuses s' !! Gateway = Some st' /\
    lifecycle Gateway (Start Gateway) Stopped r st' /\ wf s' /\ only_at Gateway mock_supervisor s'.
Proof.
  apply (process_refines_lifecycle (Start Gateway) Gateway mock_supervisor demo_env Stopped).
  - apply wf_registered.
  - reflexivity.
  - reflexivity.
Defined.

Lemma unavailable_forever_witness :
  let '(rs, s', _) := serve [Start Mosquitto; Restart Mosquitto] (registered mock_regs) demo_env in
  statuses s' !! Mosquitto = Some Unavailable /\
  services s' !! Mosquitto = services (registered mock_regs) !! Mosquitto /\
  Forall2 (fun c r => target c = Some Mosquitto -> exists err, r = Done (Err err))
    [Start Mosquitto; Restart Mosquitto] rs.
Proof.
  apply (unavailable_forever mock_regs [Start Mosquitto; Restart Mosquitto] demo_env Mosquitto).
  reflexivity.
Defined.

Lemma spawn_stops_every_service_witness :
  let order : list ServiceId := [Gateway; MqttClient; Mosquitto] in
  let '(rs, s', _) := spawn [Start Gateway] order (registered mock_regs) demo_env in
  length rs = length [Start Gateway] /\
  forall id : ServiceId, is_Some (services (registered mock_regs) !! id) ->
    exists (svc : MockService) (e1 : @Env demo_ext),
      services s' !! id = Some (stopped_in svc e1) /\
      services ((serve [Start Gateway] (registered mock_regs) demo_env).1.2) !! id = Some svc.
Proof.
  apply (spawn_stops_every_service mock_regs [Start Gateway]
    [Gateway; MqttClient; Mosquitto] demo_env).
  apply NoDup_Permutation.
  - by apply (bool_decide_unpack _).
  - apply NoDup_elements.
  - intros id. rewrite elem_of_elements. destruct id; vm_compute; split; intros; set_solver.
Defined.
