(* ===== verification/Contract.v ===== *)
(** * Contract: what the supervisor and its services promise each other

    The trait [ManagedService] fixes the types of a service's methods; [LawfulService]
    states how they must behave for the supervisor's statuses to mean something: a
    service knows whether it is up, a start that succeeds leaves it up, a service that is
    up refuses to start again, and a stop leaves it down.  The theorems of this file are
    about the supervisor over any lawful service; ServiceLaws.v shows that the five
    services of the program are lawful. *)

From Stdlib Require Import ZArith Lia.
From stdpp Require Import base list strings gmap.
From S2P Require Import Prelude Types Env Demo Supervisor.

(** [svc_inv] is what holds of a service from its creation on, [svc_up] whether it has been
    started and not stopped since. *)
Class LawfulService `{X : Ext} (S : Type) `{!ManagedService S} := {
  svc_inv : S -> Prop;
  svc_up : S -> bool;
  law_start s e : svc_inv s ->
    let '(r, s', e') := svc_start s e in
    svc_inv s' /\
    if svc_up s then is_ok r = false /\ s' = s /\ e' = e else is_ok r = true -> svc_up s' = true;
  law_stop s e : svc_inv s ->
    let '(r, s', _) := svc_stop s e in
    svc_inv s' /\ svc_up s' = false /\ (svc_up s = true -> is_ok r = true);
  law_is_running s e : svc_inv s ->
    let '(b, s', _) := svc_is_running s e in
    svc_inv s' /\ (b = true -> svc_up s = true /\ s' = s) /\ (svc_up s = false -> s' = s);
}.

Section Contract.
Context `{X : Ext} {S : Type} `{!ManagedService S} `{!LawfulService S}.
Implicit Types (s : Supervisor S) (e : Env) (id : ServiceId) (st : ServiceStatus) (svc : S).

(** What a status says of the service: [Running] that it is up, [Stopped] and [Unavailable]
    that it is down; after a failure it may be either. *)
Definition status_fits st svc : Prop :=
  svc_inv svc /\
  match st with
  | Running _ => svc_up svc = true
  | Stopped | Unavailable => svc_up svc = false
  | Starting | Failed _ => True
  end.

Definition fits s : Prop :=
  forall id st svc, statuses s !! id = Some st -> services s !! id = Some svc -> status_fits st svc.

(** Writing back one service with a status that fits it. *)
Lemma fits_write_back id st svc s :
  fits s -> status_fits st svc -> fits (set_status id st (set_service id svc s)).
Proof.
  intros Hf Hst i st' svc'. unfold set_status, set_service. cbn. rewrite !lookup_insert.
  case_decide; [by intros [= <-] [= <-]|apply Hf].
Qed.

Lemma handle_start_fits id s e : wf s -> fits s -> fits (handle_start id s e).1.2.
Proof.
  intros Hw Hf. rewrite handle_start_eq by done.
  destruct (statuses s !! id) as [st|] eqn:Hst; [|done]. destruct (services s !! id) as [svc|] eqn:Hsvc; [|done].
  destruct (startable st) eqn:Hs; [|done]. destruct (Hf id st svc Hst Hsvc) as [Hi _].
  pose proof (law_start svc e Hi) as Hl. destruct (svc_start svc e) as [[[pid|err] svc'] e'];
    destruct Hl as [Hi' Hl]; apply fits_write_back; try done.
  split; [done|]. cbn. destruct (svc_up svc); [by destruct Hl|auto].
Qed.

(** A stop of a service that is up succeeds. *)
Lemma handle_stop_fits id s e :
  wf s -> fits s ->
  let '(r, s', _) := handle_stop id s e in
  fits s' /\ (is_running_status (statuses s !! id) = true -> is_Some (services s !! id) ->
              is_ok r = true /\ statuses s' !! id = Some Stopped).
Proof.
  intros Hw Hf. rewrite handle_stop_eq by done.
  destruct (statuses s !! id) as [st|] eqn:Hst; [|by split]. destruct (services s !! id) as [svc|] eqn:Hsvc.
  2: { split; [done|]. by intros _ [? ?]. }
  destruct (stoppable st) eqn:Hs; [|split; [done|]; by destruct st].
  destruct (Hf id st svc Hst Hsvc) as [Hi Hup]. pose proof (law_stop svc e Hi) as Hl.
  destruct (svc_stop svc e) as [[[u|err] svc'] e']; destruct Hl as (Hi' & Hd & Hl).
  - split; [by apply fits_write_back|]. intros _ _. split; [done|apply lookup_insert_eq].
  - split; [|intros Hr; destruct st; try done; by specialize (Hl Hup)].
    intros i st' svc'' Hst'. cbn. rewrite lookup_insert. case_decide as Hd'; [|by apply Hf].
    subst i. intros [= <-]. cbn in Hst'. rewrite Hst in Hst'. injection Hst' as <-.
    split; [done|]. destruct st; try done. by specialize (Hl Hup).
Qed.

Lemma handle_restart_fits id s e : wf s -> fits s -> fits (handle_restart id s e).1.2.
Proof.
  intros Hw Hf. unfold handle_restart, mbind, prog_bind, mret, prog_ret, get.
  destruct (is_running_status (statuses s !! id)); [|by apply handle_start_fits].
  pose proof (handle_stop_fits id s e Hw Hf) as H. pose proof (handle_stop_steps id s e Hw) as Hs.
  destruct (handle_stop id s e) as [[r s1] e1]. apply handle_start_fits; [by destruct Hs|by destruct H].
Qed.

Lemma process_fits cmd s e : wf s -> fits s -> fits (process cmd s e).1.2.
Proof.
  intros Hw Hf. destruct cmd as [id|id|id|]; cbn; unfold fmap, prog_fmap; [| | |done].
  - pose proof (handle_start_fits id s e Hw Hf). by destruct (handle_start id s e) as [[??]?].
  - pose proof (handle_stop_fits id s e Hw Hf). destruct (handle_stop id s e) as [[??]?]. tauto.
  - pose proof (handle_restart_fits id s e Hw Hf). by destruct (handle_restart id s e) as [[??]?].
Qed.

(** A service as it is handed to the supervisor. *)
Definition fresh svc : Prop := svc_inv svc /\ svc_up svc = false.

Lemma fits_registered regs : Forall (fun '(_, svc, _) => fresh svc) regs -> fits (registered regs).
Proof.
  unfold registered. assert (H0 : fits new) by (intros id st svc; unfold new; cbn; by rewrite lookup_empty).
  revert H0. generalize (@new S). induction regs as [|[[id svc] b] regs IH]; intros s Hs; [done|].
  intros [[Hi Hu] Hr]%Forall_cons. cbn. apply IH; [|done].
  intros i st svc'. unfold register. cbn. rewrite !lookup_insert. case_decide; [|apply Hs].
  intros [= <-] [= <-]. split; [done|]. by destruct b.
Qed.

(** The replies a lawful service allows: a running service is always stopped. *)
Lemma serve_fits cmds s e : wf s -> fits s -> wf (serve cmds s e).1.2 /\ fits (serve cmds s e).1.2.
Proof.
  intros Hw Hf. pose proof (serve_ind (fun s => wf s /\ fits s) (fun _ _ => True)) as H.
  specialize (fun Hp => H Hp cmds s e (conj Hw Hf)). destruct (serve cmds s e) as [[rs s'] e'].
  apply H. clear. intros cmd s e [Hw Hf]. pose proof (process_steps cmd s e Hw) as Hp.
  pose proof (process_fits cmd s e Hw Hf). destruct (process cmd s e) as [[r s'] e']. by destruct Hp.
Qed.

(** C3: over lawful services the status map tells the truth, whatever commands have been
    served and however they went: a service shown [Running] is up, one shown [Stopped] or
    [Unavailable] is down.  So stopping a service shown [Running] always succeeds, and its
    status is then [Stopped]. *)
Theorem status_tells_truth regs cmds e id :
  Forall (fun '(_, svc, _) => fresh svc) regs ->
  let '(_, s, e') := serve cmds (registered regs) e in
  (forall st svc, statuses s !! id = Some st -> services s !! id = Some svc -> status_fits st svc) /\
  (is_running_status (statuses s !! id) = true ->
   let '(r, s', _) := process (Stop id) s e' in r = Done (Ok tt) /\ statuses s' !! id = Some Stopped).
Proof.
  intros Hregs. pose proof (serve_fits cmds (registered regs) e (wf_registered regs) (fits_registered regs Hregs)) as H.
  destruct (serve cmds (registered regs) e) as [[rs s] e']. destruct H as [Hw Hf]. cbn in Hw, Hf.
  split; [apply Hf|]. intros Hr. cbn. unfold fmap, prog_fmap.
  pose proof (handle_stop_fits id s e' Hw Hf) as H. destruct (handle_stop id s e') as [[r s'] e2].
  destruct H as [_ H]. destruct H as [Hok Hst]; [done| |].
  - apply (wf_lookup s id Hw). destruct (statuses s !! id); [eauto|done].
  - split; [|done]. by destruct r as [[]|].
Qed.

(** C17: when the command channel has closed and the supervisor has stopped its services,
    nothing it started is left up, in whatever order the services are stopped and even
    if commands failed before. *)
Theorem spawn_leaves_nothing_up regs cmds order e :
  Forall (fun '(_, svc, _) => fresh svc) regs ->
  order ≡ₚ elements (dom (services (registered regs))) ->
  let '(_, s', _) := spawn cmds order (registered regs) e in
  forall id svc, services s' !! id = Some svc -> svc_up svc = false.
Proof.
  intros Hregs Hperm. unfold spawn, mbind, prog_bind, mret, prog_ret.
  pose proof (serve_fits cmds (registered regs) e (wf_registered regs) (fits_registered regs Hregs)) as H.
  pose proof (serve_ind (fun s => wf s /\ dom (services s) = dom (services (registered regs)))
    (fun _ _ => True)) as Hd.
  specialize (fun Hp => Hd Hp cmds (registered regs) e (conj (wf_registered regs) eq_refl)).
  destruct (serve cmds (registered regs) e) as [[rs s1] e1]. destruct H as [Hw Hf]. cbn in Hw, Hf.
  destruct Hd as [[_ HD] _].
  { clear. intros cmd s e [Hw HD]. pose proof (process_steps cmd s e Hw) as Hp.
    destruct (process cmd s e) as [[r s2] e2]. destruct Hp as (Hw1 & HD1 & _). split; [split|]; congruence || done. }
  assert (Hnd : NoDup order) by (rewrite Hperm; apply NoDup_elements).
  pose proof (shutdown_stops order s1 e1) as Hstop.
  pose proof (shutdown_dom order s1 e1) as HdomS.
  destruct (shutdown order s1 e1) as [[[] s2] e2]. cbn in Hstop, HdomS |- *. intros id svc Hsvc.
  assert (Hin : id ∈ dom (services s1)) by (rewrite <- HdomS; apply elem_of_dom; eauto).
  assert (Ho : id ∈ order) by (rewrite Hperm, <- HD; by apply elem_of_elements).
  apply elem_of_dom in Hin as [svc1 Hsvc1]. destruct (Hstop id svc1 Hnd Ho Hsvc1) as [e3 He3].
  rewrite Hsvc in He3. injection He3 as ->. unfold stopped_in.
  destruct (proj1 (wf_lookup s1 id Hw) (ex_intro _ svc1 Hsvc1)) as [st Hst].
  destruct (Hf id st svc1 Hst Hsvc1) as [Hi _]. pose proof (law_stop svc1 e3 Hi) as Hl.
  destruct (svc_stop svc1 e3) as [[r svc'] e4]. by destruct Hl as (_ & Hu & _).
Qed.
End Contract.
