(* ===== verification/KeyManagement.v ===== *)
(** * KeyManagement: broadcast keys (beacon_management/key_management.rs)

    The state is the table [broadcast_keys] of migrations/0004 (a list of rows in
    insertion order, [key_id] being its primary key); each SQL statement is the
    function on the table it denotes, run unless the driver reports an error.
    Unix times are [i64], durations whole seconds; [+] on [i64] wraps, as in a
    release build, and the bounds under which it does not are stated where they
    matter. *)

From Stdlib Require Import ZArith Lia Ascii.
From stdpp Require Import base list strings vector.
From S2P Require Import Prelude Types Env Demo.

(** ** Data *)

(** A row of [broadcast_keys]. *)
Record KeyRow := mkRow {
  row_key_id : bytes;
  row_key_material : bytes;
  row_created_at : Z;
  row_rotates_at : Z;
  row_expires_at : Z;
  row_is_active : Z;
}.

(** A broadcast key loaded from the database. *)
Record BroadcastKey := mkKey {
  key_id : vec byte 4;
  key_material : vec byte 16;
  rotates_at : Z;
  expires_at : Z;
}.

(** The manager; the pool it holds is the state of the programs below. *)
Record BroadcastKeyManagement := {
  rotation_interval : Z;
  key_expiry : Z;
}.

Definition BroadcastKeyManagement_new (rotation_interval key_expiry : Z) : BroadcastKeyManagement :=
  {| rotation_interval := rotation_interval; key_expiry := key_expiry |}.

(** ** Helpers *)

(** [<[u8; N]>::try_from(slice)] *)
Fixpoint array_of (n : nat) (l : bytes) : option (vec byte n) :=
  match n, l with
  | O, [] => Some [#]
  | Datatypes.S n, b :: l => vcons b <$> array_of n l
  | _, _ => None
  end.

Definition hex_digit (n : N) : ascii :=
  if decide (n < 10)%N then ascii_of_N (48 + n) else ascii_of_N (87 + n).

(** [format!("{:02x}", b)] *)
Definition hex_byte (b : byte) : string :=
  String (hex_digit (Byte.to_N b / 16)) (String (hex_digit (Byte.to_N b mod 16)) "").

Definition hex_encode (l : bytes) : string :=
  foldr (fun b s => hex_byte b +:+ s) "" l.

Definition byte_of_Z (z : Z) : byte := default x00 (Byte.of_N (Z.to_N (z `mod` 256))).

(** [x.to_be_bytes()] of an integer of [n] bytes. *)
Fixpoint to_be_bytes (n : nat) (z : Z) : bytes :=
  match n with
  | O => []
  | Datatypes.S n => byte_of_Z (z / 256 ^ Z.of_nat n) :: to_be_bytes n z
  end.

Definition size_error (column : string) (n expected : nat) : string :=
  "Corrupt broadcast_keys row: " +:+ column +:+ " is " +:+ pretty.pretty n +:+
  " bytes, expected " +:+ pretty.pretty expected.

Definition build_key (key_id_bytes key_material_bytes : bytes) (rotates_at expires_at : Z)
  : result BroadcastKey string :=
  match array_of 4 key_id_bytes with
  | None => Err (size_error "key_id" (length key_id_bytes) 4)
  | Some key_id =>
      match array_of 16 key_material_bytes with
      | None => Err (size_error "key_material" (length key_material_bytes) 16)
      | Some key_material => Ok (mkKey key_id key_material rotates_at expires_at)
      end
  end.

(** ** SQL statements *)

(** [SELECT .. WHERE is_active = 1 AND rotates_at > ? ORDER BY rotates_at DESC LIMIT 1] *)
Definition select_active (now : Z) (rows : list KeyRow) : option KeyRow :=
  foldr (fun r best =>
           if decide (row_is_active r = 1 /\ row_rotates_at r > now)%Z then
             match best with
             | Some b => if decide (row_rotates_at b > row_rotates_at r)%Z then Some b else Some r
             | None => Some r
             end
           else best) None rows.

(** [UPDATE broadcast_keys SET is_active = 0 WHERE is_active = 1] *)
Definition retire (r : KeyRow) : KeyRow :=
  mkRow (row_key_id r) (row_key_material r) (row_created_at r) (row_rotates_at r)
    (row_expires_at r) (if decide (row_is_active r = 1%Z) then 0 else row_is_active r).

Definition retire_active (rows : list KeyRow) : list KeyRow := retire <$> rows.

(** [INSERT INTO broadcast_keys ..], refused when the primary key is taken. *)
Definition insert_key (r : KeyRow) (rows : list KeyRow) : option (list KeyRow) :=
  if decide (row_key_id r ∈ row_key_id <$> rows) then None else Some (rows ++ [r]).

(** [DELETE FROM broadcast_keys WHERE expires_at <= ?] *)
Definition delete_expired (now : Z) (rows : list KeyRow) : list KeyRow :=
  filter (fun r => ~ (row_expires_at r <= now)%Z) rows.

#[global] Arguments select_active : simpl never.
#[global] Arguments retire_active : simpl never.
#[global] Arguments delete_expired : simpl never.
#[global] Arguments insert_key : simpl never.

(** ** Operations *)

Section KeyManagement.
Context {X : Ext}.

Definition rotate_key (km : BroadcastKeyManagement)
  : Prog (list KeyRow) (result BroadcastKey string) :=
  now ← unix_now;
  let rotates_at := wrap_i64 (now + wrap_i64 (rotation_interval km)) in
  let expires_at := wrap_i64 (now + wrap_i64 (key_expiry km)) in
  key_material ← call (RandArray 16);
  key_id ← call (RandArray 4);
  _ ←? sql SqlRetireKeys "Failed to retire active broadcast keys: ";
  _ ← modify retire_active;
  _ ←? sql SqlInsertKey "Failed to insert new broadcast key: ";
  rows ← get;
  match insert_key (mkRow (vec_to_list (n:=4) key_id) (vec_to_list (n:=16) key_material)
                      now rotates_at expires_at 1) rows with
  | None => mret (Err ("Failed to insert new broadcast key: " +:+ constraint_failed))
  | Some rows' =>
      _ ← put rows';
      mret (Ok (mkKey key_id key_material rotates_at expires_at))
  end.

Definition get_or_rotate_key (km : BroadcastKeyManagement)
  : Prog (list KeyRow) (result BroadcastKey string) :=
  now ← unix_now;
  _ ←? sql SqlSelectActiveKey "Failed to query broadcast keys: ";
  rows ← get;
  match select_active now rows with
  | Some r => mret (build_key (row_key_id r) (row_key_material r)
                      (row_rotates_at r) (row_expires_at r))
  | None => rotate_key km
  end.

(** The slot a Unix time falls in. *)
Definition slot_at (km : BroadcastKeyManagement) (now : Z) : Z :=
  let rotation_secs := Z.max (rotation_interval km) 1 in
  wrap_u64 now / rotation_secs.

(** [HMAC-SHA256(key_material, slot.to_be_bytes())[0..4]] *)
Definition token_for (key : BroadcastKey) (slot : Z) : vec byte 4 :=
  let r := hmac_sha256 (key_material key) (to_be_bytes 8 slot) in
  [# r !!! 0%fin; r !!! 1%fin; r !!! 2%fin; r !!! 3%fin].

Definition generate_token {S} (km : BroadcastKeyManagement) (key : BroadcastKey)
  : Prog S (vec byte 4) :=
  now ← unix_now; mret (token_for key (slot_at km now)).

Definition ota_fields {S} (km : BroadcastKeyManagement) (key : BroadcastKey)
  : Prog S (string * string) :=
  let kid := hex_encode (key_id key) in
  token ← generate_token km key;
  mret (kid, hex_encode (vec_to_list (n:=4) token)).

Definition sweep_expired : Prog (list KeyRow) (result nat string) :=
  now ← unix_now;
  _ ←? sql SqlSweepKeys "Failed to sweep expired broadcast keys: ";
  rows ← get;
  let rows' := delete_expired now rows in
  _ ← put rows';
  mret (Ok (length rows - length rows')%nat).
End KeyManagement.

(** ** The table's invariant *)

Definition active (r : KeyRow) : Prop := row_is_active r = 1%Z.

#[export] Instance active_dec r : Decision (active r).
Proof. unfold active. apply _. Defined.

Record row_ok (r : KeyRow) : Prop := {
  ok_id : length (row_key_id r) = 4%nat;
  ok_material : length (row_key_material r) = 16%nat;
  ok_flag : row_is_active r = 0%Z \/ row_is_active r = 1%Z;
}.

Record keys_wf (rows : list KeyRow) : Prop := {
  wf_ids : NoDup (row_key_id <$> rows);
  wf_rows : Forall row_ok rows;
  wf_active : (length (filter active rows) <= 1)%nat;
}.

Lemma keys_wf_nil : keys_wf [].
Proof. split; [constructor|constructor|cbn; lia]. Qed.

Lemma active_retire r : ~ active (retire r).
Proof. unfold active, retire. cbn. case_decide; lia. Qed.

Lemma retire_ids rows : row_key_id <$> retire_active rows = row_key_id <$> rows.
Proof. unfold retire_active. by rewrite <- list_fmap_compose. Qed.

Lemma retire_active_none rows : filter active (retire_active rows) = [].
Proof.
  induction rows as [|r rows IH]; [done|].
  change (retire_active (r :: rows)) with (retire r :: retire_active rows).
  rewrite filter_cons_False; [done|apply active_retire].
Qed.

Lemma elem_of_retire r rows :
  r ∈ rows -> retire r ∈ retire_active rows.
Proof. apply list_elem_of_fmap_2. Qed.

Lemma row_ok_retire r : row_ok r -> row_ok (retire r).
Proof. intros [H1 H2 H3]. split; [done|done|]. cbn. case_decide; tauto. Qed.

Lemma keys_wf_retire rows : keys_wf rows -> keys_wf (retire_active rows).
Proof.
  intros [H1 H2 H3]. split.
  - by rewrite retire_ids.
  - apply Forall_fmap. eapply Forall_impl; [done|]. apply row_ok_retire.
  - rewrite retire_active_none. cbn. lia.
Qed.

Lemma keys_wf_insert rows r :
  keys_wf (retire_active rows) -> row_ok r -> row_key_id r ∉ row_key_id <$> rows ->
  keys_wf (retire_active rows ++ [r]).
Proof.
  intros [H1 H2 H3] Hr Hni. split.
  - rewrite fmap_app. apply NoDup_app. split; [done|]. split.
    + intros x Hx. rewrite retire_ids in Hx. intros ->%list_elem_of_singleton. done.
    + apply NoDup_singleton.
  - apply Forall_app. split; [done|by apply Forall_singleton].
  - rewrite filter_app, retire_active_none. cbn. case_decide; cbn; lia.
Qed.

Lemma keys_wf_delete rows now : keys_wf rows -> keys_wf (delete_expired now rows).
Proof.
  intros [H1 H2 H3]. unfold delete_expired. split.
  - eapply sublist_NoDup; [done|]. apply fmap_sublist, sublist_filter.
  - rewrite Forall_forall in *. intros x [_ Hx]%list_elem_of_filter. auto.
  - etrans; [apply filter_filter_length|done].
Qed.

Lemma select_active_cons now r rows :
  select_active now (r :: rows) =
  if decide (row_is_active r = 1 /\ row_rotates_at r > now)%Z then
    match select_active now rows with
    | Some b => if decide (row_rotates_at b > row_rotates_at r)%Z then Some b else Some r
    | None => Some r
    end
  else select_active now rows.
Proof. done. Qed.

Lemma select_active_Some now rows r :
  select_active now rows = Some r -> r ∈ rows /\ active r /\ (row_rotates_at r > now)%Z.
Proof.
  revert r. induction rows as [|a rows IH]; intros r; [done|]. rewrite select_active_cons.
  destruct (decide _) as [Ha|Ha].
  - destruct (select_active now rows) as [b|].
    + specialize (IH b eq_refl). destruct (decide _); intros [= <-]; unfold active; set_solver.
    + intros [= <-]. unfold active. set_solver.
  - intros H. apply IH in H. set_solver.
Qed.

Lemma select_active_None now rows :
  select_active now rows = None <->
  forall r, r ∈ rows -> active r -> (row_rotates_at r <= now)%Z.
Proof.
  induction rows as [|a rows IH]; [set_solver|]. rewrite select_active_cons.
  destruct (decide _) as [Ha|Ha].
  - split; [destruct (select_active now rows); [destruct (decide _)|]; done|].
    intros H. specialize (H a ltac:(set_solver)). unfold active in H. lia.
  - rewrite IH. split; intros H r; [|set_solver].
    rewrite elem_of_cons. unfold active in *. intros [->|Hr]; [lia|auto].
Qed.

(** ** What the operations do *)

Section Theory.
Context {X : Ext}.
Implicit Types (km : BroadcastKeyManagement) (rows : list KeyRow) (e : Env).

(** The row of a key generated at [now]. *)
Definition fresh_row km (id : vec byte 4) (material : vec byte 16) (now : Z) : KeyRow :=
  mkRow id material now (wrap_i64 (now + wrap_i64 (rotation_interval km)))
    (wrap_i64 (now + wrap_i64 (key_expiry km))) 1.

Definition key_of_row (r : KeyRow) : result BroadcastKey string :=
  build_key (row_key_id r) (row_key_material r) (row_rotates_at r) (row_expires_at r).

(** The four ways a call of [get_or_rotate_key] can end, the clock showing
    [now1] at its first reading and [now2] at its second. *)
Inductive key_outcome km (now1 now2 : Z) rows
  : result BroadcastKey string -> list KeyRow -> Prop :=
| ko_unchanged err : key_outcome km now1 now2 rows (Err err) rows
| ko_current r :
    select_active now1 rows = Some r ->
    key_outcome km now1 now2 rows (key_of_row r) rows
| ko_insert_failed err :
    select_active now1 rows = None ->
    key_outcome km now1 now2 rows (Err err) (retire_active rows)
| ko_rotated id material :
    select_active now1 rows = None ->
    vec_to_list id ∉ row_key_id <$> rows ->
    key_outcome km now1 now2 rows
      (Ok (mkKey id material (row_rotates_at (fresh_row km id material now2))
             (row_expires_at (fresh_row km id material now2))))
      (retire_active rows ++ [fresh_row km id material now2]).

Lemma get_or_rotate_outcome km rows e :
  let '(r, rows', _) := get_or_rotate_key km rows e in
  key_outcome km (clock_at e (clk e)) (clock_at e (Datatypes.S (Datatypes.S (clk e)))) rows r rows'.
Proof.
  unfold get_or_rotate_key, unix_now. run_prog. case_answer; [constructor|].
  fold (clock_at e (clk e)).
  destruct (select_active (clock_at e (clk e)) rows) as [r|] eqn:Hsel; [by constructor|].
  unfold rotate_key, unix_now. run_prog. case_answer; [by constructor|].
  cbn. case_answer; [by constructor|]. cbn.
  unfold insert_key. case_decide as Hid; [by constructor|].
  rewrite retire_ids in Hid. by apply ko_rotated.
Qed.

Lemma array_of_vec {n} (v : vec byte n) : array_of n (vec_to_list v) = Some v.
Proof. induction v as [|b n v IH]; [done|]. cbn. by rewrite IH. Qed.

Lemma array_of_length n l : length l = n -> exists v : vec byte n, array_of n l = Some v /\ vec_to_list v = l.
Proof.
  revert l. induction n as [|n IH]; intros [|b l] Hl; try done; [by exists [#]|].
  destruct (IH l) as (v & Hv & <-); [by injection Hl|]. cbn. rewrite Hv. by exists (b ::: v).
Qed.

Lemma key_of_row_ok r : row_ok r -> exists k, key_of_row r = Ok k
  /\ vec_to_list (key_id k) = row_key_id r /\ vec_to_list (key_material k) = row_key_material r
  /\ rotates_at k = row_rotates_at r /\ expires_at k = row_expires_at r.
Proof.
  intros [H1 H2 _]. destruct (array_of_length _ _ H1) as (v1 & E1 & <-).
  destruct (array_of_length _ _ H2) as (v2 & E2 & <-).
  unfold key_of_row, build_key. rewrite E1, E2. eauto 10.
Qed.

Lemma fresh_row_ok km id material now : row_ok (fresh_row km id material now).
Proof. split; cbn; [apply length_vec_to_list..|by right]. Qed.

Lemma key_outcome_wf km now1 now2 rows r rows' :
  keys_wf rows -> key_outcome km now1 now2 rows r rows' -> keys_wf rows'.
Proof.
  intros Hwf [err|r0 Hs|err Hs|id material Hs Hid]; [done|done|by apply keys_wf_retire|].
  apply keys_wf_insert; [by apply keys_wf_retire|apply fresh_row_ok|done].
Qed.

(** The calls a broadcast cycle makes on the table. *)
Inductive key_op := OpGetOrRotate | OpSweep.

Definition run_op km (o : key_op) : Prog (list KeyRow) unit :=
  match o with
  | OpGetOrRotate => _ ← get_or_rotate_key km; mret tt
  | OpSweep => _ ← sweep_expired; mret tt
  end.

Definition run_ops km (os : list key_op) : Prog (list KeyRow) unit := for_each os (run_op km).
Lemma sweep_eq rows e :
  sweep_expired rows e =
  let rows' := delete_expired (clock_at e (clk e)) rows in
  match oracle e _ (SqlExec SqlSweepKeys) (Datatypes.S (clk e)) with
  | Some err => (Err ("Failed to sweep expired broadcast keys: " +:+ err), rows,
                 (sweep_expired rows e).2)
  | None => (Ok (length rows - length rows')%nat, rows', (sweep_expired rows e).2)
  end.
Proof. unfold sweep_expired, unix_now. run_prog. by case_answer. Qed.

(** How one operation of the cycle changes the table, the clock readings it
    makes being among those of [e]. *)
Inductive op_effect km e rows : list KeyRow -> Prop :=
| oe_rotate n1 n2 r rows' :
    key_outcome km (clock_at e n1) (clock_at e n2) rows r rows' -> op_effect km e rows rows'
| oe_sweep n : op_effect km e rows (delete_expired (clock_at e n) rows)
| oe_none : op_effect km e rows rows.

Lemma run_op_effect km o rows e :
  op_effect km e rows (run_op km o rows e).1.2 /\ oracle (run_op km o rows e).2 = oracle e.
Proof.
  destruct o; cbn; unfold mbind, prog_bind, mret, prog_ret.
  - pose proof (get_or_rotate_outcome km rows e) as H.
    split.
    + destruct (get_or_rotate_key km rows e) as [[r rows'] e'] eqn:E. by econstructor.
    + unfold get_or_rotate_key, rotate_key, unix_now. clear H. run_prog. case_answer; [done|].
      destruct (select_active _ rows); [done|]. run_prog. case_answer; [done|].
      cbn. case_answer; [done|]. cbn. by destruct (insert_key _ _).
  - split.
    + rewrite sweep_eq. case_answer; [apply oe_none|apply oe_sweep].
    + unfold sweep_expired, unix_now. run_prog. by case_answer.
Qed.

(** A property of the table kept by every effect possible in [e] holds after any run. *)
Lemma run_ops_ind km e (P : list KeyRow -> Prop) :
  (forall rows rows', P rows -> op_effect km e rows rows' -> P rows') ->
  forall os rows e', oracle e' = oracle e -> P rows -> P (run_ops km os rows e').1.2.
Proof.
  intros Hstep os. induction os as [|o os IH]; intros rows e' Ho HP; [done|].
  unfold run_ops in *. cbn. unfold mbind, prog_bind.
  destruct (run_op_effect km o rows e') as [Heff Ho'].
  destruct (run_op km o rows e') as [[[] rows1] e1]. cbn in *.
  apply IH; [congruence|]. eapply Hstep; [done|].
  destruct Heff as [n1 n2 r rows1 Hk| n |]; [|by unfold clock_at; rewrite Ho; constructor|constructor].
  apply (oe_rotate km e rows n1 n2 r). unfold clock_at in *. by rewrite Ho in Hk.
Qed.

(** C16: from the empty table, after any sequence of rotations and sweeps, with any
    clock, any random draws and any database failures: key ids are unique, every
    row decodes (4- and 16-byte blobs), and at most one key is active. *)
Theorem broadcast_keys_invariant km os e : keys_wf (run_ops km os [] e).1.2.
Proof.
  apply (run_ops_ind km e keys_wf); [|done|apply keys_wf_nil].
  intros rows rows' Hwf [n1 n2 r rows1 Hk|n|]; [by eapply key_outcome_wf|by apply keys_wf_delete|done].
Qed.

Lemma active_unique rows r1 r2 :
  keys_wf rows -> r1 ∈ rows -> r2 ∈ rows -> active r1 -> active r2 -> r1 = r2.
Proof.
  intros [_ _ Hle] H1 H2 A1 A2.
  assert (E1 : r1 ∈ filter active rows) by by apply list_elem_of_filter.
  assert (E2 : r2 ∈ filter active rows) by by apply list_elem_of_filter.
  destruct (filter active rows) as [|a [|b l]]; cbn in Hle; [set_solver|set_solver|lia].
Qed.

(** C7: the key [get_or_rotate_key] returns is the one active row of the table it
    leaves behind, decoded; and when no rotation was due it is not past its
    [rotates_at]. *)
Theorem get_or_rotate_returns_active_key km rows e k rows' e' :
  keys_wf rows -> get_or_rotate_key km rows e = (Ok k, rows', e') ->
  exists row, row ∈ rows' /\ active row /\ key_of_row row = Ok k /\
    (forall row', row' ∈ rows' -> active row' -> row' = row) /\
    (rows' = rows -> (rotates_at k > clock_at e (clk e))%Z).
Proof.
  intros Hwf E. pose proof (get_or_rotate_outcome km rows e) as H. rewrite E in H.
  pose proof (key_outcome_wf _ _ _ _ _ _ Hwf H) as Hwf'.
  inversion H as [|r Hsel Hk|?|id material Hsel Hid Hk Hrows]; subst; simplify_eq.
  - destruct (select_active_Some _ _ _ Hsel) as (Hin & Ha & Hr).
    exists r. do 2 (split; [done|]). split; [done|]. split.
    + intros row' Hin' Ha'. by eapply active_unique.
    + intros _. pose proof (wf_rows _ Hwf) as Hok. rewrite Forall_forall in Hok.
      destruct (key_of_row_ok r (Hok _ Hin)) as (k0 & Ek & _ & _ & Hrot & _).
      assert (k0 = k) as -> by congruence. by rewrite Hrot.
  - exists (fresh_row km id material (clock_at e (Datatypes.S (Datatypes.S (clk e))))).
    split; [set_solver|]. split; [done|]. split.
    + unfold key_of_row, build_key. cbn [row_key_id row_key_material fresh_row].
      by rewrite !array_of_vec.
    + split; [intros; eapply active_unique; done || set_solver|].
      intros Hl. apply (f_equal length) in Hl.
      unfold retire_active in Hl. rewrite length_app, length_fmap in Hl. cbn in Hl. lia.
Qed.

(** While the active key is not due for rotation, asking for the key again and
    again returns that key, draws no random number and writes nothing: the only
    calls made are one clock reading and one query. *)
Theorem get_or_rotate_stable km rows e row :
  keys_wf rows -> row ∈ rows -> active row ->
  (clock_at e (clk e) < row_rotates_at row)%Z ->
  oracle e _ (SqlExec SqlSelectActiveKey) (Datatypes.S (clk e)) = None ->
  exists t, get_or_rotate_key km rows e =
    (key_of_row row, rows,
     mkEnv (oracle e) (Datatypes.S (Datatypes.S (clk e)))
       ((trace e ++ [Ev SystemTimeNow t]) ++ [Ev (SqlExec SqlSelectActiveKey) None])).
Proof.
  intros Hwf Hin Ha Hdue Hsql. unfold get_or_rotate_key, unix_now. run_prog.
  rewrite Hsql. cbn. fold (clock_at e (clk e)).
  destruct (select_active (clock_at e (clk e)) rows) as [r|] eqn:Hsel.
  - apply select_active_Some in Hsel as (Hin' & Ha' & _).
    rewrite (active_unique rows r row) by done. eauto.
  - rewrite select_active_None in Hsel. specialize (Hsel row Hin Ha). lia.
Qed.

(** Rotation is not atomic.  When [get_or_rotate_key] reports an error the
    table holds the same keys as before, but either it is untouched or every key
    in it has been retired: after a failed insert no key is active. *)
Theorem get_or_rotate_error_state km rows e :
  let '(r, rows', _) := get_or_rotate_key km rows e in
  is_ok r = false ->
  row_key_id <$> rows' = row_key_id <$> rows /\
  (rows' = rows \/ rows' = retire_active rows /\ filter active rows' = []).
Proof.
  pose proof (get_or_rotate_outcome km rows e) as H.
  destruct (get_or_rotate_key km rows e) as [[r rows'] e'].
  intros Hr. destruct H as [err|row Hsel|err Hsel|id material Hsel Hid]; [by auto|by auto| |done].
  split; [apply retire_ids|right]. split; [done|apply retire_active_none].
Qed.
(** The id a rotation would draw at its turn (the fifth call). *)
Definition drawn_id e : vec byte 4 :=
  oracle e _ (RandArray 4) (4 + clk e)%nat.

(** With a working database, and a random id that is not taken, a key is always
    obtained: no state of the table blocks the broadcast loop. *)
Theorem get_or_rotate_succeeds km rows e :
  keys_wf rows -> (forall stmt n, oracle e _ (SqlExec stmt) n = None) ->
  vec_to_list (drawn_id e) ∉ row_key_id <$> rows ->
  exists k rows' e', get_or_rotate_key km rows e = (Ok k, rows', e').
Proof.
  intros Hwf Hsql Hid. unfold get_or_rotate_key, unix_now. run_prog. rewrite Hsql.
  fold (clock_at e (clk e)).
  destruct (select_active (clock_at e (clk e)) rows) as [r|] eqn:Hsel.
  - apply select_active_Some in Hsel as (Hin & _ & _).
    pose proof (wf_rows _ Hwf) as Hok. rewrite Forall_forall in Hok.
    destruct (key_of_row_ok r (Hok _ Hin)) as (k & Ek & _).
    unfold key_of_row in Ek. rewrite Ek. eauto.
  - unfold rotate_key, unix_now. run_prog. repeat (rewrite Hsql; cbn).
    unfold insert_key. rewrite retire_ids.
    destruct (decide (_ ∈ _)) as [Hc|_]; [by destruct (Hid Hc)|]. by do 3 eexists.
Qed.

(** What a beacon needs in order to verify a message sent under a key. *)
Definition holds_key (rows : list KeyRow) (id material : bytes) (expires : Z) : Prop :=
  exists r, r ∈ rows /\ row_key_id r = id /\ row_key_material r = material
            /\ row_expires_at r = expires.

(** C36: a key is never lost early: as long as no clock reading reaches its
    [expires_at], rotations and sweeps in any order keep it in the table, with its
    material, whether active or retired. *)
Theorem key_retained_until_expiry km os rows e id material expires :
  holds_key rows id material expires ->
  (forall n, clock_at e n < expires)%Z ->
  holds_key (run_ops km os rows e).1.2 id material expires.
Proof.
  intros Hk Hclock. apply (run_ops_ind km e (fun rows => holds_key rows id material expires));
    [|done|done].
  clear rows os Hk. intros rows rows' (r & Hin & <- & <- & <-) Heff.
  assert (Hret : holds_key (retire_active rows) (row_key_id r) (row_key_material r) (row_expires_at r)).
  { exists (retire r). split; [by apply elem_of_retire|done]. }
  destruct Heff as [n1 n2 res rows1 Hk|n|]; [|..].
  - destruct Hk as [err|row Hsel|err Hsel|i m Hsel Hid]; [by exists r|by exists r|done|].
    destruct Hret as (r' & Hr' & H). exists r'. split; [set_solver|done].
  - exists r. split; [|done]. apply list_elem_of_filter. split; [|done].
    specialize (Hclock n). lia.
  - by exists r.
Qed.

(** A sweep deletes exactly the keys whose [expires_at] has been reached, and
    reports how many; on a database error it deletes nothing. *)
Theorem sweep_deletes_exactly_expired rows e :
  let now := clock_at e (clk e) in
  let '(r, rows', _) := sweep_expired rows e in
  match r with
  | Ok n => n = length (filter (fun x => (row_expires_at x <= now)%Z) rows) /\
            forall x, x ∈ rows' <-> x ∈ rows /\ (now < row_expires_at x)%Z
  | Err _ => rows' = rows
  end.
Proof.
  cbn zeta. rewrite sweep_eq. cbn zeta. case_answer; [done|]. split.
  - unfold delete_expired.
    assert (Hl : forall l : list KeyRow, length l =
      (length (filter (fun x => (row_expires_at x <= clock_at e (clk e))%Z) l)
       + length (filter (fun x => ~ (row_expires_at x <= clock_at e (clk e))%Z) l))%nat).
    { intros l. induction l as [|x l IH]; [done|].
      destruct (decide (row_expires_at x <= clock_at e (clk e))%Z) as [Hx|Hx].
      - rewrite filter_cons_True, filter_cons_False by (done || (intros Hn; by apply Hn)).
        cbn. rewrite IH at 1. lia.
      - rewrite filter_cons_False, filter_cons_True by done. cbn. rewrite IH at 1. lia. }
    specialize (Hl rows). lia.
  - intros x. unfold delete_expired. rewrite list_elem_of_filter. split; intros []; split; done || lia.
Qed.

(** The clock and the configured durations stay within the range in which no
    deadline overflows: 32-bit durations (as [Config] parses them) and a date
    before the year 2262. *)
Definition in_range km e : Prop :=
  (0 <= rotation_interval km < 2 ^ 32)%Z /\ (0 <= key_expiry km < 2 ^ 32)%Z /\
  forall n, (0 <= clock_at e n < 2 ^ 62)%Z.

(** Every row expires [key_expiry - rotation_interval] seconds after it rotates. *)
Definition deadlines km (rows : list KeyRow) : Prop :=
  Forall (fun r => row_expires_at r - row_rotates_at r = key_expiry km - rotation_interval km)%Z rows.

Lemma deadlines_run km os e : in_range km e -> deadlines km (run_ops km os [] e).1.2.
Proof.
  intros (HR & HE & HC). apply (run_ops_ind km e (deadlines km)); [|done|constructor].
  intros rows rows' Hd [n1 n2 res rows1 Hk|n|]; [| |done].
  - assert (Hret : deadlines km (retire_active rows)).
    { apply Forall_fmap. eapply Forall_impl; [exact Hd|]. done. }
    destruct Hk as [err|row Hsel|err Hsel|i m Hsel Hid]; [done|done|done|].
    apply Forall_app. split; [done|]. apply Forall_singleton. cbn.
    specialize (HC n2). rewrite !(wrap_i64_id (rotation_interval km)), !(wrap_i64_id (key_expiry km)) by lia.
    rewrite !wrap_i64_id by lia. lia.
  - unfold deadlines in *. rewrite Forall_forall in *. intros x [_ Hx]%list_elem_of_filter. auto.
Qed.

(** With [key_expiry >= rotation_interval] a sweep never deletes a key that is
    still due to be used: in every reachable table, a key that has not reached its
    [rotates_at] survives the sweep.  (The configuration does not enforce the
    inequality: see [short_expiry_loses_active_key].) *)
Theorem sweep_keeps_unrotated_keys km os e r :
  in_range km e -> (rotation_interval km <= key_expiry km)%Z ->
  let '(_, rows, e') := run_ops km os [] e in
  r ∈ rows -> (clock_at e' (clk e') < row_rotates_at r)%Z ->
  r ∈ (sweep_expired rows e').1.2.
Proof.
  intros Hin Hle. pose proof (deadlines_run km os e Hin) as Hd.
  destruct (run_ops km os [] e) as [[[] rows] e']. cbn in Hd. intros Hr Hnow.
  rewrite sweep_eq. case_answer; [done|]. cbn.
  apply list_elem_of_filter. split; [|done].
  unfold deadlines in Hd. rewrite Forall_forall in Hd. specialize (Hd r Hr). lia.
Qed.
End Theory.

(** ** Encodings *)

#[local] Arguments String.append !_ _ : simpl nomatch.

Definition hex_val (a : ascii) : option N :=
  let n := N_of_ascii a in
  if decide (48 <= n <= 57)%N then Some (n - 48)%N
  else if decide (97 <= n <= 102)%N then Some (n - 87)%N else None.

(** Reading hexadecimal digits two by two. *)
Fixpoint hex_decode (s : string) : option bytes :=
  match s with
  | "" => Some []
  | String a (String b s) =>
      x ← hex_val a; y ← hex_val b; c ← Byte.of_N (16 * x + y); l ← hex_decode s; Some (c :: l)
  | String _ "" => None
  end.

Lemma hex_decode_byte (b : byte) (s : string) :
  hex_decode (hex_byte b +:+ s) = l ← hex_decode s; Some (b :: l).
Proof. by destruct b. Qed.

Lemma hex_decode_encode (l : bytes) : hex_decode (hex_encode l) = Some l.
Proof.
  induction l as [|b l IH]; [done|].
  change (hex_encode (b :: l)) with (hex_byte b +:+ hex_encode l). by rewrite hex_decode_byte, IH.
Qed.

Lemma hex_encode_length (l : bytes) : String.length (hex_encode l) = (2 * length l)%nat.
Proof.
  induction l as [|b l IH]; [done|].
  change (hex_encode (b :: l)) with (hex_byte b +:+ hex_encode l). unfold hex_byte.
  cbn [String.append String.length length]. rewrite IH. lia.
Qed.

#[export] Instance hex_encode_inj : Inj (=) (=) hex_encode.
Proof.
  intros l1 l2 H. apply (f_equal hex_decode) in H. rewrite !hex_decode_encode in H. by injection H.
Qed.

(** [u64::from_be_bytes] *)
Definition from_be_bytes (l : bytes) : Z :=
  fold_left (fun acc b => acc * 256 + Z.of_N (Byte.to_N b))%Z l 0%Z.

Lemma byte_of_Z_spec (z : Z) : Z.of_N (Byte.to_N (byte_of_Z z)) = (z `mod` 256)%Z.
Proof.
  unfold byte_of_Z. pose proof (Z.mod_pos_bound z 256 ltac:(lia)) as Hb.
  destruct (Byte.of_N (Z.to_N (z `mod` 256))) as [b|] eqn:E; cbn.
  - apply Byte.to_of_N in E. rewrite E. lia.
  - apply Byte.of_N_None_iff in E. lia.
Qed.

Lemma fold_be_bytes (n : nat) (z acc : Z) :
  fold_left (fun acc b => acc * 256 + Z.of_N (Byte.to_N b))%Z (to_be_bytes n z) acc
  = (acc * 256 ^ Z.of_nat n + z `mod` 256 ^ Z.of_nat n)%Z.
Proof.
  revert acc. induction n as [|n IH]; intros acc.
  - cbn. rewrite Z.mod_1_r. lia.
  - cbn [to_be_bytes fold_left]. rewrite IH, byte_of_Z_spec.
    replace (Z.of_nat (S n)) with (Z.of_nat n + 1)%Z by lia.
    rewrite Z.pow_add_r by lia. set (p := (256 ^ Z.of_nat n)%Z).
    assert (0 < p)%Z by (apply Z.pow_pos_nonneg; lia).
    change (256 ^ 1)%Z with 256%Z. rewrite Z.rem_mul_r by lia. lia.
Qed.

Lemma from_to_be_bytes (n : nat) (z : Z) :
  (0 <= z < 256 ^ Z.of_nat n)%Z -> from_be_bytes (to_be_bytes n z) = z.
Proof.
  intros Hz. unfold from_be_bytes. rewrite fold_be_bytes, Z.mod_small by done. lia.
Qed.

Section Tokens.
Context {X : Ext}.

Lemma slot_at_bounds km t : (0 <= t < 2 ^ 63)%Z -> (0 <= slot_at km t < 2 ^ 64)%Z.
Proof.
  intros Ht. unfold slot_at. rewrite wrap_u64_id by lia.
  set (d := Z.max _ _). assert (1 <= d)%Z by lia. split.
  - apply Z.div_pos; lia.
  - apply Z.le_lt_trans with t; [|lia]. apply Z.div_le_upper_bound; nia.
Qed.

Lemma token_for_take key slot :
  vec_to_list (token_for key slot)
  = take 4 (vec_to_list (hmac_sha256 (key_material key) (to_be_bytes 8 slot))).
Proof. unfold token_for. generalize (hmac_sha256 (key_material key) (to_be_bytes 8 slot)). intros v. by inv_vec v. Qed.

(** C34: the over-the-air fields are 8 hexadecimal characters each; they decode to
    the key's id and to the first four bytes of the HMAC, under the key's
    material, of the current slot, which the HMAC input encodes without loss. *)
Theorem ota_fields_decode {S} km key (s : S) e :
  let t := clock_at e (clk e) in
  let '((kid, tok), s', _) := ota_fields km key s e in
  s' = s /\ String.length kid = 8%nat /\ String.length tok = 8%nat /\
  hex_decode kid = Some (vec_to_list (key_id key)) /\
  hex_decode tok = Some (take 4 (vec_to_list
    (hmac_sha256 (key_material key) (to_be_bytes 8 (slot_at km t))))) /\
  ((0 <= t)%Z -> from_be_bytes (to_be_bytes 8 (slot_at km t)) = slot_at km t).
Proof.
  cbn zeta.
  change (ota_fields km key s e) with
    ((hex_encode (key_id key), hex_encode (vec_to_list (token_for key (slot_at km (clock_at e (clk e)))))),
     s, (ota_fields km key s e).2).
  cbv beta iota. rewrite !hex_encode_length, !hex_decode_encode, token_for_take.
  split; [done|]. split; [by rewrite length_vec_to_list|]. split; [|split; [done|split; [done|]]].
  - rewrite length_take, length_vec_to_list. done.
  - intros Ht. apply from_to_be_bytes, slot_at_bounds. pose proof (clock_at_lt e (clk e)). lia.
Qed.

(** A beacon whose clock is in [slot] accepts the tokens of the neighbouring slots
    too. *)
Definition beacon_accepts (key : BroadcastKey) (slot : Z) (tok : vec byte 4) : Prop :=
  tok ∈ [token_for key (slot - 1); token_for key slot; token_for key (slot + 1)].

(** C35: a token is accepted by every beacon that holds the key and whose clock is
    within one rotation interval of this node's. *)
Theorem token_accepted_within_drift {S} km key (s : S) e t' :
  (0 <= clock_at e (clk e))%Z -> (0 <= t' < 2 ^ 63)%Z ->
  (Z.abs (clock_at e (clk e) - t') <= Z.max (rotation_interval km) 1)%Z ->
  beacon_accepts key (slot_at km t') (generate_token km key s e).1.1.
Proof.
  intros Ht Ht' Hd. unfold generate_token, unix_now. run_prog. fold (clock_at e (clk e)).
  set (t := clock_at e (clk e)) in *.
  pose proof (clock_at_lt e (clk e)). fold t in H.
  unfold beacon_accepts, slot_at. rewrite !wrap_u64_id by lia.
  set (d := Z.max (rotation_interval km) 1) in *. assert (1 <= d)%Z by lia.
  assert (t / d <= t' / d + 1)%Z.
  { rewrite <- Z.div_add with (b := 1%Z) by lia. apply Z.div_le_mono; lia. }
  assert (t' / d <= t / d + 1)%Z.
  { rewrite <- Z.div_add with (b := 1%Z) by lia. apply Z.div_le_mono; lia. }
  assert (t / d = t' / d - 1 \/ t / d = t' / d \/ t / d = t' / d + 1)%Z 
    as [Eq|[Eq|Eq]] by lia; rewrite Eq; set_solver.
Qed.
End Tokens.

(** ** Concrete runs

    The node rotates every 100 s and keeps keys for 300 s; the clock shows 1000. *)

Definition demo_km : BroadcastKeyManagement := {| rotation_interval := 100; key_expiry := 300 |}.

Definition demo_row : KeyRow := mkRow [x01; x02; x03; x04] (replicate 16 x07) 950 1050 1250 1.

Lemma demo_row_wf : keys_wf [demo_row].
Proof.
  split; [apply NoDup_singleton| |vm_compute; constructor].
  apply Forall_singleton. by split; [..|right].
Defined.

Lemma get_or_rotate_returns_active_key_witness :
  exists k rows' e', @get_or_rotate_key demo_ext demo_km [] demo_env = (Ok k, rows', e') /\
  exists row, row ∈ rows' /\ active row /\ key_of_row row = Ok k /\
    (forall row', row' ∈ rows' -> active row' -> row' = row) /\
    (rows' = [] -> (rotates_at k > clock_at demo_env 0)%Z).
Proof.
  assert (Hok : is_ok (@get_or_rotate_key demo_ext demo_km [] demo_env).1.1 = true) by by vm_compute.
  destruct (@get_or_rotate_key demo_ext demo_km [] demo_env) as [[[k|] rows'] e'] eqn:E;
    [|discriminate Hok].
  exists k, rows', e'. split; [reflexivity|].
  exact (get_or_rotate_returns_active_key demo_km [] demo_env k rows' e' keys_wf_nil E).
Defined.

Lemma get_or_rotate_stable_witness :
  exists t, @get_or_rotate_key demo_ext demo_km [demo_row] demo_env =
    (key_of_row demo_row, [demo_row],
     mkEnv (oracle demo_env) 2 [Ev SystemTimeNow t; Ev (SqlExec SqlSelectActiveKey) None]).
Proof.
  apply (get_or_rotate_stable demo_km [demo_row] demo_env demo_row);
    [apply demo_row_wf|by left|done|vm_compute; reflexivity|done].
Defined.

(** A rotation whose insert fails: the node had an active key, and now has none. *)
Definition failing_insert : @Env demo_ext := mkEnv (fun Y c n =>
  match c in Call Y return Y with
  | SqlExec SqlInsertKey => Some "disk I/O error"
  | SystemTimeNow => 2000%Z
  | c => oracle demo_env _ c n
  end) 0 [].

Example failed_rotation_retires_the_key :
  let '(r, rows, _) := get_or_rotate_key demo_km [demo_row] failing_insert in
  is_ok r = false /\ filter active rows = [] /\ (row_expires_at demo_row > 1200)%Z.
Proof. by vm_compute. Qed.

Lemma get_or_rotate_succeeds_witness :
  exists k rows' e', @get_or_rotate_key demo_ext demo_km [demo_row] demo_env = (Ok k, rows', e').
Proof.
  apply (get_or_rotate_succeeds demo_km [demo_row] demo_env); [apply demo_row_wf|done|].
  intros H. vm_compute in H. by apply list_elem_of_singleton in H.
Defined.

Lemma key_retained_until_expiry_witness :
  holds_key (run_ops demo_km [OpSweep; OpGetOrRotate; OpSweep] [demo_row] demo_env).1.2
    [x01; x02; x03; x04] (replicate 16 x07) 1250.
Proof.
  apply (key_retained_until_expiry demo_km _ _ demo_env).
  - exists demo_row. by split; [left|].
  - intros n. change (1000 < 1250)%Z. lia.
Defined.

Lemma sweep_keeps_unrotated_keys_witness :
  let '(_, rows, e') := run_ops demo_km [OpGetOrRotate] [] demo_env in
  let r := fresh_row demo_km [#x03; x03; x03; x03] (vreplicate 16 x02) 1000 in
  (clock_at e' (clk e') < row_rotates_at r)%Z /\
  (r ∈ rows -> r ∈ (sweep_expired rows e').1.2).
Proof.
  pose proof (sweep_keeps_unrotated_keys demo_km [OpGetOrRotate] demo_env
    (fresh_row demo_km [#x03; x03; x03; x03] (vreplicate 16 x02) 1000)) as H.
  destruct (run_ops demo_km [OpGetOrRotate] [] demo_env) as [[u rows] e'] eqn:E.
  assert (He : (clock_at e' (clk e') < row_rotates_at
    (fresh_row demo_km [#x03; x03; x03; x03] (vreplicate 16 x02) 1000))%Z).
  { change e' with ((u, rows, e').2). rewrite <- E. by vm_compute. }
  split; [exact He|]. intros Hin. apply H; [|done|exact Hin|exact He].
  split; [done|]. split; [done|]. intros n. change (0 <= 1000 < 2 ^ 62)%Z. lia.
Defined.

Lemma token_accepted_within_drift_witness :
  let key := mkKey [#x01; x02; x03; x04] (vreplicate 16 x07) 1050 1250 in
  @beacon_accepts demo_ext key (slot_at demo_km 1099) (generate_token demo_km key tt demo_env).1.1.
Proof.
  intros key. apply (token_accepted_within_drift demo_km key tt demo_env);
    vm_compute; [discriminate|split; [discriminate|done]|discriminate].
Defined.

(** The constraint [key_expiry > rotation_interval] of the documentation matters and is
    not checked: with [key_expiry = 50] the sweep that ends the broadcast cycle at which
    the clock shows 1060 deletes the active key, 40 s before it is due to rotate. *)
Definition clock_1060 : @Env demo_ext := mkEnv (fun Y c n =>
  match c in Call Y return Y with
  | SystemTimeNow => if decide (n < 5)%nat then 1000%Z else 1060%Z
  | c => oracle demo_env _ c n
  end) 0 [].

Example short_expiry_loses_active_key :
  let km := {| rotation_interval := 100; key_expiry := 50 |} in
  let '(_, rows, e1) := get_or_rotate_key km [] clock_1060 in
  exists r, rows = [r] /\ active r /\ (clock_at e1 (clk e1) < row_rotates_at r)%Z /\
            (sweep_expired rows e1).1.2 = [].
Proof. vm_compute. eexists. split; [reflexivity|]. by vm_compute. Qed.
