(* ===== verification/Config.v ===== *)
(** * Config: reading the configuration (config.rs)

    Every [from_env] of the source, over the process environment as a finite map
    from names to values ([std::env::var] fails exactly when the name is not
    bound), and [write_config], which writes the broker's configuration file. *)

From Stdlib Require Import ZArith Lia Ascii.
From stdpp Require Import base list strings gmap.
From S2P Require Import Prelude RustStr RustPath RustNet Types Env Demo.

#[local] Arguments String.append !_ _ : simpl nomatch.

(** ** Data *)

Inductive MqttTlsMode := NoTls | ServerOnly | Mutual.

#[export] Instance MqttTlsMode_eq_dec : EqDecision MqttTlsMode.
Proof. solve_decision. Defined.

Record MqttClientConfig := {
  mc_client_id : string;
  mc_host : string;
  mc_port : Z;
  mc_tls_mode : MqttTlsMode;
  mc_cafile : option string;
  mc_certfile : option string;
  mc_keyfile : option string;
  mc_username : string;
  mc_password : string;
}.

Record MqttBrokerageConfig := {
  mb_port : Z;
  mb_client_id : string;
  mb_config_file : string;
  mb_password_file : string;
  mb_username : string;
  mb_password : string;
  mb_tls_enabled : bool;
  mb_mqtts_port : Z;
  mb_cafile : string;
  mb_certfile : string;
  mb_keyfile : string;
  mb_san_ips : list IpAddr;
  mb_san_hostnames : list string;
}.

Record HttpConfig := {
  http_host : string;
  http_port : Z;
  http_tls_enabled : bool;
  http_upstream_port : Z;
}.

Record BeaconManagementConfig := {
  bm_use_jitter : bool;
  bm_broadcast_interval : Z;
  bm_key_rotation_interval : Z;
  bm_key_expiry : Z;
}.

Record GatewayRegistrationConfig := {
  gr_server_url : string;
  gr_gateway_url : option string;
  gr_username : string;
  gr_password : string;
  gr_broker_cafile : option string;
  gr_broker_tls : bool;
}.

Record Config := {
  cfg_mqtt_brokerage : MqttBrokerageConfig;
  cfg_mqtt_client : MqttClientConfig;
  cfg_http : HttpConfig;
  cfg_gateway_registration : GatewayRegistrationConfig;
  cfg_beacon_management : BeaconManagementConfig;
  cfg_config_dir : string;
}.

(** ** Reading the environment *)

Section FromEnv.
Variable env : gmap string string.

(** [std::env::var(name).unwrap_or_else(|_| dflt.to_string())] *)
Definition var_or (name dflt : string) : string := default dflt (env !! name).

(** [.. .trim().eq_ignore_ascii_case("true")] *)
Definition is_true (v : string) : bool := eq_ignore_ascii_case (trim v) "true".

Definition u16_or (dflt : Z) (v : string) : Z := default dflt (parse_uint u16_max v).
Definition u32_or (dflt : Z) (v : string) : Z := default dflt (parse_uint u32_max v).

Definition MqttClientConfig_from_env (config_dir : string) : MqttClientConfig :=
  let mutual := is_true (var_or "MQTT_TLS_ENABLED" "false") in
  {| mc_client_id := var_or "MQTT_CLIENT_ID" "hamlet";
     mc_host := "localhost";
     mc_port := if mutual then u16_or 8883 (var_or "MQTTS_PORT" "8883")
                else u16_or 1883 (var_or "MQTT_PORT" "1883");
     mc_tls_mode := if mutual then Mutual else NoTls;
     mc_cafile := Some (join config_dir (var_or "MQTT_CAFILE" "certs/ca.crt"));
     mc_certfile := Some (join config_dir (var_or "MQTT_CLIENT_CERTFILE" "certs/client.crt"));
     mc_keyfile := Some (join config_dir (var_or "MQTT_CLIENT_KEYFILE" "certs/client.key"));
     mc_username := var_or "MQTT_USERNAME" "placenet";
     mc_password := var_or "MQTT_PASSWORD" "changeme" |}.

Definition parse_san_ips (v : string) : list IpAddr :=
  omap (fun s => parse_ip (trim s)) (split_char ","%char v).

Definition parse_san_hostnames (v : string) : list string :=
  filter (fun s => s <> "" /\ s <> "localhost") (trim <$> split_char ","%char v).

Definition MqttBrokerageConfig_from_env (config_dir : string) : MqttBrokerageConfig :=
  {| mb_port := u16_or 1883 (var_or "MQTT_PORT" "1883");
     mb_mqtts_port := u16_or 8883 (var_or "MQTTS_PORT" "8883");
     mb_client_id := var_or "MQTT_CLIENT_ID" "hamlet";
     mb_config_file := join config_dir "mosquitto.conf";
     mb_password_file := join config_dir "passwd";
     mb_username := var_or "MQTT_USERNAME" "placenet";
     mb_password := var_or "MQTT_PASSWORD" "changeme";
     mb_tls_enabled := is_true (var_or "MQTT_TLS_ENABLED" "true");
     mb_cafile := join config_dir (var_or "MQTT_CAFILE" "certs/ca.crt");
     mb_certfile := join config_dir (var_or "MQTT_CERTFILE" "certs/broker.crt");
     mb_keyfile := join config_dir (var_or "MQTT_KEYFILE" "certs/broker.key");
     mb_san_ips := parse_san_ips (var_or "BROKER_SAN_IPS" "");
     mb_san_hostnames := parse_san_hostnames (var_or "BROKER_SAN_HOSTNAMES" "") |}.

Definition HttpConfig_from_env : HttpConfig :=
  {| http_host := var_or "HTTP_HOST" "0.0.0.0";
     http_port := u16_or 8080 (var_or "HTTP_PORT" "8080");
     http_tls_enabled := is_true (var_or "HTTP_TLS_ENABLED" "true");
     http_upstream_port := u16_or 3000 (var_or "HTTP_UPSTREAM_PORT" "3000") |}.

Definition BeaconManagementConfig_from_env : BeaconManagementConfig :=
  {| bm_use_jitter := is_true (var_or "USE_NETWORK_JITTER" "false");
     bm_broadcast_interval := u16_or 60 (trim (var_or "BROADCAST_INTERVAL" "60"));
     bm_key_rotation_interval := u32_or 3600 (trim (var_or "KEY_ROTATION_INTERVAL" "3600"));
     bm_key_expiry := u32_or 7200 (trim (var_or "KEY_EXPIRY" "7200")) |}.

Definition GatewayRegistrationConfig_from_env : GatewayRegistrationConfig :=
  {| gr_server_url := var_or "PLACENET_SERVER_URL" "http://localhost:8080";
     gr_gateway_url := env !! "PLACENET_GATEWAY_URL";
     gr_username := var_or "PLACENET_GATEWAY_USERNAME" "";
     gr_password := var_or "PLACENET_GATEWAY_PASSWORD" "";
     gr_broker_cafile := env !! "PLACENET_GATEWAY_MQTT_CAFILE";
     gr_broker_tls := default true (is_true <$> env !! "PLACENET_GATEWAY_MQTT_TLS") |}.

(** [cwd] is the current directory, if it can be determined; the result is [None]
    when the source panics. *)
Definition config_dir_of (cwd : option string) : option string :=
  let raw := var_or "PLACENET_CONFIG_DIR" "config" in
  if is_absolute raw then Some raw else dir ← cwd; Some (join dir raw).

Definition Config_from_env (cwd : option string) : option Config :=
  config_dir ← config_dir_of cwd;
  Some {| cfg_mqtt_brokerage := MqttBrokerageConfig_from_env config_dir;
          cfg_mqtt_client := MqttClientConfig_from_env config_dir;
          cfg_http := HttpConfig_from_env;
          cfg_gateway_registration := GatewayRegistrationConfig_from_env;
          cfg_beacon_management := BeaconManagementConfig_from_env;
          cfg_config_dir := config_dir |}.
End FromEnv.

(** ** The broker's configuration file *)

Definition nl : string := String (ascii_of_nat 10) "".

Definition broker_config_text (c : MqttBrokerageConfig) : string :=
  "# Auto-generated by hamlet" +:+ nl +:+
  "persistence false" +:+ nl +:+
  "log_dest stderr" +:+ nl +:+ nl +:+
  (if mb_tls_enabled c then
     "listener " +:+ display (mb_mqtts_port c) +:+ nl +:+
     "protocol mqtt" +:+ nl +:+
     "cafile " +:+ mb_cafile c +:+ nl +:+
     "certfile " +:+ mb_certfile c +:+ nl +:+
     "keyfile " +:+ mb_keyfile c +:+ nl +:+
     "tls_version tlsv1.2" +:+ nl +:+
     "require_certificate true" +:+ nl +:+
     "use_identity_as_username true" +:+ nl
   else
     "listener " +:+ display (mb_port c) +:+ nl +:+
     "allow_anonymous false" +:+ nl +:+
     "password_file " +:+ mb_password_file c +:+ nl).

Section WriteConfig.
Context {X : Ext}.

Definition write_config {S} (c : MqttBrokerageConfig) : Prog S (result unit string) :=
  match parent (mb_config_file c) with
  | None => mret (Err "config_file has no parent directory")
  | Some config_dir =>
      _ ←? with_context "Failed to create config dir: " (call (FsCreateDirAll config_dir));
      _ ←? with_context "Failed to write mosquitto.conf: "
             (call (FsWrite (mb_config_file c) (broker_config_text c)));
      mret (Ok tt)
  end.
End WriteConfig.

#[global] Arguments is_true : simpl never.
#[global] Arguments u16_or : simpl never.
#[global] Arguments u32_or : simpl never.

(** ** Properties *)

(** The port of the one listener of the broker's configuration file. *)
Definition listener_port (c : MqttBrokerageConfig) : Z :=
  if mb_tls_enabled c then mb_mqtts_port c else mb_port c.

(** The local client can talk to the broker this node runs: same transport, the
    port the broker listens on, the broker's CA, and the account it seeds. *)
Definition client_matches_broker (cl : MqttClientConfig) (br : MqttBrokerageConfig) : Prop :=
  (mc_tls_mode cl = Mutual <-> mb_tls_enabled br = true) /\
  mc_port cl = listener_port br /\
  mc_cafile cl = Some (mb_cafile br) /\
  mc_username cl = mb_username br /\ mc_password cl = mb_password br.

Lemma Config_from_env_inv env cwd cfg :
  Config_from_env env cwd = Some cfg ->
  config_dir_of env cwd = Some (cfg_config_dir cfg) /\
  cfg = {| cfg_mqtt_brokerage := MqttBrokerageConfig_from_env env (cfg_config_dir cfg);
           cfg_mqtt_client := MqttClientConfig_from_env env (cfg_config_dir cfg);
           cfg_http := HttpConfig_from_env env;
           cfg_gateway_registration := GatewayRegistrationConfig_from_env env;
           cfg_beacon_management := BeaconManagementConfig_from_env env;
           cfg_config_dir := cfg_config_dir cfg |}.
Proof.
  unfold Config_from_env. destruct (config_dir_of env cwd) as [d|]; [|done]. cbn. by intros [= <-].
Qed.

(** C28: the client configuration matches the broker configuration read from the same
    environment exactly when MQTT_TLS_ENABLED is set: left unset, the broker takes
    the default "true" (and omits the plain listener) while the client takes "false"
    and connects in plaintext. *)
Theorem client_matches_broker_iff_tls_set env cwd cfg :
  Config_from_env env cwd = Some cfg ->
  client_matches_broker (cfg_mqtt_client cfg) (cfg_mqtt_brokerage cfg)
  <-> is_Some (env !! "MQTT_TLS_ENABLED").
Proof.
  intros [_ ->]%Config_from_env_inv. cbn. unfold client_matches_broker, listener_port. cbn.
  unfold var_or. destruct (env !! "MQTT_TLS_ENABLED") as [v|] eqn:E; cbn.
  - split; [eauto|]. intros _. by destruct (is_true v); repeat split.
  - split; [|by intros []]. intros [[_ H] _]. by specialize (H eq_refl).
Qed.

(** A line of mosquitto.conf that is not blank or a comment: a name and a value. *)
Definition directive (line : string) : option (string * string) :=
  if starts_with "#" line then None else split_once " " line.

Definition directives (file : string) : list (string * string) :=
  omap directive (split_char (ascii_of_nat 10) file).

Definition no_newline (s : string) : bool := negb (contains_char (ascii_of_nat 10) s).

(** What the file has to say. *)
Definition broker_directives (c : MqttBrokerageConfig) : list (string * string) :=
  [("persistence", "false"); ("log_dest", "stderr")] ++
  if mb_tls_enabled c then
    [("listener", display (mb_mqtts_port c)); ("protocol", "mqtt");
     ("cafile", mb_cafile c); ("certfile", mb_certfile c); ("keyfile", mb_keyfile c);
     ("tls_version", "tlsv1.2"); ("require_certificate", "true");
     ("use_identity_as_username", "true")]
  else
    [("listener", display (mb_port c)); ("allow_anonymous", "false");
     ("password_file", mb_password_file c)].

(** One line [k v] in front of the rest of a file. *)
Lemma directives_line (k v rest : string) :
  no_newline k && no_newline v = true ->
  negb (contains_char " "%char k) && negb (starts_with "#" k) && negb (bool_decide (k = "")) = true ->
  directives (k +:+ " " +:+ v +:+ nl +:+ rest) = (k, v) :: directives rest.
Proof.
  unfold no_newline. rewrite !andb_true_iff, !negb_true_iff.
  intros [Hk Hv] [[Hs Hh] Hne]. unfold directives.
  replace (k +:+ " " +:+ v +:+ nl +:+ rest) with ((k +:+ " " +:+ v) +:+ String (ascii_of_nat 10) rest)
    by by rewrite !app_str_assoc.
  rewrite split_char_app, split_char_none.
  2:{ rewrite !contains_char_app, Hk, Hv. done. }
  cbn [omap list_omap app]. unfold directive.
  assert (Hst : starts_with "#" (k +:+ " " +:+ v) = false).
  { destruct k as [|a k]; [done|]. cbn in *. by case_decide. }
  rewrite Hst. change (" " +:+ v) with (String " "%char v).
  pose proof (split_once_app " "%char "" k v) as Hso. cbn in Hso.
  by rewrite Hso by done.
Qed.

Lemma directives_comment (l rest : string) :
  no_newline l = true -> directive l = None -> directives (l +:+ nl +:+ rest) = directives rest.
Proof.
  unfold no_newline. rewrite negb_true_iff. intros Hl Hd. unfold directives.
  change (nl +:+ rest) with (String (ascii_of_nat 10) rest).
  rewrite split_char_app, split_char_none by done. cbn [omap list_omap app]. by rewrite Hd.
Qed.

Lemma display_no_newline n : (0 <= n)%Z -> no_newline (display n) = true.
Proof. intros Hn. unfold no_newline. by rewrite display_contains by done. Qed.

Lemma directives_text c :
  (0 <= mb_port c)%Z -> (0 <= mb_mqtts_port c)%Z ->
  forallb no_newline [mb_cafile c; mb_certfile c; mb_keyfile c; mb_password_file c] = true ->
  directives (broker_config_text c) = broker_directives c.
Proof.
  intros Hp Hq. cbn [forallb]. rewrite !andb_true_iff. intros (H1 & H2 & H3 & H4 & _).
  unfold broker_config_text, broker_directives.
  rewrite (directives_comment "# Auto-generated by hamlet") by done.
  etrans; [apply (directives_line "persistence" "false"); done|].
  cbn [app]. f_equal.
  etrans; [apply (directives_line "log_dest" "stderr"); done|]. f_equal.
  etrans; [by apply (directives_comment "")|].
  destruct (mb_tls_enabled c).
  - etrans; [apply (directives_line "listener"); [by rewrite display_no_newline|done]|]. f_equal.
    etrans; [apply (directives_line "protocol" "mqtt"); done|]. f_equal.
    etrans; [apply (directives_line "cafile"); [by rewrite H1|done]|]. f_equal.
    etrans; [apply (directives_line "certfile"); [by rewrite H2|done]|]. f_equal.
    etrans; [apply (directives_line "keyfile"); [by rewrite H3|done]|]. f_equal.
  - etrans; [apply (directives_line "listener"); [by rewrite display_no_newline|done]|]. f_equal.
    etrans; [apply (directives_line "allow_anonymous" "false"); done|]. f_equal.
    rewrite <- (app_str_nil_r nl) at 1.
    etrans; [apply (directives_line "password_file"); [by rewrite H4|done]|]. done.
Qed.

Lemma u16_or_bounds d v : (0 <= d <= u16_max)%Z -> (0 <= u16_or d v <= u16_max)%Z.
Proof.
  intros Hd. unfold u16_or. destruct (parse_uint u16_max v) as [n|] eqn:E; [|done].
  by apply parse_uint_bounds in E.
Qed.

Lemma u32_or_bounds d v : (0 <= d <= u32_max)%Z -> (0 <= u32_or d v <= u32_max)%Z.
Proof.
  intros Hd. unfold u32_or. destruct (parse_uint u32_max v) as [n|] eqn:E; [|done].
  by apply parse_uint_bounds in E.
Qed.

Lemma u16_or_display d n : (0 <= n <= u16_max)%Z -> u16_or d (display n) = n.
Proof. intros Hn. unfold u16_or. by rewrite parse_uint_display. Qed.

Lemma broker_ports env dir :
  (0 <= mb_port (MqttBrokerageConfig_from_env env dir) <= u16_max)%Z /\
  (0 <= mb_mqtts_port (MqttBrokerageConfig_from_env env dir) <= u16_max)%Z.
Proof. cbn. split; by apply u16_or_bounds. Qed.

(** What the files a successful [write_config] writes say: one listener, on the port
    of the mode, and every client authenticated. *)
Definition enforces_auth (c : MqttBrokerageConfig) (ds : list (string * string)) : Prop :=
  (filter (fun d => d.1 = "listener") ds).*2 = [display (listener_port c)] /\
  if mb_tls_enabled c
  then ("require_certificate", "true") ∈ ds /\ ("cafile", mb_cafile c) ∈ ds /\
       ("certfile", mb_certfile c) ∈ ds /\ ("keyfile", mb_keyfile c) ∈ ds
  else ("allow_anonymous", "false") ∈ ds /\ ("password_file", mb_password_file c) ∈ ds.

Lemma broker_directives_auth c : enforces_auth c (broker_directives c).
Proof.
  unfold enforces_auth, broker_directives, listener_port.
  destruct (mb_tls_enabled c); cbn; split; try done; set_solver.
Qed.

Section WriteConfigTheory.
Context {X : Ext}.

(** C27: for every environment whose paths hold no line break, a successful
    [write_config] creates the directory and then writes a file that opens exactly
    one listener, on the port of the configured transport, and requires either a
    client certificate of the CA or an account of the password file. *)
Theorem write_config_enforces_auth {S} env cwd cfg (s s' : S) e e' :
  Config_from_env env cwd = Some cfg ->
  let br := cfg_mqtt_brokerage cfg in
  forallb no_newline [mb_cafile br; mb_certfile br; mb_keyfile br; mb_password_file br] = true ->
  write_config br s e = (Ok tt, s', e') ->
  exists dir text,
    parent (mb_config_file br) = Some dir /\
    trace e' = trace e ++ [Ev (FsCreateDirAll dir) (Ok tt); Ev (FsWrite (mb_config_file br) text) (Ok tt)] /\
    directives text = broker_directives br /\ enforces_auth br (directives text).
Proof.
  intros [_ Hcfg]%Config_from_env_inv br Hnl. unfold write_config.
  destruct (parent (mb_config_file br)) as [dir|]; [|done]. run_prog.
  case_answer; [|done]. cbn. case_answer; [|done]. cbn. intros [= <- <-]. destruct a, a0.
  exists dir, (broker_config_text br). split; [done|]. split; [by rewrite <- app_assoc|].
  assert (Hd : directives (broker_config_text br) = broker_directives br).
  { apply directives_text; [..|done]; unfold br; rewrite Hcfg; apply broker_ports. }
  split; [done|]. rewrite Hd. apply broker_directives_auth.
Qed.
End WriteConfigTheory.

(** Reading the configuration never fails while the current directory is known,
    whatever the environment holds; every number is in the range of its type, and a
    number written in decimal in that range is the one used. *)
Theorem config_total_and_bounded env dir :
  exists cfg, Config_from_env env (Some dir) = Some cfg /\
    let br := cfg_mqtt_brokerage cfg in
    let bm := cfg_beacon_management cfg in
    Forall (fun p => (0 <= p <= u16_max)%Z)
      [mb_port br; mb_mqtts_port br; mc_port (cfg_mqtt_client cfg); http_port (cfg_http cfg);
       http_upstream_port (cfg_http cfg); bm_broadcast_interval bm] /\
    Forall (fun n => (0 <= n <= u32_max)%Z) [bm_key_rotation_interval bm; bm_key_expiry bm] /\
    (forall p, (0 <= p <= u16_max)%Z ->
       (env !! "HTTP_PORT" = Some (display p) -> http_port (cfg_http cfg) = p) /\
       (env !! "MQTT_PORT" = Some (display p) -> mb_port br = p) /\
       (env !! "MQTTS_PORT" = Some (display p) -> mb_mqtts_port br = p)).
Proof.
  unfold Config_from_env, config_dir_of.
  destruct (is_absolute (var_or env "PLACENET_CONFIG_DIR" "config")); cbn;
    (eexists; split; [reflexivity|]); cbn; (split; [|split]).
  1,4: repeat (apply Forall_cons; split); try apply Forall_nil_2;
    try case_match; by apply u16_or_bounds.
  1,3: repeat (apply Forall_cons; split); try apply Forall_nil_2; by apply u32_or_bounds.
  all: intros p Hp; unfold var_or; split; [|split]; intros ->; by apply u16_or_display.
Qed.

Lemma join_is_absolute base p : is_absolute base = true -> is_absolute (join base p) = true.
Proof.
  intros Hb. unfold join. destruct (is_absolute p) eqn:Hp; [done|].
  case_decide; [by subst|]. destruct base as [|a base]; [done|].
  unfold is_absolute in *. cbn in *. case_decide; [|done].
  destruct (ends_with _ _); cbn; by case_decide.
Qed.

(** With an absolute current directory, every file the node reads or writes has an
    absolute path, so it does not depend on where later code runs; and with no
    override every file is inside the configuration directory. *)
Theorem config_paths_absolute env dir cfg :
  is_absolute dir = true -> Config_from_env env (Some dir) = Some cfg ->
  let br := cfg_mqtt_brokerage cfg in
  let cl := cfg_mqtt_client cfg in
  is_absolute (cfg_config_dir cfg) = true /\
  Forall (fun p => is_absolute p = true)
    [mb_config_file br; mb_password_file br; mb_cafile br; mb_certfile br; mb_keyfile br] /\
  Forall (fun p => exists q, p = Some q /\ is_absolute q = true)
    [mc_cafile cl; mc_certfile cl; mc_keyfile cl] /\
  (env !! "MQTT_CAFILE" = None -> ends_with "/" (cfg_config_dir cfg) = false ->
   mb_cafile br = cfg_config_dir cfg +:+ "/certs/ca.crt" /\
   mb_config_file br = cfg_config_dir cfg +:+ "/mosquitto.conf").
Proof.
  intros Hdir [Hd ->]%Config_from_env_inv. cbn.
  assert (Ha : is_absolute (cfg_config_dir cfg) = true).
  { unfold config_dir_of in Hd. destruct (is_absolute (var_or _ _ _)) eqn:E; [by injection Hd as <-|].
    injection Hd as <-. by apply join_is_absolute. }
  split; [done|]. split; [|split].
  - repeat (apply Forall_cons; split); [by apply join_is_absolute..|constructor].
  - repeat (apply Forall_cons; split); [by eexists; split; [done|apply join_is_absolute]..|constructor].
  - unfold var_or. intros -> He. cbn.
    assert (cfg_config_dir cfg <> "") by by intros E; rewrite E in Ha.
    by rewrite !join_relative.
Qed.

(** ** The addresses of the broker's certificate *)

(** A comma-separated list, each address with any number of spaces around it. *)
Definition padded (entry : nat * vec byte 4 * nat) : string :=
  let '(n, v, m) := entry in str_repeat " "%char n +:+ display_v4 v +:+ str_repeat " "%char m.

Fixpoint comma_separated (l : list string) : string :=
  match l with
  | [] => ""
  | [s] => s
  | s :: l => s +:+ String ","%char (comma_separated l)
  end.

Lemma split_char_comma_separated l :
  l <> [] -> Forall (fun s => contains_char ","%char s = false) l ->
  split_char ","%char (comma_separated l) = l.
Proof.
  induction l as [|s l IH]; intros Hne Hf; [done|]. apply Forall_cons in Hf as [Hs Hf].
  destruct l as [|s' l]; [by apply split_char_none|].
  change (comma_separated (s :: s' :: l)) with (s +:+ String ","%char (comma_separated (s' :: l))).
  rewrite split_char_app, split_char_none, IH by done. done.
Qed.

Lemma str_repeat_no_comma n : contains_char ","%char (str_repeat " "%char n) = false.
Proof. by induction n. Qed.

(** C40: BROKER_SAN_IPS reads back: a list of IPv4 addresses written with commas between them,
    and any spaces around each, gives exactly those addresses in that order. *)
Theorem parse_san_ips_padded (entries : list (nat * vec byte 4 * nat)) :
  parse_san_ips (comma_separated (padded <$> entries)) = (fun '(_, v, _) => V4 v) <$> entries.
Proof.
  destruct entries as [|entry entries]; [done|].
  unfold parse_san_ips. rewrite split_char_comma_separated; [|done|].
  - generalize (entry :: entries). intros l. induction l as [|[[n v] m] l IH]; [done|].
    cbn [fmap list_fmap omap list_omap padded]. destruct (display_v4_address v) as [H1 H2].
    rewrite trim_address, parse_ip_display_v4 by done. by f_equal.
  - apply Forall_fmap, Forall_forall. intros [[n v] m] _. unfold compose, padded.
    destruct (display_v4_address v) as [_ H]. rewrite !contains_char_app, !str_repeat_no_comma.
    by rewrite (address_no_comma _ H).
Qed.

(** ** Concrete configurations *)

Definition default_config : Config :=
  Eval vm_compute in default (Build_Config (MqttBrokerageConfig_from_env ∅ "")
    (MqttClientConfig_from_env ∅ "") (HttpConfig_from_env ∅) (GatewayRegistrationConfig_from_env ∅)
    (BeaconManagementConfig_from_env ∅) "") (Config_from_env ∅ (Some "/srv")).

Lemma default_config_eq : Config_from_env ∅ (Some "/srv") = Some default_config.
Proof. by vm_compute. Defined.

Lemma client_matches_broker_iff_tls_set_witness :
  client_matches_broker (cfg_mqtt_client default_config) (cfg_mqtt_brokerage default_config)
  <-> is_Some ((∅ : gmap string string) !! "MQTT_TLS_ENABLED").
Proof. apply (client_matches_broker_iff_tls_set ∅ (Some "/srv")), default_config_eq. Defined.

(** With nothing set the broker speaks TLS on 8883 and the client plain text on 1883. *)
Example default_ports_differ :
  listener_port (cfg_mqtt_brokerage default_config) = 8883%Z /\
  mc_port (cfg_mqtt_client default_config) = 1883%Z.
Proof. by vm_compute. Qed.

Lemma write_config_enforces_auth_witness :
  exists dir text,
    parent (mb_config_file (cfg_mqtt_brokerage default_config)) = Some dir /\
    trace (write_config (cfg_mqtt_brokerage default_config) tt demo_env).2
      = [Ev (FsCreateDirAll dir) (Ok tt);
         Ev (FsWrite (mb_config_file (cfg_mqtt_brokerage default_config)) text) (Ok tt)] /\
    directives text = broker_directives (cfg_mqtt_brokerage default_config) /\
    enforces_auth (cfg_mqtt_brokerage default_config) (directives text).
Proof.
  refine (write_config_enforces_auth ∅ (Some "/srv") default_config tt _ demo_env _
    default_config_eq eq_refl (ran_ok_unit _ _)). by vm_compute.
Defined.

Lemma config_paths_absolute_witness :
  is_absolute (cfg_config_dir default_config) = true /\
  mb_cafile (cfg_mqtt_brokerage default_config) = "/srv/config/certs/ca.crt".
Proof.
  destruct (config_paths_absolute ∅ "/srv" default_config) as (H & _ & _ & H');
    [done|apply default_config_eq|].
  split; [exact H|]. by apply H'.
Defined.

(** Two settings the code accepts although it cannot run with them as documented: an
    expiry below the rotation interval, and a broadcast interval of zero, on which
    [tokio::time::interval] panics. *)
Example unchecked_intervals :
  let env : gmap string string := <["KEY_EXPIRY" := "60"]> {[ "BROADCAST_INTERVAL" := "0" ]} in
  let bm := BeaconManagementConfig_from_env env in
  bm_broadcast_interval bm = 0%Z /\ (bm_key_expiry bm < bm_key_rotation_interval bm)%Z.
Proof. by vm_compute. Qed.

Example san_lists :
  let env : gmap string string :=
    <["BROKER_SAN_IPS" := "10.0.0.2, ,nonsense,::1"]> {[ "BROKER_SAN_HOSTNAMES" := " hub ,localhost,,b" ]} in
  let br := MqttBrokerageConfig_from_env env "/c" in
  mb_san_hostnames br = ["hub"; "b"] /\ length (mb_san_ips br) = 2%nat.
Proof. by vm_compute. Qed.
