(* ===== verification/Capabilities.v ===== *)
(** * Capabilities: which binaries the host has (services/capabilities.rs) *)

From Stdlib Require Import ZArith.
From stdpp Require Import base list strings gmap.
From S2P Require Import Prelude RustStr Types Env Demo.

Record BinaryInfo := { bin_path : string; bin_version : option string }.

(** [ServiceCapabilities]: its map of binaries. *)
Definition ServiceCapabilities := gmap string (option BinaryInfo).

Definition is_available (binaries : ServiceCapabilities) (binary : string) : bool :=
  match binaries !! binary with Some (Some _) => true | _ => false end.

Definition binary_path (binaries : ServiceCapabilities) (binary : string) : option string :=
  match binaries !! binary with Some (Some info) => Some (bin_path info) | _ => None end.

Definition version_of (o : Output) : option string :=
  let text := from_utf8_lossy (if decide (out_stdout o = []) then out_stderr o else out_stdout o) in
  first_line ← lines_next text;
  let first_line := trim first_line in
  if decide (first_line = "") then None else Some first_line.

Section Capabilities.
Context {X : Ext}.

Definition detect_binary {S} (name : string) : Prog S (option BinaryInfo) :=
  output ← call (RunProcess ["which"; name]);
  match output with
  | Err _ => mret None
  | Ok output =>
      if negb (out_success output) then mret None
      else
        let path := trim (from_utf8_lossy (out_stdout output)) in
        version ← call (RunProcess [path; "--version"]);
        mret (Some {| bin_path := path;
                      bin_version := match version with Ok o => version_of o | Err _ => None end |})
  end.

Fixpoint detect_all {S} (names : list string) (binaries : ServiceCapabilities)
  : Prog S ServiceCapabilities :=
  match names with
  | [] => mret binaries
  | name :: names => info ← detect_binary name; detect_all names (<[name := info]> binaries)
  end.

Definition detect_capabilities {S} (required_binaries : list string) : Prog S ServiceCapabilities :=
  detect_all required_binaries ∅.

Lemma detect_binary_path {S} name (s : S) e :
  match (detect_binary name s e).1.1 with
  | Some info => exists o n, oracle e _ (RunProcess ["which"; name]) n = Ok o /\
      out_success o = true /\ bin_path info = trim (from_utf8_lossy (out_stdout o))
  | None => exists n, forall o, oracle e _ (RunProcess ["which"; name]) n = Ok o -> out_success o = false
  end /\ oracle (detect_binary name s e).2 = oracle e.
Proof.
  unfold detect_binary. run_prog. destruct (oracle e _ _ _) as [o|err] eqn:E; run_prog.
  - destruct (out_success o) eqn:Ho; run_prog; (split; [|done]).
    + exists o, (clk e). eauto.
    + exists (clk e). rewrite E. by intros ? [= <-].
  - split; [|done]. exists (clk e). by rewrite E.
Qed.

(** Every name is probed, the last probe of a name counting. *)
Lemma detect_all_lookup {S} names binaries (s : S) e name :
  let m := (detect_all names binaries s e).1.1 in
  (name ∉ names -> m !! name = binaries !! name) /\
  (name ∈ names -> exists s' e', oracle e' = oracle e /\ m !! name = Some (detect_binary name (s' : S) e').1.1).
Proof.
  cbn zeta. revert binaries s e. induction names as [|x names IH]; intros binaries s e;
    [by split; [|set_solver]|].
  cbn [detect_all]. unfold mbind, prog_bind.
  pose proof (detect_binary_path x s e) as [_ Ho].
  destruct (detect_binary x s e) as [[info s1] e1] eqn:E.
  destruct (IH (<[x := info]> binaries) s1 e1) as [IH1 IH2]. split.
  - intros [Hx Hn]%not_elem_of_cons. rewrite IH1 by done.
    by apply (lookup_insert_ne (M := gmap string)).
  - intros Hin. destruct (decide (name ∈ names)) as [Hn|Hn].
    + destruct (IH2 Hn) as (s' & e' & He & ->). exists s', e'. split; [by rewrite He|done].
    + assert (x = name) as -> by set_solver. exists s, e. split; [done|].
      rewrite IH1, E by done. by apply (lookup_insert_eq (M := gmap string)).
Qed.

(** A binary is reported available exactly when it was asked for and the run of
    [which] that decided succeeded; its path is then what [which] printed. *)
Theorem detect_capabilities_exact {S} names (s : S) e name :
  let m := (detect_capabilities names s e).1.1 in
  if decide (name ∈ names) then
    exists n, match oracle e _ (RunProcess ["which"; name]) n with
      | Ok o => is_available m name = out_success o /\
          (out_success o = true ->
           binary_path m name = Some (trim (from_utf8_lossy (out_stdout o))))
      | Err _ => is_available m name = false
      end
  else is_available m name = false.
Proof.
  cbn zeta. unfold is_available, binary_path, detect_capabilities.
  destruct (detect_all_lookup names ∅ s e name) as [H1 H2]. case_decide as Hin.
  - destruct (H2 Hin) as (s' & e' & Ho & Hm). exists (clk e').
    pose proof (detect_binary_path name s' e') as [Hp _]. rewrite Hm, <- Ho.
    unfold detect_binary in *. run_prog. destruct (oracle e' _ _ _) as [o|err]; run_prog; [|done].
    by destruct (out_success o).
  - rewrite H1 by done. done.
Qed.
End Capabilities.

(** A host with mosquitto 2.0 and nothing else. *)
Definition host_with_mosquitto : @Env demo_ext := mkEnv (fun Y c n =>
  match c in Call Y return Y with
  | RunProcess ["which"; "mosquitto"] =>
      Ok {| out_success := true; out_stderr := [];
            out_stdout := bytes_of_string ("/usr/sbin/mosquitto" +:+ String (Ascii.ascii_of_nat 10) "") |}
  | RunProcess ["which"; _] => Ok {| out_success := false; out_stdout := []; out_stderr := [] |}
  | RunProcess _ => Ok {| out_success := true; out_stdout := [];
                          out_stderr := bytes_of_string "mosquitto version 2.0 " |}
  | c => oracle demo_env _ c n
  end) 0 [].

Example detect_ex :
  let m := (detect_capabilities ["mosquitto"; "mosquitto_passwd"] tt host_with_mosquitto).1.1 in
  binary_path m "mosquitto" = Some "/usr/sbin/mosquitto" /\
  is_available m "mosquitto_passwd" = false /\
  m !! "mosquitto" = Some (Some {| bin_path := "/usr/sbin/mosquitto";
                                   bin_version := Some "mosquitto version 2.0" |}).
Proof. by vm_compute. Qed.
