(* ===== verification/Ca.v ===== *)
(** * Ca: the certificate authority (infra/ca/operations.rs, infra/ca/ca_service.rs)

    The state is the CA held in memory ([CaService::state]) and the three tables of
    migrations/0001-0003.  A table with [CHECK (id = 1)] holds at most one row, an
    [option]; [device_certs] is a list of rows in rowid order.  Each SQL statement
    is the function on the tables it denotes, run unless the driver reports an
    error; key generation and signing are calls to rcgen. *)

From Stdlib Require Import ZArith Lia.
From stdpp Require Import base list strings gmap.
From S2P Require Import Prelude Types Env Demo.

(** ** Data *)

Record DeviceRow := mkDevice {
  dr_device_id : string;
  dr_cert_pem : string;
  dr_issued_at : Z;
  dr_expires_at : Z;
  dr_revoked : Z;
}.

Record NodeRow := mkNode {
  nr_cert_pem : string;
  nr_key_pem : string;
  nr_issued_at : Z;
  nr_expires_at : Z;
}.

Record CaDb := mkDb {
  ca_keys : option (string * string);
  device_certs : list DeviceRow;
  node_identity : option NodeRow;
}.

Definition empty_db : CaDb := mkDb None [] None.

(** [DeviceCertRecord] *)
Record DeviceCertRecord := mkRecord {
  dc_device_id : string;
  dc_cert_pem : string;
  dc_issued_at : Z;
  dc_expires_at : Z;
  dc_revoked : bool;
}.

Definition CA_CN : string := "PlaceNet Root CA".

(** The parameters of the three certificates the code fills in itself. *)
Definition ca_params : CertParams := {|
  cp_is_ca := true; cp_key_usages := [KeyCertSign; CrlSign]; cp_common_name := CA_CN;
  cp_organization := "PlaceNet"; cp_extended_key_usages := []; cp_subject_alt_names := [] |}.

Definition node_params : CertParams := {|
  cp_is_ca := false; cp_key_usages := []; cp_common_name := "hamlet";
  cp_organization := "PlaceNet"; cp_extended_key_usages := [ClientAuth]; cp_subject_alt_names := [] |}.

Definition broker_params (sans : list SanType) : CertParams := {|
  cp_is_ca := false; cp_key_usages := []; cp_common_name := "placenet-broker";
  cp_organization := "PlaceNet"; cp_extended_key_usages := [ServerAuth]; cp_subject_alt_names := sans |}.

(** ** SQL statements on [device_certs] *)

(** [INSERT .. ON CONFLICT(device_id) DO UPDATE SET ..] *)
Fixpoint upsert_device (r : DeviceRow) (rows : list DeviceRow) : list DeviceRow :=
  match rows with
  | [] => [r]
  | x :: rows => if decide (dr_device_id x = dr_device_id r) then r :: rows
                 else x :: upsert_device r rows
  end.

(** [SELECT .. WHERE device_id = ?] *)
Definition select_device (d : string) (rows : list DeviceRow) : option DeviceRow :=
  snd <$> list_find (fun x => dr_device_id x = d) rows.

(** [UPDATE device_certs SET revoked = 1 WHERE device_id = ?] and the rows affected. *)
Definition set_revoked (d : string) (x : DeviceRow) : DeviceRow :=
  if decide (dr_device_id x = d)
  then mkDevice (dr_device_id x) (dr_cert_pem x) (dr_issued_at x) (dr_expires_at x) 1 else x.

Definition revoke_device (d : string) (rows : list DeviceRow) : list DeviceRow * nat :=
  (set_revoked d <$> rows, length (filter (fun x => dr_device_id x = d) rows)).

(** ** The service *)

#[global] Arguments upsert_device : simpl never.
#[global] Arguments select_device : simpl never.
#[global] Arguments revoke_device : simpl never.

Section Ca.
Context {X : Ext}.

Record CaState := mkCa {
  subject_cn : string;
  ca_cert : Certificate;
  key_pair : KeyPair;
}.

(** What a running process holds, and the database file. *)
Record CaWorld := mkWorld {
  ca_state : option CaState;
  db : CaDb;
}.

Definition with_db (f : CaDb -> CaDb) : Prog CaWorld unit :=
  modify (fun w => mkWorld (ca_state w) (f (db w))).

(** [CaService::new], over the tables its pool leads to. *)
Definition CaService_new (d : CaDb) : CaWorld := mkWorld None d.

Definition set_ca_state (s : option CaState) : Prog CaWorld unit :=
  modify (fun w => mkWorld s (db w)).

Definition set_ca_keys (row : string * string) (d : CaDb) : CaDb :=
  mkDb (Some row) (device_certs d) (node_identity d).
Definition set_device_certs (rows : list DeviceRow) (d : CaDb) : CaDb :=
  mkDb (ca_keys d) rows (node_identity d).
Definition set_node_identity (row : NodeRow) (d : CaDb) : CaDb :=
  mkDb (ca_keys d) (device_certs d) (Some row).

(** *** operations.rs *)

Definition load_ca_from_db : Prog CaWorld (result (option CaState) string) :=
  _ ←? sql SqlSelectCa "Failed to query CA from database: ";
  w ← get;
  match ca_keys (db w) with
  | None => mret (Ok None)
  | Some (cert_pem, key_pem) =>
      match keypair_from_pem key_pem with
      | Err e => mret (Err ("Failed to parse CA private key: " +:+ e))
      | Ok key_pair =>
          match params_from_ca_cert_pem cert_pem with
          | Err e => mret (Err ("Failed to parse CA certificate: " +:+ e))
          | Ok params =>
              cert ←? with_context "Failed to reconstruct CA cert: " (call (SelfSigned params key_pair));
              mret (Ok (Some (mkCa CA_CN cert key_pair)))
          end
      end
  end.

Definition generate_and_persist_ca : Prog CaWorld (result CaState string) :=
  key_pair ←? with_context "Failed to generate CA key pair: " (call KeyPairGenerate);
  cert ←? with_context "Failed to self-sign CA certificate: " (call (SelfSigned ca_params key_pair));
  let row := (cert_pem cert, serialize_pem key_pair) in
  _ ←? sql SqlInsertCa "Failed to persist CA to database: ";
  w ← get;
  match ca_keys (db w) with
  | Some _ => mret (Err ("Failed to persist CA to database: " +:+ constraint_failed))
  | None => _ ← with_db (set_ca_keys row); mret (Ok (mkCa CA_CN cert key_pair))
  end.

Definition load_or_generate_ca : Prog CaWorld (result CaState string) :=
  loaded ←? load_ca_from_db;
  match loaded with
  | Some state => mret (Ok state)
  | None => generate_and_persist_ca
  end.

Definition year : Z := 365 * 24 * 60 * 60.

Definition generate_node_identity (ca : CaState)
  : Prog CaWorld (result (string * string * Z * Z) string) :=
  kp ←? with_context "Failed to generate node identity key pair: " (call KeyPairGenerate);
  cert ←? with_context "Failed to sign node identity certificate: "
            (call (SignedBy node_params kp (ca_cert ca) (key_pair ca)));
  now ← unix_now;
  mret (Ok (cert_pem cert, serialize_pem kp, now, wrap_i64 (now + year))).

(** The SANs: every address, then every name that is an IA5 string. *)
Definition broker_sans (san_ips : list IpAddr) (san_hostnames : list string) : list SanType :=
  (SanIp <$> san_ips) ++ (SanDns <$> filter (fun n => ia5_valid n = true) san_hostnames).

Definition generate_broker_identity (ca : CaState) (san_ips : list IpAddr) (san_hostnames : list string)
  : Prog CaWorld (result (string * string) string) :=
  kp ←? with_context "Failed to generate broker key pair: " (call KeyPairGenerate);
  cert ←? with_context "Failed to sign broker certificate: "
            (call (SignedBy (broker_params (broker_sans san_ips san_hostnames)) kp (ca_cert ca) (key_pair ca)));
  mret (Ok (cert_pem cert, serialize_pem kp)).

Definition operations_sign_csr (ca : CaState) (csr_pem : string)
  : Prog CaWorld (result (string * Z * Z) string) :=
  match csr_from_pem csr_pem with
  | Err e => mret (Err ("Invalid CSR: " +:+ e))
  | Ok csr =>
      signed ←? with_context "Failed to sign CSR: " (call (CsrSignedBy csr (ca_cert ca) (key_pair ca)));
      now ← unix_now;
      mret (Ok (cert_pem signed, now, wrap_i64 (now + year)))
  end.

(** *** ca_service.rs *)

Definition init : Prog CaWorld (result unit string) :=
  _ ←? sql SqlMigrate "Failed to run CA migrations: ";
  ca ←? load_or_generate_ca;
  _ ← set_ca_state (Some ca);
  mret (Ok tt).

Definition ca_register (db_url : string) : Prog CaWorld (result unit string) :=
  _ ←? with_context "Invalid database URL: " (call (DbParseUrl db_url));
  _ ←? with_context "Failed to open CA database: " (call (DbConnect db_url));
  _ ← modify (fun w => CaService_new (db w));
  init.

(** [guard.as_ref().ok_or("CA not initialised")?] *)
Definition loaded_ca : Prog CaWorld (result CaState string) :=
  w ← get; mret (ok_or "CA not initialised" (ca_state w)).

Definition sign_csr (device_id csr_pem : string) : Prog CaWorld (result string string) :=
  ca ←? loaded_ca;
  '(pem, issued_at, expires_at) ←? operations_sign_csr ca csr_pem;
  _ ←? sql SqlUpsertDevice "Failed to persist device cert: ";
  _ ← with_db (fun d => set_device_certs
        (upsert_device (mkDevice device_id pem issued_at expires_at 0) (device_certs d)) d);
  mret (Ok pem).

Definition get_cert (device_id : string) : Prog CaWorld (result (option string) string) :=
  _ ←? sql SqlSelectCert "Failed to query device cert: ";
  w ← get;
  mret (Ok (dr_cert_pem <$> select_device device_id (device_certs (db w)))).

Definition record_of (r : DeviceRow) : DeviceCertRecord :=
  mkRecord (dr_device_id r) (dr_cert_pem r) (dr_issued_at r) (dr_expires_at r)
    (bool_decide (dr_revoked r <> 0%Z)).

Definition list_devices : Prog CaWorld (result (list DeviceCertRecord) string) :=
  _ ←? sql SqlListDevices "Failed to list device certs: ";
  w ← get;
  mret (Ok (record_of <$> device_certs (db w))).

Definition revoke (device_id : string) : Prog CaWorld (result unit string) :=
  _ ←? sql SqlRevokeDevice "Failed to revoke device cert: ";
  w ← get;
  let '(rows, rows_affected) := revoke_device device_id (device_certs (db w)) in
  _ ← with_db (set_device_certs rows);
  if decide (rows_affected = 0)%nat then mret (Err ("Unknown device: " +:+ device_id))
  else mret (Ok tt).

Definition ca_cert_pem : Prog CaWorld (result string string) :=
  ca ←? loaded_ca; mret (Ok (cert_pem (ca_cert ca))).

Definition generate_broker_cert (san_ips : list IpAddr) (san_hostnames : list string)
  : Prog CaWorld (result (string * string) string) :=
  ca ←? loaded_ca; generate_broker_identity ca san_ips san_hostnames.

Definition ensure_node_identity : Prog CaWorld (result (string * string) string) :=
  _ ←? sql SqlSelectNode "Failed to query node identity: ";
  w ← get;
  match node_identity (db w) with
  | Some row => mret (Ok (nr_cert_pem row, nr_key_pem row))
  | None =>
      ca ←? loaded_ca;
      '(pem, key_pem, issued_at, expires_at) ←? generate_node_identity ca;
      _ ←? sql SqlInsertNode "Failed to persist node identity: ";
      w ← get;
      match node_identity (db w) with
      | Some _ => mret (Err ("Failed to persist node identity: " +:+ constraint_failed))
      | None =>
          _ ← with_db (set_node_identity (mkNode pem key_pem issued_at expires_at));
          mret (Ok (pem, key_pem))
      end
  end.

Definition is_revoked (device_id : string) : Prog CaWorld (result bool string) :=
  _ ←? sql SqlSelectRevoked "Failed to query revocation status: ";
  w ← get;
  mret (Ok (default false ((fun r => bool_decide (dr_revoked r <> 0%Z)) <$>
                           select_device device_id (device_certs (db w))))).
End Ca.

(** ** The table of device certificates as a map

    The abstract view of [device_certs]: what each device id is known by. *)

Definition certs_of (rows : list DeviceRow) : gmap string DeviceCertRecord :=
  list_to_map ((fun r => (dr_device_id r, record_of r)) <$> rows).

#[global] Arguments certs_of : simpl never.

Definition revoke_record (r : DeviceCertRecord) : DeviceCertRecord :=
  mkRecord (dc_device_id r) (dc_cert_pem r) (dc_issued_at r) (dc_expires_at r) true.

Lemma certs_of_cons r rows : certs_of (r :: rows) = <[dr_device_id r := record_of r]> (certs_of rows).
Proof. done. Qed.

Lemma upsert_device_cons r x rows :
  upsert_device r (x :: rows) =
  if decide (dr_device_id x = dr_device_id r) then r :: rows else x :: upsert_device r rows.
Proof. done. Qed.

Lemma certs_of_upsert r rows :
  certs_of (upsert_device r rows) = <[dr_device_id r := record_of r]> (certs_of rows).
Proof.
  induction rows as [|x rows IH]; [done|]. rewrite upsert_device_cons. case_decide as Hx.
  - by rewrite !certs_of_cons, Hx, insert_insert_eq.
  - by rewrite !certs_of_cons, IH, insert_insert_ne.
Qed.

Lemma certs_of_revoke d rows :
  certs_of (revoke_device d rows).1 = alter revoke_record d (certs_of rows).
Proof.
  unfold revoke_device, fst. induction rows as [|x rows IH]; [done|].
  rewrite fmap_cons, !certs_of_cons, IH. unfold set_revoked. case_decide as Hx; cbn.
  - subst d. by rewrite insert_alter_eq, alter_insert_eq.
  - by rewrite alter_insert_ne.
Qed.

Lemma certs_of_select d rows : certs_of rows !! d = record_of <$> select_device d rows.
Proof.
  unfold select_device. induction rows as [|x rows IH]; [done|].
  rewrite certs_of_cons. cbn. case_decide as Hx.
  - by rewrite Hx, lookup_insert_eq.
  - rewrite lookup_insert_ne, IH by done. by destruct (list_find _ rows) as [[i y]|].
Qed.

Lemma revoke_count d rows :
  (revoke_device d rows).2 = 0%nat <-> certs_of rows !! d = None.
Proof.
  rewrite certs_of_select. unfold revoke_device, select_device, snd at 1.
  induction rows as [|x rows IH]; [done|]. rewrite filter_cons. cbn [list_find].
  case_decide as Hx; [done|]. rewrite IH. by destruct (list_find _ rows) as [[i y]|].
Qed.

Lemma upsert_ids r rows :
  NoDup (dr_device_id <$> rows) ->
  NoDup (dr_device_id <$> upsert_device r rows) /\
  forall d, d ∈ dr_device_id <$> upsert_device r rows -> d = dr_device_id r \/ d ∈ dr_device_id <$> rows.
Proof.
  induction rows as [|x rows IH]; intros Hnd.
  - split; [apply NoDup_singleton|]. intros d ->%list_elem_of_singleton. by left.
  - rewrite upsert_device_cons. rewrite fmap_cons, NoDup_cons in Hnd. destruct Hnd as [Hx Hnd].
    destruct (IH Hnd) as [IH1 IH2]. case_decide as Hid; rewrite !fmap_cons.
    + rewrite <- Hid. split; [by apply NoDup_cons|]. set_solver.
    + split; [|set_solver]. apply NoDup_cons. split; [|done]. intros [?|?]%IH2; [congruence|done].
Qed.

Lemma revoke_ids d rows : dr_device_id <$> (revoke_device d rows).1 = dr_device_id <$> rows.
Proof.
  unfold revoke_device, fst. rewrite <- list_fmap_compose. apply list_fmap_ext. intros i x _.
  unfold compose, set_revoked. by case_decide.
Qed.

Lemma certs_of_list rows :
  NoDup (dr_device_id <$> rows) ->
  record_of <$> rows ≡ₚ (map_to_list (certs_of rows)).*2.
Proof.
  intros Hnd. unfold certs_of. rewrite map_to_list_to_map.
  - by rewrite <- list_fmap_compose.
  - by rewrite <- list_fmap_compose.
Qed.

Lemma certs_of_id rows d r : certs_of rows !! d = Some r -> dc_device_id r = d.
Proof.
  rewrite certs_of_select. unfold select_device.
  destruct (list_find _ rows) as [[i y]|] eqn:E; [|done]. intros [= <-]. cbn.
  by apply list_find_Some in E as (_ & ? & _).
Qed.

(** ** What the authority promises

    The abstract state is what the database means: the root key pair, the node's
    identity, and what each device id is known by. *)

Record CaSpec := mkSpec {
  sp_root : option (string * string);
  sp_node : option (string * string);
  sp_certs : gmap string DeviceCertRecord;
}.

Definition abs (d : CaDb) : CaSpec :=
  mkSpec (ca_keys d) ((fun r => (nr_cert_pem r, nr_key_pem r)) <$> node_identity d)
    (certs_of (device_certs d)).

(** The operations on the authority; [OpRegister] is a start of the process. *)
Inductive CaOp :=
| OpRegister (db_url : string)
| OpSign (device_id csr_pem : string)
| OpRevoke (device_id : string)
| OpGetCert (device_id : string)
| OpIsRevoked (device_id : string)
| OpList
| OpNodeIdentity
| OpBrokerCert (san_ips : list IpAddr) (san_hostnames : list string)
| OpCaPem.

Inductive CaAnswer :=
| AnsUnit
| AnsPem (pem : string)
| AnsLookup (cert : option string)
| AnsBool (b : bool)
| AnsRecords (l : list DeviceCertRecord)
| AnsPair (cert key : string).

(** Every operation may fail, and then changes nothing; this is what it does when it
    succeeds. *)
Inductive spec_step (a : CaSpec) : CaOp -> CaAnswer -> CaSpec -> Prop :=
| sp_register url root :
    (forall r, sp_root a = Some r -> root = r) ->
    spec_step a (OpRegister url) AnsUnit (mkSpec (Some root) (sp_node a) (sp_certs a))
| sp_sign d csr pem now :
    spec_step a (OpSign d csr) (AnsPem pem)
      (mkSpec (sp_root a) (sp_node a)
         (<[d := mkRecord d pem now (wrap_i64 (now + year)) false]> (sp_certs a)))
| sp_revoke d :
    is_Some (sp_certs a !! d) ->
    spec_step a (OpRevoke d) AnsUnit
      (mkSpec (sp_root a) (sp_node a) (alter revoke_record d (sp_certs a)))
| sp_get d : spec_step a (OpGetCert d) (AnsLookup (dc_cert_pem <$> sp_certs a !! d)) a
| sp_is_revoked d :
    spec_step a (OpIsRevoked d) (AnsBool (default false (dc_revoked <$> sp_certs a !! d))) a
| sp_list l : l ≡ₚ (map_to_list (sp_certs a)).*2 -> spec_step a OpList (AnsRecords l) a
| sp_node_identity cert key :
    (forall p, sp_node a = Some p -> p = (cert, key)) ->
    spec_step a OpNodeIdentity (AnsPair cert key)
      (mkSpec (sp_root a) (Some (cert, key)) (sp_certs a))
| sp_broker ips hosts cert key : spec_step a (OpBrokerCert ips hosts) (AnsPair cert key) a
| sp_ca_pem pem : spec_step a OpCaPem (AnsPem pem) a.

Section Refinement.
Context {X : Ext}.
Implicit Types (w : CaWorld) (e : Env).

Definition answer {A} (f : A -> CaAnswer) (m : Prog CaWorld (result A string))
  : Prog CaWorld (result CaAnswer string) :=
  r ← m; mret (match r with Ok a => Ok (f a) | Err err => Err err end).

Definition run_ca_op (o : CaOp) : Prog CaWorld (result CaAnswer string) :=
  match o with
  | OpRegister url => answer (fun _ => AnsUnit) (ca_register url)
  | OpSign d csr => answer AnsPem (sign_csr d csr)
  | OpRevoke d => answer (fun _ => AnsUnit) (revoke d)
  | OpGetCert d => answer AnsLookup (get_cert d)
  | OpIsRevoked d => answer AnsBool (is_revoked d)
  | OpList => answer AnsRecords list_devices
  | OpNodeIdentity => answer (fun '(c, k) => AnsPair c k) ensure_node_identity
  | OpBrokerCert ips hosts => answer (fun '(c, k) => AnsPair c k) (generate_broker_cert ips hosts)
  | OpCaPem => answer AnsPem ca_cert_pem
  end.

Definition ids_unique w : Prop := NoDup (dr_device_id <$> device_certs (db w)).

(** The outcome of one operation, seen abstractly. *)
Definition refines (o : CaOp) w (res : result CaAnswer string * CaWorld * Env) : Prop :=
  let '(r, w', _) := res in
  ids_unique w' /\
  match r with
  | Ok ans => spec_step (abs (db w)) o ans (abs (db w'))
  | Err _ => abs (db w') = abs (db w)
  end.

#[local] Ltac run := unfold answer, ca_register, init, load_or_generate_ca, load_ca_from_db,
  generate_and_persist_ca, loaded_ca, with_db, set_ca_state, operations_sign_csr,
  generate_node_identity, unix_now; run_prog.

#[local] Ltac fails := split; [done|reflexivity].

Lemma register_refines url w e :
  ids_unique w -> refines (OpRegister url) w (run_ca_op (OpRegister url) w e).
Proof.
  intros Hu. unfold refines, run_ca_op. run.
  case_answer; [|fails]. cbn. case_answer; [|fails]. cbn. case_answer; [fails|]. cbn.
  case_answer; [fails|]. cbn. destruct (ca_keys (db w)) as [[c k]|] eqn:Hk.
  - destruct (keypair_from_pem k); [|fails]. destruct (params_from_ca_cert_pem c); [|fails].
    run_prog. case_answer; [|fails]. cbn. split; [done|].
    unfold abs. cbn. rewrite Hk.
    apply (sp_register (mkSpec (Some (c, k)) _ _)). by intros ? [= <-].
  - run_prog. case_answer; [|fails]. cbn. case_answer; [|fails]. cbn. case_answer; [fails|].
    run_prog. rewrite Hk. run_prog. split; [done|]. unfold abs. cbn. rewrite Hk.
    by apply (sp_register (mkSpec None _ _)).
Qed.

Lemma sign_refines d csr w e :
  ids_unique w -> refines (OpSign d csr) w (run_ca_op (OpSign d csr) w e).
Proof.
  intros Hu. unfold refines, run_ca_op, sign_csr. run.
  destruct (ca_state w) as [ca|]; cbn; [|fails].
  destruct (csr_from_pem csr) as [p|]; run_prog; [|fails].
  case_answer; [|fails]. run_prog. case_answer; [fails|]. run_prog.
  fold (clock_at e (S (clk e))).
  split; [by apply upsert_ids|]. unfold abs. cbn. rewrite certs_of_upsert.
  apply (sp_sign (mkSpec _ _ _)).
Qed.

Lemma revoke_refines d w e :
  ids_unique w -> refines (OpRevoke d) w (run_ca_op (OpRevoke d) w e).
Proof.
  intros Hu. unfold refines, run_ca_op, revoke. run. case_answer; [fails|]. run_prog.
  pose proof (certs_of_revoke d (device_certs (db w))) as Hr.
  pose proof (revoke_count d (device_certs (db w))) as Hn.
  pose proof (revoke_ids d (device_certs (db w))) as Hids.
  destruct (revoke_device d (device_certs (db w))) as [rows n]. cbn in *.
  assert (Hu' : NoDup (dr_device_id <$> rows)) by by rewrite Hids.
  case_decide as Hd; run_prog; (split; [done|]); unfold abs; cbn; rewrite Hr.
  - rewrite alter_id; [done|]. apply Hn in Hd. intros ? Hs. congruence.
  - apply (sp_revoke (mkSpec _ _ _)). cbn. apply not_eq_None_Some. tauto.
Qed.

Lemma query_refines o w e :
  ids_unique w ->
  match o with OpGetCert _ | OpIsRevoked _ | OpList | OpBrokerCert _ _ | OpCaPem => True | _ => False end ->
  refines o w (run_ca_op o w e).
Proof.
  intros Hu. destruct o; intros []; unfold refines, run_ca_op.
  - unfold get_cert. run. case_answer; [fails|]. cbn. split; [done|].
    pose proof (sp_get (abs (db w)) device_id) as H. cbn in H. rewrite certs_of_select in H.
    by destruct (select_device _ _).
  - unfold is_revoked. run. case_answer; [fails|]. cbn. split; [done|].
    pose proof (sp_is_revoked (abs (db w)) device_id) as H. cbn in H. rewrite certs_of_select in H.
    by destruct (select_device _ _).
  - unfold list_devices. run. case_answer; [fails|]. cbn. split; [done|].
    apply sp_list. by apply certs_of_list.
  - unfold generate_broker_cert, generate_broker_identity. run.
    destruct (ca_state w) as [ca|]; cbn; [|fails]. run_prog. case_answer; [|fails].
    cbn. case_answer; [|fails]. cbn. split; [done|constructor].
  - unfold ca_cert_pem. run. destruct (ca_state w) as [ca|]; cbn; [|fails].
    split; [done|constructor].
Qed.

Lemma node_refines w e :
  ids_unique w -> refines OpNodeIdentity w (run_ca_op OpNodeIdentity w e).
Proof.
  intros Hu. unfold refines, run_ca_op, ensure_node_identity. run. case_answer; [fails|]. cbn.
  destruct (node_identity (db w)) as [row|] eqn:Hn; run_prog.
  - split; [done|]. unfold abs. rewrite Hn. cbn.
    apply (sp_node_identity (mkSpec _ (Some _) _)). by intros ? [= <-].
  - destruct (ca_state w) as [ca|]; cbn; [|fails]. run_prog. case_answer; [|fails]. cbn.
    case_answer; [|fails]. cbn. case_answer; [fails|]. cbn. rewrite Hn. run_prog.
    split; [done|]. unfold abs. cbn. rewrite Hn. by apply (sp_node_identity (mkSpec _ None _)).
Qed.

Lemma op_refines o w e : ids_unique w -> refines o w (run_ca_op o w e).
Proof.
  intros Hu. destruct o; first [by apply query_refines|by apply register_refines
    |by apply sign_refines|by apply revoke_refines|by apply node_refines].
Qed.
End Refinement.

(** ** Properties of the contract *)

Lemma spec_step_root a o ans a' r : spec_step a o ans a' -> sp_root a = Some r -> sp_root a' = Some r.
Proof. destruct 1; cbn; intros Hr; try done. by rewrite (H _ Hr). Qed.

Lemma spec_step_node a o ans a' p : spec_step a o ans a' -> sp_node a = Some p -> sp_node a' = Some p.
Proof. destruct 1; cbn; intros Hp; try done. by rewrite (H _ Hp). Qed.

Definition known_revoked (d : string) (a : CaSpec) : Prop :=
  dc_revoked <$> sp_certs a !! d = Some true.

Lemma spec_step_revoked a o ans a' d :
  spec_step a o ans a' -> (forall csr, o <> OpSign d csr) -> known_revoked d a -> known_revoked d a'.
Proof.
  unfold known_revoked. destruct 1 as [|d' csr pem now|d' Hd| | | | | |]; cbn; intros Ho Hr; try done.
  - rewrite lookup_insert_ne; [done|]. intros ->. by apply (Ho csr).
  - destruct (decide (d' = d)) as [->|Hne]; [|by rewrite lookup_alter_ne].
    rewrite lookup_alter_eq. by destruct (sp_certs a !! d).
Qed.

Lemma spec_revoke_inv a d ans a' : spec_step a (OpRevoke d) ans a' -> known_revoked d a'.
Proof.
  intros H. inversion H as [| |? [r Hr]| | | | | |]. unfold known_revoked. cbn.
  by rewrite lookup_alter_eq, Hr.
Qed.

Lemma spec_sign_inv a d csr pem a' :
  spec_step a (OpSign d csr) (AnsPem pem) a' ->
  exists now, sp_certs a' !! d = Some (mkRecord d pem now (wrap_i64 (now + year)) false).
Proof. intros H. inversion H as [|? ? ? now| | | | | | |]. exists now. cbn. by rewrite lookup_insert_eq. Qed.

Lemma spec_is_revoked_inv a d b a' :
  spec_step a (OpIsRevoked d) (AnsBool b) a' -> b = default false (dc_revoked <$> sp_certs a !! d).
Proof. intros H. by inversion H. Qed.

(** A sequence of operations against the contract, with its answers. *)
Inductive spec_run : CaSpec -> list CaOp -> list (result CaAnswer string) -> CaSpec -> Prop :=
| sr_nil a : spec_run a [] [] a
| sr_ok a o ans a1 os rs a2 :
    spec_step a o ans a1 -> spec_run a1 os rs a2 -> spec_run a (o :: os) (Ok ans :: rs) a2
| sr_err a o err os rs a2 :
    spec_run a os rs a2 -> spec_run a (o :: os) (Err err :: rs) a2.

(** What one step keeps, a run keeps. *)
Lemma spec_run_inv (P : CaSpec -> Prop) (Q : CaOp -> Prop) a os rs a' :
  (forall a o ans a1, spec_step a o ans a1 -> Q o -> P a -> P a1) ->
  spec_run a os rs a' -> Forall Q os -> P a -> P a'.
Proof.
  intros Hstep. induction 1 as [|a o ans a1 os rs a2 H1 _ IH|a o err os rs a2 _ IH];
    rewrite ?Forall_cons; naive_solver.
Qed.

Section CaTheory.
Context {X : Ext}.
Implicit Types (w : CaWorld) (e : Env).

Fixpoint run_ca_ops (os : list CaOp) : Prog CaWorld (list (result CaAnswer string)) :=
  match os with
  | [] => mret []
  | o :: os => r ← run_ca_op o; rs ← run_ca_ops os; mret (r :: rs)
  end.

Lemma run_ca_ops_refines os w e :
  ids_unique w ->
  let '(rs, w', _) := run_ca_ops os w e in
  ids_unique w' /\ spec_run (abs (db w)) os rs (abs (db w')).
Proof.
  revert w e. induction os as [|o os IH]; intros w e Hu; [by split; [|constructor]|].
  cbn. unfold mbind, prog_bind, mret, prog_ret.
  pose proof (op_refines o w e Hu) as Ho. destruct (run_ca_op o w e) as [[r w1] e1].
  destruct Ho as [Hu1 Hr]. specialize (IH w1 e1 Hu1).
  destruct (run_ca_ops os w1 e1) as [[rs w2] e2]. destruct IH as [Hu2 Hrun]. split; [done|].
  destruct r; [by econstructor|]. constructor. by rewrite <- Hr.
Qed.

(** C8: the authority implements its contract: from an empty database, any sequence
    of operations and restarts, with any failures of the database, of key
    generation and of signing, answers as the abstract registry does, a failed
    operation having no effect, and keeps one row per device. *)
Theorem ca_refines_contract os mem e :
  let '(rs, w', _) := run_ca_ops os (mkWorld mem empty_db) e in
  NoDup (dr_device_id <$> device_certs (db w')) /\
  spec_run (mkSpec None None ∅) os rs (abs (db w')).
Proof. apply (run_ca_ops_refines os (mkWorld mem empty_db)). constructor. Qed.

Lemma run_keeps (P : CaSpec -> Prop) (Q : CaOp -> Prop) os w e :
  ids_unique w -> (forall a o ans a1, spec_step a o ans a1 -> Q o -> P a -> P a1) ->
  Forall Q os -> P (abs (db w)) -> P (abs (db (run_ca_ops os w e).1.2)).
Proof.
  intros Hu Hstep HQ HP. pose proof (run_ca_ops_refines os w e Hu) as H.
  destruct (run_ca_ops os w e) as [[rs w'] e']. destruct H as [_ H].
  by eapply spec_run_inv.
Qed.

(** The outcome of one operation as the contract has it. *)
Lemma step_of o w e ans w' e' :
  ids_unique w -> run_ca_op o w e = (Ok ans, w', e') ->
  ids_unique w' /\ spec_step (abs (db w)) o ans (abs (db w')).
Proof. intros Hu E. pose proof (op_refines o w e Hu) as H. by rewrite E in H. Qed.

(** Running one of the service's methods is running its operation. *)
Lemma run_answer {A} (f : A -> CaAnswer) m w e a w' e' :
  m w e = (Ok a, w', e') -> answer f m w e = (Ok (f a), w', e').
Proof. intros E. unfold answer, mbind, prog_bind. by rewrite E. Qed.

Lemma run_ca_ops_snoc os o w e :
  (run_ca_ops (os ++ [o]) w e).1.2 = (run_ca_op o (run_ca_ops os w e).1.2 (run_ca_ops os w e).2).1.2.
Proof.
  revert w e. induction os as [|x l IH]; intros w' e'; cbn; unfold mbind, prog_bind, mret, prog_ret.
  - by destruct (run_ca_op o w' e') as [[??]?].
  - destruct (run_ca_op x w' e') as [[? wx] ex]. specialize (IH wx ex). cbn in IH.
    by destruct (run_ca_ops (l ++ [o]) wx ex) as [[??]?], (run_ca_ops l wx ex) as [[??]?].
Qed.

Lemma run_unique os w e : ids_unique w -> ids_unique (run_ca_ops os w e).1.2.
Proof.
  intros Hu. pose proof (run_ca_ops_refines os w e Hu) as H.
  destruct (run_ca_ops os w e) as [[??]?]. tauto.
Qed.

(** The node's identity is created once: after [ensure_node_identity] has
    returned a certificate and key, every later call returns the same pair, in this
    process or after restarts and any other operations; only the query can fail. *)
Theorem node_identity_stable w e cert key w1 e1 os e2 e3 :
  ids_unique w -> ensure_node_identity w e = (Ok (cert, key), w1, e1) ->
  let w2 := (run_ca_ops os w1 e2).1.2 in
  match oracle e3 _ (SqlExec SqlSelectNode) (clk e3) with
  | None => (ensure_node_identity w2 e3).1.1 = Ok (cert, key)
  | Some err => (ensure_node_identity w2 e3).1.1 = Err ("Failed to query node identity: " +:+ err)
  end.
Proof.
  intros Hu E w2.
  apply (run_answer (fun '(c, k) => AnsPair c k)) in E.
  destruct (step_of OpNodeIdentity _ _ _ _ _ Hu E) as [Hu1 H1].
  assert (Hn : sp_node (abs (db w1)) = Some (cert, key)) by by inversion H1.
  apply (run_keeps (fun a => sp_node a = Some (cert, key)) (fun _ => True) os w1 e2) in Hn;
    [|done|intros; by eapply spec_step_node|by apply Forall_true].
  fold w2 in Hn. cbn in Hn. unfold ensure_node_identity. run_prog. case_answer; [done|].
  run_prog. destruct (node_identity (db w2)) as [row|]; [|done]. cbn. by injection Hn as [= -> ->].
Qed.

(** C30: a revocation holds until the device is signed again: whatever else happens,
    restarts included, [is_revoked] then answers [true] or fails; and once a new
    CSR of the device is signed it answers [false], the device being known by its
    new certificate. *)
Theorem revoked_until_resigned d w e w1 e1 os e2 e3 b w3 e4 :
  ids_unique w ->
  revoke d w e = (Ok tt, w1, e1) ->
  let w2 := (run_ca_ops os w1 e2).1.2 in
  is_revoked d w2 e3 = (Ok b, w3, e4) ->
  (Forall (fun o => forall csr, o <> OpSign d csr) os -> b = true) /\
  (forall csr pem os', os = os' ++ [OpSign d csr] ->
     (run_ca_op (OpSign d csr) (run_ca_ops os' w1 e2).1.2 (run_ca_ops os' w1 e2).2).1.1 = Ok (AnsPem pem) ->
     b = false /\ dc_cert_pem <$> certs_of (device_certs (db w2)) !! d = Some pem).
Proof.
  intros Hu E w2 Hq. apply (run_answer (fun _ => AnsUnit)) in E.
  destruct (step_of (OpRevoke d) _ _ _ _ _ Hu E) as [Hu1 H1%spec_revoke_inv].
  apply (run_answer AnsBool) in Hq.
  destruct (step_of (OpIsRevoked d) _ _ _ _ _ (run_unique os w1 e2 Hu1) Hq) as [_ Hb%spec_is_revoked_inv].
  fold w2 in Hb. split.
  - intros Hos. apply (run_keeps (known_revoked d) (fun o => forall csr, o <> OpSign d csr) os w1 e2 Hu1) in H1;
      [|by intros; eapply spec_step_revoked|done].
    unfold known_revoked in H1. fold w2 in H1. by rewrite Hb, H1.
  - intros csr pem os' -> Hsign. unfold w2 in *. rewrite run_ca_ops_snoc in *.
    pose proof (run_unique os' w1 e2 Hu1) as Hux.
    destruct (run_ca_ops os' w1 e2) as [[rs wx] ex]. cbn [fst snd] in *.
    destruct (run_ca_op (OpSign d csr) wx ex) as [[r wy] ey] eqn:Ey. cbn [fst snd] in *. subst r.
    destruct (step_of _ _ _ _ _ _ Hux Ey) as [_ (now & Hc)%spec_sign_inv].
    cbn [sp_certs abs] in *. split; [by rewrite Hb, Hc|by rewrite Hc].
Qed.

Lemma register_state url w e w1 e1 :
  (forall kp, keypair_from_pem (serialize_pem kp) = Ok kp) ->
  ca_register url w e = (Ok tt, w1, e1) ->
  exists ca c k, ca_state w1 = Some ca /\ ca_keys (db w1) = Some (c, k) /\
    keypair_from_pem k = Ok (key_pair ca) /\ subject_cn ca = CA_CN.
Proof.
  intros Hlaw. unfold ca_register, init, load_or_generate_ca, load_ca_from_db,
    generate_and_persist_ca, set_ca_state, with_db. run_prog.
  case_answer; [|done]. cbn. case_answer; [|done]. cbn. case_answer; [done|]. cbn.
  case_answer; [done|]. cbn. destruct (ca_keys (db w)) as [[c k]|] eqn:Hk.
  - destruct (keypair_from_pem k) eqn:Hkp; [|done]. destruct (params_from_ca_cert_pem c); [|done].
    run_prog. case_answer; [|done]. cbn. intros [= <- <-]. cbn. eauto 10.
  - run_prog. case_answer; [|done]. cbn. case_answer; [|done]. cbn. case_answer; [done|].
    run_prog. rewrite Hk. run_prog. intros [= <- <-]. cbn. eauto 10.
Qed.

(** The root key is made once.  When the PEM printer and reader of key pairs are
    inverse, a node that has come up with some CA key comes up with the same key after
    any operations and restarts, so certificates it issued stay valid. *)
Theorem ca_key_stable url w e w1 e1 os e2 url' e3 w3 e4 :
  (forall kp, keypair_from_pem (serialize_pem kp) = Ok kp) ->
  ids_unique w ->
  ca_register url w e = (Ok tt, w1, e1) ->
  ca_register url' (run_ca_ops os w1 e2).1.2 e3 = (Ok tt, w3, e4) ->
  exists ca1 ca3, ca_state w1 = Some ca1 /\ ca_state w3 = Some ca3 /\
    key_pair ca3 = key_pair ca1 /\ ca_keys (db w3) = ca_keys (db w1).
Proof.
  intros Hlaw Hu E1 E3.
  destruct (register_state _ _ _ _ _ Hlaw E1) as (ca1 & c1 & k1 & Hs1 & Hk1 & Hp1 & _).
  destruct (register_state _ _ _ _ _ Hlaw E3) as (ca3 & c3 & k3 & Hs3 & Hk3 & Hp3 & _).
  apply (run_answer (fun _ => AnsUnit)) in E1, E3.
  destruct (step_of (OpRegister url) _ _ _ _ _ Hu E1) as [Hu1 _].
  destruct (step_of (OpRegister url') _ _ _ _ _ (run_unique os w1 e2 Hu1) E3) as [_ H3].
  assert (Hr : sp_root (abs (db (run_ca_ops os w1 e2).1.2)) = Some (c1, k1)).
  { apply (run_keeps (fun a => sp_root a = Some (c1, k1)) (fun _ => True) os w1 e2 Hu1);
      [|by apply Forall_true|done].
    intros; by eapply spec_step_root. }
  apply (spec_step_root _ _ _ _ _ H3) in Hr. cbn in Hr.
  exists ca1, ca3. repeat split; congruence.
Qed.
End CaTheory.

(** ** Concrete runs *)

Definition demo_world : @CaWorld demo_ext := @mkWorld demo_ext None empty_db.

(** A world whose CA is loaded and which has issued one certificate. *)
Definition demo_issued : @CaWorld demo_ext :=
  @mkWorld demo_ext (Some (@mkCa demo_ext CA_CN "cert" "key"))
    (mkDb (Some ("cert", "key")) [mkDevice "hub" "pem" 900 2000 0] None).

Lemma demo_issued_unique : ids_unique demo_issued.
Proof. apply NoDup_singleton. Defined.

Lemma demo_world_unique : ids_unique demo_world.
Proof. apply NoDup_nil_2. Defined.

Lemma node_identity_stable_witness :
  (ensure_node_identity
     (run_ca_ops [OpRegister "sqlite://x"; OpSign "a" "csr"; OpNodeIdentity]
        (ensure_node_identity demo_issued demo_env).1.2 demo_env).1.2 demo_env).1.1
  = Ok ("cert", "key").
Proof.
  exact (node_identity_stable demo_issued demo_env "cert" "key" _ _
    [OpRegister "sqlite://x"; OpSign "a" "csr"; OpNodeIdentity] demo_env demo_env
    demo_issued_unique eq_refl).
Defined.

Lemma revoked_until_resigned_witness :
  (is_revoked "hub" (run_ca_ops [OpSign "other" "csr"; OpRegister "sqlite://x"]
     (revoke "hub" demo_issued demo_env).1.2 demo_env).1.2 demo_env).1.1 = Ok true /\
  (is_revoked "hub" (run_ca_ops [OpSign "hub" "csr"]
     (revoke "hub" demo_issued demo_env).1.2 demo_env).1.2 demo_env).1.1 = Ok false.
Proof.
  split.
  - destruct (is_revoked "hub" _ demo_env) as [[[b|] w3] e4] eqn:E; [|discriminate E].
    assert (H : b = true); [|by rewrite H].
    apply (revoked_until_resigned "hub" demo_issued demo_env _ _
      [OpSign "other" "csr"; OpRegister "sqlite://x"] demo_env demo_env b w3 e4 demo_issued_unique eq_refl E).
    repeat (apply Forall_cons; split); [discriminate|discriminate|apply Forall_nil_2].
  - destruct (is_revoked "hub" _ demo_env) as [[[b|] w3] e4] eqn:E; [|discriminate E].
    assert (H : b = false); [|by rewrite H].
    apply (proj2 (revoked_until_resigned "hub" demo_issued demo_env _ _
      [OpSign "hub" "csr"] demo_env demo_env b w3 e4 demo_issued_unique eq_refl E) "csr" "cert" [] eq_refl).
    reflexivity.
Defined.

Lemma ca_key_stable_witness :
  let env := @calm_env demo_ext "key" "cert" in
  let w0 := @mkWorld demo_ext None empty_db in
  let w1 := (ca_register "sqlite://x" w0 env).1.2 in
  let w3 := (ca_register "sqlite://x" (run_ca_ops [OpNodeIdentity] w1 env).1.2
               (@calm_env demo_ext "other key" "other cert")).1.2 in
  exists ca1 ca3, ca_state w1 = Some ca1 /\ ca_state w3 = Some ca3 /\
    key_pair ca3 = key_pair ca1 /\ ca_keys (db w3) = ca_keys (db w1).
Proof.
  intros env w0 w1 w3.
  exact (ca_key_stable "sqlite://x" w0 env w1 _ [OpNodeIdentity] env "sqlite://x"
    (@calm_env demo_ext "other key" "other cert") w3 _
    (fun kp => eq_refl) (NoDup_nil_2) eq_refl eq_refl).
Defined.
