(* ===== verification/Brokerage.v ===== *)
(** * Brokerage: the broker process (services/mqtt_brokerage)

    The certificate the broker serves TLS with, the runtime handle that records the
    certificates of devices, the password file, and the managed child process.  The
    child a service holds is an [option unit]; what the operating system says about
    it is the answer to a call. *)

From Stdlib Require Import ZArith Lia Ascii.
From stdpp Require Import base list strings gmap vector.
From S2P Require Import Prelude RustStr RustPath Types Env Demo Supervisor Config Ca.

#[local] Arguments String.append !_ _ : simpl nomatch.

(** ** Local addresses *)

Definition localhost_v4 : vec byte 4 := [#x7f; x00; x00; x01].

(** [Ipv4Addr::is_loopback], [Ipv6Addr::is_loopback] *)
Definition v4_is_loopback (o : vec byte 4) : bool := bool_decide (o !!! 0%fin = x7f).
Definition v6_is_loopback (o : vec byte 16) : bool :=
  bool_decide (vec_to_list o = replicate 15 x00 ++ [x01]).

Definition address_of (a : IfAddr) : option IpAddr :=
  match a with
  | AfInet ip => if v4_is_loopback ip then None else Some (V4 ip)
  | AfInet6 ip => if v6_is_loopback ip then None else Some (V6 ip)
  | AfOther | AfNull => None
  end.

(** ** The managed process *)

Record MosquittoBrokerageService := mkMosquitto {
  mq_binary_path : string;
  mq_password_binary : option string;
  mq_config : MqttBrokerageConfig;
  mq_child : option unit;
}.

Definition MosquittoBrokerageService_new (binary_path : string) (password_binary : option string)
    (config : MqttBrokerageConfig) : MosquittoBrokerageService :=
  mkMosquitto binary_path password_binary config None.

Definition set_child (c : option unit) (s : MosquittoBrokerageService) : MosquittoBrokerageService :=
  mkMosquitto (mq_binary_path s) (mq_password_binary s) (mq_config s) c.

Section Brokerage.
Context {X : Ext}.

Definition get_local_ips {S} : Prog S (list IpAddr) :=
  ifaddrs ← call GetIfAddrs;
  mret (omap address_of (default [] ifaddrs) ++ [V4 localhost_v4]).

Definition provision_mqtt_broker_cert (cfg : MqttBrokerageConfig) : Prog CaWorld (result unit string) :=
  _ ←? match parent (mb_certfile cfg) with
       | Some dir => with_context "Failed to create broker cert dir: " (call (FsCreateDirAll dir))
       | None => mret (Ok tt)
       end;
  ca_pem ←? ca_cert_pem;
  _ ←? with_context "Failed to write broker CA cert: " (call (FsWrite (mb_cafile cfg) ca_pem));
  san_ips ← (match mb_san_ips cfg with [] => get_local_ips | ips => mret ips end);
  let san_hostnames := "localhost" :: mb_san_hostnames cfg in
  '(cert_pem, key_pem) ←? generate_broker_cert san_ips san_hostnames;
  _ ←? with_context "Failed to write broker cert: " (call (FsWrite (mb_certfile cfg) cert_pem));
  _ ←? with_context "Failed to write broker key: " (call (FsWrite (mb_keyfile cfg) key_pem));
  mret (Ok tt).

(** [MqttBrokerageHandle::register_cert_identity], the handle being the shared
    configuration. *)
Definition cert_path (cfg : MqttBrokerageConfig) (hostname : string) : option string :=
  certs_dir ← parent (mb_cafile cfg); Some (join certs_dir (hostname +:+ ".crt")).

Definition register_cert_identity {S} (cfg : MqttBrokerageConfig) (hostname cert_pem : string)
  : Prog S (result unit string) :=
  match cert_path cfg hostname with
  | None => mret (Err "cafile has no parent directory")
  | Some cert_path =>
      _ ←? with_context ("Failed to write device cert '" +:+ cert_path +:+ "': ")
             (call (FsWrite cert_path cert_pem));
      mret (Ok tt)
  end.

(** Run [mosquitto_passwd] and report a failure with what it printed. *)
Definition run_passwd {S} (argv : list string) : Prog S (result unit string) :=
  output ←? with_context "Failed to run mosquitto_passwd: " (call (RunProcess argv));
  if out_success output then mret (Ok tt)
  else mret (Err ("mosquitto_passwd failed: " +:+ from_utf8_lossy (out_stderr output))).

Definition set_password (username password : string) : Prog MosquittoBrokerageService (result unit string) :=
  s ← get;
  match mq_password_binary s with
  | None => mret (Err "mosquitto_passwd is not installed")
  | Some passwd_bin =>
      let password_file := mb_password_file (mq_config s) in
      exists_ ← call (FsExists password_file);
      if negb exists_ then run_passwd [passwd_bin; "-c"; "-b"; password_file; username; password]
      else run_passwd [passwd_bin; "-b"; password_file; username; password]
  end.

Definition delete_user (username : string) : Prog MosquittoBrokerageService (result unit string) :=
  s ← get;
  match mq_password_binary s with
  | None => mret (Err "mosquitto_passwd is not installed")
  | Some passwd_bin =>
      let password_file := mb_password_file (mq_config s) in
      exists_ ← call (FsExists password_file);
      if negb exists_ then mret (Err "Password file does not exist")
      else run_passwd [passwd_bin; "-D"; password_file; username]
  end.

Definition mosquitto_start : Prog MosquittoBrokerageService (result Z string) :=
  s ← get;
  match mq_child s with
  | Some _ => mret (Err "Mosquitto is already running")
  | None =>
      let config_file := mb_config_file (mq_config s) in
      exists_ ← call (FsExists config_file);
      if negb exists_ then
        mret (Err ("Config file not found at " +:+ config_file +:+ ". Call write_config() first."))
      else
        _ ←? with_context "Failed to spawn mosquitto: "
               (call (SpawnProcess [mq_binary_path s; "-c"; config_file]));
        id ← call ChildId;
        match id with
        | None => mret (Err "Failed to get mosquitto PID")
        | Some pid =>
            _ ← call (Spawn StderrReader);
            _ ← modify (set_child (Some tt));
            mret (Ok pid)
        end
  end.

Definition mosquitto_stop : Prog MosquittoBrokerageService (result unit string) :=
  s ← get;
  match mq_child s with
  | Some _ =>
      _ ← modify (set_child None);
      pid ← call ChildId;
      _ ← (match pid with Some pid => call (KillTerm pid) | None => mret tt end);
      status ← call (WaitTimeout 5);
      _ ← (match status with Some _ => mret tt | None => call KillChild end);
      mret (Ok tt)
  | None => mret (Err "Mosquitto is not running")
  end.

Definition mosquitto_is_running : Prog MosquittoBrokerageService bool :=
  s ← get;
  match mq_child s with
  | Some _ =>
      status ← call TryWait;
      match status with
      | Ok true => _ ← modify (set_child None); mret false
      | Ok false => mret true
      | Err _ => mret false
      end
  | None => mret false
  end.

#[export] Instance mosquitto_service : ManagedService MosquittoBrokerageService := {|
  svc_start := mosquitto_start; svc_stop := mosquitto_stop; svc_is_running := mosquitto_is_running |}.
End Brokerage.

#[local] Arguments broker_sans : simpl never.
#[local] Arguments broker_params : simpl never.

(** ** Properties *)

Section Theory.
Context {X : Ext}.
Implicit Types (e : Env) (s : MosquittoBrokerageService).

(** What a trace wrote: paths and contents of the successful writes, in order. *)
Definition written (ev : Event) : option (string * string) :=
  match ev with
  | Ev c y => match c in Call Y return Y -> option (string * string) with
              | FsWrite path contents => fun r => if is_ok r then Some (path, contents) else None
              | _ => fun _ => None
              end y
  end.

(** The key pairs a trace generated, the certificates it had signed (what was asked for,
    for which key, by which CA certificate and key, and the result), and the interface
    addresses it read. *)
Definition generated (ev : Event) : option KeyPair :=
  match ev with
  | Ev c y => match c in Call Y return Y -> option KeyPair with
              | KeyPairGenerate => fun r => match r with Ok kp => Some kp | Err _ => None end
              | _ => fun _ => None
              end y
  end.

Definition signed (ev : Event) : option (CertParams * KeyPair * Certificate * KeyPair * Certificate) :=
  match ev with
  | Ev c y => match c in Call Y return Y -> option (CertParams * KeyPair * Certificate * KeyPair * Certificate) with
              | SignedBy p kp ca ca_kp => fun r => match r with Ok crt => Some (p, kp, ca, ca_kp, crt) | Err _ => None end
              | _ => fun _ => None
              end y
  end.

Definition interfaces (ev : Event) : option (list IfAddr) :=
  match ev with
  | Ev c y => match c in Call Y return Y -> option (list IfAddr) with
              | GetIfAddrs => fun r => Some (default [] r)
              | _ => fun _ => None
              end y
  end.

(** An address of one of the host's interfaces, other than its loopback ones. *)
Definition host_address (ifs : list IfAddr) (ip : IpAddr) : Prop :=
  match ip with
  | V4 o => AfInet o ∈ ifs /\ o !!! 0%fin <> x7f
  | V6 o => AfInet6 o ∈ ifs /\ vec_to_list o <> replicate 15 x00 ++ [x01]
  end.

Lemma address_of_host ifs ip : ip ∈ omap address_of ifs <-> host_address ifs ip.
Proof.
  rewrite list_elem_of_omap. split.
  - intros ([o|o| |] & Hin & Ho); cbn in Ho; try done.
    + unfold v4_is_loopback in Ho. destruct (bool_decide_reflect (o !!! 0%fin = x7f)); [done|].
      by injection Ho as <-.
    + unfold v6_is_loopback in Ho. destruct (bool_decide_reflect (vec_to_list o = replicate 15 x00 ++ [x01])); [done|].
      by injection Ho as <-.
  - destruct ip as [o|o]; intros [Hin Hn]; [exists (AfInet o)|exists (AfInet6 o)]; (split; [done|]); cbn.
    + unfold v4_is_loopback. by rewrite bool_decide_eq_false_2.
    + unfold v6_is_loopback. by rewrite bool_decide_eq_false_2.
Qed.

Lemma sans_exact ips hosts :
  (forall ip, SanIp ip ∈ broker_sans ips hosts <-> ip ∈ ips) /\
  (forall h, SanDns h ∈ broker_sans ips hosts <-> h ∈ hosts /\ ia5_valid h = true).
Proof.
  unfold broker_sans. split.
  - intros ip. rewrite elem_of_app, !list_elem_of_fmap. split; [naive_solver|]. intros H. left. eauto.
  - intros h. rewrite elem_of_app, !list_elem_of_fmap. setoid_rewrite list_elem_of_filter. split; [naive_solver|].
    intros [H1 H2]. right. eauto.
Qed.

(** The events [tr] wrote the CA certificate held in [w], a server certificate this CA
    signed for a new key pair, and that key; the names and addresses of the certificate
    are exactly those the configuration and the host call for. *)
Definition server_identity_written (cfg : MqttBrokerageConfig) (w : CaWorld) (tr : list Event) : Prop :=
  exists ca params crt kp,
    ca_state w = Some ca /\
    omap written tr = [(mb_cafile cfg, cert_pem (ca_cert ca)); (mb_certfile cfg, cert_pem crt);
                       (mb_keyfile cfg, serialize_pem kp)] /\
    omap generated tr = [kp] /\ omap signed tr = [(params, kp, ca_cert ca, key_pair ca, crt)] /\
    cp_is_ca params = false /\ cp_extended_key_usages params = [ServerAuth] /\
    (forall h, SanDns h ∈ cp_subject_alt_names params <->
               (h = "localhost" \/ h ∈ mb_san_hostnames cfg) /\ ia5_valid h = true) /\
    match mb_san_ips cfg with
    | [] => exists ifs, omap interfaces tr = [ifs] /\ forall ip,
              SanIp ip ∈ cp_subject_alt_names params <-> ip = V4 localhost_v4 \/ host_address ifs ip
    | ips => forall ip, SanIp ip ∈ cp_subject_alt_names params <-> ip ∈ ips
    end.

Lemma server_identity_intro cfg w tr ca ips crt kp :
  ca_state w = Some ca ->
  omap written tr = [(mb_cafile cfg, cert_pem (ca_cert ca)); (mb_certfile cfg, cert_pem crt);
                     (mb_keyfile cfg, serialize_pem kp)] ->
  omap generated tr = [kp] ->
  omap signed tr = [(broker_params (broker_sans ips ("localhost" :: mb_san_hostnames cfg)), kp,
                     ca_cert ca, key_pair ca, crt)] ->
  match mb_san_ips cfg with
  | [] => exists ifs, omap interfaces tr = [ifs] /\ ips = omap address_of ifs ++ [V4 localhost_v4]
  | l => ips = l
  end ->
  server_identity_written cfg w tr.
Proof.
  intros H1 H2 H3 H4 H5.
  destruct (sans_exact ips ("localhost" :: mb_san_hostnames cfg)) as [S1 S2].
  exists ca, (broker_params (broker_sans ips ("localhost" :: mb_san_hostnames cfg))), crt, kp.
  do 6 (split; [done|]). split; [intros h; cbn [cp_subject_alt_names broker_params]; rewrite S2; set_solver|].
  destruct (mb_san_ips cfg) as [|ip0 l].
  - destruct H5 as (ifs & Hi & ->). exists ifs. split; [done|]. intros ip.
    cbn [cp_subject_alt_names broker_params]. rewrite S1, elem_of_app, address_of_host. set_solver.
  - subst ips. exact S1.
Qed.

(** C29: a successful provisioning writes three files, in this order: the CA certificate
    the node holds, the server certificate that this CA signed for a newly generated key
    pair, and the private key of that pair.  The certificate is no CA, for server
    authentication only, and valid for exactly: "localhost" and the configured host names
    (those X.509 can express), and the configured addresses or, when none is
    configured, 127.0.0.1 and every address of the host's interfaces that is not a
    loopback one.  Nothing else is signed or written. *)
Theorem provision_writes_server_identity cfg (w w' : CaWorld) e e' :
  provision_mqtt_broker_cert cfg w e = (Ok tt, w', e') ->
  w' = w /\ exists tr, trace e' = trace e ++ tr /\ server_identity_written cfg w tr.
Proof.
  unfold provision_mqtt_broker_cert, ca_cert_pem, generate_broker_cert,
    generate_broker_identity, loaded_ca, get_local_ips.
  run_prog.
  destruct (parent (mb_certfile cfg)) as [dir|]; run_prog;
    [case_answer; run_prog; [|done]|];
    (destruct (ca_state w) as [ca|] eqn:Hca; run_prog; [|done]);
    (case_answer; run_prog; [|done]);
    (destruct (mb_san_ips cfg) as [|ip0 ips] eqn:Hips; run_prog);
    rewrite ?Hca; run_prog;
    (case_answer; run_prog; [|done]); (case_answer; run_prog; [|done]);
    (case_answer; run_prog; [|done]); (case_answer; run_prog; [|done]);
    intros [= <- <-]; (split; [done|]); cbn [trace]; rewrite <- !app_assoc; (eexists; split; [done|]);
    (eapply server_identity_intro; [exact Hca|cbn; reflexivity..|]); rewrite Hips; [|done|..]; eauto.
Qed.

Lemma is_absolute_app h x : is_absolute (h +:+ String "."%char x) = is_absolute h.
Proof. destruct h as [|a h]; [done|]. unfold is_absolute. cbn. by case_decide. Qed.

(** Where [register_cert_identity] writes, for a CA file [f] in the directory [dir].
    A relative host name gives a file of [dir], which is the CA file itself exactly
    when the name is [f] without its extension; an absolute one leaves [dir]
    altogether.  Host names come from the device unchecked, so a device that calls
    itself "ca" replaces the broker's trust anchor by its own certificate. *)
Theorem cert_path_of_hostname cfg q g f h :
  let dir := String sep (q +:+ String sep g) in
  plain_name g = true -> plain_name f = true -> mb_cafile cfg = dir +:+ String sep f ->
  if is_absolute h then cert_path cfg h = Some (h +:+ ".crt")
  else cert_path cfg h = Some (dir +:+ "/" +:+ h +:+ ".crt") /\
       (cert_path cfg h = Some (mb_cafile cfg) <-> h +:+ ".crt" = f).
Proof.
  intros dir Hg Hf Hca. unfold cert_path.
  assert (Hpar : parent (mb_cafile cfg) = Some dir) by (rewrite Hca; by apply parent_plain).
  rewrite Hpar, Hca. cbn [mbind option_bind].
  destruct (is_absolute h) eqn:Hh.
  - by rewrite join_absolute by by rewrite is_absolute_app.
  - assert (Hnd : ends_with "/" dir = false).
    { destruct (ends_with "/" dir) eqn:E; [|done]. apply ends_with_spec in E as [r Hr].
      apply plain_name_spec in Hg as [Hg Ht]. unfold dir in Hr.
      change (String sep (q +:+ String sep g)) with ((String sep q) +:+ String sep g) in Hr.
      pose proof (rsplit_once_app sep (String sep q) g Hg) as H1.
      pose proof (rsplit_once_app sep r "" eq_refl) as H2. rewrite Hr in H1.
      change (String sep "") with "/" in H2. rewrite H2 in H1. injection H1 as _ <-. done. }
    rewrite join_relative; [|by rewrite is_absolute_app|done|done].
    split; [done|]. split.
    + intros [= H]. change (String sep f) with ("/" +:+ f) in H.
      apply app_str_inj_l in H. by injection H.
    + intros <-. done.
Qed.

(** Stopping the broker ends its process: it gets SIGTERM when its pid is known, up to
    5 s to exit, and is killed exactly when it has not exited by then; the service
    holds no child afterwards.  Without a child, stop fails and does nothing. *)
Theorem mosquitto_stop_ends_child s e :
  let '(r, s', e') := mosquitto_stop s e in
  mq_child s' = None /\
  match mq_child s with
  | None => r = Err "Mosquitto is not running" /\ e' = e
  | Some _ =>
      r = Ok tt /\
      exists pid status, trace e' = trace e ++ [Ev ChildId pid] ++
        match pid with Some p => [Ev (KillTerm p) (oracle e _ (KillTerm p) (S (clk e)))] | None => [] end ++
        [Ev (WaitTimeout 5) status] ++
        match status with Some _ => [] | None => [Ev KillChild (oracle e _ KillChild (clk e' - 1))] end
  end.
Proof.
  unfold mosquitto_stop. run_prog. destruct (mq_child s) eqn:Hc; run_prog; [|done].
  destruct (oracle e _ ChildId (clk e)) as [pid|]; run_prog;
    case_answer; run_prog; (split; [done|]); (split; [done|]).
  - exists (Some pid), (Some r). by rewrite <- !app_assoc.
  - exists (Some pid), None. rewrite <- !app_assoc. by repeat (f_equal; try done).
  - exists None, (Some r). by rewrite <- !app_assoc.
  - exists None, None. rewrite <- !app_assoc. by repeat (f_equal; try done).
Qed.
End Theory.

(** ** Concrete runs *)

Definition demo_broker_config : MqttBrokerageConfig :=
  Eval vm_compute in MqttBrokerageConfig_from_env ∅ "/srv/config".

Lemma cert_path_of_hostname_witness :
  cert_path demo_broker_config "hub" = Some "/srv/config/certs/hub.crt" /\
  cert_path demo_broker_config "ca" = Some (mb_cafile demo_broker_config) /\
  cert_path demo_broker_config "/etc/ssl/x" = Some "/etc/ssl/x.crt".
Proof.
  pose proof (fun h => cert_path_of_hostname demo_broker_config "srv/config" "certs" "ca.crt" h
    eq_refl eq_refl eq_refl) as H.
  split; [|split].
  - destruct (H "hub") as [Hp _]. exact Hp.
  - destruct (H "ca") as [_ Hp]. by apply Hp.
  - exact (H "/etc/ssl/x").
Defined.

(** The events of a provisioning on the demo host. *)
Definition demo_provisioning : list (@Event demo_ext) :=
  trace (provision_mqtt_broker_cert demo_broker_config demo_issued demo_env).2.

Lemma provision_writes_server_identity_witness :
  server_identity_written demo_broker_config demo_issued demo_provisioning.
Proof.
  assert (Hok : is_ok (provision_mqtt_broker_cert demo_broker_config demo_issued demo_env).1.1 = true)
    by (vm_compute; reflexivity).
  destruct (provision_writes_server_identity demo_broker_config demo_issued _ demo_env _
    (ran_ok_unit _ Hok)) as (_ & tr & Htr & H).
  unfold demo_provisioning. rewrite Htr. exact H.
Defined.
