(* ===== verification/MqttClient.v ===== *)
(** * MqttClient: the client of the local broker (services/mqtt_client)

    The handle other components hold ([subscribe], [unsubscribe], [publish],
    [subscribe_all]); the two tasks the service spawns, each a loop over the events
    [select!] delivers to it, in the order it picks them; the connection options
    built from the configuration; and the managed service itself.  A channel
    endpoint or one-shot sender the service may have given away is an
    [option unit]. *)

From Stdlib Require Import ZArith Lia.
From stdpp Require Import base list strings gmap.
From S2P Require Import Prelude RustPath Types Env Demo Supervisor Config Ca.

(** ** Data *)

(** The part of [rumqttc::MqttOptions] the code sets. *)
Inductive Transport :=
| Plain
| TlsServer (roots : option (list bytes))
| TlsMutual (ca cert key : bytes).

Record MqttOptions := mkOpts {
  op_client_id : string;
  op_host : string;
  op_port : Z;
  op_keep_alive : Z;
  op_transport : Transport;
  op_credentials : option (string * string);
}.

Record MqttClientService := mkMqtt {
  ms_config : MqttClientConfig;
  ms_cmd_rx : option unit;
  ms_shutdown_tx : option unit;
  ms_cmd_shutdown_tx : option unit;
  ms_out_rx : option unit;
  ms_connected_tx : option unit;
}.

Definition MqttClientService_new (config : MqttClientConfig) : MqttClientService :=
  mkMqtt config (Some tt) None None (Some tt) (Some tt).

Definition required_subscriptions : list TopicSubscription :=
  [ {| sub_topic := "registration"; sub_qos := AtLeastOnce |};
    {| sub_topic := "key-bridge"; sub_qos := AtLeastOnce |} ].

Section MqttClient.
Context {X : Ext}.

(** ** The handle *)

(** Send a command with a reply channel, then wait on it. *)
Definition send_command {S} (cmd : MqttCommand) : Prog S (result unit string) :=
  accepted ← call (CmdSend cmd);
  if (accepted : bool) then
    reply ← call (CmdReply cmd);
    mret (match reply with Some r => r | None => Err "mqtt client dropped reply" end)
  else mret (Err "mqtt client channel closed").

Definition subscribe {S} (topic : string) (qos : QoS) : Prog S (result unit string) :=
  send_command (Subscribe topic qos).

Definition unsubscribe {S} (topic : string) : Prog S (result unit string) :=
  send_command (Unsubscribe topic).

Definition publish {S} (topic : string) (qos : QoS) (payload : bytes) : Prog S (result unit string) :=
  send_command (Publish topic qos payload).

Fixpoint subscribe_all {S} (subscriptions : list TopicSubscription) : Prog S (result unit string) :=
  match subscriptions with
  | [] => mret (Ok tt)
  | sub :: rest => _ ←? subscribe (sub_topic sub) (sub_qos sub); subscribe_all rest
  end.

(** ** The command task *)

Definition run_command {S} (cmd : MqttCommand) : Prog S (result unit string) :=
  match cmd with
  | Subscribe topic qos => with_context "subscribe failed: " (call (ClientSubscribe topic qos))
  | Unsubscribe topic => with_context "unsubscribe failed: " (call (ClientUnsubscribe topic))
  | Publish topic qos payload => with_context "publish failed: " (call (ClientPublish topic qos payload))
  end.

Inductive CommandEvent :=
| CmdShutdown
| CmdReceived (cmd : option MqttCommand).

(** The replies sent, in order. *)
Fixpoint command_task {S} (evs : list CommandEvent) : Prog S (list (MqttCommand * result unit string)) :=
  match evs with
  | [] => mret []
  | CmdShutdown :: _ => mret []
  | CmdReceived None :: _ => mret []
  | CmdReceived (Some cmd) :: evs =>
      r ← run_command cmd; rs ← command_task evs; mret ((cmd, r) :: rs)
  end.

(** ** The event-loop task *)

Inductive Poll :=
| PollPublish (topic : string) (payload : bytes)
| PollConnAck
| PollDisconnect
| PollOther
| PollError (e : string).

Inductive LoopEvent :=
| LoopShutdown
| LoopOutbound (msg : MqttMessage)
| LoopPoll (p : Poll).

(** One iteration; the state is [connected_tx], the result whether to go on. *)
Definition eventloop_step (ev : LoopEvent) : Prog (option unit) bool :=
  match ev with
  | LoopShutdown => _ ← call ClientDisconnect; mret false
  | LoopOutbound msg =>
      _ ← call (ClientPublish (msg_topic msg) AtLeastOnce (msg_payload msg)); mret true
  | LoopPoll (PollPublish topic payload) =>
      _ ← call (InboundSend {| msg_topic := topic; msg_payload := payload |}); mret true
  | LoopPoll PollConnAck =>
      connected_tx ← get;
      match connected_tx with
      | Some _ => _ ← put None; _ ← call SignalConnected; mret true
      | None => mret true
      end
  | LoopPoll PollDisconnect => mret true
  | LoopPoll PollOther => mret true
  | LoopPoll (PollError _) => _ ← call (Sleep 5000); mret true
  end.

Fixpoint eventloop_task (evs : list LoopEvent) : Prog (option unit) unit :=
  match evs with
  | [] => mret tt
  | ev :: evs => go_on ← eventloop_step ev; if (go_on : bool) then eventloop_task evs else mret tt
  end.

(** ** Connection options *)

Fixpoint add_roots {S} (roots : list bytes) (certs : list (result bytes string))
  : Prog S (result (list bytes) string) :=
  match certs with
  | [] => mret (Ok roots)
  | Err e :: _ => mret (Err ("Failed to parse gateway CA: " +:+ e))
  | Ok cert :: certs =>
      _ ←? with_context "Failed to add gateway CA: " (call (RootAdd cert));
      add_roots (roots ++ [cert]) certs
  end.

Definition build_server_tls {S} (cafile : option string) : Prog S (result Transport string) :=
  match cafile with
  | Some cafile =>
      pem ←? with_context ("Failed to read gateway CA '" +:+ cafile +:+ "': ") (call (FsRead cafile));
      certs ← call (PemCerts pem);
      roots ←? add_roots [] certs;
      mret (Ok (TlsServer (Some roots)))
  | None => mret (Ok (TlsServer None))
  end.

Definition build_mqtt_opts {S} (config : MqttClientConfig) : Prog S (result MqttOptions string) :=
  let opts := mkOpts (mc_client_id config) (mc_host config) (mc_port config) 30 in
  let credentials := Some (mc_username config, mc_password config) in
  match mc_tls_mode config with
  | NoTls => mret (Ok (opts Plain credentials))
  | ServerOnly =>
      tls ←? build_server_tls (mc_cafile config);
      mret (Ok (opts tls credentials))
  | Mutual =>
      cafile ←? mret (ok_or "Mutual TLS requires a CA file" (mc_cafile config));
      certfile ←? mret (ok_or "Mutual TLS requires a client cert" (mc_certfile config));
      keyfile ←? mret (ok_or "Mutual TLS requires a client key" (mc_keyfile config));
      ca ←? with_context ("Failed to read CA cert '" +:+ cafile +:+ "': ") (call (FsRead cafile));
      cert ←? with_context ("Failed to read client cert '" +:+ certfile +:+ "': ") (call (FsRead certfile));
      key ←? with_context ("Failed to read client key '" +:+ keyfile +:+ "': ") (call (FsRead keyfile));
      mret (Ok (opts (TlsMutual ca cert key) None))
  end.

(** ** The managed service *)

Definition take_channels : Prog MqttClientService (result unit string) :=
  s ← get;
  match ms_cmd_rx s with
  | None => mret (Err "MqttClientService command receiver already consumed")
  | Some _ =>
      _ ← put (mkMqtt (ms_config s) None (ms_shutdown_tx s) (ms_cmd_shutdown_tx s)
                 (ms_out_rx s) (ms_connected_tx s));
      s ← get;
      match ms_out_rx s with
      | None => mret (Err "MqttClientService outbound receiver already consumed")
      | Some _ =>
          _ ← put (mkMqtt (ms_config s) (ms_cmd_rx s) (ms_shutdown_tx s) (ms_cmd_shutdown_tx s)
                     None (ms_connected_tx s));
          s ← get;
          match ms_connected_tx s with
          | None => mret (Err "MqttClientService connected sender already consumed")
          | Some _ =>
              _ ← put (mkMqtt (ms_config s) (ms_cmd_rx s) (ms_shutdown_tx s)
                         (ms_cmd_shutdown_tx s) (ms_out_rx s) None);
              mret (Ok tt)
          end
      end
  end.

Definition mqtt_start : Prog MqttClientService (result Z string) :=
  s ← get;
  match ms_shutdown_tx s with
  | Some _ => mret (Err "MqttClientService is already running")
  | None =>
      _ ←? take_channels;
      opts ←? build_mqtt_opts (ms_config s);
      _ ← modify (fun s => mkMqtt (ms_config s) (ms_cmd_rx s) (Some tt) (Some tt)
                             (ms_out_rx s) (ms_connected_tx s));
      _ ← call (Spawn MqttEventLoop);
      _ ← call (Spawn MqttCommandTask);
      mret (Ok 0%Z)
  end.

Definition mqtt_stop : Prog MqttClientService (result unit string) :=
  s ← get;
  match ms_shutdown_tx s with
  | Some _ =>
      _ ← modify (fun s => mkMqtt (ms_config s) (ms_cmd_rx s) None (ms_cmd_shutdown_tx s)
                             (ms_out_rx s) (ms_connected_tx s));
      _ ← call SignalShutdown;
      s ← get;
      match ms_cmd_shutdown_tx s with
      | Some _ =>
          _ ← modify (fun s => mkMqtt (ms_config s) (ms_cmd_rx s) (ms_shutdown_tx s) None
                                 (ms_out_rx s) (ms_connected_tx s));
          _ ← call SignalShutdown;
          mret (Ok tt)
      | None => mret (Ok tt)
      end
  | None => mret (Err "MqttClientService is not running")
  end.

Definition mqtt_is_running : Prog MqttClientService bool :=
  s ← get; mret (bool_decide (is_Some (ms_shutdown_tx s))).

#[export] Instance mqtt_service : ManagedService MqttClientService := {|
  svc_start := mqtt_start; svc_stop := mqtt_stop; svc_is_running := mqtt_is_running |}.

(** ** Manager *)

Definition provision_node_identity (cfg : MqttClientConfig) : Prog CaWorld (result unit string) :=
  certfile ←? mret (ok_or "provision_node_identity requires a client cert path" (mc_certfile cfg));
  keyfile ←? mret (ok_or "provision_node_identity requires a client key path" (mc_keyfile cfg));
  '(cert_pem, key_pem) ←? ensure_node_identity;
  _ ←? match parent certfile with
       | Some dir => with_context "Failed to create cert dir: " (call (FsCreateDirAll dir))
       | None => mret (Ok tt)
       end;
  _ ←? with_context "Failed to write node cert: " (call (FsWrite certfile cert_pem));
  _ ←? with_context "Failed to write node key: " (call (FsWrite keyfile key_pem));
  mret (Ok tt).
End MqttClient.

(** ** Properties *)

Definition sub_command (sub : TopicSubscription) : MqttCommand := Subscribe (sub_topic sub) (sub_qos sub).

(** The commands a command task handles: those before it is told to stop, or finds its
    channel closed. *)
Fixpoint commands_before_stop (evs : list CommandEvent) : list MqttCommand :=
  match evs with
  | CmdReceived (Some cmd) :: evs => cmd :: commands_before_stop evs
  | _ => []
  end.

Fixpoint before_shutdown (evs : list LoopEvent) : list LoopEvent :=
  match evs with
  | [] | LoopShutdown :: _ => []
  | ev :: evs => ev :: before_shutdown evs
  end.

Definition published (ev : LoopEvent) : option MqttMessage :=
  match ev with
  | LoopPoll (PollPublish topic payload) => Some {| msg_topic := topic; msg_payload := payload |}
  | _ => None
  end.

Definition is_connack (ev : LoopEvent) : bool :=
  match ev with LoopPoll PollConnAck => true | _ => false end.

Section Theory.
Context {X : Ext}.
Implicit Types (e : Env) (ev : Event).

(** What a trace sent on the command channel, and forwarded to the application. *)
Definition sent_command ev : option MqttCommand :=
  match ev with Ev c _ => match c with CmdSend cmd => Some cmd | _ => None end end.

Definition inbound ev : option MqttMessage :=
  match ev with Ev c _ => match c with InboundSend msg => Some msg | _ => None end end.

Definition connected ev : option unit :=
  match ev with Ev c _ => match c with SignalConnected => Some tt | _ => None end end.

Lemma send_command_sent {S} cmd (s : S) e :
  let '(r, s', e') := send_command cmd s e in
  s' = s /\ omap sent_command (trace e') = omap sent_command (trace e) ++ [cmd].
Proof.
  unfold send_command. run_prog. case_answer; run_prog; (split; [done|]).
  - by rewrite !omap_app, app_nil_r.
  - by rewrite omap_app.
Qed.

(** [subscribe_all] asks for the subscriptions in order and stops at the first one
    refused: [Ok] means all of them were sent, an error that those up to and
    including some subscription were, and no other. *)
Theorem subscribe_all_in_order {S} subs (s : S) e :
  let '(r, _, e') := subscribe_all subs s e in
  match r with
  | Ok _ => omap sent_command (trace e') = omap sent_command (trace e) ++ (sub_command <$> subs)
  | Err _ => exists pre sub post, subs = pre ++ sub :: post /\
      omap sent_command (trace e') = omap sent_command (trace e) ++ (sub_command <$> pre ++ [sub])
  end.
Proof.
  revert s e. induction subs as [|sub subs IH]; intros s e; [by cbn; rewrite app_nil_r|].
  cbn [subscribe_all]. unfold bind_ok, mbind, prog_bind, subscribe.
  pose proof (send_command_sent (Subscribe (sub_topic sub) (sub_qos sub)) s e) as Hs.
  destruct (send_command _ s e) as [[r s1] e1]. destruct Hs as [-> Hs]. destruct r as [[]|err].
  - specialize (IH s e1). destruct (subscribe_all subs s e1) as [[r s2] e2]. rewrite Hs in IH.
    destruct r.
    + rewrite IH. by rewrite fmap_cons, <- app_assoc.
    + destruct IH as (pre & x & post & -> & ->). exists (sub :: pre), x, post. split; [done|].
      by rewrite <- app_assoc.
  - exists [], sub, subs. by split.
Qed.

Lemma run_command_oracle {S} cmd (s : S) e : oracle (run_command cmd s e).2 = oracle e.
Proof. destruct cmd; by unfold run_command; run_prog. Qed.

(** The client's own answer to a command. *)
Definition client_answer cmd e (n : nat) : result unit string :=
  match cmd with
  | Subscribe topic qos => map_err (String.append "subscribe failed: ") (oracle e _ (ClientSubscribe topic qos) n)
  | Unsubscribe topic => map_err (String.append "unsubscribe failed: ") (oracle e _ (ClientUnsubscribe topic) n)
  | Publish topic qos p => map_err (String.append "publish failed: ") (oracle e _ (ClientPublish topic qos p) n)
  end.

(** The command task answers every command it receives before it is stopped, once,
    in order, with the client's own answer to that command. *)
Theorem command_task_replies {S} evs (s : S) e :
  let rs := (command_task evs s e).1.1 in
  rs.*1 = commands_before_stop evs /\
  forall i cmd r, rs !! i = Some (cmd, r) -> r = client_answer cmd e (clk e + i)%nat.
Proof.
  revert s e. induction evs as [|[|[cmd|]] evs IH]; intros s e; try (by split).
  cbn [command_task commands_before_stop]. unfold mbind, prog_bind, mret, prog_ret.
  assert (Hc : run_command cmd s e =
    (client_answer cmd e (clk e), s, (run_command cmd s e).2) /\
    clk (run_command cmd s e).2 = Datatypes.S (clk e)).
  { by destruct cmd. }
  destruct Hc as [Hc Hclk]. pose proof (run_command_oracle cmd s e) as Ho. rewrite Hc.
  specialize (IH s (run_command cmd s e).2).
  destruct (command_task evs s (run_command cmd s e).2) as [[rs s2] e2]. cbn in *.
  destruct IH as [IH1 IH2]. split; [by rewrite IH1|].
  intros [|i] cmd' r; cbn.
  - intros [= <- <-]. by rewrite Nat.add_0_r.
  - intros Hi. rewrite (IH2 _ _ _ Hi), Hclk. unfold client_answer. rewrite Ho.
    replace (clk e + Datatypes.S i)%nat with (Datatypes.S (clk e) + i)%nat by lia. done.
Qed.

(** Until it is told to shut down the event loop forwards every message received
    from the broker to the application, in order and unchanged; and it reports the
    connection exactly once, at the first acknowledgement, however often it
    reconnects. *)
Theorem eventloop_forwards evs tx e :
  let e' := (eventloop_task evs tx e).2 in
  omap inbound (trace e') = omap inbound (trace e) ++ omap published (before_shutdown evs) /\
  omap connected (trace e') = omap connected (trace e) ++
    (if existsb is_connack (before_shutdown evs) then option_list tx else []).
Proof.
  revert tx e. induction evs as [|ev evs IH]; intros tx e.
  - cbn. by rewrite !app_nil_r.
  - cbn [eventloop_task]. unfold mbind, prog_bind.
    destruct ev as [|msg|[topic payload| | | |err]]; cbn -[omap].
    + unfold eventloop_step. run_prog. rewrite !omap_app, !app_nil_r. done.
    + specialize (IH tx). unfold eventloop_step. run_prog.
      edestruct IH as [-> ->]. cbn [trace]. by rewrite !omap_app, !app_nil_r.
    + specialize (IH tx). unfold eventloop_step. run_prog.
      edestruct IH as [-> ->]. cbn [trace]. rewrite !omap_app, <- !app_assoc. done.
    + unfold eventloop_step. run_prog. destruct tx as [[]|]; run_prog.
      * edestruct IH as [-> ->]. cbn [trace]. rewrite !omap_app, <- !app_assoc. cbn.
        split; [done|]. by destruct (existsb _ _).
      * edestruct IH as [-> ->]. split; [done|]. by destruct (existsb _ _).
    + unfold eventloop_step. run_prog. apply IH.
    + unfold eventloop_step. run_prog. apply IH.
    + specialize (IH tx). unfold eventloop_step. run_prog.
      edestruct IH as [-> ->]. cbn [trace]. by rewrite !omap_app, !app_nil_r.
Qed.
End Theory.

Section Service.
Context {X : Ext}.
Implicit Types (e : Env) (s : MqttClientService).

Lemma add_roots_ok {S} certs roots l (s s' : S) e e' :
  add_roots roots certs s e = (Ok l, s', e') ->
  s' = s /\ exists added, l = roots ++ added /\ Ok <$> added = certs.
Proof.
  revert roots e. induction certs as [|[cert|err] certs IH]; intros roots e; cbn.
  - intros [= -> -> _]. split; [done|]. exists []. by rewrite app_nil_r.
  - run_prog. case_answer; [|done]. intros H. apply IH in H as [-> (added & -> & <-)].
    split; [done|]. exists (cert :: added). by rewrite <- app_assoc.
  - done.
Qed.

(** What each mode means: the identity the client presents, what it trusts, and where
    it connects. *)
Definition opts_of_mode (config : MqttClientConfig) (o : MqttOptions) : Prop :=
  op_client_id o = mc_client_id config /\ op_host o = mc_host config /\
  op_port o = mc_port config /\
  match mc_tls_mode config with
  | NoTls => op_transport o = Plain /\
             op_credentials o = Some (mc_username config, mc_password config)
  | ServerOnly => (exists roots, op_transport o = TlsServer roots /\
                     (roots = None <-> mc_cafile config = None)) /\
                  op_credentials o = Some (mc_username config, mc_password config)
  | Mutual => (exists ca cert key, op_transport o = TlsMutual ca cert key) /\
              op_credentials o = None /\
              is_Some (mc_cafile config) /\ is_Some (mc_certfile config) /\ is_Some (mc_keyfile config)
  end.

(** TLS and credentials are as the mode says, whenever the options can be built:
    no password is sent in mutual TLS, the connection is in clear text only in mode
    [NoTls], and in mode [ServerOnly] a configured CA file replaces the public
    roots; a mode that lacks its files is refused, not downgraded. *)
Theorem build_mqtt_opts_by_mode {S} config (s s' : S) e r e' :
  build_mqtt_opts config s e = (r, s', e') ->
  s' = s /\
  match r with
  | Ok o => opts_of_mode config o
  | Err _ => mc_tls_mode config <> NoTls
  end.
Proof.
  unfold build_mqtt_opts, opts_of_mode. destruct (mc_tls_mode config) eqn:Hmode; run_prog.
  - intros [= <- <- <-]. done.
  - unfold build_server_tls. destruct (mc_cafile config) as [cafile|]; run_prog.
    + case_answer; run_prog; [|by intros [= <- <- <-]].
      destruct (add_roots [] _ s _) as [[[l|err] s1] e1] eqn:Ea; run_prog; intros [= <- <- <-].
      * apply add_roots_ok in Ea as [-> _]. split; [done|]. cbn. repeat split; try done.
        eexists. split; [done|]. by split.
      * split; [|done]. clear -Ea. revert Ea. generalize (@nil bytes).
        match goal with |- forall l, add_roots l ?c s ?e = _ -> _ => generalize c, e end.
        induction l as [|[c|] certs IH]; intros ee ll; cbn; [done| |by intros [= _ -> _]].
        run_prog. case_answer; [apply IH|by intros [= _ -> _]].
    + intros [= <- <- <-]. repeat split; try done. eexists. split; [done|]. by split.
  - destruct (mc_cafile config) as [cafile|]; run_prog; [|by intros [= <- <- <-]].
    destruct (mc_certfile config) as [certfile|]; run_prog; [|by intros [= <- <- <-]].
    destruct (mc_keyfile config) as [keyfile|]; run_prog; [|by intros [= <- <- <-]].
    case_answer; run_prog; [|by intros [= <- <- <-]].
    case_answer; run_prog; [|by intros [= <- <- <-]].
    case_answer; run_prog; intros [= <- <- <-]; [|done]. eauto 15.
Qed.

(** Calls of the trait's methods, with whether each succeeded. *)
Inductive ServiceCall := CallStart | CallStop.

Fixpoint run_calls (cs : list ServiceCall) : Prog MqttClientService (list (ServiceCall * bool)) :=
  match cs with
  | [] => mret []
  | CallStart :: cs => r ← mqtt_start; rs ← run_calls cs; mret ((CallStart, is_ok r) :: rs)
  | CallStop :: cs => r ← mqtt_stop; rs ← run_calls cs; mret ((CallStop, is_ok r) :: rs)
  end.

Lemma take_channels_consumed s e : ms_cmd_rx (take_channels s e).1.2 = None.
Proof.
  unfold take_channels. run_prog. destruct (ms_cmd_rx s) eqn:H1; run_prog; [|done].
  destruct (ms_out_rx s); run_prog; [|done]. by destruct (ms_connected_tx s).
Qed.

Lemma start_consumed s e :
  ms_cmd_rx s = None -> is_ok (mqtt_start s e).1.1 = false /\ ms_cmd_rx (mqtt_start s e).1.2 = None.
Proof.
  intros Hs. unfold mqtt_start, take_channels. run_prog. destruct (ms_shutdown_tx s); [done|].
  run_prog. by rewrite Hs.
Qed.

Lemma stop_keeps_cmd_rx s e : ms_cmd_rx (mqtt_stop s e).1.2 = ms_cmd_rx s.
Proof.
  unfold mqtt_stop. run_prog. destruct (ms_shutdown_tx s); [|done]. run_prog.
  by destruct (ms_cmd_shutdown_tx s).
Qed.

Lemma start_consumes s e :
  ms_shutdown_tx s = None -> ms_cmd_rx (mqtt_start s e).1.2 = None.
Proof.
  intros Hs. unfold mqtt_start, bind_ok, mbind, prog_bind, get. rewrite Hs.
  pose proof (take_channels_consumed s e) as Ht.
  destruct (take_channels s e) as [[[u|err] s1] e1]; [|done]. cbn in Ht.
  destruct (build_mqtt_opts _ s1 e1) as [[r s2] e2] eqn:Eb.
  apply build_mqtt_opts_by_mode in Eb as [-> _]. destruct r; [|done]. run_prog. done.
Qed.

(** A start that succeeds has given the command channel away. *)
Lemma start_gives_cmd_rx_away s e : is_ok (mqtt_start s e).1.1 = true -> ms_cmd_rx (mqtt_start s e).1.2 = None.
Proof.
  destruct (ms_shutdown_tx s) eqn:Hs; [|by intros _; apply start_consumes].
  unfold mqtt_start. run_prog. rewrite Hs. by run_prog.
Qed.

Lemma run_calls_consumed cs s e :
  ms_cmd_rx s = None -> forall b, (CallStart, b) ∈ (run_calls cs s e).1.1 -> b = false.
Proof.
  revert s e. induction cs as [|[|] cs IH]; intros s e Hs b; [set_solver|..];
    cbn; unfold mbind, prog_bind, mret, prog_ret.
  - destruct (start_consumed s e Hs) as [H1 H2]. destruct (mqtt_start s e) as [[r s1] e1]. cbn in *.
    specialize (IH s1 e1 H2 b). destruct (run_calls cs s1 e1) as [[rs s2] e2]. cbn in *.
    rewrite elem_of_cons. intros [[= ->]|Hin]; [done|by apply IH].
  - pose proof (stop_keeps_cmd_rx s e) as H2. destruct (mqtt_stop s e) as [[r s1] e1]. cbn in *.
    specialize (IH s1 e1 (eq_trans H2 Hs) b). destruct (run_calls cs s1 e1) as [[rs s2] e2]. cbn in *.
    rewrite elem_of_cons. intros [[=]|Hin]. by apply IH.
Qed.

(** The client can be started once in the life of the process.  Only the first
    start of a new service can succeed: it gives away the channel endpoints, and
    neither a stop nor a failed start brings them back, so every later start
    (and so every restart by the supervisor) fails. *)
Theorem mqtt_client_starts_at_most_once config stops cs e :
  Forall (fun c => c = CallStop) stops ->
  forall rs s' e', run_calls (stops ++ CallStart :: cs) (MqttClientService_new config) e = (rs, s', e') ->
  forall i b, rs !! i = Some (CallStart, b) -> i <> length stops -> b = false.
Proof.
  intros Hstops. revert e. induction Hstops as [|c stops -> _ IH]; intros e rs s' e'.
  - cbn. unfold mbind, prog_bind, mret, prog_ret.
    pose proof (start_consumes (MqttClientService_new config) e eq_refl) as Hc.
    destruct (mqtt_start _ e) as [[r s1] e1]. cbn in Hc.
    pose proof (run_calls_consumed cs s1 e1 Hc) as Hr.
    destruct (run_calls cs s1 e1) as [[rs1 s2] e2]. intros [= <- _ _] [|i] b; cbn; [done|].
    intros Hi%list_elem_of_lookup_2 _. by apply Hr.
  - cbn. unfold mbind, prog_bind, mret, prog_ret.
    change (mqtt_stop (MqttClientService_new config) e) with
      (@Err unit string "MqttClientService is not running", MqttClientService_new config, e).
    cbn. specialize (IH e).
    destruct (run_calls (stops ++ CallStart :: cs) (MqttClientService_new config) e) as [[rs1 s2] e2].
    intros [= <- _ _] [|i] b; cbn; [done|]. intros Hi Hne. eapply (IH _ _ _ eq_refl); [done|lia].
Qed.
End Service.

(** ** Concrete runs *)

Definition demo_client_config : MqttClientConfig :=
  Eval vm_compute in MqttClientConfig_from_env {[ "MQTT_TLS_ENABLED" := "true" ]} "/c".

Lemma mqtt_client_starts_at_most_once_witness :
  let run := run_calls [CallStop; CallStart; CallStop; CallStart]
               (MqttClientService_new demo_client_config) demo_env in
  run.1.1 !! 1%nat = Some (CallStart, true) /\
  (forall b, run.1.1 !! 3%nat = Some (CallStart, b) -> b = false).
Proof.
  intros run. split; [by vm_compute|]. intros b Hb. destruct run as [[rs s'] e'] eqn:E.
  exact (mqtt_client_starts_at_most_once demo_client_config [CallStop] [CallStop; CallStart]
    demo_env ltac:(by repeat constructor) rs s' e' E 3 b Hb ltac:(discriminate)).
Defined.

Lemma build_mqtt_opts_by_mode_witness :
  exists o, (build_mqtt_opts demo_client_config tt demo_env).1.1 = Ok o /\
    opts_of_mode demo_client_config o.
Proof.
  destruct (ran_ok (build_mqtt_opts demo_client_config tt demo_env) ltac:(by vm_compute))
    as (o & s' & e' & E).
  exists o. rewrite E. split; [reflexivity|].
  exact (proj2 (build_mqtt_opts_by_mode demo_client_config tt s' demo_env (Ok o) e' E)).
Defined.
