(* ===== verification/CloudGateway.v ===== *)
(** * CloudGateway: the WebSocket connection to a cloud gateway (services/cloud_gateway)

    [compute_ws_url]; the connection task, a state machine driven by what its [select!]s
    deliver; the managed service around it.  In the task a [Sleep] is not part of a
    [select!], so a shutdown is only noticed after it. *)

From Stdlib Require Import ZArith Lia Ascii.
From stdpp Require Import base list strings gmap.
From S2P Require Import Prelude RustStr Types Env Demo Supervisor.

#[local] Arguments String.append !_ _ : simpl nomatch.

Definition INITIAL_RECONNECT_DELAY : Z := 2.
Definition MAX_RECONNECT_DELAY : Z := 60.

(** [(delay * 2).min(MAX_RECONNECT_DELAY)] *)
Definition next_delay (delay : Z) : Z := Z.min (delay * 2) MAX_RECONNECT_DELAY.

Definition compute_ws_url (gateway_url : string) : string :=
  let base := trim_end_matches "/"%char gateway_url in
  let base := if starts_with "https://" base then replacen1 "https://" "wss://" base
              else if starts_with "http://" base then replacen1 "http://" "ws://" base
              else base in
  if ends_with "/ws" base then base else base +:+ "/ws".

(** ** The connection task *)

(** What [stream.next()] gives. *)
Inductive WsFrame :=
| FrameText (text : string)
| FramePing (data : bytes)
| FrameClosed
| FrameError (e : string)
| FrameOther.

Inductive WsPhase := Connecting | Connected | Terminated.

#[export] Instance WsPhase_eq_dec : EqDecision WsPhase.
Proof. solve_decision. Defined.

Record WsState := mkWs { ws_phase : WsPhase; ws_delay : Z }.

Definition ws_initial : WsState := mkWs Connecting INITIAL_RECONNECT_DELAY.

Section CloudGateway.
Context {X : Ext}.

Inductive WsInput :=
| WsShutdown
| WsConnectResult (r : result unit string)
| WsOutbound (msg : GatewayMessage Value)
| WsInbound (f : WsFrame).

(** The kinds of frame [handle_inbound] tells apart; it only logs them. *)
Inductive InboundLog :=
| LogConnectRequest (from : string)
| LogRelay (from : string)
| LogAck (ok : bool) (message : option string)
| LogUnexpected
| LogUnparsable.

Definition ws_handle_inbound (text : string) : InboundLog :=
  match parse_gateway_message text with
  | Some (ConnectRequest from) => LogConnectRequest from
  | Some (Relay from _ _) => LogRelay from
  | Some (Ack ok message) => LogAck ok message
  | Some _ => LogUnexpected
  | None => LogUnparsable
  end.

Definition set_ws (phase : WsPhase) (delay : Z) : Prog WsState unit := put (mkWs phase delay).

(** Sleep, double the delay, connect again. *)
Definition ws_back_off : Prog WsState unit :=
  s ← get;
  _ ← call (Sleep (ws_delay s * 1000));
  set_ws Connecting (next_delay (ws_delay s)).

(** One [select!] of the task and what follows it up to the next. *)
Definition ws_step (server_url : string) (i : WsInput) : Prog WsState unit :=
  s ← get;
  match ws_phase s, i with
  | Connecting, WsShutdown => set_ws Terminated (ws_delay s)
  | Connecting, WsConnectResult (Err _) => ws_back_off
  | Connecting, WsConnectResult (Ok _) =>
      _ ← set_ws Connecting INITIAL_RECONNECT_DELAY;
      match gateway_message_to_string (Register server_url) with
      | Err _ => mret tt
      | Ok text =>
          r ← call (WsSend text);
          match r with
          | Err _ => mret tt
          | Ok _ => set_ws Connected INITIAL_RECONNECT_DELAY
          end
      end
  | Connected, WsShutdown => _ ← call WsClose; set_ws Terminated (ws_delay s)
  | Connected, WsOutbound msg =>
      match gateway_message_to_string msg with
      | Err _ => mret tt
      | Ok text =>
          r ← call (WsSend text);
          match r with Err _ => ws_back_off | Ok _ => mret tt end
      end
  | Connected, WsInbound (FrameText text) => let _ := ws_handle_inbound text in mret tt
  | Connected, WsInbound (FramePing data) => _ ← call (WsPong data); mret tt
  | Connected, WsInbound FrameClosed => ws_back_off
  | Connected, WsInbound (FrameError _) => ws_back_off
  | Connected, WsInbound FrameOther => mret tt
  (* inputs the current [select!] does not wait for *)
  | _, _ => mret tt
  end.

Definition ws_task (server_url : string) (inputs : list WsInput) : Prog WsState unit :=
  for_each inputs (ws_step server_url).

(** ** The managed service *)

Record CloudGatewayService := mkCloud {
  cg_server_url : string;
  cg_gateway_url : string;
  cg_outbound_rx : option unit;
  cg_shutdown_tx : option unit;
}.

Definition CloudGatewayService_new (server_url gateway_url : string) : CloudGatewayService :=
  mkCloud server_url gateway_url (Some tt) None.

Definition cloud_start : Prog CloudGatewayService (result Z string) :=
  s ← get;
  match cg_outbound_rx s with
  | None => mret (Err "CloudGatewayService already started")
  | Some _ =>
      _ ← put (mkCloud (cg_server_url s) (cg_gateway_url s) None (Some tt));
      _ ← call (Spawn (WsConnectionTask (cg_server_url s) (compute_ws_url (cg_gateway_url s))));
      mret (Ok 0%Z)
  end.

Definition cloud_stop : Prog CloudGatewayService (result unit string) :=
  s ← get;
  match cg_shutdown_tx s with
  | Some _ =>
      _ ← put (mkCloud (cg_server_url s) (cg_gateway_url s) (cg_outbound_rx s) None);
      _ ← call SignalShutdown;
      mret (Ok tt)
  | None => mret (Ok tt)
  end.

Definition cloud_is_running : Prog CloudGatewayService bool :=
  s ← get; mret (bool_decide (is_Some (cg_shutdown_tx s))).

#[export] Instance cloud_service : ManagedService CloudGatewayService := {|
  svc_start := cloud_start; svc_stop := cloud_stop; svc_is_running := cloud_is_running |}.

(** [connect_to_gateway]: the number [conn] stands for the new connection, i.e. both
    for its handle and for its shutdown sender. *)
Definition connect_to_gateway {S} (server_url gateway_url : string) : Prog S unit :=
  _ ← call (Spawn (WsConnectionTask server_url (compute_ws_url gateway_url))); mret tt.

(** [handle.send(msg)] *)
Definition gateway_send {S} (conn : nat) (msg : GatewayMessage Value) : Prog S (result unit string) :=
  accepted ← call (GatewaySend conn msg);
  mret (if (accepted : bool) then Ok tt else Err "cloud gateway channel closed").
End CloudGateway.

(** ** Properties *)

Lemma https_app b :
  ends_with "/" b = false -> starts_with "https://" b = false ->
  starts_with "https://" (b +:+ "/ws") = false.
Proof.
  intros He Hs. destruct (starts_with "https://" (b +:+ "/ws")) eqn:E; [|done].
  do 8 (destruct b as [|? b]; [by vm_compute in E, He|];
        cbn in E, Hs; case_decide; [subst|done]). done.
Qed.

Lemma http_app b :
  ends_with "/" b = false -> starts_with "http://" b = false ->
  starts_with "http://" (b +:+ "/ws") = false.
Proof.
  intros He Hs. destruct (starts_with "http://" (b +:+ "/ws")) eqn:E; [|done].
  do 7 (destruct b as [|? b]; [by vm_compute in E, He|];
        cbn in E, Hs; case_decide; [subst|done]). done.
Qed.

Lemma ws_ends b : ends_with "/ws" (b +:+ "/ws") = true.
Proof. apply ends_with_spec. eauto. Qed.

Lemma ws_no_slash b : ends_with "/" (b +:+ "/ws") = false.
Proof. by apply ends_with_app. Qed.

(** A URL that is no HTTP URL and ends with [/ws] is left alone. *)
Lemma compute_ws_url_fixed u :
  ends_with "/" u = false -> starts_with "https://" u = false -> starts_with "http://" u = false ->
  ends_with "/ws" u = true -> compute_ws_url u = u.
Proof.
  intros H1 H2 H3 H4. unfold compute_ws_url. rewrite trim_end_matches_id by done. by rewrite H2, H3, H4.
Qed.

Lemma compute_ws_url_scheme (http ws rest : string) n :
  (http = "https://" /\ ws = "wss://") \/ (http = "http://" /\ ws = "ws://") ->
  rest <> "" -> ends_with "/" rest = false ->
  compute_ws_url (http +:+ rest +:+ str_repeat "/"%char n)
  = if ends_with "/ws" (ws +:+ rest) then ws +:+ rest else ws +:+ rest +:+ "/ws".
Proof.
  intros Hs Hr He. unfold compute_ws_url. rewrite <- app_str_assoc, trim_end_matches_repeat.
  rewrite trim_end_matches_id by by apply ends_with_app.
  destruct Hs as [[-> ->]|[-> ->]]; cbn -[ends_with]; by destruct (ends_with _ _).
Qed.

(** The WebSocket URL of a gateway: the same authority and path without trailing
      slashes, over TLS exactly when the gateway's URL is, ending in [/ws] (which is not
      added twice); and it is its own WebSocket URL, so that computing it again is
      harmless. *)
Theorem compute_ws_url_spec rest n :
  rest <> "" -> ends_with "/" rest = false ->
  (forall http ws, (http = "https://" /\ ws = "wss://") \/ (http = "http://" /\ ws = "ws://") ->
     let u := compute_ws_url (http +:+ rest +:+ str_repeat "/"%char n) in
     (u = ws +:+ rest +:+ "/ws" \/ u = ws +:+ rest) /\ ends_with "/ws" u = true /\
     compute_ws_url u = u).
Proof.
  intros Hr He http ws Hs u. unfold u. rewrite (compute_ws_url_scheme _ ws) by done.
  assert (Hws : forall x, starts_with "https://" (ws +:+ x) = false /\ starts_with "http://" (ws +:+ x) = false)
    by (intros x; by destruct Hs as [[_ ->]|[_ ->]]).
  destruct (ends_with "/ws" (ws +:+ rest)) eqn:E.
  - split; [by right|]. split; [done|].
    apply compute_ws_url_fixed; [by apply ends_with_app|apply Hws|apply Hws|done].
  - rewrite <- app_str_assoc. split; [by left|]. split; [apply ws_ends|].
    apply compute_ws_url_fixed; [apply ws_no_slash| | |apply ws_ends];
      rewrite app_str_assoc; apply Hws.
Qed.

Section Theory.
Context {X : Ext}.
Implicit Types (e : Env) (s : WsState).

(** The waits of a trace, in milliseconds, and the frames sent. *)
Definition slept (ev : Event) : option Z :=
  match ev with Ev c _ => match c with Sleep ms => Some ms | _ => None end end.

Definition ws_sent (ev : Event) : option string :=
  match ev with Ev c _ => match c with WsSend text => Some text | _ => None end end.

(** How the connection fares: accepted by the gateway, or lost (or never had). *)
Inductive WsOutcome := WsAccepted | WsLost.

(** What an input means for the connection, in the state [s] of the task: an outbound
    message loses it when it cannot be sent. *)
Definition ws_outcome s (i : WsInput) e : option WsOutcome :=
  match ws_phase s, i with
  | Connecting, WsConnectResult r => Some (if is_ok r then WsAccepted else WsLost)
  | Connected, WsInbound FrameClosed => Some WsLost
  | Connected, WsInbound (FrameError _) => Some WsLost
  | Connected, WsOutbound msg =>
      match gateway_message_to_string msg with
      | Ok text => if is_ok (oracle e _ (WsSend text) (clk e)) then None else Some WsLost
      | Err _ => None
      end
  | _, _ => None
  end.

(** The outcomes of a run of the task, in order. *)
Fixpoint ws_outcomes (url : string) (inputs : list WsInput) s e : list WsOutcome :=
  match inputs with
  | [] => []
  | i :: inputs =>
      let '(_, s', e') := ws_step url i s e in
      option_list (ws_outcome s i e) ++ ws_outcomes url inputs s' e'
  end.

(** The waits the outcomes call for, in milliseconds, when the next delay is [d] seconds: one
    per loss, each twice the last up to a minute, from 2 s again after a connection. *)
Fixpoint waits (d : Z) (os : list WsOutcome) : list Z :=
  match os with
  | [] => []
  | WsAccepted :: os => waits 2 os
  | WsLost :: os => (d * 1000)%Z :: waits (Z.min (2 * d) 60) os
  end.

Lemma waits_range d os : (2 <= d <= 60)%Z -> Forall (fun ms => 2000 <= ms <= 60000)%Z (waits d os).
Proof.
  revert d. induction os as [|[] os IH]; intros d Hd; cbn; [done|by apply IH|].
  constructor; [lia|apply IH; lia].
Qed.

Lemma ws_back_off_eq s e :
  ws_back_off s e = (tt, mkWs Connecting (next_delay (ws_delay s)),
    mkEnv (oracle e) (S (clk e)) (trace e ++ [Ev (Sleep (ws_delay s * 1000)) (oracle e _ (Sleep (ws_delay s * 1000)) (clk e))])).
Proof. done. Qed.

(** What one step does to the waits and to the delay. *)
Definition ws_step_waits s (o : option WsOutcome) s' (tr tr' : list Event) : Prop :=
  match o with
  | Some WsLost => ws_phase s' = Connecting /\ ws_delay s' = Z.min (2 * ws_delay s) 60 /\
      omap slept tr' = omap slept tr ++ [(ws_delay s * 1000)%Z] /\
      exists y, last tr' = Some (Ev (Sleep (ws_delay s * 1000)) y)
  | Some WsAccepted => ws_delay s' = 2%Z /\ omap slept tr' = omap slept tr
  | None => ws_delay s' = ws_delay s /\ omap slept tr' = omap slept tr
  end.

Lemma ws_back_off_waits s e e0 :
  omap slept (trace e0) = omap slept (trace e) ->
  ws_step_waits s (Some WsLost) (ws_back_off s e0).1.2 (trace e) (trace (ws_back_off s e0).2).
Proof.
  intros H0. rewrite ws_back_off_eq. cbn. split; [done|]. split; [unfold next_delay, MAX_RECONNECT_DELAY; lia|].
  rewrite omap_app, H0. split; [done|]. rewrite last_snoc. eauto.
Qed.

Lemma next_delay_range d : (2 <= d <= 60)%Z -> (2 <= next_delay d <= 60)%Z.
Proof. unfold next_delay, MAX_RECONNECT_DELAY. lia. Qed.

Lemma ws_step_spec url i s e :
  ws_step_waits s (ws_outcome s i e) (ws_step url i s e).1.2 (trace e) (trace (ws_step url i s e).2).
Proof.
  assert (Hq : forall (ev : Event), slept ev = None -> omap slept (trace e ++ [ev]) = omap slept (trace e)).
  { intros ev Hev. rewrite omap_app. cbn. by rewrite Hev, app_nil_r. }
  unfold ws_outcome, ws_step, mbind, prog_bind, get, set_ws, put, mret, prog_ret.
  destruct s as [p d]. cbn [ws_phase].
  destruct p, i as [|[u|err]|msg|[text|data| |err|]]; cbn -[ws_back_off ws_step_waits];
    try (by apply ws_back_off_waits); try by (split; [done|first [done|by apply Hq]]).
  - destruct (gateway_message_to_string (Register url)); cbn; [|done].
    case_answer; cbn; (split; [done|by apply Hq]).
  - destruct (gateway_message_to_string msg); cbn -[ws_back_off ws_step_waits]; [|done].
    case_answer; cbn -[ws_back_off ws_step_waits]; [by split; [|apply Hq]|]. apply ws_back_off_waits. by apply Hq.
Qed.

Lemma ws_task_waits url inputs s e :
  omap slept (trace (ws_task url inputs s e).2) = omap slept (trace e) ++ waits (ws_delay s) (ws_outcomes url inputs s e).
Proof.
  revert s e. induction inputs as [|i inputs IH]; intros s e; [by cbn; rewrite app_nil_r|].
  unfold ws_task in *. cbn [for_each ws_outcomes]. unfold mbind, prog_bind.
  pose proof (ws_step_spec url i s e) as H. destruct (ws_step url i s e) as [[[] s1] e1]. cbn [fst snd] in H.
  rewrite IH. destruct (ws_outcome s i e) as [[]|]; cbn [ws_step_waits option_list app waits] in *.
  - by destruct H as [-> ->].
  - destruct H as (_ & -> & -> & _). by rewrite <- app_assoc.
  - by destruct H as [-> ->].
Qed.

(** Failing to connect, again and again. *)
Lemma failing_outcomes url s e errs :
  ws_phase s = Connecting ->
  ws_outcomes url ((fun err => WsConnectResult (Err err)) <$> errs) s e = replicate (length errs) WsLost.
Proof.
  revert s e. induction errs as [|err errs IH]; intros s e Hs; [done|].
  cbn [fmap list_fmap ws_outcomes length replicate].
  pose proof (ws_step_spec url (WsConnectResult (Err err)) s e) as H. unfold ws_outcome in *. rewrite Hs in *.
  destruct (ws_step url _ s e) as [[[] s1] e1]. cbn in *. f_equal. by apply IH, H.
Qed.

Lemma ws_task_delay url inputs s e :
  (2 <= ws_delay s <= 60)%Z -> (2 <= ws_delay (ws_task url inputs s e).1.2 <= 60)%Z.
Proof.
  revert s e. induction inputs as [|i inputs IH]; intros s e Hs; [done|].
  unfold ws_task in *. cbn [for_each]. unfold mbind, prog_bind. pose proof (ws_step_spec url i s e) as H.
  destruct (ws_step url i s e) as [[[] s1] e1]. apply IH. cbn [fst snd] in H.
  destruct (ws_outcome s i e) as [[]|]; cbn in H; [|destruct H as (_ & H & _)|]; lia.
Qed.

(** An accepted connection is kept exactly when the Register frame goes out on it. *)
Lemma ws_accepted_phase url i s e :
  ws_outcome s i e = Some WsAccepted ->
  ws_phase (ws_step url i s e).1.2 = Connected <->
  exists text, gateway_message_to_string (Register url) = Ok text /\ oracle e _ (WsSend text) (clk e) = Ok tt.
Proof.
  unfold ws_outcome, ws_step, mbind, prog_bind, get, set_ws, put, mret, prog_ret.
  destruct (ws_phase s), i as [|[u|err]|msg|[text|data| |err|]]; try done.
  2: { repeat case_match; done. }
  intros _. destruct (gateway_message_to_string (Register url)) as [text|err]; cbn; [|naive_solver].
  destruct (oracle e (result unit string) (WsSend text) (clk e)) as [[]|err] eqn:Hsend; cbn; split; [eauto|done|done|].
  intros (text' & [= <-] & Hs). congruence.
Qed.

Lemma ws_shutdown_final url more s e :
  ws_phase s = Connecting \/ ws_phase s = Connected ->
  ws_task url (WsShutdown :: more) s e = ws_task url [WsShutdown] s e.
Proof.
  intros Hs.
  assert (Hstop : forall s1 e1, ws_phase s1 = Terminated -> ws_task url more s1 e1 = (tt, s1, e1)).
  { induction more as [|i more IH]; intros s1 e1 H1; [done|].
    unfold ws_task in *. cbn. unfold mbind, prog_bind.
    assert (E : ws_step url i s1 e1 = (tt, s1, e1)).
    { unfold ws_step, mbind, prog_bind, get. rewrite H1. by destruct i. }
    rewrite E. by apply IH. }
  unfold ws_task in *. cbn [for_each]. unfold mbind, prog_bind.
  assert (Ht : ws_phase (ws_step url WsShutdown s e).1.2 = Terminated).
  { unfold ws_step, mbind, prog_bind, get, set_ws, put. by destruct Hs as [-> | ->]. }
  destruct (ws_step url WsShutdown s e) as [[[] s1] e1]. by rewrite Hstop.
Qed.

(** C26: how the connection task waits, over any run.  It waits once for each connection
    attempt that fails and each connection that is lost, and never else; the wait is the
    last thing it does before it tries again.  The waits are 2 s, 4 s, 8 s and so on up
    to a minute, from 2 s again after every connection the gateway accepts, so each lasts
    between 2 s and 60 s.  An accepted connection on which the Register frame cannot be
    sent is not followed by a wait: it is tried again at once.  And once told to shut
    down at a [select!] the task does nothing more. *)
Theorem ws_task_backoff url inputs e :
  omap slept (trace (ws_task url inputs ws_initial e).2)
    = omap slept (trace e) ++ waits 2 (ws_outcomes url inputs ws_initial e) /\
  Forall (fun ms => 2000 <= ms <= 60000)%Z (waits 2 (ws_outcomes url inputs ws_initial e)) /\
  (forall errs, omap slept (trace (ws_task url ((fun err => WsConnectResult (Err err)) <$> errs) ws_initial e).2)
     = omap slept (trace e) ++ waits 2 (replicate (length errs) WsLost)) /\
  (forall i, let '(_, s1, e1) := ws_task url inputs ws_initial e in
     let '(_, s2, e2) := ws_step url i s1 e1 in
     match ws_outcome s1 i e1 with
     | Some WsLost => ws_phase s2 = Connecting /\
         exists ms y, last (trace e2) = Some (Ev (Sleep ms) y) /\ (2000 <= ms <= 60000)%Z
     | Some WsAccepted => omap slept (trace e2) = omap slept (trace e1) /\
         (ws_phase s2 = Connected <-> exists text, gateway_message_to_string (Register url) = Ok text /\
            oracle e1 _ (WsSend text) (clk e1) = Ok tt)
     | None => omap slept (trace e2) = omap slept (trace e1)
     end) /\
  (forall more s, (ws_phase s = Connecting \/ ws_phase s = Connected) ->
     ws_task url (WsShutdown :: more) s e = ws_task url [WsShutdown] s e).
Proof.
  split; [apply ws_task_waits|]. split; [by apply waits_range|].
  split; [intros errs; by rewrite ws_task_waits, failing_outcomes|]. split; [|intros; by apply ws_shutdown_final].
  intros i. pose proof (ws_task_delay url inputs ws_initial e ltac:(by split)) as Hd.
  destruct (ws_task url inputs ws_initial e) as [[[] s1] e1]. cbn in Hd.
  pose proof (ws_step_spec url i s1 e1) as H. pose proof (ws_accepted_phase url i s1 e1) as Ha.
  destruct (ws_step url i s1 e1) as [[[] s2] e2]. cbn [fst snd] in *.
  destruct (ws_outcome s1 i e1) as [[]|]; [|destruct H as (H1 & _ & _ & y & H2)|by destruct H].
  - split; [apply H|by apply Ha].
  - split; [done|]. eexists _, y. split; [exact H2|lia].
Qed.

(** A gateway that accepts the connection but not the Register frame is tried again at
    once: the task does not wait between the attempts. *)
Lemma register_failure_retries_at_once url s e text err :
  ws_phase s = Connecting -> gateway_message_to_string (Register url) = Ok text ->
  oracle e _ (WsSend text) (clk e) = Err err ->
  let '(_, s', e') := ws_step url (WsConnectResult (Ok tt)) s e in
  ws_phase s' = Connecting /\ omap slept (trace e') = omap slept (trace e).
Proof.
  intros Hs Ht Hsend. unfold ws_step, mbind, prog_bind, get, set_ws, put. rewrite Hs, Ht.
  run_prog. rewrite Hsend. cbn. split; [done|]. by rewrite omap_app, app_nil_r.
Qed.
End Theory.

Lemma compute_ws_url_spec_witness :
  let u := compute_ws_url ("https://" +:+ "gw.example.com:8443" +:+ str_repeat "/"%char 2) in
  (u = "wss://gw.example.com:8443/ws" \/ u = "wss://gw.example.com:8443") /\
  ends_with "/ws" u = true /\ compute_ws_url u = u.
Proof.
  exact (compute_ws_url_spec "gw.example.com:8443" 2 ltac:(discriminate) eq_refl "https://" "wss://"
    (or_introl (conj eq_refl eq_refl))).
Defined.

Example ws_urls :
  compute_ws_url "https://gw.example.com:8443//" = "wss://gw.example.com:8443/ws" /\
  compute_ws_url "http://gw/ws" = "ws://gw/ws" /\ compute_ws_url "gw" = "gw/ws".
Proof. by vm_compute. Qed.
