(* ===== verification/GatewayMqtt.v ===== *)
(** * GatewayMqtt: the HTTPS login and MQTTS link to the cloud gateway (services/gateway_mqtt)

    [Url] and [login] of login.rs; the connection task of tasks.rs as a state machine
    over what its [select!]s deliver (here the wait between attempts is one of them, so
    a shutdown cuts it short); the managed service and its registration. *)

From Stdlib Require Import ZArith Lia Ascii.
From stdpp Require Import base list strings gmap.
From S2P Require Import Prelude RustStr Types Env Demo Supervisor Config MqttClient CloudGateway.

#[local] Arguments String.append !_ _ : simpl nomatch.

(** ** URLs (login.rs) *)

Record Url := mkUrl { url_tls : bool; url_host : string; url_port : Z; url_path : string }.

Definition Url_parse (input : string) : result Url string :=
  match split_once "://" input with
  | None => Err ("invalid gateway url '" +:+ input +:+ "'")
  | Some (scheme, rest) =>
      match (if decide (scheme = "https") then Ok true
             else if decide (scheme = "http") then Ok false
             else Err ("unsupported gateway scheme '" +:+ scheme +:+ "'")) with
      | Err e => Err e
      | Ok tls =>
      let '(authority, path) := match split_at_find "/"%char rest with
                                | (a, Some p) => (a, p)
                                | (a, None) => (a, "/")
                                end in
      let default_port := if tls then 443%Z else 80%Z in
      match rsplit_once ":"%char authority with
      | Some (h, p) =>
          if decide (h = "") then Ok (mkUrl tls authority default_port path)
          else match parse_uint u16_max p with
               | Some port => Ok (mkUrl tls h port path)
               | None => Err ("invalid port in '" +:+ input +:+ "'")
               end
      | None => Ok (mkUrl tls authority default_port path)
      end
      end
  end.

Inductive LoginError := Unauthorized | Transient (e : string).

(** ** The connection task (tasks.rs) *)

Record GatewayMqttConfig := {
  gm_login_url : string;
  gm_username : string;
  gm_password : string;
  gm_broker_cafile : option string;
  gm_broker_tls : bool;
}.

Inductive GmPoll :=
| GmConnAck
| GmPublish (topic : string) (payload : bytes)
| GmOther
| GmRefused
| GmError (e : string).

Inductive GmInput :=
| GmShutdown
| GmLogin
| GmTimer
| GmOutbound (msg : MqttMessage)
| GmPolled (p : GmPoll).

(** [LoggingIn]: no credentials, waiting for the login; [Running c]: connected, or
    trying to be, with the credentials [c]; [BackingOff]: waiting before the next
    attempt. *)
Inductive GmPhase := LoggingIn | Running (c : LoginResponse) | BackingOff | Terminated.

Record GmState := mkGm {
  gm_phase : GmPhase;
  gm_delay : Z;
  gm_cached : option LoginResponse;
}.

Definition gm_initial : GmState := mkGm LoggingIn INITIAL_RECONNECT_DELAY None.

Section GatewayMqtt.
Context {X : Ext}.

(** A result whose error becomes [LoginError::Transient(prefix: e)]. *)
Definition transient {S A} (prefix : string) (m : Prog S (result A string))
  : Prog S (result A LoginError) := map_err (fun e => Transient (prefix +:+ e)) <$> m.

(** The [?] operator on [Result<_, LoginError>]. *)
Definition bind_login {S A B} (m : Prog S (result A LoginError))
    (k : A -> Prog S (result B LoginError)) : Prog S (result B LoginError) :=
  r ← m; match r with Ok a => k a | Err err => mret (Err err) end.

Fixpoint tls_roots {S} (roots : list bytes) (certs : list (result bytes string))
  : Prog S (result (list bytes) string) :=
  match certs with
  | [] => mret (Ok roots)
  | Err e :: _ => mret (Err ("parse gateway CA: " +:+ e))
  | Ok cert :: certs =>
      _ ←? with_context "add gateway CA: " (call (RootAdd cert)); tls_roots (roots ++ [cert]) certs
  end.

(** The roots the connector trusts; [None] stands for the webpki roots. *)
Definition tls_connector {S} (cafile : option string) : Prog S (result (option (list bytes)) string) :=
  match cafile with
  | Some cafile =>
      pem ←? with_context ("read gateway CA '" +:+ cafile +:+ "': ") (call (FsRead cafile));
      certs ← call (PemCerts pem);
      roots ←? tls_roots [] certs;
      mret (Ok (Some roots))
  | None => mret (Ok None)
  end.

Definition login_http_request (host path : string) (body : bytes) : HttpRequest := {|
  req_line := "POST " +:+ path +:+ " HTTP/1.1";
  req_headers := [("host", bytes_of_string host); ("content-type", bytes_of_string "application/json")];
  req_body := Ok body |}.

Definition send_request {S} (host path : string) (body : bytes)
  : Prog S (result LoginResponse LoginError) :=
  bind_login (transient "http handshake: " (call HttpHandshake)) (fun _ =>
  _ ← call (Spawn UpstreamConnection);
  bind_login (transient "build request: " (mret (request_valid path host))) (fun _ =>
  bind_login (transient "send request: " (call (SendRequest (login_http_request host path body)))) (fun resp =>
  bind_login (transient "read body: " (call CollectBody)) (fun bytes =>
  let status := resp_status resp in
  if decide (status = 401%Z) then mret (Err Unauthorized)
  else if negb (status_is_success status) then
    mret (Err (Transient ("login returned " +:+ status_display status +:+ ": " +:+ from_utf8_lossy bytes)))
  else transient "parse login response: " (mret (parse_login_response bytes)))))).

Definition login {S} (base_url : string) (req : LoginRequest) (cafile : option string)
  : Prog S (result LoginResponse LoginError) :=
  bind_login (transient "" (mret (Url_parse base_url))) (fun url =>
  let path := trim_end_matches "/"%char (url_path url) +:+ "/api/login" in
  bind_login (transient "serialise login: " (mret (login_request_to_vec req))) (fun body =>
  bind_login (transient ("connect " +:+ url_host url +:+ ":" +:+ display (url_port url) +:+ ": ")
                (call (TcpConnect (url_host url) (url_port url)))) (fun _ =>
  if url_tls url then
    bind_login (transient "" (tls_connector cafile)) (fun _ =>
    bind_login (transient "invalid server name: " (mret (server_name_valid (url_host url)))) (fun _ =>
    bind_login (transient "tls handshake: " (call (TlsConnect (url_host url)))) (fun _ =>
    send_request (url_host url) path body)))
  else send_request (url_host url) path body))).

(** *** Steps of the task *)

Definition set_phase (p : GmPhase) : Prog GmState unit :=
  modify (fun s => mkGm p (gm_delay s) (gm_cached s)).
Definition set_delay (d : Z) : Prog GmState unit :=
  modify (fun s => mkGm (gm_phase s) d (gm_cached s)).
Definition set_cached (c : option LoginResponse) : Prog GmState unit :=
  modify (fun s => mkGm (gm_phase s) (gm_delay s) c).

Definition client_config (config : GatewayMqttConfig) (creds : LoginResponse) : MqttClientConfig := {|
  mc_client_id := lo_device_id creds;
  mc_host := br_host (lo_broker creds);
  mc_port := br_port (lo_broker creds);
  mc_tls_mode := if gm_broker_tls config then ServerOnly else NoTls;
  mc_cafile := gm_broker_cafile config;
  mc_certfile := None;
  mc_keyfile := None;
  mc_username := lo_mqtt_username creds;
  mc_password := lo_mqtt_password creds |}.

(** From credentials to the inbound/outbound loop. *)
Definition gm_connect (config : GatewayMqttConfig) (creds : LoginResponse) : Prog GmState unit :=
  opts ← build_mqtt_opts (client_config config creds);
  match opts with
  | Ok _ => set_phase (Running creds)
  | Err _ => set_phase BackingOff
  end.

(** The top of the reconnect loop. *)
Definition gm_reconnect (config : GatewayMqttConfig) : Prog GmState unit :=
  s ← get;
  match gm_cached s with
  | Some creds => gm_connect config creds
  | None => set_phase LoggingIn
  end.

Definition on_connected {S} (creds : LoginResponse) : Prog S unit :=
  _ ← for_each [dt_cmds (lo_topics creds); dt_connect (lo_topics creds)]
        (fun topic => _ ← call (ClientSubscribe topic AtLeastOnce); mret tt);
  match envelope_to_vec (Alive (lo_device_id creds)) with
  | Ok payload => _ ← call (ClientPublish (dt_notify (lo_topics creds)) AtLeastOnce payload); mret tt
  | Err _ => mret tt
  end.

(** The wait of [backoff] is over, by the timer or by a shutdown. *)
Definition backoff_over : Prog GmState unit :=
  s ← get; set_delay (next_delay (gm_delay s)).

(** What [handle_inbound] logs. *)
Definition gm_handle_inbound (payload : bytes) : option Envelope := parse_envelope payload.

Definition gm_step (config : GatewayMqttConfig) (i : GmInput) : Prog GmState unit :=
  s ← get;
  match gm_phase s, i with
  | LoggingIn, GmShutdown => set_phase Terminated
  | LoggingIn, GmLogin =>
      attempt ← login (gm_login_url config)
                  {| lr_username := gm_username config; lr_password := gm_password config |}
                  (gm_broker_cafile config);
      match attempt with
      | Ok resp => _ ← set_cached (Some resp); gm_connect config resp
      | Err Unauthorized => set_phase BackingOff
      | Err (Transient _) => set_phase BackingOff
      end
  | Running creds, GmShutdown => _ ← call ClientDisconnect; set_phase Terminated
  | Running creds, GmOutbound msg =>
      _ ← call (ClientPublish (msg_topic msg) AtLeastOnce (msg_payload msg)); mret tt
  | Running creds, GmPolled GmConnAck =>
      _ ← set_delay INITIAL_RECONNECT_DELAY; on_connected creds
  | Running creds, GmPolled (GmPublish _ payload) => let _ := gm_handle_inbound payload in mret tt
  | Running creds, GmPolled GmOther => mret tt
  | Running creds, GmPolled GmRefused => _ ← set_cached None; set_phase BackingOff
  | Running creds, GmPolled (GmError _) => set_phase BackingOff
  | BackingOff, GmShutdown => _ ← backoff_over; set_phase Terminated
  | BackingOff, GmTimer => _ ← backoff_over; gm_reconnect config
  (* inputs the current [select!] does not wait for *)
  | _, _ => mret tt
  end.

Definition gm_task (config : GatewayMqttConfig) (inputs : list GmInput) : Prog GmState unit :=
  for_each inputs (gm_step config).

(** ** The managed service *)

Record GatewayMqttService := mkGmService {
  gs_config : GatewayMqttConfig;
  gs_outbound_rx : option unit;
  gs_shutdown_tx : option unit;
}.

Definition GatewayMqttService_new (config : GatewayMqttConfig) : GatewayMqttService :=
  mkGmService config (Some tt) None.

Definition gm_start : Prog GatewayMqttService (result Z string) :=
  s ← get;
  match gs_outbound_rx s with
  | None => mret (Err "GatewayMqttService already started")
  | Some _ =>
      _ ← put (mkGmService (gs_config s) None (Some tt));
      _ ← call (Spawn (GatewayMqttTask (gm_login_url (gs_config s))));
      mret (Ok 0%Z)
  end.

(** [GatewayMqttHandle::publish] *)
Definition gm_publish {S} (topic : string) (payload : bytes) : Prog S (result unit string) :=
  accepted ← call (GatewayMqttSend {| msg_topic := topic; msg_payload := payload |});
  mret (if (accepted : bool) then Ok tt else Err "gateway mqtt channel closed").

Definition gm_stop : Prog GatewayMqttService (result unit string) :=
  s ← get;
  match gs_shutdown_tx s with
  | Some _ =>
      _ ← put (mkGmService (gs_config s) (gs_outbound_rx s) None);
      _ ← call SignalShutdown;
      mret (Ok tt)
  | None => mret (Ok tt)
  end.

Definition gm_is_running : Prog GatewayMqttService bool :=
  s ← get; mret (bool_decide (is_Some (gs_shutdown_tx s))).

#[export] Instance gm_service : ManagedService GatewayMqttService := {|
  svc_start := gm_start; svc_stop := gm_stop; svc_is_running := gm_is_running |}.
End GatewayMqtt.

(** The configuration of the client, when it is enabled (manager.rs). *)
Definition gateway_mqtt_config (cfg : GatewayRegistrationConfig) : option GatewayMqttConfig :=
  match gr_gateway_url cfg with
  | None => None
  | Some url =>
      if decide (gr_username cfg = "" \/ gr_password cfg = "") then None
      else Some {| gm_login_url := url; gm_username := gr_username cfg; gm_password := gr_password cfg;
                   gm_broker_cafile := gr_broker_cafile cfg; gm_broker_tls := gr_broker_tls cfg |}
  end.

(** ** Properties *)

#[global] Arguments Url_parse : simpl never.

Definition scheme_of (tls : bool) : string := if tls then "https" else "http".

Lemma Url_parse_scheme tls authority path :
  contains_char "/"%char authority = false -> (path = "" \/ starts_with "/" path = true) ->
  let input := scheme_of tls +:+ "://" +:+ authority +:+ path in
  let path' := if decide (path = "") then "/" else path in
  let default_port := if tls then 443%Z else 80%Z in
  Url_parse input =
  match rsplit_once ":"%char authority with
  | Some (h, p) =>
      if decide (h = "") then Ok (mkUrl tls authority default_port path')
      else match parse_uint u16_max p with
           | Some port => Ok (mkUrl tls h port path')
           | None => Err ("invalid port in '" +:+ input +:+ "'")
           end
  | None => Ok (mkUrl tls authority default_port path')
  end.
Proof.
  intros Ha Hp input path' default_port. unfold input.
  assert (Hs : split_once "://" (scheme_of tls +:+ "://" +:+ authority +:+ path)
               = Some (scheme_of tls, authority +:+ path)).
  { apply (split_once_app ":"%char "//"). by destruct tls. }
  assert (Hf : match split_at_find "/"%char (authority +:+ path) with
               | (a, Some p) => (a, p) | (a, None) => (a, "/") end
               = (authority, if decide (path = "") then "/" else path)).
  { destruct Hp as [->|Hp].
    - rewrite app_str_nil_r. by rewrite (split_at_find_None _ authority).
    - apply starts_with_spec in Hp as [r ->]. change ("/" +:+ r) with (String "/"%char r).
      by rewrite split_at_find_app. }
  unfold Url_parse. rewrite Hs, Hf.
  assert (Ht : (if decide (scheme_of tls = "https") then Ok true
     else if decide (scheme_of tls = "http") then Ok false
     else Err ("unsupported gateway scheme '" +:+ scheme_of tls +:+ "'")) = @Ok bool string tls)
    by by destruct tls.
  by rewrite Ht.
Qed.

(** C33: reading back a URL: scheme, host, port and path are found again, the port being
    that of the scheme when it is left out and the path [/] when it is empty. *)
Theorem Url_parse_render tls host port path :
  host <> "" -> contains_char "/"%char host = false -> (0 <= port <= u16_max)%Z ->
  (path = "" \/ starts_with "/" path = true) ->
  let path' := if decide (path = "") then "/" else path in
  Url_parse (scheme_of tls +:+ "://" +:+ (host +:+ ":" +:+ display port) +:+ path)
    = Ok (mkUrl tls host port path') /\
  (contains_char ":"%char host = false ->
   Url_parse (scheme_of tls +:+ "://" +:+ host +:+ path)
    = Ok (mkUrl tls host (if tls then 443 else 80)%Z path')).
Proof.
  intros Hne Hslash Hport Hpath path'.
  assert (Hd : forall c, digit_val c = None -> contains_char c (display port) = false)
    by (intros c Hc; apply display_contains; [lia|done]).
  split.
  - assert (Ha : contains_char "/"%char (host +:+ ":" +:+ display port) = false).
    { rewrite contains_char_app, Hslash. change (":" +:+ display port) with (String ":"%char (display port)).
      cbn. by apply Hd. }
    assert (Hr : rsplit_once ":"%char (host +:+ ":" +:+ display port) = Some (host, display port)).
    { change (":" +:+ display port) with (String ":"%char (display port)). apply rsplit_once_app. by apply Hd. }
    rewrite (Url_parse_scheme tls _ path Ha Hpath), Hr. rewrite decide_False by done.
    by rewrite parse_uint_display.
  - intros Hcolon. apply rsplit_once_None in Hcolon.
    by rewrite (Url_parse_scheme tls host path Hslash Hpath), Hcolon.
Qed.

Lemma Url_parse_render_witness :
  Url_parse (scheme_of true +:+ "://" +:+ ("gw.example.com" +:+ ":" +:+ display 8443) +:+ "/base")
    = Ok (mkUrl true "gw.example.com" 8443 "/base").
Proof.
  exact (proj1 (Url_parse_render true "gw.example.com" 8443 "/base" ltac:(discriminate) eq_refl
    ltac:(split; discriminate) (or_intror eq_refl))).
Defined.

(** What is refused; the last one is a valid URL, an IPv6 host without a port. *)
Example Url_errors :
  Url_parse "gw.example.com" = Err "invalid gateway url 'gw.example.com'" /\
  Url_parse "ftp://gw" = Err "unsupported gateway scheme 'ftp'" /\
  Url_parse "https://gw:99999" = Err "invalid port in 'https://gw:99999'" /\
  Url_parse "https://[::1]/" = Err "invalid port in 'https://[::1]/'".
Proof. by vm_compute. Qed.

Section Theory.
Context {X : Ext}.
Implicit Types (e : Env) (s : GmState) (config : GatewayMqttConfig).

(** The HTTP requests of a trace, and the hosts a TLS session was established with. *)
Definition http_sent (ev : Event) : option HttpRequest :=
  match ev with Ev c _ => match c with SendRequest req => Some req | _ => None end end.

Definition tls_established (ev : Event) : option string :=
  match ev with
  | Ev c y => match c in Call Y return Y -> option string with
              | TlsConnect host => fun r => if is_ok r then Some host else None
              | _ => fun _ => None
              end y
  end.

Lemma silent_bind_login {B} (f : Event -> option B) {S A C}
    (m : Prog S (result A LoginError)) (k : A -> Prog S (result C LoginError)) :
  silent f m -> (forall a, silent f (k a)) -> silent f (bind_login m k).
Proof. intros Hm Hk. apply silent_bind; [done|]. by intros []. Qed.

Lemma silent_transient {B} (f : Event -> option B) {S A} p (m : Prog S (result A string)) :
  silent f m -> silent f (transient p m).
Proof.
  intros Hm s e. unfold transient, fmap, prog_fmap. specialize (Hm s e).
  by destruct (m s e) as [[a s'] e'].
Qed.

Lemma silent_tls_roots {B} (f : Event -> option B) {S} roots certs :
  (forall c y, f (Ev (RootAdd c) y) = None) -> silent f (tls_roots (S := S) roots certs).
Proof.
  intros Hf. revert roots. induction certs as [|[c|err] certs IH]; intros roots; cbn [tls_roots]; silence.
Qed.

Lemma silent_tls_connector {S} cafile : silent http_sent (tls_connector (S := S) cafile).
Proof. unfold tls_connector. silence. by apply silent_tls_roots. Qed.

(** C31: credentials are never sent in clear to an HTTPS gateway: if a login at an HTTPS
    URL sends any HTTP request, a TLS session with the URL's host has been
    established, and the request is the login one. *)
Theorem https_login_needs_tls {S} base req cafile (s : S) e url :
  Url_parse base = Ok url -> url_tls url = true -> trace e = [] ->
  let e' := (login base req cafile s e).2 in
  omap http_sent (trace e') <> [] ->
  url_host url ∈ omap tls_established (trace e') /\
  exists body, omap http_sent (trace e') =
    [login_http_request (url_host url) (trim_end_matches "/"%char (url_path url) +:+ "/api/login") body].
Proof.
  intros Hu Htls Htr e'. subst e'. unfold login. rewrite Hu.

  unfold bind_login, transient. run_prog.
  destruct (login_request_to_vec req) as [body|]; run_prog; [|by rewrite Htr].
  case_answer; run_prog; [|by rewrite omap_app, Htr]. rewrite Htls. run_prog.
  match goal with |- context [tls_connector cafile s ?e1] =>
    pose proof (silent_tls_connector cafile s e1) as Hq;
    destruct (tls_connector cafile s e1) as [[[roots|err] s1] e2] end;
    cbn [trace snd] in Hq; rewrite omap_app, Htr in Hq; cbn in Hq; run_prog; [|by rewrite Hq].
  destruct (server_name_valid (url_host url)); run_prog; [|by rewrite Hq].
  destruct (oracle e2 _ (TlsConnect (url_host url)) (clk e2)) as [[]|] eqn:Ht; run_prog;
    [|by rewrite omap_app, Hq].
  unfold send_request, bind_login, transient. run_prog.
  case_answer; run_prog; [|by rewrite !omap_app, Hq].
  match goal with |- context [request_valid ?p ?h] => destruct (request_valid p h) end; run_prog;
    [|by rewrite !omap_app, Hq].
  assert (Hin : forall tr, url_host url ∈
    omap tls_established (((trace e2 ++ [Ev (TlsConnect (url_host url)) (Ok tt)])) ++ tr)).
  { intros tr. rewrite !omap_app. cbn. set_solver. }
  repeat first [case_answer; run_prog | case_match; run_prog]; intros _; cbn [trace snd];
    (split; [rewrite <- ?app_assoc, (app_assoc (trace e2)); apply Hin
            |exists body; by rewrite !omap_app, Hq]).
Qed.

(** *** What a login can answer *)

(** The statuses of the answers a trace received. *)
Definition answered (ev : Event) : option Z :=
  match ev with
  | Ev c y => match c in Call Y return Y -> option Z with
              | SendRequest _ => fun r => match r with Ok resp => Some (resp_status resp) | Err _ => None end
              | _ => fun _ => None
              end y
  end.

(** The verdict on the credentials, given the statuses received. *)
Definition login_verdict (r : result LoginResponse LoginError) (statuses : list Z) : Prop :=
  match r with
  | Ok _ => exists st, statuses = [st] /\ st <> 401%Z /\ status_is_success st = true
  | Err Unauthorized => statuses = [401%Z]
  | Err (Transient _) => statuses = [] \/ exists st, statuses = [st]
  end.

Lemma send_request_verdict {S} host path body (s : S) e :
  let '(r, _, e') := send_request host path body s e in
  exists statuses, omap answered (trace e') = omap answered (trace e) ++ statuses /\ login_verdict r statuses.
Proof.
  unfold send_request, bind_login, transient. run_prog.
  case_answer; run_prog; [|exists []; rewrite omap_app; by split; [|left]].
  destruct (request_valid path host); run_prog; [|exists []; rewrite !omap_app, !app_nil_r; by split; [|left]].
  case_answer; run_prog; [|exists []; rewrite !omap_app; cbn; rewrite !app_nil_r; by split; [|left]].
  case_answer; run_prog; [|exists [resp_status a1]; rewrite !omap_app; cbn; rewrite !app_nil_r;
    split; [done|right; eauto]].
  destruct (decide (resp_status a1 = 401%Z)) as [H401|H401]; run_prog.
  { exists [401%Z]. rewrite !omap_app. cbn. by rewrite !app_nil_r, H401. }
  destruct (status_is_success (resp_status a1)) eqn:Hs; run_prog.
  - exists [resp_status a1]. destruct (parse_login_response _); run_prog;
      rewrite !omap_app; cbn; rewrite !app_nil_r; split; try done; [eauto|right; eauto].
  - exists [resp_status a1]. rewrite !omap_app. cbn. rewrite !app_nil_r. split; [done|right; eauto].
Qed.

Lemma answered_tls_connector {S} cafile : silent answered (tls_connector (S := S) cafile).
Proof. unfold tls_connector. silence. by apply silent_tls_roots. Qed.

(** C32: the three ways a login ends.  It receives at most one answer.  It reports
    [Unauthorized] only when that answer was a 401, and credentials only when it was a
    success other than 401; every other outcome, the failures before any answer
    included, is reported as transient, to be tried again. *)
Theorem login_outcome {S} base req cafile (s : S) e :
  let '(r, _, e') := login base req cafile s e in
  exists statuses, omap answered (trace e') = omap answered (trace e) ++ statuses /\ login_verdict r statuses.
Proof.
  unfold login, bind_login, transient. run_prog.
  assert (Hnone : forall (tr : list Event) err, omap answered tr = omap answered (trace e) ->
    exists statuses, omap answered tr = omap answered (trace e) ++ statuses /\
      login_verdict (Err (Transient err)) statuses).
  { intros tr err Htr. exists []. rewrite app_nil_r. by split; [|left]. }
  destruct (Url_parse base) as [url|err]; run_prog; [|by apply (Hnone _ "")].
  destruct (login_request_to_vec req) as [body|]; run_prog; [|by apply (Hnone _ "")].
  case_answer; run_prog; [|apply (Hnone _ ""); by rewrite omap_app, app_nil_r].
  destruct (url_tls url).
  - match goal with |- context [tls_connector cafile s ?e1] =>
      pose proof (answered_tls_connector cafile s e1) as Hq;
      destruct (tls_connector cafile s e1) as [[[roots|err] s1] e2] end;
      cbn [trace snd] in Hq; rewrite omap_app, app_nil_r in Hq; run_prog; [|by apply (Hnone _ "")].
      destruct (server_name_valid (url_host url)); run_prog; [|by apply (Hnone _ "")].
      case_answer; run_prog; [|apply (Hnone _ ""); by rewrite omap_app, app_nil_r].
    match goal with |- context [send_request ?h ?p body ?s1 ?e3] =>
      pose proof (send_request_verdict h p body s1 e3) as Hv;
      destruct (send_request h p body s1 e3) as [[r s3] e4] end.
    cbn [trace] in Hv. by rewrite omap_app, app_nil_r, Hq in Hv.
  - match goal with |- context [send_request ?h ?p body ?s1 ?e3] =>
      pose proof (send_request_verdict h p body s1 e3) as Hv;
      destruct (send_request h p body s1 e3) as [[r s3] e4] end.
    cbn [trace] in Hv. by rewrite omap_app, app_nil_r in Hv.
Qed.

(** Where the task can be: credentials are in use only while they are cached, a login is
    only under way when none are, and the delay is between 2 s and a minute. *)
Definition gm_inv s : Prop :=
  (2 <= gm_delay s <= 60)%Z /\
  match gm_phase s with
  | Running c => gm_cached s = Some c
  | LoggingIn => gm_cached s = None
  | _ => True
  end.

Lemma gm_initial_inv : gm_inv gm_initial.
Proof. unfold gm_inv, gm_initial, INITIAL_RECONNECT_DELAY. cbn. by split. Qed.

Lemma build_opts_cases {S} cfg (s : S) e :
  exists r e', build_mqtt_opts cfg s e = (r, s, e').
Proof.
  destruct (build_mqtt_opts cfg s e) as [[r s'] e'] eqn:E.
  apply build_mqtt_opts_by_mode in E as H. destruct H as [-> _]. eauto.
Qed.

Lemma silent_add_roots {S} roots certs : silent http_sent (add_roots (S := S) roots certs).
Proof. revert roots. induction certs as [|[c|err] certs IH]; intros roots; cbn [add_roots]; silence. Qed.
#[local] Hint Resolve silent_add_roots : silent.

Lemma silent_build_opts {S} cfg : silent http_sent (build_mqtt_opts (S := S) cfg).
Proof. unfold build_mqtt_opts, build_server_tls. silence. Qed.
#[local] Hint Resolve silent_build_opts : silent.

Lemma gm_connect_spec config c s e :
  gm_cached s = Some c -> (2 <= gm_delay s <= 60)%Z ->
  let '(_, s', e') := gm_connect config c s e in
  gm_inv s' /\ gm_cached s' = Some c /\ omap http_sent (trace e') = omap http_sent (trace e).
Proof.
  intros Hc Hd. pose proof (silent_build_opts (client_config config c) s e) as Hq.
  unfold gm_connect, mbind, prog_bind. destruct (build_opts_cases (client_config config c) s e) as (r & e' & E).
  rewrite E in *. destruct r; (split; [by split|by split]).
Qed.

Lemma on_connected_spec c s e :
  let '(_, s', e') := on_connected c s e in
  s' = s /\ omap http_sent (trace e') = omap http_sent (trace e).
Proof.
  assert (Hq : silent http_sent (on_connected (S := GmState) c)) by (unfold on_connected; silence).
  specialize (Hq s e). unfold on_connected in *. run_prog. revert Hq. run_prog.
  destruct (envelope_to_vec _); run_prog; done.
Qed.

Definition is_refusal (i : GmInput) : bool :=
  match i with GmPolled GmRefused => true | _ => false end.

Lemma stateless_bind_login {S A C}
    (m : Prog S (result A LoginError)) (k : A -> Prog S (result C LoginError)) :
  stateless m -> (forall a, stateless (k a)) -> stateless (bind_login m k).
Proof. intros Hm Hk. apply stateless_bind; [done|]. by intros []. Qed.

Lemma stateless_transient {S A} p (m : Prog S (result A string)) :
  stateless m -> stateless (transient p m).
Proof.
  intros Hm s e. unfold transient, fmap, prog_fmap. specialize (Hm s e).
  by destruct (m s e) as [[a s'] e'].
Qed.

Lemma stateless_tls_roots {S} roots certs : stateless (tls_roots (S := S) roots certs).
Proof. revert roots. induction certs as [|[c|err] certs IH]; intros roots; cbn [tls_roots]; stateless. Qed.

#[local] Hint Resolve stateless_tls_roots stateless_bind_login stateless_transient : stateless.

Lemma stateless_login {S} base req cafile : stateless (login (S := S) base req cafile).
Proof.
  unfold login, send_request, tls_connector.
  repeat first [progress stateless | apply stateless_bind_login | apply stateless_transient].
Qed.

(** What one step does to the invariant, to the cache, and to the requests made. *)
Lemma gm_step_spec config i s e :
  gm_inv s ->
  let '(_, s', e') := gm_step config i s e in
  gm_inv s' /\
  (forall c, gm_cached s = Some c -> is_refusal i = false ->
     gm_cached s' = Some c /\ omap http_sent (trace e') = omap http_sent (trace e)).
Proof.
  intros [Hd Hp]. unfold gm_step, mbind, prog_bind, get.
  assert (Hsame : gm_inv s /\ (forall c, gm_cached s = Some c -> is_refusal i = false ->
    gm_cached s = Some c /\ omap http_sent (trace e) = omap http_sent (trace e)))
    by (split; [by split|done]).
  assert (Hnext := next_delay_range _ Hd).
  destruct (gm_phase s) as [|creds| |] eqn:Hph, i as [| | |msg|[|topic payload| | |err]];
    try exact Hsame; cbn -[omap next_delay login on_connected gm_connect].
  - by split.
  - match goal with |- context [login ?b ?r ?c s e] =>
      pose proof (stateless_login b r c s e) as Hs; destruct (login b r c s e) as [[[resp|[|err]] s1] e1] end;
      cbn in Hs; subst s1; [|split; [by split|cbn; intros; congruence]..].
    match goal with |- context [gm_connect config resp ?s2 e1] =>
      pose proof (gm_connect_spec config resp s2 e1 eq_refl Hd) as Hc;
      destruct (gm_connect config resp s2 e1) as [[u s3] e3] end.
    destruct Hc as (Hc & _). split; [done|]. intros; congruence.
  - split; [by split|]. intros c Hc _. split; [done|]. by rewrite omap_app, app_nil_r.
  - split; [by split; [|rewrite Hph]|]. intros c Hc _. split; [done|]. by rewrite omap_app, app_nil_r.
  - match goal with |- context [on_connected creds ?s1 ?e1] =>
      pose proof (on_connected_spec creds s1 e1) as Hc;
      destruct (on_connected creds s1 e1) as [[u s2] e2] end.
    destruct Hc as [-> Hc]. split; [split; [by unfold INITIAL_RECONNECT_DELAY|by rewrite Hph]|].
    intros c Hca _. by split.
  - by split; [split|].
  - by split; [split|].
  - by split; [split|].
  - unfold gm_reconnect, backoff_over, set_delay, modify, mbind, prog_bind, get.
    cbn -[next_delay gm_connect]. destruct (gm_cached s) as [c|] eqn:Hca;
      [|cbn -[next_delay]; split; [by split|intros; congruence]].
    match goal with |- context [gm_connect config c ?s2 ?e1] =>
      pose proof (gm_connect_spec config c s2 e1 eq_refl Hnext) as Hc;
      destruct (gm_connect config c s2 e1) as [[u s3] e3] end.
    destruct Hc as (Hc1 & Hc2 & Hc3). split; [done|]. intros c0 [= <-] _. by split.
Qed.

Lemma gm_task_spec config inputs s e :
  gm_inv s ->
  let '(_, s', e') := gm_task config inputs s e in
  gm_inv s' /\
  (forall c, gm_cached s = Some c -> forallb (fun i => negb (is_refusal i)) inputs = true ->
     gm_cached s' = Some c /\ omap http_sent (trace e') = omap http_sent (trace e)).
Proof.
  revert s e. induction inputs as [|i inputs IH]; intros s e Hs; [by split|].
  unfold gm_task in *. cbn [for_each forallb]. unfold mbind, prog_bind.
  pose proof (gm_step_spec config i s e Hs) as H1.
  destruct (gm_step config i s e) as [[[] s1] e1]. destruct H1 as [H1 H2]. specialize (IH s1 e1 H1).
  destruct (for_each inputs (gm_step config) s1 e1) as [[[] s2] e2]. destruct IH as [H3 H4].
  split; [done|]. intros c Hc [Hi Hin]%andb_prop. apply negb_true_iff in Hi.
  destruct (H2 c Hc Hi) as [H5 H6]. destruct (H4 c H5 Hin) as [H7 H8]. by rewrite H8, H6.
Qed.

(** C25: the task logs in once: from the moment it holds credentials, whatever happens short
    of the broker refusing them, it keeps those credentials and sends no further login
    request; and it only ever runs with the credentials it holds, waits between 2 s and
    a minute, and only logs in when it has none. *)
Theorem gm_task_reuses_credentials config before after e :
  let '(_, s1, e1) := gm_task config before gm_initial e in
  let '(_, s2, e2) := gm_task config after s1 e1 in
  gm_inv s1 /\ gm_inv s2 /\
  forall c, gm_cached s1 = Some c -> forallb (fun i => negb (is_refusal i)) after = true ->
    gm_cached s2 = Some c /\ omap http_sent (trace e2) = omap http_sent (trace e1).
Proof.
  pose proof (gm_task_spec config before gm_initial e gm_initial_inv) as H1.
  destruct (gm_task config before gm_initial e) as [[u1 s1] e1]. destruct H1 as [H1 _].
  pose proof (gm_task_spec config after s1 e1 H1) as H2.
  destruct (gm_task config after s1 e1) as [[u2 s2] e2]. destruct H2 as [H2 H3]. by split.
Qed.

(** A shutdown takes effect at once in every phase, also during the wait between
    attempts: the task never sleeps through it, and does nothing afterwards. *)
Theorem gm_task_shutdown config more s e :
  let '(_, s1, e1) := gm_task config (GmShutdown :: more) s e in
  gm_phase s1 = Terminated /\ omap slept (trace e1) = omap slept (trace e) /\
  omap http_sent (trace e1) = omap http_sent (trace e).
Proof.
  assert (Hstop : forall s1 e1, gm_phase s1 = Terminated -> gm_task config more s1 e1 = (tt, s1, e1)).
  { induction more as [|i more IH]; intros s1 e1 H1; [done|].
    unfold gm_task in *. cbn. unfold mbind, prog_bind.
    assert (E : gm_step config i s1 e1 = (tt, s1, e1)).
    { unfold gm_step, mbind, prog_bind, get. rewrite H1. by destruct i. }
    rewrite E. by apply IH. }
  unfold gm_task in *. cbn [for_each]. unfold mbind, prog_bind.
  assert (Hs : gm_phase (gm_step config GmShutdown s e).1.2 = Terminated /\
    omap slept (trace (gm_step config GmShutdown s e).2) = omap slept (trace e) /\
    omap http_sent (trace (gm_step config GmShutdown s e).2) = omap http_sent (trace e)).
  { unfold gm_step, mbind, prog_bind, get. destruct (gm_phase s) eqn:Hp; cbn; try done.
    by rewrite !omap_app, !app_nil_r. }
  destruct (gm_step config GmShutdown s e) as [[[] s1] e1]. cbn in Hs.
  rewrite Hstop; [done|]. by destruct Hs.
Qed.
End Theory.

(** ** A concrete login *)

Definition demo_url : Url := {| url_tls := true; url_host := "gw"; url_port := 443; url_path := "/" |}.

Lemma https_login_needs_tls_witness :
  let e' := (login "https://gw" {| lr_username := "u"; lr_password := "p" |} None tt demo_env).2 in
  "gw" ∈ omap tls_established (trace e').
Proof.
  intros e'. refine (proj1 (https_login_needs_tls "https://gw" {| lr_username := "u"; lr_password := "p" |}
    None tt demo_env demo_url eq_refl eq_refl eq_refl _)).
  intros H. vm_compute in H. discriminate H.
Defined.
