(* ===== verification/Handshake.v ===== *)
(** * Handshake: the HTTP side of the beacon gateway (beacon_management/internals)

    Parsing and validating requests (requests.rs), the three handlers (handlers.rs) and
    the dispatcher with its proxy (proxy.rs).  A handler runs on the CA's world; what
    it sends to the application's topic channel is in the trace. *)

From Stdlib Require Import ZArith Lia Ascii.
From stdpp Require Import base list strings gmap.
From S2P Require Import Prelude RustStr RustPath Types Env Demo Config Ca Brokerage.

#[local] Arguments String.append !_ _ : simpl nomatch.

(** ** Data (types.rs) *)

Definition SUPPORTED_VERSION : string := "0.0.1".
Definition HEADER_INIT : string := "x-placenet-init".
Definition HEADER_REGISTER : string := "x-placenet-register".
Definition HEADER_HEALTH : string := "x-placenet-health".
Definition HEADER_HOST : string := "host".
Definition PROXY_BODY_LIMIT : Z := 64 * 1024.

Record AppState := {
  as_brokerage_info : MqttBrokerageInfo;
  as_brokerage : option MqttBrokerageConfig;
  as_upstream_port : Z;
  as_beacon_topic_tx : option unit;
}.

Record DeviceInitRequest := {
  di_version : string;
  di_broker_host : string;
  di_device : DeviceInfo;
}.

(** [HeaderMap::get]: the first value of a name; [contains_key]. *)
Definition header (name : string) (req : HttpRequest) : option bytes :=
  snd <$> (snd <$> list_find (fun h => h.1 = name) (req_headers req)).

Definition contains_key (name : string) (req : HttpRequest) : bool :=
  bool_decide (is_Some (header name req)).

(** ** Responses (response.rs) *)

Definition text_response (status : Z) (msg : string) : HttpResponse :=
  {| resp_status := status; resp_content_type := None; resp_body := bytes_of_string msg |}.

Definition json_response (status : Z) (body : bytes) : HttpResponse :=
  {| resp_status := status; resp_content_type := Some "application/json"; resp_body := body |}.

(** [Limited::new(body, limit).collect()] *)
Definition collect_limited (limit : Z) (req : HttpRequest) : result bytes string :=
  match req_body req with
  | Ok b => if decide (Z.of_nat (length b) <= limit)%Z then Ok b else Err "length limit exceeded"
  | Err e => Err e
  end.

(** The host of a Host header: all before the last colon, unless it starts with a
    bracket. *)
Definition strip_port (h : string) : string :=
  match rsplit_once ":"%char h with
  | Some (l, _) => if starts_with "[" h then h else l
  | None => h
  end.

Section Handshake.
Context {X : Ext}.

(** ** Requests (requests.rs) *)

Definition header_str (name : string) (req : HttpRequest) : option string :=
  header name req ≫= header_to_str.

Definition DeviceInitRequest_process_request (req : HttpRequest)
  : result DeviceInitRequest HttpResponse :=
  match header_str HEADER_INIT req with
  | None => Err (text_response 400 "Invalid X-PlaceNet-Init header")
  | Some version =>
      if decide (version <> SUPPORTED_VERSION) then Err (text_response 400 "Unsupported version")
      else
        let broker_host := default "localhost" (strip_port <$> header_str HEADER_HOST req) in
        match collect_limited PROXY_BODY_LIMIT req with
        | Err _ => Err (text_response 400 "Failed to read request body")
        | Ok body =>
            match parse_device_info body with
            | None => Err (text_response 422 "Invalid JSON body")
            | Some device =>
                Ok {| di_version := version; di_broker_host := broker_host; di_device := device |}
            end
        end
  end.

(** The CSR of a registration request. *)
Definition DeviceRegisterRequest_process_request (req : HttpRequest) : result string HttpResponse :=
  match collect_limited PROXY_BODY_LIMIT req with
  | Err _ => Err (text_response 400 "Failed to read request body")
  | Ok body =>
      match parse_csr_payload body with
      | None => Err (text_response 422 "Invalid JSON body")
      | Some csr_pem => Ok csr_pem
      end
  end.

(** ** Handlers (handlers.rs) *)

Definition handle_health : Prog CaWorld HttpResponse := mret (text_response 200 "OK").

Definition brokerage_json (b : MqttBrokerageInfo) : Value :=
  json_of_object [("address", json_of_string (bi_address b)); ("port", json_of_int (bi_port b));
                  ("ca_cert_pem", json_of_string (bi_ca_cert_pem b))].

Definition listen_channel (beacon_id : string) : TopicChannel :=
  {| ch_beacon_id := beacon_id;
     ch_topic := {| tc_topic := beacon_id +:+ "/rec"; tc_qos := 1 |};
     ch_topic_type := Listen |}.

Definition broadcast_channel (beacon_id : string) : TopicChannel :=
  {| ch_beacon_id := beacon_id;
     ch_topic := {| tc_topic := beacon_id +:+ "/cast"; tc_qos := 1 |};
     ch_topic_type := Broadcast |}.

Definition init_response (cert_pem : string) (info : MqttBrokerageInfo) (host beacon_id : string)
  : HttpResponse :=
  let brokerage := {| bi_address := host; bi_port := bi_port info;
                      bi_ca_cert_pem := bi_ca_cert_pem info |} in
  json_response 200 (json_to_vec (json_of_object
    [("cert_pem", json_of_string cert_pem); ("brokerage", brokerage_json brokerage);
     ("beacon_id", json_of_string beacon_id)])).

Definition handle_device_init (state : AppState) (req : HttpRequest) : Prog CaWorld HttpResponse :=
  match DeviceInitRequest_process_request req with
  | Err r => mret r
  | Ok request =>
      let device := di_device request in
      let hostname := mdns_hostname (dev_mdns device) in
      signed ← sign_csr hostname (dev_csr_pem device);
      match signed with
      | Err _ => mret (text_response 500 "Failed to sign device certificate")
      | Ok cert_pem =>
          registered ← (match as_brokerage state with
                        | Some cfg => register_cert_identity cfg hostname cert_pem
                        | None => mret (Ok tt)
                        end);
          match registered with
          | Err _ => mret (text_response 500 "Failed to register device MQTT identity")
          | Ok _ =>
              beacon_id ← call UuidNewV4;
              _ ← (match as_beacon_topic_tx state with
                   | Some _ =>
                       _ ← call (TrySendTopic (listen_channel beacon_id));
                       _ ← call (TrySendTopic (broadcast_channel beacon_id));
                       mret tt
                   | None => mret tt
                   end);
              mret (init_response cert_pem (as_brokerage_info state) (di_broker_host request) beacon_id)
          end
      end
  end.

Definition register_response (client_id cert_pem ca_pem : string) : HttpResponse :=
  json_response 201 (json_to_vec (json_of_object
    [("client_id", json_of_string client_id); ("cert_pem", json_of_string cert_pem);
     ("ca_cert_pem", json_of_string ca_pem)])).

Definition handle_client_register (req : HttpRequest) : Prog CaWorld HttpResponse :=
  match DeviceRegisterRequest_process_request req with
  | Err r => mret r
  | Ok csr_pem =>
      client_id ← call UuidNewV4;
      signed ← sign_csr client_id csr_pem;
      match signed with
      | Err _ => mret (text_response 500 "Failed to sign client certificate")
      | Ok cert_pem =>
          ca ← ca_cert_pem;
          match ca with
          | Err _ => mret (text_response 500 "Failed to retrieve CA certificate")
          | Ok ca_pem => mret (register_response client_id cert_pem ca_pem)
          end
      end
  end.

(** ** Dispatch (proxy.rs) *)

Definition try_forward {S} (upstream_port : Z) (req : HttpRequest) : Prog S (result HttpResponse string) :=
  _ ←? call (TcpConnect "127.0.0.1" upstream_port);
  _ ←? call HttpHandshake;
  _ ← call (Spawn UpstreamConnection);
  call (SendRequest req).

Definition dispatch (state : AppState) (req : HttpRequest) : Prog CaWorld HttpResponse :=
  if contains_key HEADER_HEALTH req then handle_health
  else if contains_key HEADER_INIT req then handle_device_init state req
  else if contains_key HEADER_REGISTER req then handle_client_register req
  else
    r ← try_forward (as_upstream_port state) req;
    match r with
    | Ok resp => mret resp
    | Err _ => mret (text_response 502 "Bad Gateway")
    end.
End Handshake.

(** ** Properties *)

#[global] Arguments certs_of : simpl never.
#[local] Arguments init_response : simpl never.
#[local] Arguments upsert_device : simpl never.

Lemma strip_port_plain h : contains_char ":"%char h = false -> strip_port h = h.
Proof. unfold strip_port. by intros ->%rsplit_once_None. Qed.

Lemma strip_port_app h p :
  contains_char ":"%char p = false -> starts_with "[" (h +:+ ":" +:+ p) = false ->
  strip_port (h +:+ ":" +:+ p) = h.
Proof.
  intros Hp Hb. unfold strip_port. rewrite Hb. change (":" +:+ p) with (String ":"%char p).
  by rewrite (rsplit_once_app ":"%char h p Hp).
Qed.

Section Theory.
Context {X : Ext}.
Implicit Types (req : HttpRequest) (w : CaWorld) (e : Env).

(** What a trace did upstream, what it offered to the application, the device
    certificates the CA signed. *)
Inductive UpstreamCall := UpConnect (host : string) (port : Z) | UpSend (req : HttpRequest).

Definition upstream_call (ev : Event) : option UpstreamCall :=
  match ev with
  | Ev c _ => match c with
              | TcpConnect host port => Some (UpConnect host port)
              | SendRequest req => Some (UpSend req)
              | _ => None
              end
  end.

Definition offered (ev : Event) : option TopicChannel :=
  match ev with Ev c _ => match c with TrySendTopic ch => Some ch | _ => None end end.

Definition csr_signed (ev : Event) : option (CsrParams * Certificate * KeyPair * Certificate) :=
  match ev with
  | Ev c y => match c in Call Y return Y -> option (CsrParams * Certificate * KeyPair * Certificate) with
              | CsrSignedBy csr ca ca_kp => fun r => match r with Ok crt => Some (csr, ca, ca_kp, crt) | Err _ => None end
              | _ => fun _ => None
              end y
  end.

(** What a handshake does outside the CA: files written, topics offered, in order. *)
Inductive DeviceEffect := Wrote (path contents : string) | Offered (ch : TopicChannel).

Definition device_effect (ev : Event) : option DeviceEffect :=
  match written ev with
  | Some (path, contents) => Some (Wrote path contents)
  | None => Offered <$> offered ev
  end.

(** C23: a device handshake is taken up exactly when the request carries the supported
    version, a body of at most 64 KiB and a parsable device description; the broker
    address returned to the device is then the host the device itself used, without
    the port.  Any other request is answered 400 or 422 and does nothing: no
    signature, no database access, no message to the application. *)
Theorem init_request_validation req :
  match DeviceInitRequest_process_request req with
  | Ok r =>
      header_str HEADER_INIT req = Some SUPPORTED_VERSION /\
      (exists body, req_body req = Ok body /\ (Z.of_nat (length body) <= 65536)%Z /\
                    parse_device_info body = Some (di_device r)) /\
      (forall h p, header_str HEADER_HOST req = Some (h +:+ ":" +:+ display p) -> (0 <= p)%Z ->
         starts_with "[" (h +:+ ":" +:+ display p) = false -> di_broker_host r = h)
  | Err resp =>
      (resp_status resp = 400%Z \/ resp_status resp = 422%Z) /\
      (forall state w e, handle_device_init state req w e = (resp, w, e)) /\
      ~ (header_str HEADER_INIT req = Some SUPPORTED_VERSION /\
         exists body d, req_body req = Ok body /\ (Z.of_nat (length body) <= 65536)%Z /\
                        parse_device_info body = Some d)
  end.
Proof.
  destruct (DeviceInitRequest_process_request req) as [r|resp] eqn:E.
  - unfold DeviceInitRequest_process_request, collect_limited in E.
    destruct (header_str HEADER_INIT req) as [v|]; [|done].
    destruct (decide (v <> SUPPORTED_VERSION)) as [|Hv]; [done|]. apply dec_stable in Hv. subst v.
    split; [done|]. destruct (req_body req) as [b|]; [|done].
    destruct (decide (Z.of_nat (length b) <= PROXY_BODY_LIMIT)%Z) as [Hl|]; [|done].
    destruct (parse_device_info b) as [d|] eqn:Hd; [|done]. injection E as <-. cbn. split.
    + exists b. split; [done|]. split; [|done]. exact Hl.
    + intros h p -> Hp Hb. cbn. apply strip_port_app; [|done]. by apply display_contains.
  - split; [|split].
    + unfold DeviceInitRequest_process_request in E.
      repeat (case_match; try done); injection E as <-; cbn; tauto.
    + intros state w e. unfold handle_device_init. by rewrite E.
    + intros (Hv & b & d & Hb & Hl & Hd).
      unfold DeviceInitRequest_process_request, collect_limited in E. rewrite Hv, Hb in E.
      destruct (decide (SUPPORTED_VERSION <> SUPPORTED_VERSION)); [done|].
      destruct (decide (Z.of_nat (length b) <= PROXY_BODY_LIMIT)%Z) as [|Hn]; [|by destruct Hn].
      by rewrite Hd in E.
Qed.

(** What a handshake that passed validation leaves behind, by its answer. *)
Definition init_outcome (state : AppState) (r : DeviceInitRequest) w e (resp : HttpResponse)
    (w' : CaWorld) (e' : Env) : Prop :=
  let hostname := mdns_hostname (dev_mdns (di_device r)) in
  (* the CA the node holds signed the device's own request, and the record is kept *)
  let issued pem := exists ca csr crt now,
    ca_state w = Some ca /\ csr_from_pem (dev_csr_pem (di_device r)) = Ok csr /\
    omap csr_signed (trace e') = omap csr_signed (trace e) ++ [(csr, ca_cert ca, key_pair ca, crt)] /\
    pem = cert_pem crt /\
    certs_of (device_certs (db w')) =
      <[hostname := mkRecord hostname pem now (wrap_i64 (now + year)) false]> (certs_of (device_certs (db w))) in
  let did effects := omap device_effect (trace e') = omap device_effect (trace e) ++ effects in
  (resp = text_response 500 "Failed to sign device certificate" /\ w' = w /\ did []) \/
  (resp = text_response 500 "Failed to register device MQTT identity" /\ is_Some (as_brokerage state) /\
     (exists pem, issued pem) /\ did []) \/
  (exists pem beacon_id files,
     resp = init_response pem (as_brokerage_info state) (di_broker_host r) beacon_id /\ issued pem /\
     match as_brokerage state with
     | Some cfg => exists path, cert_path cfg hostname = Some path /\ files = [Wrote path pem]
     | None => files = []
     end /\
     did (files ++ match as_beacon_topic_tx state with
                   | Some _ => [Offered (listen_channel beacon_id); Offered (broadcast_channel beacon_id)]
                   | None => []
                   end)).

(** Signing, for a handshake: either nothing happened to the CA's tables, or the CA signed
    this very request and recorded the certificate it returns. *)
Lemma sign_csr_issues d pem_in w e :
  let '(r, w', e') := sign_csr d pem_in w e in
  omap device_effect (trace e') = omap device_effect (trace e) /\
  match r with
  | Err _ => w' = w
  | Ok pem => exists ca csr crt now,
      ca_state w = Some ca /\ csr_from_pem pem_in = Ok csr /\
      omap csr_signed (trace e') = omap csr_signed (trace e) ++ [(csr, ca_cert ca, key_pair ca, crt)] /\
      pem = cert_pem crt /\
      certs_of (device_certs (db w')) =
        <[d := mkRecord d pem now (wrap_i64 (now + year)) false]> (certs_of (device_certs (db w)))
  end.
Proof.
  unfold sign_csr, loaded_ca, operations_sign_csr, unix_now. run_prog.
  destruct (ca_state w) as [ca|]; cbn; [|done].
  destruct (csr_from_pem pem_in) as [csr|]; run_prog; [|done].
  case_answer; run_prog; [|by rewrite omap_app, app_nil_r].
  case_answer; run_prog; (split; [by rewrite !omap_app, !app_nil_r|]); [done|].
  eexists ca, csr, _, _. split; [done|]. split; [done|].
  split; [rewrite !omap_app; cbn; by rewrite !app_nil_r|]. split; [done|]. by rewrite certs_of_upsert.
Qed.

(** Recording the identity: one file, or none when it fails. *)
Lemma register_cert_identity_writes {S} cfg host pem (s : S) e :
  let '(r, s', e') := register_cert_identity cfg host pem s e in
  s' = s /\ omap csr_signed (trace e') = omap csr_signed (trace e) /\
  match r with
  | Ok _ => exists path, cert_path cfg host = Some path /\
      omap device_effect (trace e') = omap device_effect (trace e) ++ [Wrote path pem]
  | Err _ => omap device_effect (trace e') = omap device_effect (trace e)
  end.
Proof.
  unfold register_cert_identity. destruct (cert_path cfg host) as [path|]; run_prog; [|done].
  case_answer; run_prog; (split; [done|]); rewrite !omap_app; cbn;
    match goal with H : oracle _ _ _ _ = _ |- _ => cbn in H; rewrite ?H end; cbn; rewrite ?app_nil_r; eauto.
Qed.

Lemma identity_recorded {S} brokerage host pem (s : S) e :
  let '(r, s', e') := (match brokerage with
    | Some cfg => register_cert_identity cfg host pem | None => mret (Ok tt) end) s e in
  s' = s /\ omap csr_signed (trace e') = omap csr_signed (trace e) /\
  match r with
  | Ok _ => exists files,
      match brokerage with
      | Some cfg => exists path, cert_path cfg host = Some path /\ files = [Wrote path pem]
      | None => files = []
      end /\ omap device_effect (trace e') = omap device_effect (trace e) ++ files
  | Err _ => is_Some brokerage /\ omap device_effect (trace e') = omap device_effect (trace e)
  end.
Proof.
  destruct brokerage as [cfg|].
  - pose proof (register_cert_identity_writes cfg host pem s e) as H.
    destruct (register_cert_identity cfg host pem s e) as [[[u|err] s'] e']; destruct H as (H1 & H2 & H3);
      (split; [done|]); (split; [done|]); [|by eauto]. destruct H3 as (path & H3 & H4). eauto 8.
  - split; [done|]. split; [done|]. exists []. by rewrite app_nil_r.
Qed.

(** C22: the outcome of a valid handshake.  Answer 200: the certificate returned is one the
    node's CA signed for the request the device sent; it is recorded under the device's
    host name (replacing any earlier record of that name, revoked or not) and written to
    the device's identity file when the broker is there, and only after that file the
    listen and broadcast topics of the new beacon id returned are offered to the
    application; no other file is written and no other topic offered.  Answer 500 because of the signature: nothing
    changed.  Answer 500 because the identity file could not be written: the certificate
    is recorded although the device never gets it, no file is written and no topic is
    offered. *)
Theorem device_init_outcome state req r w e :
  DeviceInitRequest_process_request req = Ok r ->
  let '(resp, w', e') := handle_device_init state req w e in
  init_outcome state r w e resp w' e'.
Proof.
  intros Hr. unfold handle_device_init. rewrite Hr. unfold init_outcome.
  set (hostname := mdns_hostname (dev_mdns (di_device r))). unfold mbind at 1, prog_bind.
  pose proof (sign_csr_issues hostname (dev_csr_pem (di_device r)) w e) as Hs.
  destruct (sign_csr hostname (dev_csr_pem (di_device r)) w e) as [[[pem|err] w1] e1]; destruct Hs as [Hs1 Hs2].
  2: { left. cbn. by rewrite Hs1, app_nil_r. }
  pose proof (identity_recorded (as_brokerage state) hostname pem w1 e1) as Hreg. unfold mbind at 1, prog_bind.
  match type of Hreg with match ?run with (_, _) => _ end =>
    destruct run as [[[u|err] w2] e2] end;
    destruct Hreg as (-> & Hsig & Hw); rewrite <- Hsig in Hs2; rewrite Hs1 in Hw.
  - destruct Hw as (files & Hfiles & Hw).
    destruct (as_beacon_topic_tx state); run_prog; right; right; exists pem; do 2 eexists; (split; [done|]);
      (split; [|split; [exact Hfiles|]]);
      [rewrite !omap_app; cbn; rewrite ?app_nil_r; exact Hs2| |rewrite !omap_app; cbn; rewrite ?app_nil_r; exact Hs2|];
      rewrite !omap_app, Hw; cbn; by rewrite <- !app_assoc.
  - right; left. destruct Hw as [Hb Hw]. split; [done|]. split; [done|]. split; [by exists pem|].
    cbn. by rewrite Hw, app_nil_r.
Qed.

Lemma sign_csr_silent {B} (f : Event -> option B) d csr :
  (forall stmt y, f (Ev (SqlExec stmt) y) = None) -> (forall y, f (Ev SystemTimeNow y) = None) ->
  (forall c ca kp y, f (Ev (CsrSignedBy c ca kp) y) = None) -> silent f (sign_csr d csr).
Proof.
  intros H1 H2 H3. unfold sign_csr, loaded_ca, operations_sign_csr, with_db. silence.
Qed.
#[local] Hint Resolve sign_csr_silent : silent.

Lemma placenet_not_proxied state req :
  silent upstream_call (handle_device_init state req) /\ silent upstream_call (handle_client_register req).
Proof.
  split.
  - unfold handle_device_init, register_cert_identity. silence.
  - unfold handle_client_register, ca_cert_pem, loaded_ca. silence.
Qed.

(** The answers of the two handlers, told apart by their status; a registration offers no
    topics. *)
Lemma init_refused_status req resp :
  DeviceInitRequest_process_request req = Err resp -> resp_status resp ∈ [400; 422]%Z.
Proof. unfold DeviceInitRequest_process_request. repeat (case_match; try done); intros [= <-]; cbn; set_solver. Qed.

Lemma device_init_status state req w e :
  resp_status (handle_device_init state req w e).1.1 ∈ [200; 400; 422; 500]%Z.
Proof.
  unfold handle_device_init. destruct (DeviceInitRequest_process_request req) as [r|resp] eqn:E.
  2: { apply init_refused_status in E. cbn. set_solver. }
  set (hostname := mdns_hostname _). unfold mbind at 1, prog_bind.
  destruct (sign_csr hostname (dev_csr_pem (di_device r)) w e) as [[[pem|err] w1] e1]; [|cbn; set_solver].
  pose proof (identity_recorded (as_brokerage state) hostname pem w1 e1) as Hreg. unfold mbind at 1, prog_bind.
  match type of Hreg with match ?run with (_, _) => _ end => destruct run as [[[u|err] w2] e2] end;
    [|cbn; set_solver].
  destruct (as_beacon_topic_tx state); run_prog; set_solver.
Qed.

Lemma client_register_status req w e :
  resp_status (handle_client_register req w e).1.1 ∈ [201; 400; 422; 500]%Z.
Proof.
  unfold handle_client_register, DeviceRegisterRequest_process_request.
  destruct (collect_limited PROXY_BODY_LIMIT req) as [body|]; [|cbn; set_solver].
  destruct (parse_csr_payload body) as [csr|]; [|cbn; set_solver].
  unfold mbind, prog_bind, call, mret, prog_ret. destruct (sign_csr _ csr w _) as [[[pem|err] w1] e1]; [|cbn; set_solver].
  destruct (ca_cert_pem w1 e1) as [[[ca|err] w2] e2]; cbn; set_solver.
Qed.

Lemma client_register_offers_nothing req : silent offered (handle_client_register req).
Proof. unfold handle_client_register, ca_cert_pem, loaded_ca. silence. Qed.

(** Forwarding connects to the local upstream and sends the request on unchanged; it stops
    at the first failure. *)
Lemma try_forward_calls {S} port req (s : S) e :
  let '(r, s', e') := try_forward port req s e in
  s' = s /\ exists calls, omap upstream_call (trace e') = omap upstream_call (trace e) ++ calls /\
    calls `prefix_of` [UpConnect "127.0.0.1" port; UpSend req] /\
    forall resp, r = Ok resp -> calls = [UpConnect "127.0.0.1" port; UpSend req] /\
      exists n, oracle e _ (SendRequest req) n = Ok resp.
Proof.
  unfold try_forward. run_prog.
  case_answer; run_prog; [case_answer; run_prog|]; (split; [done|]);
    rewrite !omap_app; cbn; rewrite ?app_nil_r, <- ?app_assoc; (eexists; split; [done|]);
    (split; [by eexists|]); [eauto|done..].
Qed.

(** C24: requests go where their headers say, in the code's order of precedence.  A health
    check answers 200 and does nothing, whatever else the request carries.  Otherwise a
    request with the handshake header is a device handshake, even if it carries the
    registration header too, and one with the registration header alone is a client
    registration; neither is ever sent upstream.  The two cannot be confused: a handshake
    never answers 201, a registration never answers 200 and offers no topic.  Any other
    request never touches the certificate authority: it is sent, unchanged and to the
    configured local port only, and answered by the upstream's own response or by 502. *)
Theorem dispatch_routes state req w e :
  let '(resp, w', e') := dispatch state req w e in
  let upstream := omap upstream_call (trace e) in
  let upstream' := omap upstream_call (trace e') in
  if contains_key HEADER_HEALTH req then resp = text_response 200 "OK" /\ w' = w /\ e' = e
  else if contains_key HEADER_INIT req then
    (resp, w', e') = handle_device_init state req w e /\ resp_status resp <> 201%Z /\ upstream' = upstream
  else if contains_key HEADER_REGISTER req then
    (resp, w', e') = handle_client_register req w e /\ resp_status resp <> 200%Z /\ upstream' = upstream /\
    omap offered (trace e') = omap offered (trace e)
  else w' = w /\ exists calls, upstream' = upstream ++ calls /\
    calls `prefix_of` [UpConnect "127.0.0.1" (as_upstream_port state); UpSend req] /\
    (resp = text_response 502 "Bad Gateway" \/
     calls = [UpConnect "127.0.0.1" (as_upstream_port state); UpSend req] /\
     exists n, oracle e _ (SendRequest req) n = Ok resp).
Proof.
  unfold dispatch. destruct (contains_key HEADER_HEALTH req); [done|].
  destruct (placenet_not_proxied state req) as [H1 H2]. specialize (H1 w e). specialize (H2 w e).
  destruct (contains_key HEADER_INIT req).
  { pose proof (device_init_status state req w e) as Hs.
    destruct (handle_device_init state req w e) as [[resp w'] e'].
    split; [done|]. split; [|done]. cbn in Hs. intros E. rewrite E in Hs. set_solver. }
  destruct (contains_key HEADER_REGISTER req).
  { pose proof (client_register_status req w e) as Hs. pose proof (client_register_offers_nothing req w e) as Ho.
    destruct (handle_client_register req w e) as [[resp w'] e'].
    split; [done|]. split; [|done]. cbn in Hs. intros E. rewrite E in Hs. set_solver. }
  pose proof (try_forward_calls (as_upstream_port state) req w e) as H. unfold mbind, prog_bind.
  destruct (try_forward (as_upstream_port state) req w e) as [[[resp|err] w'] e'];
    destruct H as (-> & calls & Hc & Hp & Hok); (split; [done|]); exists calls; (split; [done|]); (split; [done|]).
  - right. by apply Hok.
  - by left.
Qed.

(** A client registration signs under a fresh id: answer 201 returns the id, the
    certificate recorded for it, and the CA certificate the node holds; any other
    answer is 400, 422 or 500. *)
Theorem client_register_outcome req w e :
  let '(resp, w', e') := handle_client_register req w e in
  (resp_status resp ∈ [400; 422; 500]%Z) \/
  exists ca id pem now,
    ca_state w = Some ca /\ oracle e _ UuidNewV4 (clk e) = id /\
    resp = register_response id pem (cert_pem (ca_cert ca)) /\
    certs_of (device_certs (db w')) =
      <[id := mkRecord id pem now (wrap_i64 (now + year)) false]> (certs_of (device_certs (db w))).
Proof.
  unfold handle_client_register, DeviceRegisterRequest_process_request.
  destruct (collect_limited PROXY_BODY_LIMIT req) as [body|]; [|by left; left].
  destruct (parse_csr_payload body) as [csr|]; [|left; cbn; set_solver].
  unfold sign_csr, ca_cert_pem, loaded_ca, operations_sign_csr, unix_now. run_prog.
  destruct (ca_state w) as [ca|] eqn:Hca; cbn; [|left; set_solver].
  destruct (csr_from_pem csr) as [p|]; run_prog; [|left; set_solver].
  case_answer; run_prog; [|left; set_solver]. case_answer; run_prog; [left; set_solver|].
  rewrite Hca. run_prog. right. eexists ca, _, _, _. split; [done|]. split; [done|]. split; [done|].
  by rewrite certs_of_upsert.
Qed.
End Theory.

(** ** Concrete requests *)

Definition demo_state : AppState := {|
  as_brokerage_info := {| bi_address := "localhost"; bi_port := 8883; bi_ca_cert_pem := "cert" |};
  as_brokerage := Some demo_broker_config; as_upstream_port := 3000; as_beacon_topic_tx := Some tt |}.

Definition demo_init (version host body : string) : HttpRequest := {|
  req_line := "POST / HTTP/1.1";
  req_headers := [(HEADER_HOST, bytes_of_string host); (HEADER_INIT, bytes_of_string version)];
  req_body := Ok (bytes_of_string body) |}.

Definition demo_device_request : DeviceInitRequest := {|
  di_version := "0.0.1"; di_broker_host := "192.168.2.39";
  di_device := {| dev_address := "10.0.0.7"; dev_mdns := {| mdns_hostname := "hub"; mdns_port := 80 |};
                  dev_csr_pem := "csr" |} |}.

Example init_requests :
  @DeviceInitRequest_process_request demo_ext (demo_init "0.0.1" "192.168.2.39:8080" "hub|csr")
    = Ok demo_device_request /\
  @DeviceInitRequest_process_request demo_ext (demo_init "0.0.2" "h" "hub|csr")
    = Err (text_response 400 "Unsupported version") /\
  @DeviceInitRequest_process_request demo_ext (demo_init "0.0.1" "h" "junk")
    = Err (text_response 422 "Invalid JSON body").
Proof. by vm_compute. Qed.

(** The port is kept, against the comment in the source, when the host is bracketed. *)
Example bracketed_host_keeps_port : strip_port "[fe80::1]:8080" = "[fe80::1]:8080".
Proof. by vm_compute. Qed.

Lemma device_init_outcome_witness :
  let run := @handle_device_init demo_ext demo_state (demo_init "0.0.1" "192.168.2.39:8080" "hub|csr")
               demo_issued demo_env in
  @init_outcome demo_ext demo_state demo_device_request demo_issued demo_env run.1.1 run.1.2 run.2.
Proof.
  intros run. pose proof (device_init_outcome (X := demo_ext) demo_state
    (demo_init "0.0.1" "192.168.2.39:8080" "hub|csr") demo_device_request demo_issued demo_env
    ltac:(by vm_compute)) as H.
  fold run in H. destruct run as [[resp w'] e']. exact H.
Defined.
