(* ===== verification/Proxy.v ===== *)
(** * Proxy: a connection to the gateway's listener (internals/proxy.rs)

    hyper reads the requests of a connection one after the other and hands each to
    [dispatch] (Handshake.v); [serve_connection] and [serve_tls_connection] take the
    requests it reads, and how the connection ended, as arguments.  The connections
    themselves come from the accept loops of Gateway.v. *)

From Stdlib Require Import ZArith Lia.
From stdpp Require Import base list strings gmap.
From S2P Require Import Prelude RustStr Types Env Demo Config Ca Brokerage Handshake.

(** What serving a connection leaves: the responses, in order, and the line logged. *)
Record Served := mkServed { sv_responses : list HttpResponse; sv_log : option string }.

(** How the end of a connection is logged: clients that hang up are not errors. *)
Definition connection_log (ended : result unit string) : option string :=
  match ended with
  | Ok _ => None
  | Err msg => if negb (contains_str "connection reset" msg) && negb (contains_str "broken pipe" msg)
               then Some msg else None
  end.

(** The topics of a handshake, as its handler offers them. *)
Definition handshake_topics (beacon_id : string) : list TopicChannel :=
  [listen_channel beacon_id; broadcast_channel beacon_id].

Section Proxy.
Context {X : Ext}.

Fixpoint serve_requests (state : AppState) (reqs : list HttpRequest) : Prog CaWorld (list HttpResponse) :=
  match reqs with
  | [] => mret []
  | req :: reqs => resp ← dispatch state req; resps ← serve_requests state reqs; mret (resp :: resps)
  end.

Definition serve_connection (state : AppState) (reqs : list HttpRequest) (ended : result unit string)
  : Prog CaWorld Served :=
  resps ← serve_requests state reqs;
  mret (mkServed resps ((fun m => "HTTP connection error: " +:+ m) <$> connection_log ended)).

Definition serve_tls_connection (state : AppState) (reqs : list HttpRequest) (ended : result unit string)
  : Prog CaWorld Served :=
  accepted ← call TlsAccept;
  match accepted with
  | Err e => mret (mkServed [] (Some ("TLS handshake failed: " +:+ e)))
  | Ok _ =>
      resps ← serve_requests state reqs;
      mret (mkServed resps ((fun m => "HTTPS connection error: " +:+ m) <$> connection_log ended))
  end.

(** ** Properties *)

Implicit Types (req : HttpRequest) (w : CaWorld) (e : Env).

(** The certificate authority itself, as opposed to the records of what it signed. *)
Definition same_authority w w' : Prop :=
  ca_state w' = ca_state w /\ ca_keys (db w') = ca_keys (db w) /\
  node_identity (db w') = node_identity (db w) /\ (ids_unique w -> ids_unique w').

(** The topics one request makes the node offer: those of the id a handshake answered with,
    and none when it was not a handshake, or one that failed. *)
Definition offers_of state req (resp : HttpResponse) (offers : list TopicChannel) : Prop :=
  (offers = [] /\
   (contains_key HEADER_HEALTH req = false -> contains_key HEADER_INIT req = true ->
    as_beacon_topic_tx state = Some tt -> resp_status resp <> 200%Z)) \/
  exists pem host id, offers = handshake_topics id /\ as_beacon_topic_tx state = Some tt /\
    contains_key HEADER_INIT req = true /\ resp = init_response pem (as_brokerage_info state) host id.

(** What one request may do: at most one certificate is recorded, topics are offered. *)
Definition exchange state req w (resp : HttpResponse) w' (offers : list TopicChannel) : Prop :=
  same_authority w w' /\
  (device_certs (db w') = device_certs (db w) \/
   exists row, device_certs (db w') = upsert_device row (device_certs (db w)) /\ dr_revoked row = 0%Z /\
     (contains_key HEADER_INIT req = true \/ contains_key HEADER_REGISTER req = true)) /\
  offers_of state req resp offers.

Lemma same_authority_refl w : same_authority w w.
Proof. by repeat split. Qed.

Lemma same_authority_trans w1 w2 w3 : same_authority w1 w2 -> same_authority w2 w3 -> same_authority w1 w3.
Proof. intros (?&?&?&?) (?&?&?&?). repeat split; [congruence..|auto]. Qed.

Lemma same_authority_upsert w row :
  same_authority w (mkWorld (ca_state w) (set_device_certs (upsert_device row (device_certs (db w))) (db w))).
Proof. repeat split. unfold ids_unique. cbn. intros. by apply upsert_ids. Qed.

(** Signing records one certificate when it succeeds, and nothing when it fails. *)
Lemma sign_csr_world d csr w e :
  let '(r, w', e') := sign_csr d csr w e in
  omap offered (trace e') = omap offered (trace e) /\
  match r with
  | Ok pem => exists now expires, w' = mkWorld (ca_state w)
      (set_device_certs (upsert_device (mkDevice d pem now expires 0) (device_certs (db w))) (db w))
  | Err _ => w' = w
  end.
Proof.
  unfold sign_csr, loaded_ca, operations_sign_csr, with_db, unix_now. run_prog.
  destruct (ca_state w) as [ca|] eqn:Hca; cbn; [|done].
  destruct (csr_from_pem csr) as [p|]; run_prog; [|done].
  case_answer; run_prog; [|by rewrite omap_app, app_nil_r].
  case_answer; run_prog; (split; [by rewrite !omap_app, !app_nil_r|]); [done|]. rewrite Hca. eauto.
Qed.

Lemma offered_write {S} cfg host pem (s : S) e :
  let '(_, s', e') := register_cert_identity cfg host pem s e in
  s' = s /\ omap offered (trace e') = omap offered (trace e).
Proof.
  unfold register_cert_identity. destruct (cert_path cfg host); run_prog; [|done].
  case_answer; run_prog; (split; [done|]); by rewrite omap_app, app_nil_r.
Qed.

(** The two halves of an [exchange]: what is signed, what is offered. *)
Lemma exchange_signed state req w w' resp row :
  w' = mkWorld (ca_state w) (set_device_certs (upsert_device row (device_certs (db w))) (db w)) ->
  dr_revoked row = 0%Z -> (contains_key HEADER_INIT req = true \/ contains_key HEADER_REGISTER req = true) ->
  offers_of state req resp [] -> exchange state req w resp w' [].
Proof.
  intros -> Hr Hk Ho. split; [apply same_authority_upsert|]. split; [right; by exists row|done].
Qed.

Lemma exchange_none state req w resp : offers_of state req resp [] -> exchange state req w resp w [].
Proof. split; [apply same_authority_refl|]. split; [by left|done]. Qed.

Lemma offers_none_failed state req resp : resp_status resp <> 200%Z -> offers_of state req resp [].
Proof. by left. Qed.

Lemma init_refused_fails req resp :
  DeviceInitRequest_process_request req = Err resp -> resp_status resp <> 200%Z.
Proof. intros H%init_refused_status E. rewrite E in H. set_solver. Qed.
#[local] Hint Resolve offers_none_failed init_refused_fails : core.

Definition exchanged state req w e (out : HttpResponse * CaWorld * Env) : Prop :=
  let '(resp, w', e') := out in exists offers,
    omap offered (trace e') = omap offered (trace e) ++ offers /\ exchange state req w resp w' offers.

Lemma exchanged_quiet state req w resp w' (tr tr' : list Event) :
  omap offered tr' = omap offered tr -> exchange state req w resp w' [] ->
  exists offers, omap offered tr' = omap offered tr ++ offers /\ exchange state req w resp w' offers.
Proof. intros H Hx. exists []. by rewrite app_nil_r. Qed.

Lemma device_init_exchanged state req w e :
  contains_key HEADER_INIT req = true -> exchanged state req w e (handle_device_init state req w e).
Proof.
  intros Hk. unfold handle_device_init.
  destruct (DeviceInitRequest_process_request req) as [r|resp] eqn:Hreq;
    [|apply exchanged_quiet; [done|apply exchange_none; eauto]].
  unfold mbind at 1, prog_bind. set (d := mdns_hostname _).
  pose proof (sign_csr_world d (dev_csr_pem (di_device r)) w e) as Hs.
  destruct (sign_csr d _ w e) as [[[pem|err] w1] e1]; destruct Hs as [Hs Hw].
  2: { subst w1. apply exchanged_quiet; [done|by apply exchange_none, offers_none_failed]. }
  destruct Hw as (now & expires & Hw).
  assert (Hreg : let '(_, w2, e2) := match as_brokerage state with
      | Some cfg => register_cert_identity cfg d pem | None => mret (Ok tt) end w1 e1 in
      w2 = w1 /\ omap offered (trace e2) = omap offered (trace e1)).
  { destruct (as_brokerage state) as [cfg|]; [|done]. apply offered_write. }
  match goal with |- exchanged _ _ _ _ (mbind _ ?m w1 e1) =>
    unfold mbind at 1, prog_bind; destruct (m w1 e1) as [[[u|err] w2] e2] end; destruct Hreg as [-> H2].
  - run_prog. destruct (as_beacon_topic_tx state) as [[]|] eqn:Ht; run_prog.
    + eexists. split; [|split; [subst w1; apply same_authority_upsert|split]].
      * rewrite !omap_app, H2, Hs, <- !app_assoc. done.
      * right. subst w1. eexists. split; [done|]. split; [done|by left].
      * right. do 3 eexists. repeat (split; [done|]). done.
    + apply exchanged_quiet; [by rewrite !omap_app, H2, Hs, !app_nil_r|].
      eapply exchange_signed; [done|done|by left|]. left. split; [done|]. intros _ _. by rewrite Ht.
  - apply exchanged_quiet; [by rewrite H2|]. eapply exchange_signed; [done|done|by left|].
    by apply offers_none_failed.
Qed.

Lemma client_register_exchanged state req w e :
  contains_key HEADER_INIT req = false -> contains_key HEADER_REGISTER req = true ->
  exchanged state req w e (handle_client_register req w e).
Proof.
  intros Hi Hk. assert (Hnone : forall resp, offers_of state req resp []).
  { intros resp. left. split; [done|]. congruence. }
  unfold handle_client_register.
  destruct (DeviceRegisterRequest_process_request req) as [csr|resp];
    [|apply exchanged_quiet; [done|by apply exchange_none]].
  unfold mbind at 1, prog_bind, call. set (id := oracle e _ _ _). set (e0 := mkEnv _ _ _).
  assert (H0 : omap offered (trace e0) = omap offered (trace e)) by (cbn; by rewrite omap_app, app_nil_r).
  unfold mbind at 1, prog_bind. pose proof (sign_csr_world id csr w e0) as Hs.
  destruct (sign_csr id csr w e0) as [[[pem|err] w1] e1]; destruct Hs as [Hs Hw].
  2: { subst w1. apply exchanged_quiet; [by rewrite Hs|by apply exchange_none]. }
  destruct Hw as (now & expires & Hw). unfold ca_cert_pem, loaded_ca. run_prog.
  destruct (ca_state w1); run_prog; (apply exchanged_quiet; [by rewrite Hs|]);
    (eapply exchange_signed; [done|done|by right|done]).
Qed.

Lemma dispatch_exchanged state req w e : exchanged state req w e (dispatch state req w e).
Proof.
  unfold dispatch. destruct (contains_key HEADER_HEALTH req) eqn:Hh.
  { apply exchanged_quiet; [done|]. apply exchange_none. left. split; [done|]. congruence. }
  destruct (contains_key HEADER_INIT req) eqn:Hi; [by apply device_init_exchanged|].
  destruct (contains_key HEADER_REGISTER req) eqn:Hr; [by apply client_register_exchanged|].
  unfold try_forward. run_prog. repeat (case_answer; run_prog);
    (apply exchanged_quiet; [by rewrite !omap_app, !app_nil_r|]; apply exchange_none; left;
     (split; [done|]); congruence).
Qed.

Lemma upsert_length row rows : (length (upsert_device row rows) <= S (length rows))%nat.
Proof.
  induction rows as [|r rows IH]; [by apply Nat.le_refl|].
  unfold upsert_device; fold upsert_device. case_decide; cbn [length] in *; lia.
Qed.

Lemma serve_requests_spec state reqs w e :
  let '(resps, w', e') := serve_requests state reqs w e in
  same_authority w w' /\
  (length (device_certs (db w')) <= length (device_certs (db w)) + length reqs)%nat /\
  exists offers, omap offered (trace e') = omap offered (trace e) ++ concat offers /\
    Forall3 (offers_of state) reqs resps offers.
Proof.
  revert w e. induction reqs as [|req reqs IH]; intros w e.
  { split; [apply same_authority_refl|]. split; [lia|]. exists []. split; [by rewrite app_nil_r|constructor]. }
  cbn [serve_requests]. unfold mbind, prog_bind, mret, prog_ret.
  pose proof (dispatch_exchanged state req w e) as Hx.
  destruct (dispatch state req w e) as [[resp w1] e1]. destruct Hx as (o & Ho & Ha & Hc & Hof).
  specialize (IH w1 e1). destruct (serve_requests state reqs w1 e1) as [[resps w2] e2].
  destruct IH as (Ha2 & Hc2 & offers & Ho2 & Hf).
  split; [by eapply same_authority_trans|]. split.
  - destruct Hc as [Hc|(row & Hc & _)]; rewrite Hc in Hc2; [cbn [length]; lia|].
    pose proof (upsert_length row (device_certs (db w))). cbn [length]. lia.
  - exists (o :: offers). split; [by rewrite Ho2, Ho, <- app_assoc|]. by constructor.
Qed.

(** C9: a whole connection, over TLS or not.  Every request read on it gets one response, in
    order.  None of them, whatever it contains, touches the CA key, the node's own
    identity or the uniqueness of the certificate records; at most one record is added
    per request.  The topics offered to the application are exactly those of the
    handshakes answered 200 on it, in the order of the answers and each under the id it
    was answered with.  When the TLS handshake fails nothing at all is done. *)
Theorem connection_outcome (tls : bool) state reqs ended w e :
  let '(out, w', e') := (if tls then serve_tls_connection else serve_connection) state reqs ended w e in
  same_authority w w' /\
  (length (device_certs (db w')) <= length (device_certs (db w)) + length reqs)%nat /\
  exists offers, omap offered (trace e') = omap offered (trace e) ++ concat offers /\
    match oracle e _ TlsAccept (clk e) with
    | Err _ => if tls then sv_responses out = [] /\ w' = w /\ offers = []
               else Forall3 (offers_of state) reqs (sv_responses out) offers
    | Ok _ => Forall3 (offers_of state) reqs (sv_responses out) offers
    end.
Proof.
  destruct tls; [unfold serve_tls_connection|unfold serve_connection]; unfold mbind, prog_bind, mret, prog_ret.
  - unfold call. destruct (oracle e _ TlsAccept (clk e)) as [u|err] eqn:Ht.
    + match goal with |- context [serve_requests state reqs w ?e0] =>
        pose proof (serve_requests_spec state reqs w e0) as H;
        destruct (serve_requests state reqs w e0) as [[resps w'] e'] end.
      destruct H as (H1 & H2 & offers & H3 & H4). split; [done|]. split; [done|]. exists offers.
      split; [|done]. rewrite H3. cbn [trace]. by rewrite omap_app, app_nil_r.
    + split; [apply same_authority_refl|]. split; [lia|]. exists []. cbn.
      by rewrite omap_app, !app_nil_r.
  - pose proof (serve_requests_spec state reqs w e) as H.
    destruct (serve_requests state reqs w e) as [[resps w'] e'].
    destruct H as (H1 & H2 & offers & H3 & H4). split; [done|]. split; [done|].
    exists offers. split; [done|]. by destruct (oracle e _ TlsAccept (clk e)).
Qed.
End Proxy.

(** ** A concrete connection *)

(** A handshake, a health check and a request for the upstream, on one connection that the
    client then resets. *)
Example demo_connection :
  let run := @serve_tls_connection demo_ext demo_state
    [demo_init "0.0.1" "10.0.0.1" "hub|csr";
     {| req_line := "GET / HTTP/1.1"; req_headers := [(HEADER_HEALTH, [])]; req_body := Ok [] |};
     {| req_line := "GET /x HTTP/1.1"; req_headers := []; req_body := Ok [] |}]
    (Err "connection reset by peer") demo_issued demo_env in
  resp_status <$> sv_responses run.1.1 = [200; 200; 200]%Z /\ sv_log run.1.1 = None /\
  omap offered (trace run.2) = handshake_topics "uuid".
Proof. by vm_compute. Qed.
