(* ===== verification/CaSchema.v ===== *)
(** * CaSchema: the rows the certificate authority stores

    The migrations type the columns only loosely (INTEGER, TEXT); what the program itself
    keeps to is stronger, and [db_typed] states it: device ids are unique, times are
    64-bit, every certificate and the node's identity expire one year after they were
    issued, and the revocation flag is a boolean. *)

From Stdlib Require Import ZArith Lia.
From stdpp Require Import base list strings gmap.
From S2P Require Import Prelude RustStr Types Env Demo Config Ca Brokerage Handshake Proxy.

Definition i64 (z : Z) : Prop := (- 2 ^ 63 <= z < 2 ^ 63)%Z.

Lemma wrap_i64_range z : i64 (wrap_i64 z).
Proof.
  unfold i64, wrap_i64. pose proof (Z.mod_pos_bound (z + 2 ^ 63) (2 ^ 64) ltac:(lia)). lia.
Qed.

(** Times of issue and expiry that belong together. *)
Definition validity (issued expires : Z) : Prop :=
  i64 issued /\ i64 expires /\ expires = wrap_i64 (issued + year).

Lemma validity_now (e : Z) : validity (wrap_i64 e) (wrap_i64 (wrap_i64 e + year)).
Proof. split; [apply wrap_i64_range|]. split; [apply wrap_i64_range|done]. Qed.

Definition row_typed (r : DeviceRow) : Prop :=
  validity (dr_issued_at r) (dr_expires_at r) /\ (dr_revoked r = 0%Z \/ dr_revoked r = 1%Z).

Definition node_typed (r : NodeRow) : Prop := validity (nr_issued_at r) (nr_expires_at r).

Record db_typed (d : CaDb) : Prop := {
  ty_unique : NoDup (dr_device_id <$> device_certs d);
  ty_rows : Forall row_typed (device_certs d);
  ty_node r : node_identity d = Some r -> node_typed r;
}.

Lemma upsert_typed row rows : row_typed row -> Forall row_typed rows -> Forall row_typed (upsert_device row rows).
Proof.
  intros Hr. induction rows as [|x rows IH]; [intros _; by apply Forall_singleton|].
  intros [Hx Hf]%Forall_cons. unfold upsert_device; fold upsert_device. case_decide; constructor; auto.
Qed.

Lemma revoke_typed d rows : Forall row_typed rows -> Forall row_typed (revoke_device d rows).1.
Proof.
  intros Hf. apply Forall_fmap. eapply Forall_impl; [exact Hf|]. intros x [Hv Hr].
  unfold set_revoked, compose. case_decide; [|done]. split; [done|]. by right.
Qed.

Section Schema.
Context {X : Ext}.
Implicit Types (w : CaWorld) (e : Env).

(** The three ways an operation can change the database. *)
Inductive db_change (d : CaDb) : CaDb -> Prop :=
| dc_same keys : db_change d (mkDb keys (device_certs d) (node_identity d))
| dc_upsert row : row_typed row -> db_change d (set_device_certs (upsert_device row (device_certs d)) d)
| dc_revoke id : db_change d (set_device_certs (revoke_device id (device_certs d)).1 d)
| dc_node row : node_typed row -> db_change d (set_node_identity row d).

Lemma db_change_refl d : db_change d d.
Proof. destruct d as [keys certs node]. apply (dc_same (mkDb keys certs node) keys). Qed.

Lemma db_change_typed d d' : db_change d d' -> db_typed d -> db_typed d'.
Proof.
  intros Hc [Hu Hr Hn]. destruct Hc as [keys|row Hrow|id|row Hrow]; split; cbn; try done.
  - by apply upsert_ids.
  - by apply upsert_typed.
  - by rewrite revoke_ids.
  - by apply revoke_typed.
  - by intros r [= <-].
Qed.

#[local] Ltac run := unfold ca_register, init, load_or_generate_ca, load_ca_from_db,
  generate_and_persist_ca, loaded_ca, with_db, set_ca_state, operations_sign_csr,
  generate_node_identity, unix_now; run_prog.

#[local] Ltac same := first [apply db_change_refl | apply dc_same].

Lemma sign_change d csr w e : db_change (db w) (db (sign_csr d csr w e).1.2).
Proof.
  unfold sign_csr. run. destruct (ca_state w) as [ca|]; cbn; [|same].
  destruct (csr_from_pem csr); run_prog; [|same]. case_answer; run_prog; [|same].
  case_answer; run_prog; [same|]. apply dc_upsert. split; [apply validity_now|by left].
Qed.

Lemma node_change w e : db_change (db w) (db (ensure_node_identity w e).1.2).
Proof.
  unfold ensure_node_identity. run. case_answer; run_prog; [same|].
  destruct (node_identity (db w)) eqn:Hn; run_prog; [same|].
  destruct (ca_state w) as [ca|]; cbn; [|same]. run_prog. case_answer; run_prog; [|same].
  case_answer; run_prog; [|same]. case_answer; run_prog; [same|]. rewrite Hn. run_prog.
  apply dc_node. apply validity_now.
Qed.

Lemma register_change url w e : db_change (db w) (db (ca_register url w e).1.2).
Proof.
  run. case_answer; run_prog; [|same]. case_answer; run_prog; [|same]. case_answer; run_prog; [same|].
  case_answer; run_prog; [same|]. destruct (ca_keys (db w)) as [[c k]|] eqn:Hk; run_prog.
  - destruct (keypair_from_pem k); run_prog; [|same]. destruct (params_from_ca_cert_pem c); run_prog; [|same].
    case_answer; run_prog; same.
  - case_answer; run_prog; [|same]. case_answer; run_prog; [|same]. case_answer; run_prog; [same|].
    rewrite Hk. run_prog. same.
Qed.

Lemma revoke_change d w e : db_change (db w) (db (revoke d w e).1.2).
Proof.
  unfold revoke. run. case_answer; run_prog; [same|].
  pose proof (dc_revoke (db w) d) as H. destruct (revoke_device d (device_certs (db w))) as [rows n].
  cbn in H |- *. case_decide; run_prog; exact H.
Qed.

Lemma op_change o w e : db_change (db w) (db (run_ca_op o w e).1.2).
Proof.
  destruct o; cbn [run_ca_op]; unfold answer, mbind, prog_bind.
  - pose proof (register_change db_url w e). by destruct (ca_register db_url w e) as [[r w'] e'].
  - pose proof (sign_change device_id csr_pem w e). by destruct (sign_csr device_id csr_pem w e) as [[r w'] e'].
  - pose proof (revoke_change device_id w e). by destruct (revoke device_id w e) as [[r w'] e'].
  - unfold get_cert. run. case_answer; run_prog; same.
  - unfold is_revoked. run. case_answer; run_prog; same.
  - unfold list_devices. run. case_answer; run_prog; same.
  - pose proof (node_change w e). by destruct (ensure_node_identity w e) as [[r w'] e'].
  - assert (Hs : stateless (generate_broker_cert san_ips san_hostnames)).
    { unfold generate_broker_cert, generate_broker_identity, loaded_ca. stateless. }
    specialize (Hs w e). destruct (generate_broker_cert _ _ w e) as [[r w'] e']. cbn in *. subst w'. same.
  - unfold ca_cert_pem. run. destruct (ca_state w); cbn; same.
Qed.

(** C19: the database of the certificate authority is well typed in every state the program can
    bring it to: from a well-typed database (an empty one is) every sequence of operations,
    whatever fails on the way, leads to a well-typed one. *)
Theorem operations_keep_db_typed os w e : db_typed (db w) -> db_typed (db (run_ca_ops os w e).1.2).
Proof.
  revert w e. induction os as [|o os IH]; intros w e Hw; [done|].
  cbn [run_ca_ops]. unfold mbind, prog_bind, mret, prog_ret.
  pose proof (db_change_typed _ _ (op_change o w e) Hw) as H1.
  destruct (run_ca_op o w e) as [[r w1] e1]. specialize (IH w1 e1 H1).
  by destruct (run_ca_ops os w1 e1) as [[rs w2] e2].
Qed.
End Schema.

Lemma empty_db_typed : db_typed empty_db.
Proof. split; [constructor|constructor|done]. Qed.

(** ** A concrete run *)

Lemma operations_keep_db_typed_witness :
  let w := (run_ca_ops [OpRegister "sqlite:ca.db"; OpSign "hub" "csr"; OpRevoke "hub"; OpNodeIdentity]
              demo_world demo_env).1.2 in
  db_typed (db w) /\ (dr_revoked <$> device_certs (db w)) = [1%Z] /\ is_Some (node_identity (db w)).
Proof.
  split; [|split].
  - exact (operations_keep_db_typed _ demo_world demo_env empty_db_typed).
  - vm_compute. reflexivity.
  - vm_compute. eexists. reflexivity.
Defined.
