(* ===== verification/Peer.v ===== *)
(** * Peer: messages to another node (services/peer/peer_service.rs)

    [send_message] posts a plain-text message to a peer.  hyper parses the URL, keeps
    the connection and carries the request; its verdicts are answers of the outside
    world.  At the other end the request meets the peer's own [dispatch]
    (Handshake.v). *)

From Stdlib Require Import ZArith Lia.
From stdpp Require Import base list strings gmap.
From S2P Require Import Prelude RustStr Types Env Demo Config Ca Brokerage Handshake.

Section Peer.
Context {X : Ext}.

Definition peer_request (host : string) (port : Z) (target message : string) : HttpRequest := {|
  req_line := "POST " +:+ target +:+ " HTTP/1.1";
  req_headers := [("host", bytes_of_string (host +:+ ":" +:+ display port));
                  ("content-type", bytes_of_string "text/plain")];
  req_body := Ok (bytes_of_string message) |}.

Definition send_message {S} (base_url message : string) : Prog S (result unit string) :=
  url ←? with_context "Invalid peer URL: " (mret (uri_parse (base_url +:+ "/peer/message")));
  host ←? mret (ok_or "Peer URL has no host" (uri_host url));
  let port := default 80%Z (uri_port url) in
  let addr := host +:+ ":" +:+ display port in
  _ ←? with_context ("Failed to connect to peer " +:+ addr +:+ ": ") (call (TcpConnectAddr addr));
  _ ←? with_context "HTTP handshake failed: " (call HttpHandshake);
  _ ← call (Spawn UpstreamConnection);
  let target := default "/peer/message" (uri_path_and_query url) in
  _ ←? with_context "Failed to build request: " (mret (request_valid target addr));
  response ←? with_context "Failed to send request to peer: "
                (call (SendRequest (peer_request host port target message)));
  let status := resp_status response in
  body_bytes ←? with_context "Failed to read peer response body: " (call CollectBody);
  if status_is_success status then mret (Ok tt)
  else mret (Err ("Peer returned " +:+ status_display status +:+ " — " +:+ from_utf8_lossy body_bytes)).

(** ** Properties *)

(** What a trace put on the network: connections, requests, TLS handshakes. *)
Inductive NetEvent :=
| NetConnect (addr : string) (ok : bool)
| NetRequest (req : HttpRequest) (answer : result HttpResponse string)
| NetTls.

Definition network (ev : Event) : option NetEvent :=
  match ev with
  | Ev c y => match c in Call Y return Y -> option NetEvent with
              | TcpConnectAddr a => fun r => Some (NetConnect a (is_ok r))
              | TcpConnect h p => fun r => Some (NetConnect (h +:+ ":" +:+ display p) (is_ok r))
              | SendRequest req => fun r => Some (NetRequest req r)
              | TlsConnect _ => fun _ => Some NetTls
              | _ => fun _ => None
              end y
  end.

(** How an attempt can end: with nothing on the network, after a failed connection, before
    the request, or with it. *)
Inductive peer_attempt (base_url message : string) : list NetEvent -> result unit string -> Prop :=
| pa_no_address err : peer_attempt base_url message [] (Err err)
| pa_unreachable addr err : peer_attempt base_url message [NetConnect addr false] (Err err)
| pa_unsent addr err : peer_attempt base_url message [NetConnect addr true] (Err err)
| pa_sent url host answer r :
    uri_parse (base_url +:+ "/peer/message") = Ok url -> uri_host url = Some host ->
    let port := default 80%Z (uri_port url) in
    let target := default "/peer/message" (uri_path_and_query url) in
    (r = Ok tt -> exists resp, answer = Ok resp /\ status_is_success (resp_status resp) = true) ->
    peer_attempt base_url message
      [NetConnect (host +:+ ":" +:+ display port) true;
       NetRequest (peer_request host port target message) answer] r.

(** Sending to a peer opens at most one connection, in plain text and to the host and
    port of the URL (80 when it names none), and sends at most one request on it: a POST
    of the message to the URL's path.  It succeeds only when the peer's answer has a
    success status; an unusable URL, a refused connection and every failure on the
    way are errors, after which nothing more is sent. *)
Theorem send_message_attempts {S} base_url message (s : S) e :
  let '(r, s', e') := send_message base_url message s e in
  s' = s /\ exists evs, omap network (trace e') = omap network (trace e) ++ evs /\
    peer_attempt base_url message evs r.
Proof.
  unfold send_message. run_prog. destruct (uri_parse _) as [url|err] eqn:Hu; run_prog.
  2: { split; [done|]. exists []. rewrite app_nil_r. split; [done|constructor]. }
  destruct (uri_host url) as [host|] eqn:Hh; run_prog.
  2: { split; [done|]. exists []. rewrite app_nil_r. split; [done|constructor]. }
  set (addr := host +:+ ":" +:+ display (default 80%Z (uri_port url))).
  case_answer; run_prog; [|split; [done|]; exists [NetConnect addr false]; rewrite omap_app;
    split; [done|constructor]].
  case_answer; run_prog; [|split; [done|]; exists [NetConnect addr true]; rewrite !omap_app;
    split; [by rewrite !app_nil_r|constructor]].
  destruct (request_valid _ addr); run_prog; [|split; [done|]; exists [NetConnect addr true];
    rewrite !omap_app; split; [by rewrite !app_nil_r|constructor]].
  set (req := peer_request host _ _ message).
  set (answer := oracle e _ (SendRequest req) _).
  assert (Hsent : forall r, (r = Ok tt -> exists resp, answer = Ok resp /\
      status_is_success (resp_status resp) = true) ->
    peer_attempt base_url message [NetConnect addr true; NetRequest req answer] r).
  { intros r Hr. by apply (pa_sent _ _ url host). }
  destruct answer as [resp|err] eqn:Ha; run_prog.
  2: { split; [done|]. exists [NetConnect addr true; NetRequest req (Err err)]. rewrite !omap_app.
       split; [by rewrite <- !app_assoc|by apply Hsent]. }
  case_answer; run_prog; [destruct (status_is_success (resp_status resp)) eqn:Hs; run_prog|];
    (split; [done|]); exists [NetConnect addr true; NetRequest req (Ok resp)]; rewrite !omap_app;
    (split; [by rewrite <- !app_assoc|apply Hsent; naive_solver]).
Qed.

(** C39: at the receiving node a peer's message, whatever its text, is none of the node's own
    requests: it is forwarded as it is to the local application, and the answer is that
    application's, or 502.  The node's certificates stay as they are and no topic is
    registered. *)
Theorem peer_message_is_forwarded state host port target message w e :
  let req := peer_request host port target message in
  let upstream := "127.0.0.1:" +:+ display (as_upstream_port state) in
  let '(resp, w', e') := dispatch state req w e in
  w' = w /\ omap offered (trace e') = omap offered (trace e) /\
  exists evs, omap network (trace e') = omap network (trace e) ++ evs /\
    ((resp = text_response 502 "Bad Gateway" /\
      (evs = [NetConnect upstream false] \/ evs = [NetConnect upstream true] \/
       exists err, evs = [NetConnect upstream true; NetRequest req (Err err)])) \/
     evs = [NetConnect upstream true; NetRequest req (Ok resp)]).
Proof.
  cbn zeta. unfold dispatch. set (req := peer_request host port target message).
  assert (Hno : contains_key HEADER_HEALTH req = false /\ contains_key HEADER_INIT req = false /\
                contains_key HEADER_REGISTER req = false) by done.
  destruct Hno as (-> & -> & ->). unfold try_forward. run_prog.
  repeat (case_answer; run_prog); (split; [done|]); rewrite !omap_app;
    (split; [by rewrite !app_nil_r|]); eexists; rewrite <- ?app_assoc; (split; [done|]); naive_solver.
Qed.
End Peer.

(** ** A concrete message *)

Example demo_message_sent :
  let '(r, _, e') := send_message "http://peer" "hello" tt demo_env in
  r = Ok tt /\ omap network (trace e') =
    [NetConnect "peer:80" true;
     NetRequest (peer_request "peer" 80 "/peer/message" "hello")
       (Ok {| resp_status := 200; resp_content_type := None; resp_body := [] |})].
Proof. by vm_compute. Qed.
