(* ===== verification/Gateway.v ===== *)
(** * Gateway: the HTTP(S) listener as a managed service (beacon_management)

    gateway_service.rs, internals/tls.rs, tasks.rs and [build_brokerage_info] of
    manager.rs.  The CA a service shares is read only after the application has
    initialised it, so the service holds the CA itself.  Serving a connection is
    hyper's business: each request it reads goes to [dispatch] of Handshake.v. *)

From Stdlib Require Import ZArith Lia.
From stdpp Require Import base list strings gmap.
From S2P Require Import Prelude RustStr Types Env Demo Supervisor Config Ca Brokerage Handshake.

(** [iter.collect::<Result<Vec<_>, _>>()] *)
Fixpoint collect {A E} (l : list (result A E)) : result (list A) E :=
  match l with
  | [] => Ok []
  | Err e :: _ => Err e
  | Ok a :: l => match collect l with Ok r => Ok (a :: r) | Err e => Err e end
  end.

Definition build_brokerage_info (config : MqttBrokerageConfig) (ca_cert_pem : string) : MqttBrokerageInfo :=
  {| bi_address := "localhost";
     bi_port := if mb_tls_enabled config then mb_mqtts_port config else mb_port config;
     bi_ca_cert_pem := ca_cert_pem |}.

(** What the accept loop's [select!] delivers. *)
Inductive AcceptEvent :=
| Accepted (peer : string)
| AcceptError (e : string)
| AcceptShutdown.

(** The connections the loop hands to a task of their own. *)
Fixpoint accept_loop (evs : list AcceptEvent) : list string :=
  match evs with
  | [] => []
  | Accepted peer :: evs => peer :: accept_loop evs
  | AcceptError _ :: evs => accept_loop evs
  | AcceptShutdown :: _ => []
  end.

Section Gateway.
Context {X : Ext}.

Record GatewayService := mkGateway {
  gw_config : HttpConfig;
  gw_ca : option CaState;
  gw_brokerage_info : MqttBrokerageInfo;
  gw_brokerage : option MqttBrokerageConfig;
  gw_beacon_topic_tx : option unit;
  gw_shutdown_tx : option unit;
}.

Definition GatewayService_new (config : HttpConfig) (ca : option CaState) (info : MqttBrokerageInfo)
    (brokerage : option MqttBrokerageConfig) (beacon_topic_tx : option unit) : GatewayService :=
  mkGateway config ca info brokerage beacon_topic_tx None.

Definition set_gw_shutdown (tx : option unit) (s : GatewayService) : GatewayService :=
  mkGateway (gw_config s) (gw_ca s) (gw_brokerage_info s) (gw_brokerage s) (gw_beacon_topic_tx s) tx.

(** tls.rs: the server presents the CA certificate itself. *)
Definition build_tls_config {S} (ca : option CaState) : Prog S (result unit string) :=
  ca_state ←? mret (ok_or "CA not initialised" ca);
  certs ← call (PemCerts (bytes_of_string (cert_pem (Ca.ca_cert ca_state))));
  cert_chain ←? mret (map_err (fun e => "Failed to parse CA cert PEM: " +:+ e) (collect certs));
  pkcs8 ← call (Pkcs8Keys (bytes_of_string (serialize_pem (key_pair ca_state))));
  keys ←? mret (map_err (fun e => "Failed to parse CA private key PEM: " +:+ e) (collect pkcs8));
  raw ←? mret (ok_or "No PKCS8 private key found in CA PEM" (head keys));
  with_context "Failed to build TLS server config: " (call (SingleCertConfig cert_chain raw)).

(** The state the request handlers get, and the address listened on. *)
Definition app_state (s : GatewayService) : AppState := {|
  as_brokerage_info := gw_brokerage_info s; as_brokerage := gw_brokerage s;
  as_upstream_port := http_upstream_port (gw_config s); as_beacon_topic_tx := gw_beacon_topic_tx s |}.

Definition gateway_initialize : Prog GatewayService (result string string) :=
  s ← get;
  let addr := http_host (gw_config s) +:+ ":" +:+ display (http_port (gw_config s)) in
  _ ←? with_context ("Failed to bind listener on " +:+ addr +:+ ": ") (call (TcpBind addr));
  local_addr ←? with_context "Failed to get local address: " (call (TcpLocalAddr addr));
  mret (Ok local_addr).

Definition gateway_start : Prog GatewayService (result Z string) :=
  s ← get;
  match gw_shutdown_tx s with
  | Some _ => mret (Err "GatewayService is already running")
  | None =>
      local_addr ←? gateway_initialize;
      _ ← modify (set_gw_shutdown (Some tt));
      if http_tls_enabled (gw_config s) then
        _ ←? build_tls_config (gw_ca s);
        _ ← call (Spawn (TlsAcceptLoop local_addr));
        mret (Ok 0%Z)
      else
        _ ← call (Spawn (PlainAcceptLoop local_addr));
        mret (Ok 0%Z)
  end.

Definition gateway_stop : Prog GatewayService (result unit string) :=
  s ← get;
  match gw_shutdown_tx s with
  | Some _ => _ ← modify (set_gw_shutdown None); _ ← call SignalShutdown; mret (Ok tt)
  | None => mret (Err "GatewayService is not running")
  end.

Definition gateway_is_running : Prog GatewayService bool :=
  s ← get; mret (bool_decide (is_Some (gw_shutdown_tx s))).

#[export] Instance gateway_service : ManagedService GatewayService := {|
  svc_start := gateway_start; svc_stop := gateway_stop; svc_is_running := gateway_is_running |}.

(** ** Properties *)

(** The accept loops a trace spawned. *)
Definition listeners (ev : Event) : option Task :=
  match ev with
  | Ev c _ => match c with Spawn (TlsAcceptLoop a) => Some (TlsAcceptLoop a)
                         | Spawn (PlainAcceptLoop a) => Some (PlainAcceptLoop a) | _ => None end
  end.

Lemma build_tls_config_silent {S} ca : silent listeners (build_tls_config (S := S) ca).
Proof. unfold build_tls_config. silence. Qed.

Lemma build_tls_config_stateless {S} ca : stateless (build_tls_config (S := S) ca).
Proof. unfold build_tls_config. stateless. Qed.

(** How a start that finds the service stopped can end. *)
Lemma gateway_start_cases (s : GatewayService) e :
  gw_shutdown_tx s = None ->
  let '(r, s', e') := gateway_start s e in
  match r with
  | Ok _ => s' = set_gw_shutdown (Some tt) s /\
      exists a, omap listeners (trace e') = omap listeners (trace e) ++
        [if http_tls_enabled (gw_config s) then TlsAcceptLoop a else PlainAcceptLoop a]
  | Err _ => (s' = s \/ s' = set_gw_shutdown (Some tt) s /\ http_tls_enabled (gw_config s) = true) /\
      omap listeners (trace e') = omap listeners (trace e)
  end.
Proof.
  intros Hs. unfold gateway_start, gateway_initialize. run_prog. rewrite Hs. run_prog.
  case_answer; run_prog; [|split; [by left|by rewrite omap_app, app_nil_r]].
  case_answer; run_prog; [|split; [by left|by rewrite !omap_app, !app_nil_r]].
  destruct (http_tls_enabled (gw_config s)) eqn:Ht; run_prog.
  - match goal with |- context [build_tls_config (gw_ca s) ?s1 ?e1] =>
      pose proof (build_tls_config_silent (gw_ca s) s1 e1) as Hq;
      pose proof (build_tls_config_stateless (gw_ca s) s1 e1) as Hl;
      destruct (build_tls_config (gw_ca s) s1 e1) as [[[u|err] s2] e2] end;
      cbn in Hl; subst s2; cbn [trace snd] in Hq; run_prog.
    + split; [done|]. exists a0. rewrite omap_app, Hq, !omap_app. by rewrite !app_nil_r.
    + split; [right; by split|]. rewrite Hq, !omap_app. by rewrite !app_nil_r.
  - split; [done|]. exists a0. by rewrite !omap_app, !app_nil_r.
Qed.

(** A successful start opens exactly one listener, of the configured kind, and the
    service then counts as running; a failed start opens none; a second start fails
    and changes nothing.  But a start that fails on the TLS configuration leaves the
    service marked as running although nothing listens. *)
Theorem gateway_start_opens_listener (s : GatewayService) e :
  let '(r, s', e') := gateway_start s e in
  match gw_shutdown_tx s, r with
  | Some _, _ => r = Err "GatewayService is already running" /\ s' = s /\ e' = e
  | None, Ok _ => gw_shutdown_tx s' = Some tt /\ exists a,
      omap listeners (trace e') = omap listeners (trace e) ++
        [if http_tls_enabled (gw_config s) then TlsAcceptLoop a else PlainAcceptLoop a]
  | None, Err _ => omap listeners (trace e') = omap listeners (trace e) /\
      (gw_shutdown_tx s' = Some tt -> http_tls_enabled (gw_config s) = true)
  end.
Proof.
  destruct (gw_shutdown_tx s) as [[]|] eqn:Hs.
  - unfold gateway_start. run_prog. rewrite Hs. by run_prog.
  - pose proof (gateway_start_cases s e Hs) as H. destruct (gateway_start s e) as [[[n|err] s'] e'].
    + by destruct H as [-> ?].
    + destruct H as [[->|[-> ?]] ?]; split; [done|congruence|done|done].
Qed.
End Gateway.
