(* ===== verification/Tasks.v ===== *)
(** * Tasks: how the background tasks end

    The program's long-lived tasks are loops around a [select!]; each model takes the list
    of what its [select!] delivered.  [ends] says that a stop signal ends a task for good:
    nothing that would have been delivered after it has any effect. *)

From Stdlib Require Import ZArith Lia.
From stdpp Require Import base list strings gmap.
From S2P Require Import Prelude RustStr Types Env Demo Supervisor Config MqttClient CloudGateway GatewayMqtt.
From S2P Require Import Handshake Gateway.

Section Ends.
Context {X : Ext} {S I A : Type}.

Definition ends (task : list I -> Prog S A) (stop : I) : Prop :=
  forall before after s e, task (before ++ stop :: after) s e = task (before ++ [stop]) s e.
End Ends.

Section Loops.
Context {X : Ext} {S I : Type} (step : I -> Prog S unit) (terminated : S -> Prop).
Hypothesis step_terminated : forall i s e, terminated s -> step i s e = (tt, s, e).

Lemma for_each_terminated inputs s e : terminated s -> for_each inputs step s e = (tt, s, e).
Proof.
  intros Hs. induction inputs as [|i inputs IH]; [done|]. cbn. unfold mbind, prog_bind.
  by rewrite step_terminated.
Qed.

(** A loop whose stop input always leads to a terminated state ends there. *)
Lemma for_each_ends stop :
  (forall s e, terminated (step stop s e).1.2) ->
  ends (fun inputs => for_each inputs step) stop /\
  forall before after s e, terminated (for_each (before ++ stop :: after) step s e).1.2.
Proof.
  intros Hstop.
  assert (H : forall before after s e,
    for_each (before ++ stop :: after) step s e = for_each (before ++ [stop]) step s e /\
    terminated (for_each (before ++ stop :: after) step s e).1.2).
  { induction before as [|i before IH]; intros after s e; cbn; unfold mbind, prog_bind.
    - specialize (Hstop s e). destruct (step stop s e) as [[[] s1] e1].
      by rewrite for_each_terminated.
    - destruct (step i s e) as [[u s1] e1]. apply IH. }
  split; intros before after s e; by destruct (H before after s e).
Qed.
End Loops.

Section Tasks.
Context {X : Ext}.
Implicit Types (e : Env).

Lemma ws_step_stops url :
  (forall i s e, ws_phase s = CloudGateway.Terminated -> ws_step url i s e = (tt, s, e)) /\
  (forall s e, ws_phase (ws_step url WsShutdown s e).1.2 = CloudGateway.Terminated).
Proof.
  unfold ws_step, mbind, prog_bind, get, set_ws, put, mret, prog_ret. split.
  - intros i s e ->. by destruct i.
  - intros s e. by destruct (ws_phase s) eqn:Hp.
Qed.

Lemma gm_step_stops config :
  (forall i s e, gm_phase s = GatewayMqtt.Terminated -> gm_step config i s e = (tt, s, e)) /\
  (forall s e, gm_phase (gm_step config GmShutdown s e).1.2 = GatewayMqtt.Terminated).
Proof.
  unfold gm_step, mbind, prog_bind, get. split.
  - intros i s e ->. by destruct i.
  - intros s e. by destruct (gm_phase s) eqn:Hp.
Qed.

Lemma eventloop_ends : ends eventloop_task LoopShutdown.
Proof.
  intros before after. induction before as [|ev before IH]; intros s e; [done|].
  cbn [app eventloop_task]. unfold mbind, prog_bind.
  destruct (eventloop_step ev s e) as [[[] s1] e1]; [apply IH|done].
Qed.

Lemma command_task_ends {S} ev :
  ev = CmdShutdown \/ ev = CmdReceived None -> ends (command_task (S := S)) ev.
Proof.
  intros Hev before after. induction before as [|[|[cmd|]] before IH]; intros s e; [by destruct Hev as [-> | ->]|done| |done].
  cbn [app command_task]. unfold mbind, prog_bind. destruct (run_command cmd s e) as [[r s1] e1]. by rewrite IH.
Qed.

Lemma accept_loop_ends before after : accept_loop (before ++ AcceptShutdown :: after) = accept_loop before.
Proof. induction before as [|[peer|err|] before IH]; cbn; [done|by rewrite IH|done|done]. Qed.

(** C18: every background task ends when it is told to: the two cloud gateway clients in every
    phase they can be in, whatever they went through before; the MQTT event loop; the
    command task, also when its channel is closed; and the accept loop, which hands out
    no connection after it.  What would have come later changes nothing. *)
Theorem background_tasks_end :
  (forall url, ends (ws_task url) WsShutdown /\
     forall before after s e, ws_phase (ws_task url (before ++ WsShutdown :: after) s e).1.2 = CloudGateway.Terminated) /\
  (forall config, ends (gm_task config) GmShutdown /\
     forall before after s e,
       gm_phase (gm_task config (before ++ GmShutdown :: after) s e).1.2 = GatewayMqtt.Terminated) /\
  ends eventloop_task LoopShutdown /\
  (forall S, ends (command_task (S := S)) CmdShutdown /\ ends (command_task (S := S)) (CmdReceived None)) /\
  (forall before after, accept_loop (before ++ AcceptShutdown :: after) = accept_loop before).
Proof.
  split; [|split; [|split; [|split]]].
  - intros url. destruct (ws_step_stops url) as [H1 H2].
    apply (for_each_ends (ws_step url) (fun s => ws_phase s = CloudGateway.Terminated)); [apply H1|apply H2].
  - intros config. destruct (gm_step_stops config) as [H1 H2].
    apply (for_each_ends (gm_step config) (fun s => gm_phase s = GatewayMqtt.Terminated)); [apply H1|apply H2].
  - apply eventloop_ends.
  - intros S. split; apply command_task_ends; auto.
  - apply accept_loop_ends.
Qed.
End Tasks.
