(* ===== verification/Services.v ===== *)
(** * Services: the services the supervisor runs, and their registration

    [Service] is the boxed trait object: one of the concrete services, each with its
    own [ManagedService] instance.  The managers' [register_onto] and [start_*]
    functions follow; a start request is answered by the supervisor's handler, the
    application being the only one to send commands. *)

From Stdlib Require Import ZArith Lia.
From stdpp Require Import base list strings gmap.
From S2P Require Import Prelude RustStr Types Env Demo Supervisor Config Capabilities Ca Brokerage MqttClient.
From S2P Require Import CloudGateway GatewayMqtt Handshake Gateway.

Section Services.
Context {X : Ext}.

(** [Box<dyn ManagedService>] *)
Inductive Service :=
| SvcGateway (s : GatewayService)
| SvcMosquitto (s : MosquittoBrokerageService)
| SvcMqttClient (s : MqttClientService)
| SvcCloudGateway (s : CloudGatewayService)
| SvcGatewayMqtt (s : GatewayMqttService).

(** A method of the concrete service, run on the boxed one. *)
Definition boxed {T A} (box : T -> Service) (m : Prog T A) (s : T) : Env -> A * Service * Env :=
  fun e => let '(a, s', e') := m s e in (a, box s', e').

#[export] Instance boxed_service : ManagedService Service := {|
  svc_start := fun svc => match svc with
    | SvcGateway s => boxed SvcGateway svc_start s
    | SvcMosquitto s => boxed SvcMosquitto svc_start s
    | SvcMqttClient s => boxed SvcMqttClient svc_start s
    | SvcCloudGateway s => boxed SvcCloudGateway svc_start s
    | SvcGatewayMqtt s => boxed SvcGatewayMqtt svc_start s end;
  svc_stop := fun svc => match svc with
    | SvcGateway s => boxed SvcGateway svc_stop s
    | SvcMosquitto s => boxed SvcMosquitto svc_stop s
    | SvcMqttClient s => boxed SvcMqttClient svc_stop s
    | SvcCloudGateway s => boxed SvcCloudGateway svc_stop s
    | SvcGatewayMqtt s => boxed SvcGatewayMqtt svc_stop s end;
  svc_is_running := fun svc => match svc with
    | SvcGateway s => boxed SvcGateway svc_is_running s
    | SvcMosquitto s => boxed SvcMosquitto svc_is_running s
    | SvcMqttClient s => boxed SvcMqttClient svc_is_running s
    | SvcCloudGateway s => boxed SvcCloudGateway svc_is_running s
    | SvcGatewayMqtt s => boxed SvcGatewayMqtt svc_is_running s end;
|}.

Definition register_service (id : ServiceId) (svc : Service) (available : bool)
  : Prog (Supervisor Service) unit := modify (register id svc available).

(** ** mqtt_brokerage/manager.rs *)

Definition register_mqtt_broker (capabilities : ServiceCapabilities) (cfg : MqttBrokerageConfig)
  : Prog (Supervisor Service) (bool * option MqttBrokerageConfig) :=
  let available := is_available capabilities "mosquitto" in
  let service := MosquittoBrokerageService_new (default "mosquitto" (binary_path capabilities "mosquitto"))
                   (binary_path capabilities "mosquitto_passwd") cfg in
  let handle := if available then Some cfg else None in
  let seed : Prog (Supervisor Service) unit := fun sup e =>
    let '(_, _, e') := set_password (mb_username cfg) (mb_password cfg) service e in (tt, sup, e') in
  _ ← (if available then
         _ ← write_config cfg;
         (if negb (mb_tls_enabled cfg) then seed else mret tt)
       else mret tt);
  _ ← register_service Mosquitto (SvcMosquitto service) available;
  mret (available, handle).

Definition start_service (id : ServiceId) : Prog (Supervisor Service) (result unit string) :=
  handle_start id.

Definition start_mosquitto_brokerage (mosquitto_available : bool) : Prog (Supervisor Service) unit :=
  if mosquitto_available then
    r ← start_service Mosquitto;
    match r with Ok _ => _ ← call (Sleep 500); mret tt | Err _ => mret tt end
  else mret tt.

(** ** beacon_management/manager.rs *)

Definition register_gateway (config : HttpConfig) (info : MqttBrokerageInfo)
    (brokerage : option MqttBrokerageConfig) (ca : option CaState) (beacon_topic_tx : option unit)
  : Prog (Supervisor Service) unit :=
  register_service Gateway (SvcGateway (GatewayService_new config ca info brokerage beacon_topic_tx)) true.

Definition start_gateway : Prog (Supervisor Service) unit :=
  _ ← start_service Gateway; mret tt.

(** ** mqtt_client/manager.rs *)

Definition register_mqtt_client (config : MqttClientConfig) (available : bool)
  : Prog (Supervisor Service) unit :=
  register_service MqttClient (SvcMqttClient (MqttClientService_new config)) available.

Definition start_mqtt_client (mosquitto_available : bool) : Prog (Supervisor Service) unit :=
  if mosquitto_available then _ ← start_service MqttClient; mret tt else mret tt.

(** ** cloud_gateway/manager.rs and gateway_mqtt/manager.rs: whether a handle is returned *)

Definition register_cloud_gateway (server_url : string) (gateway_url : option string)
  : Prog (Supervisor Service) bool :=
  match gateway_url with
  | None => mret false
  | Some url =>
      _ ← register_service CloudGateway (SvcCloudGateway (CloudGatewayService_new server_url url)) true;
      mret true
  end.

Definition start_cloud_gateway : Prog (Supervisor Service) unit :=
  _ ← start_service CloudGateway; mret tt.

Definition register_gateway_mqtt (cfg : GatewayRegistrationConfig) : Prog (Supervisor Service) bool :=
  match gateway_mqtt_config cfg with
  | None => mret false
  | Some config =>
      _ ← register_service GatewayMqttClient (SvcGatewayMqtt (GatewayMqttService_new config)) true;
      mret true
  end.

Definition start_gateway_mqtt : Prog (Supervisor Service) unit :=
  _ ← start_service GatewayMqttClient; mret tt.

(** ** Services that can be started once *)

(** The receiving half of its channel has been given away. *)
Definition consumed (svc : Service) : Prop :=
  match svc with
  | SvcMqttClient s => ms_cmd_rx s = None
  | SvcCloudGateway s => cg_outbound_rx s = None
  | SvcGatewayMqtt s => gs_outbound_rx s = None
  | _ => False
  end.

Lemma consumed_start svc e :
  consumed svc -> let '(r, svc', _) := svc_start svc e in is_ok r = false /\ consumed svc'.
Proof.
  destruct svc as [s|s|s|s|s]; cbn; try done; intros Hs; unfold boxed.
  - destruct (start_consumed s e Hs) as [H1 H2]. by destruct (mqtt_start s e) as [[??]?].
  - unfold cloud_start. run_prog. rewrite Hs. by run_prog.
  - unfold gm_start. run_prog. rewrite Hs. by run_prog.
Qed.

Lemma consumed_stop svc e :
  consumed svc -> let '(r, svc', _) := svc_stop svc e in consumed svc'.
Proof.
  destruct svc as [s|s|s|s|s]; cbn; try done; intros Hs; unfold boxed.
  - pose proof (stop_keeps_cmd_rx s e) as H. destruct (mqtt_stop s e) as [[??]?]. cbn in *. congruence.
  - unfold cloud_stop. run_prog. by destruct (cg_shutdown_tx s).
  - unfold gm_stop. run_prog. by destruct (gs_shutdown_tx s).
Qed.

Definition spent (id : ServiceId) (s : Supervisor Service) : Prop :=
  wf s /\ exists svc, services s !! id = Some svc /\ consumed svc.

Lemma spent_other id id' (s s' : Supervisor Service) :
  id' <> id -> only_at id' s s' -> wf s' -> spent id s -> spent id s' /\ statuses s' !! id = statuses s !! id.
Proof.
  intros Hne (Ho & _ & _) Hw [_ (svc & Hsvc & Hc)]. destruct (Ho id) as [H1 H2]; [done|].
  split; [|done]. split; [done|]. exists svc. by rewrite H1.
Qed.

Lemma spent_start id (s : Supervisor Service) e :
  spent id s ->
  let '(r, s', _) := handle_start id s e in
  spent id s' /\ is_ok r = false /\
  (is_running_status (statuses s !! id) = false -> is_running_status (statuses s' !! id) = false).
Proof.
  intros [Hw (svc & Hsvc & Hc)]. pose proof (handle_start_steps id s e Hw) as Hst.
  rewrite handle_start_eq in * by done. destruct (wf_lookup s id Hw) as [Hd _].
  destruct Hd as [st Hs]; [eauto|]. rewrite Hs, Hsvc in *. destruct (startable st).
  - pose proof (consumed_start svc e Hc) as H.
    destruct (svc_start svc e) as [[[pid|err] svc'] e']; destruct H as [Hr Hc']; [done|].
    destruct Hst as [Hw' _]. split; [split; [done|]|].
    + exists svc'. split; [apply lookup_insert_eq|done].
    + split; [done|]. intros _. cbn. by rewrite lookup_insert_eq.
  - split; [by split; [|eauto]|]. split; [done|]. by rewrite Hs.
Qed.

Lemma spent_stop id (s : Supervisor Service) e :
  spent id s ->
  let '(_, s', _) := handle_stop id s e in
  spent id s' /\
  (is_running_status (statuses s !! id) = false -> is_running_status (statuses s' !! id) = false).
Proof.
  intros [Hw (svc & Hsvc & Hc)]. pose proof (handle_stop_steps id s e Hw) as Hst.
  rewrite handle_stop_eq in * by done. destruct (wf_lookup s id Hw) as [Hd _].
  destruct Hd as [st Hs]; [eauto|]. rewrite Hs, Hsvc in *. destruct (stoppable st).
  - pose proof (consumed_stop svc e Hc) as Hc'.
    destruct (svc_stop svc e) as [[[u|err] svc'] e']; destruct Hst as [Hw' _].
    + split; [split; [done|]; exists svc'; split; [apply lookup_insert_eq|done]|].
      intros _. cbn. by rewrite lookup_insert_eq.
    + split; [split; [done|]; exists svc'; split; [apply lookup_insert_eq|done]|].
      cbn. by rewrite Hs.
  - split; [by split; [|eauto]|]. by rewrite Hs.
Qed.

Lemma wf_serve cmds (s : Supervisor Service) e : wf s -> wf (serve cmds s e).1.2.
Proof.
  intros Hs. pose proof (serve_ind wf (fun _ _ => True)) as H.
  specialize (fun Hp => H Hp cmds s e Hs). destruct (serve cmds s e) as [[rs s'] e'].
  apply H. clear. intros cmd s e Hs. pose proof (process_steps cmd s e Hs) as H.
  destruct (process cmd s e) as [[r s'] e']. by destruct H.
Qed.

(** The commands that start [id]. *)
Definition starts_id (id : ServiceId) (c : SupervisorCommand) : Prop := c = Start id \/ c = Restart id.

(** A service that has given its channel away answers a start or restart with an error, and
    does not begin to run, whatever the command. *)
Lemma process_spent id c (s : Supervisor Service) e :
  spent id s ->
  let '(r, s', _) := process c s e in
  spent id s' /\ (starts_id id c -> exists err, r = Done (Err err)) /\
  (is_running_status (statuses s !! id) = false -> is_running_status (statuses s' !! id) = false).
Proof.
  intros Hsp. destruct (decide (target c = Some id)) as [Ht|Ht].
  - assert (Herr : forall (r : result unit string), is_ok r = false -> exists err, Done r = Done (Err err))
      by (intros []; naive_solver).
    destruct c as [i|i|i|]; cbn in Ht; [injection Ht as ->..|done]; cbn; unfold fmap, prog_fmap.
    + pose proof (spent_start id s e Hsp) as H. destruct (handle_start id s e) as [[r s2] e2]. naive_solver.
    + pose proof (spent_stop id s e Hsp) as H. destruct (handle_stop id s e) as [[r s2] e2].
      destruct H as [H1 H2]. split; [done|]. split; [by intros [|]|done].
    + unfold handle_restart, mbind, prog_bind, get, mret, prog_ret.
      destruct (is_running_status (statuses s !! id)) eqn:Hr.
      * pose proof (spent_stop id s e Hsp) as H. destruct (handle_stop id s e) as [[r s2] e2].
        destruct H as [H1 _]. pose proof (spent_start id s2 e2 H1) as H.
        destruct (handle_start id s2 e2) as [[r3 s3] e3]. naive_solver.
      * pose proof (spent_start id s e Hsp) as H. destruct (handle_start id s e) as [[r s2] e2].
        rewrite Hr in H. naive_solver.
  - pose proof (process_steps c s e (proj1 Hsp)) as H.
    destruct (process c s e) as [[r s2] e2]. destruct H as (Hw & _ & H).
    destruct (target c) as [i|] eqn:Hc.
    + destruct H as (r' & _ & _ & Ho & _).
      destruct (spent_other id i s s2) as [H1 H2]; [congruence|done|done|done|].
      split; [done|]. rewrite H2. split; [intros [-> | ->]; cbn in Hc; congruence|done].
    + destruct H as [_ ->]. split; [done|]. split; [intros [-> | ->]; cbn in Hc; congruence|done].
Qed.

(** So it is once and for all. *)
Lemma serve_spent id cmds (s : Supervisor Service) e :
  spent id s ->
  let '(rs, s', _) := serve cmds s e in
  Forall2 (fun c r => starts_id id c -> exists err, r = Done (Err err)) cmds rs /\
  (is_running_status (statuses s !! id) = false -> is_running_status (statuses s' !! id) = false).
Proof.
  intros Hs0. pose proof (serve_ind
    (fun s' => spent id s' /\ (is_running_status (statuses s !! id) = false ->
                               is_running_status (statuses s' !! id) = false))
    (fun c r => starts_id id c -> exists err, r = Done (Err err))) as H.
  specialize (fun Hp => H Hp cmds s e (conj Hs0 (fun h => h))).
  destruct (serve cmds s e) as [[rs s'] e']. destruct H as [[_ Hrun] HF]; [|done].
  intros c s1 e1 [Hsp Hr1]. pose proof (process_spent id c s1 e1 Hsp) as H.
  destruct (process c s1 e1) as [[r s2] e2]. naive_solver.
Qed.

(** *** A start that succeeds gives the channel away *)

(** The services that have a channel to give away. *)
Definition one_shot (svc : Service) : Prop :=
  match svc with SvcMqttClient _ | SvcCloudGateway _ | SvcGatewayMqtt _ => True | _ => False end.

Lemma one_shot_start svc e :
  one_shot svc ->
  let '(r, svc', _) := svc_start svc e in one_shot svc' /\ (is_ok r = true -> consumed svc').
Proof.
  destruct svc as [s|s|s|s|s]; cbn; try done; intros _; unfold boxed.
  - pose proof (start_gives_cmd_rx_away s e) as H. by destruct (mqtt_start s e) as [[??]?].
  - unfold cloud_start. run_prog. destruct (cg_outbound_rx s) eqn:Hs; by run_prog.
  - unfold gm_start. run_prog. destruct (gs_outbound_rx s) eqn:Hs; by run_prog.
Qed.

Lemma one_shot_stop svc e : one_shot svc -> let '(_, svc', _) := svc_stop svc e in one_shot svc'.
Proof.
  destruct svc as [s|s|s|s|s]; cbn; try done; intros _; unfold boxed.
  - by destruct (mqtt_stop s e) as [[??]?].
  - by destruct (cloud_stop s e) as [[??]?].
  - by destruct (gm_stop s e) as [[??]?].
Qed.

(** A well-formed supervisor whose service [id] is one of them. *)
Definition holds_one_shot (id : ServiceId) (s : Supervisor Service) : Prop :=
  wf s /\ exists svc, services s !! id = Some svc /\ one_shot svc.

Lemma holds_start id s e :
  holds_one_shot id s ->
  let '(r, s', _) := handle_start id s e in holds_one_shot id s' /\ (r = Ok tt -> spent id s').
Proof.
  intros [Hw (svc & Hsvc & Ho)]. pose proof (handle_start_steps id s e Hw) as Hst.
  rewrite handle_start_eq in * by done. destruct (wf_lookup s id Hw) as [Hd _].
  destruct Hd as [st Hs]; [eauto|]. rewrite Hs, Hsvc in *. destruct (startable st).
  - pose proof (one_shot_start svc e Ho) as H.
    destruct (svc_start svc e) as [[[pid|err] svc'] e']; destruct H as [Ho' Hc], Hst as [Hw' _];
      (split; [split; [done|]; exists svc'; split; [apply lookup_insert_eq|done]|]); [|done].
    intros _. split; [done|]. exists svc'. split; [apply lookup_insert_eq|by apply Hc].
  - split; [split; [done|eauto]|done].
Qed.

Lemma holds_stop id s e : holds_one_shot id s -> holds_one_shot id (handle_stop id s e).1.2.
Proof.
  intros [Hw (svc & Hsvc & Ho)]. pose proof (handle_stop_steps id s e Hw) as Hst.
  rewrite handle_stop_eq in * by done. destruct (wf_lookup s id Hw) as [Hd _].
  destruct Hd as [st Hs]; [eauto|]. rewrite Hs, Hsvc in *. destruct (stoppable st); [|split; [done|eauto]].
  pose proof (one_shot_stop svc e Ho) as H. destruct (svc_stop svc e) as [[[u|err] svc'] e']; destruct Hst as [Hw' _];
    (split; [done|]; exists svc'; split; [apply lookup_insert_eq|done]).
Qed.

Lemma process_one_shot id c s e :
  holds_one_shot id s ->
  let '(r, s', _) := process c s e in
  holds_one_shot id s' /\ (starts_id id c -> r = Done (Ok tt) -> spent id s').
Proof.
  intros Hh. destruct (decide (target c = Some id)) as [Ht|Ht].
  - destruct c as [i|i|i|]; cbn in Ht; [injection Ht as ->..|done]; cbn; unfold fmap, prog_fmap.
    + pose proof (holds_start id s e Hh) as H. destruct (handle_start id s e) as [[r s1] e1].
      destruct H as [H1 H2]. split; [done|]. intros _ [= ->]. by apply H2.
    + pose proof (holds_stop id s e Hh) as H. destruct (handle_stop id s e) as [[r s1] e1].
      split; [done|]. by intros [|].
    + unfold handle_restart, mbind, prog_bind, get, mret, prog_ret.
      destruct (is_running_status (statuses s !! id)).
      * pose proof (holds_stop id s e Hh) as H. destruct (handle_stop id s e) as [[r s1] e1].
        pose proof (holds_start id s1 e1 H) as H'. destruct (handle_start id s1 e1) as [[r2 s2] e2].
        destruct H' as [H1 H2]. split; [done|]. intros _ [= ->]. by apply H2.
      * pose proof (holds_start id s e Hh) as H. destruct (handle_start id s e) as [[r s1] e1].
        destruct H as [H1 H2]. split; [done|]. intros _ [= ->]. by apply H2.
  - destruct Hh as [Hw (svc & Hsvc & Ho)]. pose proof (process_steps c s e Hw) as H.
    destruct (process c s e) as [[r s'] e']. destruct H as (Hw' & _ & H).
    split; [|intros [-> | ->]; cbn in Ht; congruence]. split; [done|].
    destruct (target c) as [i|]; [|destruct H as [_ ->]; eauto].
    destruct H as (r' & _ & _ & (Hothers & _) & _). exists svc.
    by destruct (Hothers id) as [-> _]; [congruence|].
Qed.
End Services.

(** ** Concrete runs *)

(** The supervisor of a node with a gateway and an MQTT client. *)
Definition demo_supervisor : Supervisor (@Service demo_ext) :=
  registered [(MqttClient, SvcMqttClient (MqttClientService_new demo_client_config), true);
              (CloudGateway, SvcCloudGateway (CloudGatewayService_new "http://me" "https://gw"), true)].

(** The documented use of Restart on a running client ends in [Failed]. *)
Example restart_of_running_client_fails :
  (serve [Start MqttClient; Restart MqttClient; Start MqttClient] demo_supervisor demo_env).1.1
  = [Done (Ok tt); Done (Err "MqttClientService command receiver already consumed");
     Done (Err "MqttClientService command receiver already consumed")].
Proof. by vm_compute. Qed.
