(* ===== verification/ServiceLaws.v ===== *)
(** * ServiceLaws: the program's services keep the supervisor's contract

    An instance of [LawfulService] (Contract.v) for each of the five services and for the
    boxed service, and what the contract then says of the supervisor the application
    builds; in particular that three of the services are started at most once. *)

From Stdlib Require Import ZArith Lia.
From stdpp Require Import base list strings gmap.
From S2P Require Import Prelude RustStr Types Env Demo Supervisor Contract Config Capabilities Ca Brokerage.
From S2P Require Import MqttClient CloudGateway GatewayMqtt Handshake Gateway Services.

(** Whether an optional sender is held. *)
Definition held (o : option unit) : bool := bool_decide (is_Some o).

Section ServiceLaws.
Context {X : Ext}.

#[export] Program Instance gateway_lawful : LawfulService GatewayService := {|
  svc_inv := fun _ => True;
  svc_up := fun s => held (gw_shutdown_tx s);
|}.
Next Obligation.
  intros s e _. destruct (gw_shutdown_tx s) as [[]|] eqn:Hs.
  - cbn. unfold gateway_start. run_prog. rewrite !Hs. by run_prog.
  - pose proof (gateway_start_cases s e Hs) as H. cbn. rewrite Hs.
    destruct (gateway_start s e) as [[[n|err] s'] e']; (split; [done|]); [|done]. by destruct H as [-> _].
Qed.
Next Obligation.
  intros s e _. cbn. unfold gateway_stop. run_prog. destruct (gw_shutdown_tx s) as [[]|] eqn:Hs; run_prog; [done|].
  by rewrite ?Hs.
Qed.
Next Obligation.
  intros s e _. cbn. split; [done|]. split; [|done]. intros H. split; [exact H|done].
Qed.

#[export] Program Instance mosquitto_lawful : LawfulService MosquittoBrokerageService := {|
  svc_inv := fun _ => True;
  svc_up := fun s => held (mq_child s);
|}.
Next Obligation.
  intros s e _. cbn. unfold mosquitto_start. run_prog. destruct (mq_child s) as [[]|] eqn:Hs; run_prog; [done|].
  destruct (oracle e _ _ (clk e)); cbn; run_prog; rewrite ?Hs; [|done].
  repeat (case_answer; run_prog); rewrite ?Hs; done.
Qed.
Next Obligation.
  intros s e _. cbn. unfold mosquitto_stop. run_prog. destruct (mq_child s) as [[]|] eqn:Hs; run_prog.
  - repeat (case_answer; run_prog); done.
  - by rewrite ?Hs.
Qed.
Next Obligation.
  intros s e _. cbn. unfold mosquitto_is_running. run_prog. destruct (mq_child s) as [[]|] eqn:Hs; run_prog.
  - destruct (oracle e _ TryWait (clk e)) as [[]|]; run_prog; rewrite ?Hs; done.
  - done.
Qed.

#[export] Program Instance mqtt_lawful : LawfulService MqttClientService := {|
  svc_inv := fun _ => True;
  svc_up := fun s => held (ms_shutdown_tx s);
|}.
Next Obligation.
  intros s e _. cbn. unfold mqtt_start. run_prog. destruct (ms_shutdown_tx s) as [[]|] eqn:Hs; run_prog; [done|].
  destruct (take_channels s e) as [[[u|err] s1] e1]; run_prog; [|done].
  match goal with |- context [build_mqtt_opts ?c ?s2 ?e2] =>
    destruct (build_mqtt_opts c s2 e2) as [[[o|err] s3] e3] end; by run_prog.
Qed.
Next Obligation.
  intros s e _. cbn. unfold mqtt_stop. run_prog. destruct (ms_shutdown_tx s) as [[]|] eqn:Hs; run_prog.
  - by destruct (ms_cmd_shutdown_tx s) as [[]|]; run_prog.
  - by rewrite ?Hs.
Qed.
Next Obligation.
  intros s e _. cbn. split; [done|]. split; [|done]. intros H. split; [exact H|done].
Qed.

(** The two gateway clients give their receiver away when they are started. *)
#[export] Program Instance cloud_lawful : LawfulService CloudGatewayService := {|
  svc_inv := fun s => cg_shutdown_tx s <> None -> cg_outbound_rx s = None;
  svc_up := fun s => held (cg_shutdown_tx s);
|}.
Next Obligation.
  intros s e Hi. cbn in *. unfold cloud_start. run_prog.
  destruct (cg_outbound_rx s) as [[]|] eqn:Ho; run_prog; rewrite ?Ho.
  - split; [done|]. destruct (cg_shutdown_tx s); [by specialize (Hi ltac:(done))|done].
  - split; [done|]. by destruct (cg_shutdown_tx s).
Qed.
Next Obligation.
  intros s e Hi. cbn in *. unfold cloud_stop. run_prog.
  destruct (cg_shutdown_tx s) as [[]|] eqn:Ho; run_prog; rewrite ?Ho; done.
Qed.
Next Obligation.
  intros s e Hi. cbn in *. split; [done|]. split; [|done]. intros H. split; [exact H|done].
Qed.

#[export] Program Instance gm_lawful : LawfulService GatewayMqttService := {|
  svc_inv := fun s => gs_shutdown_tx s <> None -> gs_outbound_rx s = None;
  svc_up := fun s => held (gs_shutdown_tx s);
|}.
Next Obligation.
  intros s e Hi. cbn in *. unfold gm_start. run_prog.
  destruct (gs_outbound_rx s) as [[]|] eqn:Ho; run_prog; rewrite ?Ho.
  - split; [done|]. destruct (gs_shutdown_tx s); [by specialize (Hi ltac:(done))|done].
  - split; [done|]. by destruct (gs_shutdown_tx s).
Qed.
Next Obligation.
  intros s e Hi. cbn in *. unfold gm_stop. run_prog.
  destruct (gs_shutdown_tx s) as [[]|] eqn:Ho; run_prog; rewrite ?Ho; done.
Qed.
Next Obligation.
  intros s e Hi. cbn in *. split; [done|]. split; [|done]. intros H. split; [exact H|done].
Qed.
(** Boxing a lawful service keeps it lawful. *)
#[export] Program Instance boxed_lawful : LawfulService Service := {|
  svc_inv := fun svc => match svc with
    | SvcGateway s => svc_inv s | SvcMosquitto s => svc_inv s | SvcMqttClient s => svc_inv s
    | SvcCloudGateway s => svc_inv s | SvcGatewayMqtt s => svc_inv s end;
  svc_up := fun svc => match svc with
    | SvcGateway s => svc_up s | SvcMosquitto s => svc_up s | SvcMqttClient s => svc_up s
    | SvcCloudGateway s => svc_up s | SvcGatewayMqtt s => svc_up s end;
|}.
Next Obligation.
  assert (Hbox : forall T (M : ManagedService T) (L : LawfulService T) (box : T -> Service) s e, svc_inv s ->
    let '(r, s', e') := svc_start s e in
    svc_inv s' /\ (if svc_up s then is_ok r = false /\ box s' = box s /\ e' = e
                   else is_ok r = true -> svc_up s' = true)).
  { intros T M L box s e Hi. pose proof (law_start s e Hi) as H. destruct (svc_start s e) as [[r s'] e'].
    destruct H as [H1 H2]. split; [done|]. destruct (svc_up s); [|done]. destruct H2 as (? & -> & ?). done. }
  intros [s|s|s|s|s] e Hi; cbn [svc_start boxed_service boxed].
  - pose proof (Hbox _ _ _ SvcGateway s e Hi). unfold boxed. by destruct (svc_start s e) as [[r s'] e'].
  - pose proof (Hbox _ _ _ SvcMosquitto s e Hi). unfold boxed. by destruct (svc_start s e) as [[r s'] e'].
  - pose proof (Hbox _ _ _ SvcMqttClient s e Hi). unfold boxed. by destruct (svc_start s e) as [[r s'] e'].
  - pose proof (Hbox _ _ _ SvcCloudGateway s e Hi). unfold boxed. by destruct (svc_start s e) as [[r s'] e'].
  - pose proof (Hbox _ _ _ SvcGatewayMqtt s e Hi). unfold boxed. by destruct (svc_start s e) as [[r s'] e'].
Qed.
Next Obligation.
  intros [s|s|s|s|s] e Hi; cbn [svc_stop boxed_service boxed]; pose proof (law_stop s e Hi);
    unfold boxed; by destruct (svc_stop s e) as [[r s'] e'].
Qed.
Next Obligation.
  intros [s|s|s|s|s] e Hi; cbn [svc_is_running boxed_service boxed]; pose proof (law_is_running s e Hi) as H;
    unfold boxed; destruct (svc_is_running s e) as [[b s'] e'];
    destruct H as (H1 & H2 & H3); (split; [exact H1|]);
    (split; [intros Hb; destruct (H2 Hb) as [? ->]; by split|intros Hb; f_equal; by apply H3]).
Qed.

(** The services as their constructors make them. *)
Lemma new_services_fresh :
  (forall config ca info brokerage tx, fresh (SvcGateway (GatewayService_new config ca info brokerage tx))) /\
  (forall bin passwd config, fresh (SvcMosquitto (MosquittoBrokerageService_new bin passwd config))) /\
  (forall config, fresh (SvcMqttClient (MqttClientService_new config))) /\
  (forall server gateway, fresh (SvcCloudGateway (CloudGatewayService_new server gateway))) /\
  (forall config, fresh (SvcGatewayMqtt (GatewayMqttService_new config))).
Proof. repeat split; cbn; first [done|congruence]. Qed.
(** *** Services that can be started once *)

(** Stopping or restarting such a service after its start is the end of it. *)
Lemma process_halts id c (s : Supervisor Service) e :
  spent id s -> fits s -> c = Stop id \/ c = Restart id ->
  is_running_status (statuses (process c s e).1.2 !! id) = false.
Proof.
  intros Hsp Hf Hc. destruct (is_running_status (statuses s !! id)) eqn:Hr.
  2: { pose proof (process_spent id c s e Hsp) as H. destruct (process c s e) as [[r s'] e']. by apply H. }
  pose proof Hsp as [Hw (svc & Hsvc & _)]. pose proof (handle_stop_fits id s e Hw Hf) as H.
  pose proof (spent_stop id s e Hsp) as Hs.
  destruct Hc as [-> | ->]; cbn; unfold fmap, prog_fmap;
    [|unfold handle_restart, mbind, prog_bind, get, mret, prog_ret; rewrite Hr];
    destruct (handle_stop id s e) as [[r s1] e1]; destruct H as [_ H], Hs as [Hs _];
    (destruct (H Hr) as [_ Hst]; [eauto|]).
  - cbn. by rewrite Hst.
  - pose proof (spent_start id s1 e1 Hs) as H2. destruct (handle_start id s1 e1) as [[r2 s2] e2].
    apply H2. by rewrite Hst.
Qed.

Lemma serve_halts id cmds (s : Supervisor Service) e k c :
  spent id s -> fits s -> cmds !! k = Some c -> c = Stop id \/ c = Restart id ->
  is_running_status (statuses (serve cmds s e).1.2 !! id) = false.
Proof.
  revert s e k. induction cmds as [|c0 cmds IH]; intros s e k Hsp Hf Hk Hc; [done|].
  cbn [serve]. unfold mbind, prog_bind, mret, prog_ret.
  pose proof (process_halts id c0 s e Hsp Hf) as Hh. pose proof (process_spent id c0 s e Hsp) as Hs.
  pose proof (process_fits c0 s e (proj1 Hsp) Hf) as Hf1.
  destruct (process c0 s e) as [[r s1] e1]. destruct Hs as [Hs _]. cbn [fst snd] in *. destruct k as [|k].
  - injection Hk as ->. pose proof (serve_spent id cmds s1 e1 Hs) as Hr.
    destruct (serve cmds s1 e1) as [[rs s2] e2]. by apply Hr, Hh.
  - specialize (IH s1 e1 k Hs Hf1 Hk Hc). by destruct (serve cmds s1 e1) as [[rs s2] e2].
Qed.

(** C20: the MQTT client, the WebSocket client and the gateway MQTT client are started at
    most once in the life of the process.  Whatever is registered and whatever commands
    arrive: after the first start or restart of such a service that succeeded, every
    later one is answered with an error; and after one more stop or restart it is not
    running at the end, so a restart of the running service only ever stops it. *)
Theorem one_shot_services_never_restart regs id svc cmds e :
  Forall (fun '(_, svc, _) => fresh svc) regs ->
  services (registered regs) !! id = Some svc -> one_shot svc ->
  let '(rs, s', _) := serve cmds (registered regs) e in
  forall i c, cmds !! i = Some c -> starts_id id c -> rs !! i = Some (Done (Ok tt)) ->
    (forall j c', (i < j)%nat -> cmds !! j = Some c' -> starts_id id c' ->
       exists err, rs !! j = Some (Done (Err err))) /\
    (forall k c', (i < k)%nat -> cmds !! k = Some c' -> c' = Stop id \/ c' = Restart id ->
       is_running_status (statuses s' !! id) = false).
Proof.
  intros Hregs Hsvc Ho. assert (Hh : holds_one_shot id (registered regs)) by (split; [apply wf_registered|eauto]).
  generalize (fits_registered regs Hregs). revert Hh. generalize (registered regs). clear.
  revert e. induction cmds as [|c0 cmds IH]; intros e s Hh Hf; [done|].
  cbn [serve]. unfold mbind, prog_bind, mret, prog_ret.
  pose proof (process_one_shot id c0 s e Hh) as Hp. pose proof (process_fits c0 s e (proj1 Hh) Hf) as Hf1.
  destruct (process c0 s e) as [[r s1] e1]. destruct Hp as [Hh1 Hsp]. cbn [fst snd] in Hf1.
  specialize (IH e1 s1 Hh1 Hf1). pose proof (serve_spent id cmds s1 e1) as Hs.
  pose proof (serve_halts id cmds s1 e1) as Hk.
  destruct (serve cmds s1 e1) as [[rs s2] e2]. intros [|i] c; cbn [lookup list_lookup].
  - intros [= ->] Hc [= ->]. specialize (Hsp Hc eq_refl). destruct (Hs Hsp) as [HF _]. split.
    + intros [|j] c' Hj Hc'; [lia|]. intros Hst. destruct (Forall2_lookup_l _ _ _ _ _ HF Hc') as (r' & Hr' & Herr).
      destruct (Herr Hst) as [err ->]. by exists err.
    + intros [|k] c' Hik Hc' Hst; [lia|]. by eapply Hk.
  - intros Hi Hc Hr. destruct (IH i c Hi Hc Hr) as [H1 H2]. split.
    + intros [|j] c' Hj; [lia|]. apply H1. lia.
    + intros [|k] c' Hk'; [lia|]. apply H2. lia.
Qed.
End ServiceLaws.

(** ** Concrete runs *)

(** A node whose MQTT client is restarted (and fails), whose gateway is stopped. *)
Definition demo_regs : list (ServiceId * @Service demo_ext * bool) :=
  [(MqttClient, SvcMqttClient (MqttClientService_new demo_client_config), true);
   (CloudGateway, SvcCloudGateway (CloudGatewayService_new "http://me" "https://gw"), true)].

Definition demo_cmds : list SupervisorCommand :=
  [Start MqttClient; Start CloudGateway; Restart MqttClient; Stop CloudGateway].

Lemma demo_regs_fresh : Forall (fun '(_, svc, _) => @fresh demo_ext _ _ _ svc) demo_regs.
Proof. repeat constructor; cbn; first [done|congruence]. Qed.

Lemma demo_order :
  [CloudGateway; MqttClient] ≡ₚ elements (dom (services (registered demo_regs))).
Proof.
  apply NoDup_Permutation.
  - by apply (bool_decide_unpack _).
  - apply NoDup_elements.
  - intros id. rewrite elem_of_elements. destruct id; vm_compute; split; intros; set_solver.
Qed.

Definition demo_served : Supervisor (@Service demo_ext) :=
  (serve demo_cmds (registered demo_regs) demo_env).1.2.

(** Whether a service is there and up. *)
Definition up_at (id : ServiceId) (s : Supervisor (@Service demo_ext)) : option bool :=
  (fun svc => svc_up (X := demo_ext) svc) <$> services s !! id.

(** The restarted client has failed and is down; the gateway was stopped and is down. *)
Lemma status_tells_truth_witness :
  statuses demo_served !! CloudGateway = Some Stopped /\ up_at CloudGateway demo_served = Some false.
Proof.
  assert (Hst : statuses demo_served !! CloudGateway = Some Stopped) by (vm_compute; reflexivity).
  split; [exact Hst|].
  pose proof (status_tells_truth demo_regs demo_cmds demo_env CloudGateway demo_regs_fresh) as H.
  assert (Hsvc : is_Some (services demo_served !! CloudGateway)) by (vm_compute; eexists; reflexivity).
  unfold up_at, demo_served in *.
  destruct (serve demo_cmds (registered demo_regs) demo_env) as [[rs s] e']. destruct H as [H _].
  cbn [fst snd] in *. destruct Hsvc as [svc Hsvc]. destruct (H Stopped svc Hst Hsvc) as [_ Hup].
  rewrite Hsvc. apply (f_equal Some Hup).
Defined.

Lemma spawn_leaves_nothing_up_witness :
  up_at CloudGateway (spawn demo_cmds [CloudGateway; MqttClient] (registered demo_regs) demo_env).1.2 <> Some true.
Proof.
  pose proof (spawn_leaves_nothing_up demo_regs demo_cmds [CloudGateway; MqttClient] demo_env demo_regs_fresh) as H.
  destruct (spawn demo_cmds [CloudGateway; MqttClient] (registered demo_regs) demo_env) as [[rs s'] e'].
  unfold up_at. cbn [fst snd]. destruct (services s' !! CloudGateway) as [svc|] eqn:Hsvc; [|discriminate].
  pose proof (H demo_order CloudGateway svc Hsvc) as Hup. cbn in *. by rewrite Hup.
Defined.

(** The client of the demo node: started, restarted, started again. *)
Definition demo_restarts : list SupervisorCommand := [Start MqttClient; Restart MqttClient; Start MqttClient].

Lemma one_shot_services_never_restart_witness :
  let run := serve demo_restarts (registered demo_regs) demo_env in
  run.1.1 !! 0%nat = Some (Done (Ok tt)) /\ (exists err, run.1.1 !! 2%nat = Some (Done (Err err))) /\
  is_running_status (statuses run.1.2 !! MqttClient) = false.
Proof.
  intros run. assert (H0 : run.1.1 !! 0%nat = Some (Done (Ok tt))) by (vm_compute; reflexivity).
  pose proof (one_shot_services_never_restart demo_regs MqttClient
    (SvcMqttClient (MqttClientService_new demo_client_config)) demo_restarts demo_env demo_regs_fresh
    ltac:(vm_compute; reflexivity) I) as H.
  fold run in H. destruct run as [[rs s'] e']. cbn [fst snd] in *.
  destruct (H 0%nat (Start MqttClient) eq_refl (or_introl eq_refl) H0) as [H1 H2].
  split; [exact H0|]. split.
  - exact (H1 2%nat (Start MqttClient) ltac:(lia) eq_refl (or_introl eq_refl)).
  - exact (H2 1%nat (Restart MqttClient) ltac:(lia) eq_refl (or_intror eq_refl)).
Defined.
