(* ===== verification/Registry.v ===== *)
(** * Registry: the beacons this node knows (beacon_management/registry.rs)

    [records] and [known_gateways] are the registry's own; [broadcast_topics] is the
    list it shares with the broadcast loop, which only reads it.  Instants are
    nanoseconds.  The sending half of a connection's shutdown channel is the number of
    that connection: the connection lives as long as some record holds its number.

    [check_timeouts] runs inside a [select!]: when another branch is ready while it is
    suspended at an await, it is dropped there and its remaining effects never
    happen.  The [budget] of a sweep is the number of awaits it gets through ([None]:
    it is not interrupted), and [order] the order in which the hash map is iterated. *)

From Stdlib Require Import ZArith Lia.
From stdpp Require Import base list strings gmap.
From S2P Require Import Prelude RustStr Types Env Demo MqttClient.

Definition BEACON_TIMEOUT : Z := 120 * 10 ^ 9.
Definition BEACON_TIMEOUT_CHECK_INTERVAL : Z := 30 * 10 ^ 9.

Record BeaconRecord := mkBeacon {
  listen_topic : string;
  broadcast_topic : string;
  last_seen : Z;
  gateway_url : option string;
  gateway_shutdown_tx : option nat;
}.

Record BeaconRegistry := mkRegistry {
  records : gmap string BeaconRecord;
  known_gateways : gset string;
  broadcast_topics : list string;
}.

Definition BeaconRegistry_new (own_gateway_url : option string) (topics : list string) : BeaconRegistry :=
  mkRegistry ∅ (match own_gateway_url with Some url => {[ url ]} | None => ∅ end) topics.

Definition qos_from_u8 (qos : Z) : QoS :=
  if decide (qos = 0%Z) then AtMostOnce else if decide (qos = 2%Z) then ExactlyOnce else AtLeastOnce.

(** ** Updates of the state *)

Definition set_records (f : gmap string BeaconRecord -> gmap string BeaconRecord) (r : BeaconRegistry) :=
  mkRegistry (f (records r)) (known_gateways r) (broadcast_topics r).
Definition set_gateways (f : gset string -> gset string) (r : BeaconRegistry) :=
  mkRegistry (records r) (f (known_gateways r)) (broadcast_topics r).
Definition set_topics (f : list string -> list string) (r : BeaconRegistry) :=
  mkRegistry (records r) (known_gateways r) (f (broadcast_topics r)).

Definition with_listen (t : string) (r : BeaconRecord) :=
  mkBeacon t (broadcast_topic r) (last_seen r) (gateway_url r) (gateway_shutdown_tx r).
Definition with_broadcast (t : string) (r : BeaconRecord) :=
  mkBeacon (listen_topic r) t (last_seen r) (gateway_url r) (gateway_shutdown_tx r).
Definition with_last_seen (now : Z) (r : BeaconRecord) :=
  mkBeacon (listen_topic r) (broadcast_topic r) now (gateway_url r) (gateway_shutdown_tx r).
Definition with_gateway (url : string) (conn : nat) (r : BeaconRecord) :=
  mkBeacon (listen_topic r) (broadcast_topic r) (last_seen r) (Some url) (Some conn).

(** ** Awaiting under a budget *)

Definition Budget := option nat.

(** [None]: dropped at this await. *)
Definition await (b : Budget) : option Budget :=
  match b with
  | None => Some None
  | Some (S n) => Some (Some n)
  | Some O => None
  end.

(** [now.duration_since(last_seen) > BEACON_TIMEOUT]; the duration saturates at zero. *)
Definition is_stale (now : Z) (r : BeaconRecord) : bool :=
  bool_decide (BEACON_TIMEOUT < Z.max 0 (now - last_seen r))%Z.

Definition stale_id (now : Z) (r : BeaconRegistry) (id : string) : bool :=
  match records r !! id with Some record => is_stale now record | None => false end.

Section Registry.
Context {X : Ext}.

(** [if let Some(entry) = self.records.get_mut(id) { f(entry) }] *)
Definition update_record (id : string) (f : BeaconRecord -> BeaconRecord) : Prog BeaconRegistry unit :=
  modify (set_records (alter f id)).

(** [self.records.entry(id).or_insert_with(..)] *)
Definition ensure_record (id : string) : Prog BeaconRegistry unit :=
  r ← get;
  match records r !! id with
  | Some _ => mret tt
  | None => now ← call InstantNow; modify (set_records <[id := mkBeacon "" "" now None None]>)
  end.

Definition register_channel (channel : TopicChannel) : Prog BeaconRegistry unit :=
  let topic := tc_topic (ch_topic channel) in
  let beacon_id := ch_beacon_id channel in
  _ ← ensure_record beacon_id;
  match ch_topic_type channel with
  | Listen =>
      r ← subscribe topic (qos_from_u8 (tc_qos (ch_topic channel)));
      match r with
      | Err _ => mret tt
      | Ok _ => update_record beacon_id (with_listen topic)
      end
  | Broadcast =>
      _ ← modify (set_topics (fun ts => ts ++ [topic]));
      update_record beacon_id (with_broadcast topic)
  | Hybrid =>
      r ← subscribe topic (qos_from_u8 (tc_qos (ch_topic channel)));
      match r with
      | Err _ => mret tt
      | Ok _ =>
          _ ← modify (set_topics (fun ts => ts ++ [topic]));
          update_record beacon_id (fun r => with_broadcast topic (with_listen topic r))
      end
  end.

(** [self.mqtt_handle.unsubscribe(topic).await]: two awaits, the send and the reply. *)
Definition unsubscribe_within (topic : string) (b : Budget) : Prog BeaconRegistry (option Budget) :=
  match await b with
  | None => mret None
  | Some b =>
      accepted ← call (CmdSend (Unsubscribe topic));
      if (accepted : bool) then
        match await b with
        | None => mret None
        | Some b => _ ← call (CmdReply (Unsubscribe topic)); mret (Some b)
        end
      else mret (Some b)
  end.

(** The body of the sweep for one stale id; [None] when it was dropped. *)
Definition deregister (id : string) (b : Budget) : Prog BeaconRegistry (option Budget) :=
  r ← get;
  match records r !! id with
  | None => mret (Some b)
  | Some record =>
      _ ← modify (set_records (delete id));
      b ← (if decide (listen_topic record = "") then mret (Some b)
           else unsubscribe_within (listen_topic record) b);
      match b with
      | None => mret None
      | Some b =>
          b ← (if decide (broadcast_topic record = "") then mret (Some b)
               else match await b with
                    | None => mret None
                    | Some b =>
                        _ ← modify (set_topics (filter (fun t => t <> broadcast_topic record)));
                        mret (Some b)
                    end);
          match b with
          | None => mret None
          | Some b =>
              _ ← (match gateway_url record with
                   | Some url => modify (set_gateways (fun g => g ∖ {[ url ]}))
                   | None => mret tt
                   end);
              mret (Some b)
          end
      end
  end.

Fixpoint deregister_all (ids : list string) (b : Budget) : Prog BeaconRegistry unit :=
  match ids with
  | [] => mret tt
  | id :: ids =>
      b ← deregister id b;
      match b with None => mret tt | Some b => deregister_all ids b end
  end.

(** [check_timeouts] from the moment its timer has fired. *)
Definition check_timeouts (order : list string) (b : Budget) : Prog BeaconRegistry unit :=
  now ← call InstantNow;
  r ← get;
  deregister_all (filter (fun id => stale_id now r id = true) order) b.

Definition update_last_seen (beacon_id : string) : Prog BeaconRegistry unit :=
  r ← get;
  match records r !! beacon_id with
  | Some _ => now ← call InstantNow; update_record beacon_id (with_last_seen now)
  | None => mret tt
  end.

Definition is_gateway_known (gw_url : string) (r : BeaconRegistry) : bool :=
  bool_decide (gw_url ∈ known_gateways r).

Definition insert_gateway (gw_url : string) : Prog BeaconRegistry unit :=
  modify (set_gateways (fun g => {[ gw_url ]} ∪ g)).

Definition associate_gateway (beacon_id gw_url : string) (shutdown_tx : nat) : Prog BeaconRegistry unit :=
  update_record beacon_id (with_gateway gw_url shutdown_tx).
End Registry.

(** ** What a sweep does *)

Definition drop_topic (record : BeaconRecord) (ts : list string) : list string :=
  if decide (broadcast_topic record = "") then ts else filter (fun t => t <> broadcast_topic record) ts.

Definition drop_gateway (record : BeaconRecord) (g : gset string) : gset string :=
  match gateway_url record with Some url => g ∖ {[ url ]} | None => g end.

(** One stale beacon deregistered: completely, or up to some await: the record goes
    first, then the broadcast topic, then the gateway URL. *)
Inductive drop_effect (id : string) (r : BeaconRegistry) : BeaconRegistry -> Prop :=
| de_absent : records r !! id = None -> drop_effect id r r
| de_record record : records r !! id = Some record ->
    drop_effect id r (mkRegistry (delete id (records r)) (known_gateways r) (broadcast_topics r))
| de_all record : records r !! id = Some record ->
    drop_effect id r (mkRegistry (delete id (records r)) (drop_gateway record (known_gateways r))
                        (drop_topic record (broadcast_topics r))).

(** The complete effect. *)
Definition drop_beacon (id : string) (r : BeaconRegistry) : BeaconRegistry :=
  match records r !! id with
  | None => r
  | Some record => mkRegistry (delete id (records r)) (drop_gateway record (known_gateways r))
                     (drop_topic record (broadcast_topics r))
  end.

Section Sweep.
Context {X : Ext}.
Implicit Types (r : BeaconRegistry) (e : Env).

Lemma unsubscribe_within_state t b r e : (unsubscribe_within t b r e).1.2 = r.
Proof.
  unfold unsubscribe_within. destruct (await b); run_prog; [|done]. case_answer; run_prog; [|done].
  by destruct (await _).
Qed.

Lemma unsubscribe_within_None t r e : (unsubscribe_within t None r e).1.1 = Some None.
Proof. unfold unsubscribe_within. run_prog. by case_answer. Qed.

Lemma deregister_effect id b r e : drop_effect id r (deregister id b r e).1.2.
Proof.
  unfold deregister, mbind, prog_bind, get, modify, mret, prog_ret.
  destruct (records r !! id) as [record|] eqn:Hr; [|by constructor]. cbn -[unsubscribe_within].
  set (r1 := set_records (delete id) r).
  assert (Hu : forall (m : Prog BeaconRegistry (option Budget)),
    (forall e, (m r1 e).1.2 = r1) ->
    drop_effect id r (let '(a, s', e') := m r1 e in
      match a with
      | None => fun s e => (None, s, e)
      | Some b => fun s e =>
          let '(a, s', e') :=
            (if decide (broadcast_topic record = "") then fun s e => (Some b, s, e)
             else match await b with
                  | None => fun s e => (None, s, e)
                  | Some b => fun s e =>
                      (Some b, set_topics (filter (fun t => t <> broadcast_topic record)) s, e)
                  end) s e in
          match a with
          | None => fun s e => (None, s, e)
          | Some b => fun s e =>
              let '(_, s', e') :=
                (match gateway_url record with
                 | Some url => fun s e => (tt, set_gateways (fun g => g ∖ {[ url ]}) s, e)
                 | None => fun s e => (tt, s, e)
                 end) s e in (Some b, s', e')
          end s' e'
      end s' e').1.2).
  { intros m Hm. specialize (Hm e). destruct (m r1 e) as [[[b'|] s'] e'] eqn:Em; cbn in Hm; subst s'.
    - pose proof (de_all id r record Hr) as Ha. unfold drop_topic, drop_gateway in Ha.
      destruct (decide (broadcast_topic record = "")); [by destruct (gateway_url record)|].
      destruct (await b'); [by destruct (gateway_url record)|]. by eapply de_record.
    - by eapply de_record. }
  destruct (decide (listen_topic record = "")).
  - apply (Hu (fun s e => (Some b, s, e))). done.
  - apply (Hu (unsubscribe_within (listen_topic record) b)). intros e1. apply unsubscribe_within_state.
Qed.

Lemma deregister_None id r e :
  deregister id None r e = (Some None, drop_beacon id r, (deregister id None r e).2).
Proof.
  unfold drop_beacon, drop_topic, drop_gateway, deregister, mbind, prog_bind, get, modify, mret, prog_ret.
  destruct (records r !! id) as [record|]; [|done]. cbn -[unsubscribe_within].
  set (r1 := set_records (delete id) r).
  destruct (decide (listen_topic record = "")).
  - destruct (decide (broadcast_topic record = "")), (gateway_url record); done.
  - pose proof (unsubscribe_within_state (listen_topic record) None r1 e) as Hs.
    pose proof (unsubscribe_within_None (listen_topic record) r1 e) as Hn.
    destruct (unsubscribe_within _ None r1 e) as [[b s] e1]. cbn in Hs, Hn. subst b s.
    destruct (decide (broadcast_topic record = "")), (gateway_url record); done.
Qed.

(** A property every partial deregistration keeps is kept by a sweep, whenever it is
    dropped. *)
Lemma deregister_all_inv (P : BeaconRegistry -> Prop) ids b r e :
  (forall id r r', id ∈ ids -> drop_effect id r r' -> P r -> P r') ->
  P r -> P (deregister_all ids b r e).1.2.
Proof.
  revert b r e. induction ids as [|id ids IH]; intros b r e Hstep HP; [done|].
  cbn [deregister_all]. unfold mbind, prog_bind.
  pose proof (deregister_effect id b r e) as Hd.
  destruct (deregister id b r e) as [[[b'|] r1] e1]; cbn in *; [|eapply Hstep; [by left|done|done]].
  apply IH; [intros; eapply Hstep; [by right|done|done]|]. eapply Hstep; [by left|done|done].
Qed.

Lemma deregister_all_None ids r e :
  (deregister_all ids None r e).1.2 = fold_left (fun r id => drop_beacon id r) ids r.
Proof.
  revert r e. induction ids as [|id ids IH]; intros r e; [done|].
  cbn [deregister_all]. unfold mbind, prog_bind. rewrite deregister_None. cbn. apply IH.
Qed.

(** The effect of dropping several beacons completely. *)
Definition belongs (ids : list string) (r : BeaconRegistry) (record : BeaconRecord) : Prop :=
  exists id, id ∈ ids /\ records r !! id = Some record.

Lemma drop_all_spec ids r :
  let r' := fold_left (fun r id => drop_beacon id r) ids r in
  (forall id, records r' !! id = if decide (id ∈ ids) then None else records r !! id) /\
  (forall url, url ∈ known_gateways r' <-> url ∈ known_gateways r /\
     ~ exists record, belongs ids r record /\ gateway_url record = Some url) /\
  (forall t, t ∈ broadcast_topics r' <-> t ∈ broadcast_topics r /\
     ~ exists record, belongs ids r record /\ broadcast_topic record = t /\ t <> "").
Proof.
  cbn zeta. revert r. induction ids as [|id ids IH]; intros r; cbn [fold_left].
  { unfold belongs. split; [done|]. split; intros; set_solver. }
  destruct (IH (drop_beacon id r)) as (H1 & H2 & H3).
  assert (Hrec : forall i, records (drop_beacon id r) !! i = if decide (i = id) then None else records r !! i).
  { intros i. unfold drop_beacon. destruct (records r !! id) as [record|] eqn:Hr; cbn.
    - case_decide; subst; [by rewrite lookup_delete_eq|by rewrite lookup_delete_ne].
    - by case_decide; subst. }
  assert (Hbel : forall record, belongs (id :: ids) r record <->
    records r !! id = Some record \/ belongs ids (drop_beacon id r) record).
  { intros record. unfold belongs. split.
    - intros (i & Hi & Hl). destruct (decide (i = id)) as [->|Hne]; [by left|right].
      exists i. split; [set_solver|]. by rewrite Hrec, decide_False.
    - intros [Hl|(i & Hi & Hl)]; [exists id; set_solver|]. rewrite Hrec in Hl.
      case_decide; [done|]. exists i. set_solver. }
  split; [|split].
  - intros i. rewrite H1, Hrec. destruct (decide (i = id)) as [->|Hne].
    + rewrite (decide_True (P := id ∈ id :: ids)) by set_solver. by case_decide.
    + destruct (decide (i ∈ ids)); [rewrite decide_True|rewrite decide_False]; set_solver.
  - intros url. rewrite H2. setoid_rewrite Hbel. unfold drop_beacon at 1.
    destruct (records r !! id) as [record|] eqn:Hr; [|cbn; naive_solver].
    cbn [known_gateways]. unfold drop_gateway. destruct (gateway_url record) as [u|] eqn:Hg; [|naive_solver].
    rewrite elem_of_difference, elem_of_singleton. naive_solver.
  - intros t. rewrite H3. setoid_rewrite Hbel. unfold drop_beacon at 1.
    destruct (records r !! id) as [record|] eqn:Hr; [|cbn; naive_solver].
    cbn [broadcast_topics]. unfold drop_topic. case_decide as Hb; [naive_solver|].
    rewrite list_elem_of_filter. naive_solver.
Qed.
End Sweep.

Section Timeouts.
Context {X : Ext}.
Implicit Types (r : BeaconRegistry) (e : Env).

Definition stale_ids (order : list string) (now : Z) r : list string :=
  filter (fun id => stale_id now r id = true) order.

Lemma stale_ids_spec order now r id :
  id ∈ stale_ids order now r <->
  id ∈ order /\ exists record, records r !! id = Some record /\ is_stale now record = true.
Proof.
  unfold stale_ids, stale_id. rewrite list_elem_of_filter.
  destruct (records r !! id) as [record|]; naive_solver.
Qed.

(** The clock reading a sweep started in [e] makes. *)
Definition sweep_time e : Z := oracle e Z InstantNow (clk e).

Lemma check_timeouts_eq order b r e :
  (check_timeouts order b r e).1.2 =
  (deregister_all (stale_ids order (sweep_time e) r) b r
     (mkEnv (oracle e) (S (clk e)) (trace e ++ [Ev InstantNow (sweep_time e)]))).1.2.
Proof. done. Qed.

Definition stale_beacon (order : list string) (now : Z) r (record : BeaconRecord) : Prop :=
  exists id, id ∈ order /\ records r !! id = Some record /\ is_stale now record = true.

Lemma belongs_stale order now r record :
  belongs (stale_ids order now r) r record <-> stale_beacon order now r record.
Proof. unfold belongs, stale_beacon. setoid_rewrite stale_ids_spec. naive_solver. Qed.

(** A sweep that runs to its end, whatever the order of the map: exactly the beacons
    silent for more than 120 s are forgotten, the others untouched; exactly their
    gateways become unknown, and exactly their broadcast topics are no longer
    published to. *)
Theorem check_timeouts_complete order r e :
  (forall id, is_Some (records r !! id) -> id ∈ order) ->
  let now := sweep_time e in
  let r' := (check_timeouts order None r e).1.2 in
  (forall id record, records r' !! id = Some record <->
     records r !! id = Some record /\ is_stale now record = false) /\
  (forall url, url ∈ known_gateways r' <-> url ∈ known_gateways r /\
     ~ exists record, stale_beacon order now r record /\ gateway_url record = Some url) /\
  (forall t, t ∈ broadcast_topics r' <-> t ∈ broadcast_topics r /\
     ~ exists record, stale_beacon order now r record /\ broadcast_topic record = t /\ t <> "").
Proof.
  intros Horder. cbn zeta. rewrite check_timeouts_eq, deregister_all_None.
  generalize (sweep_time e). intros now.
  destruct (drop_all_spec (stale_ids order now r) r) as (H1 & H2 & H3).
  split; [|split].
  - intros id record. rewrite H1. case_decide as Hid.
    + apply stale_ids_spec in Hid as (_ & rec' & Hr & Hs). split; [done|]. intros [Hr' Hs'].
      rewrite Hr in Hr'. injection Hr' as ->. congruence.
    + split; [|tauto]. intros Hr. split; [done|]. destruct (is_stale now record) eqn:Hs; [|done].
      destruct Hid. apply stale_ids_spec. split; [apply Horder; eauto|eauto].
  - intros url. rewrite H2. by setoid_rewrite belongs_stale.
  - intros t. rewrite H3. by setoid_rewrite belongs_stale.
Qed.

(** A reference for the sweep, in one pass over the maps: the stale beacons, what they
    leave behind, and the registry without it. *)
Definition stale_records (now : Z) r : gmap string BeaconRecord :=
  filter (fun p => is_stale now p.2 = true) (records r).

Definition stale_gateways (now : Z) r : gset string :=
  map_img (omap gateway_url (stale_records now r)).

Definition stale_topics (now : Z) r : gset string :=
  map_img (broadcast_topic <$> stale_records now r).

Definition swept (now : Z) r : BeaconRegistry :=
  mkRegistry (filter (fun p => is_stale now p.2 = false) (records r))
    (known_gateways r ∖ stale_gateways now r)
    (filter (fun t => t = "" \/ t ∉ stale_topics now r) (broadcast_topics r)).

Lemma elem_of_stale_gateways now r url :
  url ∈ stale_gateways now r <->
  exists id record, records r !! id = Some record /\ is_stale now record = true /\ gateway_url record = Some url.
Proof.
  unfold stale_gateways. rewrite elem_of_map_img. setoid_rewrite lookup_omap_Some.
  unfold stale_records. setoid_rewrite map_lookup_filter_Some. cbn. naive_solver.
Qed.

Lemma elem_of_stale_topics now r t :
  t ∈ stale_topics now r <->
  exists id record, records r !! id = Some record /\ is_stale now record = true /\ broadcast_topic record = t.
Proof.
  unfold stale_topics. rewrite elem_of_map_img. setoid_rewrite lookup_fmap_Some.
  unfold stale_records. setoid_rewrite map_lookup_filter_Some. cbn. naive_solver.
Qed.

(** The topics that dropping beacons one by one leaves, as a list. *)
Lemma drop_all_topics ids r :
  broadcast_topics (fold_left (fun r id => drop_beacon id r) ids r)
  = filter (fun t => t = "" \/ t ∉ broadcast_topic <$> omap (fun id => records r !! id) ids) (broadcast_topics r).
Proof.
  revert r. induction ids as [|id ids IH]; intros r; cbn [fold_left].
  { cbn. rewrite list_filter_true; [done|]. intros t _. right. set_solver. }
  rewrite IH. unfold drop_beacon. destruct (records r !! id) as [record|] eqn:Hr.
  2: { apply list_filter_iff. intros t. cbn. by rewrite Hr. }
  cbn [records broadcast_topics omap list_omap]. rewrite Hr. unfold drop_topic.
  assert (Hrest : forall t, t <> broadcast_topic record ->
    t ∈ broadcast_topic <$> omap (fun i => delete id (records r) !! i) ids <->
    t ∈ broadcast_topic <$> omap (fun i => records r !! i) ids).
  { intros t Ht. rewrite !list_elem_of_fmap. setoid_rewrite list_elem_of_omap.
    setoid_rewrite lookup_delete_Some. split; [naive_solver|].
    intros (x & -> & i & Hi & Hx). exists x. split; [done|]. exists i. split; [done|].
    split; [|done]. intros <-. congruence. }
  cbn [fmap list_fmap]. case_decide as Hb.
  - apply list_filter_iff. intros t. destruct (decide (t = "")); [naive_solver|].
    rewrite not_elem_of_cons, Hrest by congruence. naive_solver.
  - rewrite list_filter_filter. apply list_filter_iff. intros t. rewrite not_elem_of_cons.
    destruct (decide (t = broadcast_topic record)) as [->|Ht]; [naive_solver|]. rewrite Hrest by done. naive_solver.
Qed.

(** C14: a sweep that runs to its end computes the reference, whatever the order in which the
    map is iterated and whatever the broker answers to the unsubscriptions; the topics
    that stay keep their order. *)
Theorem check_timeouts_is_swept order r e :
  (forall id, is_Some (records r !! id) -> id ∈ order) ->
  (check_timeouts order None r e).1.2 = swept (sweep_time e) r.
Proof.
  intros Horder. rewrite check_timeouts_eq, deregister_all_None. generalize (sweep_time e). intros now.
  destruct (drop_all_spec (stale_ids order now r) r) as (H1 & H2 & _).
  pose proof (drop_all_topics (stale_ids order now r) r) as H3. unfold swept.
  destruct (fold_left _ _ r) as [recs gws topics]. cbn [records known_gateways broadcast_topics] in *.
  assert (Hids : forall id record, records r !! id = Some record ->
    id ∈ stale_ids order now r <-> is_stale now record = true).
  { intros id record Hr. rewrite stale_ids_spec. split; [|naive_solver]. intros (_ & ? & ? & ?). congruence. }
  f_equal.
  - apply map_eq. intros id. rewrite H1, map_lookup_filter. destruct (records r !! id) as [record|] eqn:Hr; cbn.
    2: by case_decide.
    pose proof (Hids id record Hr) as Hi. destruct (is_stale now record); cbn; case_decide; naive_solver.
  - apply set_eq. intros url. rewrite H2, elem_of_difference, elem_of_stale_gateways.
    setoid_rewrite belongs_stale. unfold stale_beacon. naive_solver.
  - rewrite H3. apply list_filter_iff. intros t. rewrite elem_of_stale_topics, list_elem_of_fmap.
    setoid_rewrite list_elem_of_omap. setoid_rewrite stale_ids_spec. naive_solver.
Qed.

(** What a dropped sweep may have left undone: some stale records are gone. *)
Definition sweep_progress (now : Z) r r' : Prop :=
  (forall id record, records r !! id = Some record -> is_stale now record = false ->
     records r' !! id = Some record) /\
  records r' ⊆ records r /\
  known_gateways r' ⊆ known_gateways r /\
  (forall url, url ∈ known_gateways r -> url ∉ known_gateways r' ->
     exists id record, records r !! id = Some record /\ is_stale now record = true /\
       gateway_url record = Some url /\ records r' !! id = None) /\
  (forall t, t ∈ broadcast_topics r -> t ∉ broadcast_topics r' ->
     exists id record, records r !! id = Some record /\ is_stale now record = true /\
       broadcast_topic record = t /\ records r' !! id = None).

Lemma drop_effect_records id r r' : drop_effect id r r' -> records r' = delete id (records r).
Proof. destruct 1 as [Hr|record Hr|record Hr]; cbn; [by rewrite delete_id|done|done]. Qed.

(** C15: a sweep may be dropped at any await, when a message or a handshake arrives
    first.  Wherever that happens, no beacon heard of in the last 120 s is lost or
    changed, nothing is added, and a gateway or topic is only given up together with
    the stale beacon it belonged to. *)
Theorem check_timeouts_interrupted order b r e :
  sweep_progress (sweep_time e) r (check_timeouts order b r e).1.2.
Proof.
  rewrite check_timeouts_eq. set (now := sweep_time e).
  apply (deregister_all_inv (sweep_progress now r)).
  - intros id r1 r2 Hid Hd (P1 & P2 & P3 & P4 & P5). pose proof (drop_effect_records _ _ _ Hd) as Hr2.
    apply stale_ids_spec in Hid as (_ & record & Hrec & Hstale).
    assert (Hkeep : forall i, records r1 !! i = None -> records r2 !! i = None).
    { intros i Hi. rewrite Hr2. destruct (decide (i = id)) as [->|];
        [by rewrite lookup_delete_eq|by rewrite lookup_delete_ne]. }
    assert (Hsame : forall record1, records r1 !! id = Some record1 -> record1 = record).
    { intros record1 H1. eapply lookup_weaken in H1; [|exact P2]. congruence. }
    assert (Hgone : records r2 !! id = None) by (rewrite Hr2; apply lookup_delete_eq).
    split; [|split; [|split; [|split]]].
    + intros i rec' Hi Hs. rewrite Hr2, lookup_delete_ne; [by apply P1|]. congruence.
    + rewrite Hr2. etrans; [apply delete_subseteq|done].
    + etrans; [|exact P3]. destruct Hd as [|record1|record1]; cbn; [done|done|].
      unfold drop_gateway. destruct (gateway_url record1); [apply subseteq_difference_l|]; done.
    + intros url Hin Hout. destruct (decide (url ∈ known_gateways r1)) as [H1|H1].
      * exists id, record. split; [done|]. split; [done|]. split; [|done].
        destruct Hd as [|record1|record1 Hd1]; cbn in Hout; [done|done|].
        rewrite <- (Hsame record1 Hd1). unfold drop_gateway in Hout.
        destruct (gateway_url record1); [|done].
        apply not_elem_of_difference in Hout as [?|Hu]; [done|].
        apply elem_of_singleton in Hu. by rewrite Hu.
      * destruct (P4 url Hin H1) as (i & rec' & Hi & Hs & Hu & Hn). eauto 10.
    + intros t Hin Hout. destruct (decide (t ∈ broadcast_topics r1)) as [H1|H1].
      * exists id, record. split; [done|]. split; [done|]. split; [|done].
        destruct Hd as [|record1|record1 Hd1]; cbn in Hout; [done|done|].
        rewrite <- (Hsame record1 Hd1). unfold drop_topic in Hout.
        case_decide; [done|]. rewrite list_elem_of_filter in Hout.
        destruct (decide (t = broadcast_topic record1)); [done|tauto].
      * destruct (P5 t Hin H1) as (i & rec' & Hi & Hs & Hu & Hn). eauto 10.
  - split; [done|]. split; [done|]. split; [done|]. split; intros; done.
Qed.
End Timeouts.

(** ** A dropped sweep leaks

    One stale beacon, whose gateway is known and whose topic is published to.  The
    sweep is dropped while it waits for the reply to its unsubscription (or for the
    write lock, which the broadcast loop's read lock holds up while it sleeps between
    publications).  The record is gone, so no later sweep can clean up: the node goes
    on publishing to the dead topic and never connects to that gateway again. *)

Definition leak_record : BeaconRecord := mkBeacon "b/rec" "b/cast" 0 (Some "http://gw") (Some 0%nat).

Definition leak_registry : BeaconRegistry :=
  mkRegistry {[ "b" := leak_record ]} ({[ "http://own"; "http://gw" ]}) ["b/cast"].

(** The calm world, 200 s after the beacon was last heard of. *)
Definition late_env : @Env demo_ext := mkEnv (fun Y c n =>
  match c in Call Y return Y with
  | InstantNow => (200 * 10 ^ 9)%Z
  | c => oracle demo_env _ c n
  end) 0 [].

Example dropped_sweep_leaks :
  let r1 := (check_timeouts ["b"] (Some 1%nat) leak_registry late_env).1.2 in
  let r2 := (check_timeouts [] None r1 late_env).1.2 in
  records r2 = ∅ /\ broadcast_topics r2 = ["b/cast"] /\ is_gateway_known "http://gw" r2 = true.
Proof. by vm_compute. Qed.

Lemma check_timeouts_complete_witness :
  let r' := (check_timeouts ["b"] None leak_registry late_env).1.2 in
  records r' !! "b" = None /\ ("http://gw" ∉ known_gateways r') /\ ("b/cast" ∉ broadcast_topics r').
Proof.
  intros r'. destruct (check_timeouts_complete ["b"] leak_registry late_env) as (H1 & H2 & H3).
  { intros id [rec Hr]. unfold leak_registry in Hr. cbn in Hr.
    apply lookup_singleton_Some in Hr as [<- _]. by left. }
  assert (Hs : stale_beacon ["b"] (sweep_time late_env) leak_registry leak_record).
  { exists "b". split; [by left|]. split; [reflexivity|reflexivity]. }
  split; [|split].
  - destruct (records r' !! "b") as [rec|] eqn:Hb; [|reflexivity].
    apply H1 in Hb as [Hb Hst]. vm_compute in Hb. injection Hb as <-. vm_compute in Hst. discriminate Hst.
  - intros Hin. apply H2 in Hin as [_ Hn]. apply Hn. exists leak_record. by split.
  - intros Hin. apply H3 in Hin as [_ Hn]. apply Hn. exists leak_record. by split.
Defined.

Lemma check_timeouts_is_swept_witness :
  (check_timeouts ["b"] None leak_registry late_env).1.2 = swept (sweep_time late_env) leak_registry.
Proof.
  apply check_timeouts_is_swept. intros id [rec Hr]. unfold leak_registry in Hr. cbn in Hr.
  apply lookup_singleton_Some in Hr as [<- _]. by left.
Defined.
