(* ===== verification/MessageLoop.v ===== *)
(** * MessageLoop: what the application does with beacons (app.rs)

    [run_beacon_message_loop] waits for whichever comes first: a topic of a completed
    handshake, the sweep timer, or an MQTT message.  An [Arrival] is what one round of
    the [select!] delivers; a sweep comes with the budget it had before another branch
    of a [select!] dropped it (Registry.v), so a list of arrivals is one run of the
    loop, with every interleaving the [select!] allows among them.

    The state is the registry and the number of connections opened so far, which is the
    number of the next one.  A connection is open as long as a record holds its number:
    a sender that is not stored is dropped at the end of the round. *)

From Stdlib Require Import ZArith Lia.
From stdpp Require Import base list strings gmap.
From S2P Require Import Prelude RustStr Types Env Demo MqttClient CloudGateway Handshake Registry.

Record MsgLoop := mkLoop { lp_registry : BeaconRegistry; lp_next : nat }.

Inductive Arrival :=
| ArrChannel (channel : TopicChannel)
| ArrSweep (order : list string) (budget : Budget)
| ArrMessage (msg : MqttMessage).

Section MessageLoop.
Context {X : Ext}.

Definition on_registry {A} (m : Prog BeaconRegistry A) : Prog MsgLoop A :=
  zoom lp_registry (fun r l => mkLoop r (lp_next l)) m.

(** The sender's id, when the topic has the form [{id}/rec]. *)
Definition sender_id (msg : MqttMessage) : option string := strip_suffix "/rec" (msg_topic msg).

Definition beacon_payload (msg : MqttMessage) : Value :=
  match json_from_slice (msg_payload msg) with
  | Some v => v
  | None => json_of_string (from_utf8_lossy (msg_payload msg))
  end.

Definition beacon_gateway_url (payload : Value) : option string :=
  obj ← as_object payload; v ← obj !! "gateway_url"; as_str v.

(** A connection to [gw_url], the beacon's payload queued on it; its number. *)
Definition open_connection (server_url gw_url : string) (payload : Value) : Prog MsgLoop nat :=
  l ← get;
  let conn := lp_next l in
  _ ← put (mkLoop (lp_registry l) (S conn));
  _ ← connect_to_gateway server_url gw_url;
  _ ← gateway_send conn (BeaconRegistration server_url payload);
  mret conn.

Definition handle_message (server_url : string) (msg : MqttMessage) : Prog MsgLoop unit :=
  _ ← (match sender_id msg with
       | Some beacon_id => on_registry (update_last_seen beacon_id)
       | None => mret tt
       end);
  let payload := beacon_payload msg in
  match beacon_gateway_url payload with
  | None => mret tt
  | Some gw_url =>
      l ← get;
      if is_gateway_known gw_url (lp_registry l) then mret tt
      else
        _ ← on_registry (insert_gateway gw_url);
        conn ← open_connection server_url gw_url payload;
        match sender_id msg with
        | Some bid => on_registry (associate_gateway bid gw_url conn)
        | None => mret tt
        end
  end.

Definition loop_step (server_url : string) (a : Arrival) : Prog MsgLoop unit :=
  match a with
  | ArrChannel channel => on_registry (register_channel channel)
  | ArrSweep order budget => on_registry (check_timeouts order budget)
  | ArrMessage msg => handle_message server_url msg
  end.

Definition run_arrivals (server_url : string) (arrivals : list Arrival) : Prog MsgLoop unit :=
  for_each arrivals (loop_step server_url).

(** The loop from its first round; the list of topics is shared with the broadcasts. *)
Definition run_beacon_message_loop (server_url : string) (own_gateway_url : option string)
    (topics : list string) (arrivals : list Arrival) (e : Env) : MsgLoop * Env :=
  let '(_, l, e') :=
    run_arrivals server_url arrivals (mkLoop (BeaconRegistry_new own_gateway_url topics) 0) e in
  (l, e').
End MessageLoop.

(** ** Gateways and connections *)

(** The gateway a record holds a connection to, and the number of that connection. *)
Definition link (record : BeaconRecord) : option string * option nat :=
  (gateway_url record, gateway_shutdown_tx record).

(** No record holds a connection to [url], yet it counts as known. *)
Definition unowned (url : string) (r : BeaconRegistry) : Prop :=
  url ∈ known_gateways r /\
  forall id record, records r !! id = Some record -> gateway_url record <> Some url.

(** No link appears or changes, and a URL is only given up together with every link to it. *)
Record keeps_links (r r' : BeaconRegistry) : Prop := {
  kl_links id record' : records r' !! id = Some record' ->
    link record' = (None, None) \/
    exists record, records r !! id = Some record /\ link record = link record';
  kl_known url : url ∈ known_gateways r -> url ∉ known_gateways r' ->
    (exists id record, records r !! id = Some record /\ gateway_url record = Some url) /\
    forall id record', records r' !! id = Some record' -> gateway_url record' <> Some url;
}.

(** The links of a registry: to known gateways, one per gateway and one per connection,
    with connections that have been opened; and never to the node's own gateway. *)
Record links_ok (own : option string) (l : MsgLoop) : Prop := {
  lk_own url : own = Some url -> unowned url (lp_registry l);
  lk_known id record url : records (lp_registry l) !! id = Some record ->
    gateway_url record = Some url -> url ∈ known_gateways (lp_registry l);
  lk_paired id record : records (lp_registry l) !! id = Some record ->
    gateway_url record = None <-> gateway_shutdown_tx record = None;
  lk_gateway id1 id2 record1 record2 url : records (lp_registry l) !! id1 = Some record1 ->
    records (lp_registry l) !! id2 = Some record2 ->
    gateway_url record1 = Some url -> gateway_url record2 = Some url -> id1 = id2;
  lk_opened id record conn : records (lp_registry l) !! id = Some record ->
    gateway_shutdown_tx record = Some conn -> (conn < lp_next l)%nat;
  lk_conn id1 id2 record1 record2 conn : records (lp_registry l) !! id1 = Some record1 ->
    records (lp_registry l) !! id2 = Some record2 ->
    gateway_shutdown_tx record1 = Some conn -> gateway_shutdown_tx record2 = Some conn -> id1 = id2;
}.

Lemma keeps_links_unowned url r r' : keeps_links r r' -> unowned url r -> unowned url r'.
Proof.
  intros [K1 K2] [Hu Hn]. split.
  - destruct (decide (url ∈ known_gateways r')) as [|Hout]; [done|].
    destruct (K2 url Hu Hout) as [(id & record & Hr & Hg) _]. by destruct (Hn id record Hr).
  - intros id record' Hr' Hg. destruct (K1 id record' Hr') as [Hl|(record & Hr & Hl)].
    + injection Hl. congruence.
    + apply (Hn id record Hr). injection Hl. congruence.
Qed.

Lemma keeps_links_refl r : keeps_links r r.
Proof. split; [eauto|done]. Qed.

(** Same records up to the other fields, same gateways. *)
Lemma keeps_links_same r r' :
  known_gateways r' = known_gateways r ->
  (forall id record', records r' !! id = Some record' ->
    link record' = (None, None) \/
    exists record, records r !! id = Some record /\ link record = link record') ->
  keeps_links r r'.
Proof. intros Hk Hl. split; [done|]. rewrite Hk. done. Qed.

Lemma keeps_links_ok own l r' :
  keeps_links (lp_registry l) r' -> links_ok own l -> links_ok own (mkLoop r' (lp_next l)).
Proof.
  intros Hk Hl. pose proof Hk as [K1 K2].
  (* each linked record was there before *)
  assert (Hback : forall id record', records r' !! id = Some record' ->
    (gateway_url record' <> None \/ gateway_shutdown_tx record' <> None) ->
    exists record, records (lp_registry l) !! id = Some record /\
      gateway_url record = gateway_url record' /\ gateway_shutdown_tx record = gateway_shutdown_tx record').
  { intros id record' Hr' Hn. destruct (K1 id record' Hr') as [[= ? ?]|(record & Hr & [= ? ?])]; [tauto|eauto]. }
  split; cbn.
  - intros url Ho. eapply keeps_links_unowned; [done|]. by apply Hl.
  - intros id record' url Hr' Hg. destruct (Hback id record' Hr') as (record & Hr & Hu & _); [left; congruence|].
    destruct (decide (url ∈ known_gateways r')) as [|Hout]; [done|].
    destruct (K2 url) as [_ Hn]; [|done|by destruct (Hn id record' Hr')].
    eapply lk_known; [done|exact Hr|congruence].
  - intros id record' Hr'. destruct (K1 id record' Hr') as [[= -> ->]|(record & Hr & [= <- <-])]; [done|].
    by eapply lk_paired.
  - intros id1 id2 record1 record2 url Hr1 Hr2 Hg1 Hg2.
    destruct (Hback id1 record1 Hr1) as (x1 & ? & ? & _); [left; congruence|].
    destruct (Hback id2 record2 Hr2) as (x2 & ? & ? & _); [left; congruence|].
    eapply (lk_gateway own l Hl id1 id2 x1 x2 url); congruence.
  - intros id record' conn Hr' Hg. destruct (Hback id record' Hr') as (record & ? & _ & ?); [right; congruence|].
    eapply (lk_opened own l Hl id record conn); congruence.
  - intros id1 id2 record1 record2 conn Hr1 Hr2 Hg1 Hg2.
    destruct (Hback id1 record1 Hr1) as (x1 & ? & _ & ?); [right; congruence|].
    destruct (Hback id2 record2 Hr2) as (x2 & ? & _ & ?); [right; congruence|].
    eapply (lk_conn own l Hl id1 id2 x1 x2 conn); congruence.
Qed.

(** A sweep gives a URL up only with the one record linked to it. *)
Lemma drop_effect_keeps own l id r' :
  links_ok own l -> drop_effect id (lp_registry l) r' -> keeps_links (lp_registry l) r'.
Proof.
  intros Hl Hd. destruct Hd as [Hr|record Hr|record Hr]; [apply keeps_links_refl|..].
  - apply keeps_links_same; [done|]. cbn. intros i rec' [? Hi]%lookup_delete_Some. eauto.
  - split; cbn.
    + intros i rec' [? Hi]%lookup_delete_Some. eauto.
    + unfold drop_gateway. intros url Hin Hout. destruct (gateway_url record) as [u|] eqn:Hu; [|done].
      apply not_elem_of_difference in Hout as [?|Hout]; [done|]. apply elem_of_singleton in Hout as ->.
      split; [eauto|].
      intros i rec' [Hne Hi]%lookup_delete_Some Hg. apply Hne. symmetry.
      by eapply (lk_gateway own l Hl i id rec' record u).
Qed.

Section Theory.
Context {X : Ext}.
Implicit Types (r : BeaconRegistry) (l : MsgLoop) (e : Env).

Lemma subscribe_state {S} topic qos (s : S) e : (subscribe topic qos s e).1.2 = s.
Proof. unfold subscribe, send_command. run_prog. case_answer; [|done]. by run_prog. Qed.

(** An update that leaves a record's link alone. *)
Lemma alter_keeps_links id (f : BeaconRecord -> BeaconRecord) r :
  (forall record, link (f record) = link record) -> keeps_links r (set_records (alter f id) r).
Proof.
  intros Hf. apply keeps_links_same; [done|]. cbn. intros i rec' Hi.
  rewrite lookup_alter in Hi. case_decide; [subst|eauto].
  apply fmap_Some in Hi as (record & Hr & ->). right. exists record. by rewrite Hf.
Qed.

Lemma keeps_links_trans r1 r2 r3 :
  known_gateways r2 = known_gateways r1 -> keeps_links r1 r2 -> keeps_links r2 r3 -> keeps_links r1 r3.
Proof.
  intros Hk [K1 K2] [K3 K4]. split.
  - intros id x Hx. destruct (K3 id x Hx) as [H|(y & Hy & <-)]; [by left|by apply K1].
  - intros url Hin Hout. rewrite <- Hk in Hin. destruct (K4 url Hin Hout) as [(id & y & Hy & Hg) Hn].
    split; [|done]. destruct (K1 id y Hy) as [[= ? ?]|(x & Hx & [= ? ?])]; [congruence|].
    exists id, x. split; [done|congruence].
Qed.

Lemma set_topics_keeps_links f r : keeps_links r (set_topics f r).
Proof. apply keeps_links_same; [done|]. cbn. eauto. Qed.

Lemma ensure_record_keeps id r e :
  known_gateways (ensure_record id r e).1.2 = known_gateways r /\ keeps_links r (ensure_record id r e).1.2.
Proof.
  unfold ensure_record. run_prog. destruct (records r !! id) eqn:Hr; run_prog; (split; [done|]); [apply keeps_links_refl|].
  apply keeps_links_same; [done|]. cbn. intros i rec' Hi.
  rewrite lookup_insert in Hi. case_decide; [injection Hi as <-; by left|eauto].
Qed.

Lemma register_channel_keeps ch r e : keeps_links r (register_channel ch r e).1.2.
Proof.
  unfold register_channel, mbind, prog_bind.
  destruct (ensure_record_keeps (ch_beacon_id ch) r e) as [Hk Hl].
  destruct (ensure_record _ r e) as [[u r1] e1]. cbn in Hk, Hl.
  apply (keeps_links_trans r r1); [done|done|].
  destruct (ch_topic_type ch).
  - pose proof (subscribe_state (tc_topic (ch_topic ch)) (qos_from_u8 (tc_qos (ch_topic ch))) r1 e1) as Hs.
    destruct (subscribe _ _ r1 e1) as [[[] r2] e2]; cbn in Hs; subst r2; [|apply keeps_links_refl].
    by apply alter_keeps_links.
  - apply (keeps_links_trans _ (set_topics (fun ts => ts ++ [tc_topic (ch_topic ch)]) r1));
      [done|apply set_topics_keeps_links|by apply alter_keeps_links].
  - pose proof (subscribe_state (tc_topic (ch_topic ch)) (qos_from_u8 (tc_qos (ch_topic ch))) r1 e1) as Hs.
    destruct (subscribe _ _ r1 e1) as [[[] r2] e2]; cbn in Hs; subst r2; [|apply keeps_links_refl].
    apply (keeps_links_trans _ (set_topics (fun ts => ts ++ [tc_topic (ch_topic ch)]) r1));
      [done|apply set_topics_keeps_links|by apply alter_keeps_links].
Qed.

(** *** Messages *)

(** The sender noted, before the payload is looked at. *)
Definition note_sender (msg : MqttMessage) : Prog MsgLoop unit :=
  match sender_id msg with
  | Some beacon_id => on_registry (update_last_seen beacon_id)
  | None => mret tt
  end.

(** The registry once connection [conn] to [url] is open. *)
Definition link_up (sender : option string) (url : string) (conn : nat) r : BeaconRegistry :=
  let r' := set_gateways (fun g => {[ url ]} ∪ g) r in
  match sender with
  | Some id => set_records (alter (with_gateway url conn) id) r'
  | None => r'
  end.

(** The two calls that open a connection. *)
Definition opening (server_url url : string) (conn : nat) (payload : Value) e : list Event :=
  let spawn := Spawn (WsConnectionTask server_url (compute_ws_url url)) in
  let send := GatewaySend conn (BeaconRegistration server_url payload) in
  [Ev spawn (oracle e _ spawn (clk e)); Ev send (oracle e _ send (S (clk e)))].

Lemma handle_message_eq server_url msg l e :
  handle_message server_url msg l e =
  let '(_, l1, e1) := note_sender msg l e in
  match beacon_gateway_url (beacon_payload msg) with
  | None => (tt, l1, e1)
  | Some url =>
      if is_gateway_known url (lp_registry l1) then (tt, l1, e1)
      else (tt, mkLoop (link_up (sender_id msg) url (lp_next l1) (lp_registry l1)) (S (lp_next l1)),
            mkEnv (oracle e1) (S (S (clk e1)))
              (trace e1 ++ opening server_url url (lp_next l1) (beacon_payload msg) e1))
  end.
Proof.
  unfold handle_message. fold (note_sender msg). unfold mbind at 1, prog_bind.
  destruct (note_sender msg l e) as [[u l1] e1].
  destruct (beacon_gateway_url (beacon_payload msg)) as [url|]; [|done].
  unfold mbind at 1, prog_bind, get. destruct (is_gateway_known url (lp_registry l1)); [done|].
  unfold opening, open_connection, connect_to_gateway, gateway_send, insert_gateway,
    associate_gateway, update_record, on_registry, zoom, modify, mbind, prog_bind, get, put, call, mret, prog_ret.
  cbn. rewrite <- app_assoc. by destruct (sender_id msg).
Qed.

Lemma update_last_seen_keeps id r e :
  known_gateways (update_last_seen id r e).1.2 = known_gateways r /\
  keeps_links r (update_last_seen id r e).1.2.
Proof.
  unfold update_last_seen. run_prog. destruct (records r !! id); run_prog; [|by split; [|apply keeps_links_refl]].
  split; [done|]. by apply alter_keeps_links.
Qed.

(** The connections a trace opened, and what was queued on them. *)
Definition opened (ev : Event) : option string :=
  match ev with Ev c _ => match c with Spawn (WsConnectionTask _ ws_url) => Some ws_url | _ => None end end.

Definition queued (ev : Event) : option (nat * GatewayMessage Value) :=
  match ev with Ev c _ => match c with GatewaySend conn msg => Some (conn, msg) | _ => None end end.

Lemma update_last_seen_silent {B} (f : Event -> option B) id :
  (forall y, f (Ev InstantNow y) = None) -> silent f (update_last_seen id).
Proof. intros Hf. unfold update_last_seen, update_record. silence. Qed.

Lemma note_sender_keeps msg l e :
  let '(_, l1, e1) := note_sender msg l e in
  lp_next l1 = lp_next l /\ known_gateways (lp_registry l1) = known_gateways (lp_registry l) /\
  keeps_links (lp_registry l) (lp_registry l1) /\
  omap opened (trace e1) = omap opened (trace e) /\ omap queued (trace e1) = omap queued (trace e).
Proof.
  unfold note_sender. destruct (sender_id msg) as [id|]; cbn; [|by split; [|split; [|split; [apply keeps_links_refl|]]]].
  unfold on_registry, zoom. destruct (update_last_seen_keeps id (lp_registry l) e) as [H1 H2].
  pose proof (update_last_seen_silent opened id ltac:(done) (lp_registry l) e) as H3.
  pose proof (update_last_seen_silent queued id ltac:(done) (lp_registry l) e) as H4.
  by destruct (update_last_seen id (lp_registry l) e) as [[u r1] e1].
Qed.

Lemma link_up_lookup sender url conn r id record' :
  records (link_up sender url conn r) !! id = Some record' ->
  (sender = Some id /\ link record' = (Some url, Some conn)) \/ records r !! id = Some record'.
Proof.
  unfold link_up. destruct sender as [i|]; cbn; [|eauto]. rewrite lookup_alter. case_decide; [subst|eauto].
  intros (record & Hr & ->)%fmap_Some. by left.
Qed.

Lemma link_up_ok own sender url l :
  url ∉ known_gateways (lp_registry l) -> links_ok own l ->
  links_ok own (mkLoop (link_up sender url (lp_next l) (lp_registry l)) (S (lp_next l))).
Proof.
  intros Hu Hl.
  assert (Hk : known_gateways (link_up sender url (lp_next l) (lp_registry l))
               = ({[ url ]} ∪ known_gateways (lp_registry l))) by by destruct sender.
  assert (Hold : forall id record u, records (lp_registry l) !! id = Some record ->
    gateway_url record = Some u -> u <> url).
  { intros id record u Hr Hg ->. by apply Hu, (lk_known own l Hl id record). }
  assert (Hlt : forall id record c, records (lp_registry l) !! id = Some record ->
    gateway_shutdown_tx record = Some c -> c <> lp_next l).
  { intros id record c Hr Hg ->. pose proof (lk_opened own l Hl id record _ Hr Hg). lia. }
  split; cbn [lp_registry lp_next].
  - intros u Ho. destruct (lk_own own l Hl u Ho) as [H1 H2]. split; [rewrite Hk; set_solver|].
    intros id record [[_ [= -> _]]|Hr]%link_up_lookup; [congruence|by apply (H2 id)].
  - intros id record u [[_ [= -> _]]|Hr]%link_up_lookup Hg; rewrite Hk; [set_solver|].
    apply elem_of_union_r. by apply (lk_known own l Hl id record).
  - intros id record [[_ [= -> ->]]|Hr]%link_up_lookup; [done|by apply (lk_paired own l Hl id)].
  - intros id1 id2 x1 x2 u [[? [= E1 _]]|H1]%link_up_lookup [[? [= E2 _]]|H2]%link_up_lookup Hg1 Hg2.
    + congruence.
    + destruct (Hold id2 x2 u H2 Hg2). congruence.
    + destruct (Hold id1 x1 u H1 Hg1). congruence.
    + by apply (lk_gateway own l Hl id1 id2 x1 x2 u).
  - intros id record c [[_ [= _ ->]]|Hr]%link_up_lookup Hg; [injection Hg; lia|].
    pose proof (lk_opened own l Hl id record c Hr Hg). lia.
  - intros id1 id2 x1 x2 c [[? [= _ E1]]|H1]%link_up_lookup [[? [= _ E2]]|H2]%link_up_lookup Hg1 Hg2.
    + congruence.
    + destruct (Hlt id2 x2 c H2 Hg2). congruence.
    + destruct (Hlt id1 x1 c H1 Hg1). congruence.
    + by apply (lk_conn own l Hl id1 id2 x1 x2 c).
Qed.

(** *** Any arrival *)

(** Dropping one stale beacon after another, each completely or in part. *)
Lemma sweep_links own order b l e :
  links_ok own l ->
  let r' := (check_timeouts order b (lp_registry l) e).1.2 in
  links_ok own (mkLoop r' (lp_next l)) /\ forall url, unowned url (lp_registry l) -> unowned url r'.
Proof.
  intros Hl. cbn zeta. rewrite check_timeouts_eq.
  apply (deregister_all_inv (fun r' => links_ok own (mkLoop r' (lp_next l)) /\
    forall url, unowned url (lp_registry l) -> unowned url r')); [|by destruct l].
  intros id r1 r2 _ Hd [H1 H2]. pose proof (drop_effect_keeps own _ id r2 H1 Hd) as Hk.
  split; [by apply (keeps_links_ok own (mkLoop r1 (lp_next l)))|].
  intros url Hu. apply (keeps_links_unowned url r1); [done|by apply H2].
Qed.

Lemma unknown_url url r : is_gateway_known url r = false -> url ∉ known_gateways r.
Proof. by intros ?%bool_decide_eq_false. Qed.

Lemma link_up_unowned sender url url' conn r :
  url <> url' -> unowned url' r -> unowned url' (link_up sender url conn r).
Proof.
  intros Hne [H1 H2]. split; [destruct sender; cbn; set_solver|].
  intros id record [[_ [= -> _]]|Hr]%link_up_lookup; [congruence|by apply (H2 id)].
Qed.

Lemma loop_step_links own server_url a l e :
  links_ok own l ->
  let l' := (loop_step server_url a l e).1.2 in
  links_ok own l' /\ forall url, unowned url (lp_registry l) -> unowned url (lp_registry l').
Proof.
  intros Hl. cbn zeta. destruct a as [ch|order b|msg]; cbn [loop_step].
  - unfold on_registry, zoom. pose proof (register_channel_keeps ch (lp_registry l) e) as Hk.
    destruct (register_channel ch (lp_registry l) e) as [[u r'] e']. cbn in *.
    split; [by apply keeps_links_ok|]. intros url. by apply keeps_links_unowned.
  - unfold on_registry, zoom. pose proof (sweep_links own order b l e Hl) as Hk.
    by destruct (check_timeouts order b (lp_registry l) e) as [[u r'] e'].
  - rewrite handle_message_eq. pose proof (note_sender_keeps msg l e) as Hn.
    destruct (note_sender msg l e) as [[u l1] e1]. destruct Hn as (Hnext & _ & Hk & _).
    pose proof (keeps_links_ok own l _ Hk Hl) as Hl1. rewrite <- Hnext in Hl1.
    replace (mkLoop (lp_registry l1) (lp_next l1)) with l1 in Hl1 by by destruct l1.
    assert (Hu1 : forall url, unowned url (lp_registry l) -> unowned url (lp_registry l1))
      by (intros url; by apply keeps_links_unowned).
    destruct (beacon_gateway_url (beacon_payload msg)) as [url|]; [|done].
    destruct (is_gateway_known url (lp_registry l1)) eqn:Hkn; [done|]. apply unknown_url in Hkn.
    split; [by apply link_up_ok|]. intros url' Hu'. apply Hu1 in Hu'. cbn.
    apply link_up_unowned; [|done]. intros ->. by apply Hkn, Hu'.
Qed.

Lemma run_arrivals_links own server_url arrivals l e :
  links_ok own l ->
  let l' := (run_arrivals server_url arrivals l e).1.2 in
  links_ok own l' /\ forall url, unowned url (lp_registry l) -> unowned url (lp_registry l').
Proof.
  revert l e. induction arrivals as [|a arrivals IH]; intros l e Hl; [done|].
  unfold run_arrivals in *. cbn [for_each]. unfold mbind, prog_bind.
  destruct (loop_step_links own server_url a l e Hl) as [H1 H2].
  destruct (loop_step server_url a l e) as [[u l1] e1]. cbn in H1, H2.
  destruct (IH l1 e1 H1) as [H3 H4]. cbn zeta. eauto.
Qed.

Lemma links_ok_new own topics : links_ok own (mkLoop (BeaconRegistry_new own topics) 0).
Proof.
  split; cbn; try (intros; by rewrite lookup_empty in * ).
  intros url ->. split; [set_solver|done].
Qed.

Lemma loop_links_ok server_url own topics arrivals e :
  links_ok own (run_beacon_message_loop server_url own topics arrivals e).1.
Proof.
  unfold run_beacon_message_loop.
  destruct (run_arrivals_links own server_url arrivals _ e (links_ok_new own topics)) as [H _].
  by destruct (run_arrivals _ _ _ _) as [[u l'] e'].
Qed.

(** C4: in every run of the message loop, however handshakes, messages and sweeps (complete
    or dropped half-way) interleave: every open connection goes to a gateway counted as
    known, no two open connections go to the same gateway, no connection is held by two
    beacons, and none is ever opened to the node's own gateway, which stays known. *)
Theorem open_connections_invariant server_url own topics arrivals e :
  links_ok own (run_beacon_message_loop server_url own topics arrivals e).1.
Proof. apply loop_links_ok. Qed.

(** What a message advertising [url] does when its gateway is new. *)
Definition connects server_url msg url l l' (tr tr' : list Event) : Prop :=
  omap opened tr' = omap opened tr ++ [compute_ws_url url] /\
  omap queued tr' = omap queued tr ++ [(lp_next l, BeaconRegistration server_url (beacon_payload msg))] /\
  known_gateways (lp_registry l') = {[ url ]} ∪ known_gateways (lp_registry l) /\
  forall id, (exists record, records (lp_registry l') !! id = Some record /\
                link record = (Some url, Some (lp_next l))) <->
    sender_id msg = Some id /\ is_Some (records (lp_registry l) !! id).

Lemma note_sender_records msg l e id :
  is_Some (records (lp_registry (note_sender msg l e).1.2) !! id) <-> is_Some (records (lp_registry l) !! id).
Proof.
  unfold note_sender. destruct (sender_id msg) as [i|]; [|done].
  unfold on_registry, zoom, update_last_seen. run_prog.
  destruct (records (lp_registry l) !! i) as [record|] eqn:Hr; run_prog; [|done].
  rewrite lookup_alter. case_decide; [subst; by rewrite Hr|done].
Qed.

Lemma message_effect server_url own msg l e :
  links_ok own l ->
  let '(_, l', e') := handle_message server_url msg l e in
  match beacon_gateway_url (beacon_payload msg) with
  | Some url =>
      if is_gateway_known url (lp_registry l)
      then omap opened (trace e') = omap opened (trace e) /\ omap queued (trace e') = omap queued (trace e)
           /\ known_gateways (lp_registry l') = known_gateways (lp_registry l)
      else connects server_url msg url l l' (trace e) (trace e')
  | None => omap opened (trace e') = omap opened (trace e) /\ omap queued (trace e') = omap queued (trace e)
            /\ known_gateways (lp_registry l') = known_gateways (lp_registry l)
  end.
Proof.
  intros Hl. rewrite handle_message_eq. pose proof (note_sender_keeps msg l e) as Hn.
  pose proof (note_sender_records msg l e) as Hrec.
  destruct (note_sender msg l e) as [[u l1] e1]. destruct Hn as (Hnext & Hkn & Hk & Ho & Hq). cbn in Hrec.
  destruct (beacon_gateway_url (beacon_payload msg)) as [url|]; [|done].
  unfold is_gateway_known. rewrite Hkn. case_bool_decide as Hu; [done|].
  unfold connects. cbn [trace lp_registry]. split; [by rewrite omap_app, Ho|].
  split; [by rewrite omap_app, Hq, Hnext|].
  split; [rewrite <- Hkn; by destruct (sender_id msg)|].
  intros id. rewrite <- Hrec, <- Hnext. split.
  - intros (record & Hr & [= Hg Hc]). pose proof Hr as [[Hs _]|Hr1]%link_up_lookup.
    + split; [done|]. rewrite Hs in Hr. cbn in Hr. rewrite lookup_alter_eq in Hr.
      apply fmap_Some in Hr as (? & -> & _). eauto.
    + pose proof (keeps_links_ok own l _ Hk Hl) as Hl1.
      pose proof (lk_opened _ _ Hl1 id record _ Hr1 Hc) as Hlt. cbn in Hlt. lia.
  - intros [-> [record Hr]]. unfold link_up. cbn. rewrite lookup_alter_eq, Hr. cbn. eauto.
Qed.


(** C10: a beacon's message opens a connection exactly when its payload is an object whose
    [gateway_url] is a string that is not yet known.  The connection is then the only
    one opened, the payload is the only thing queued on it, the URL becomes known, and
    the connection stays open exactly when the message came on [{id}/rec] from a
    registered beacon, with whose record it is stored.  Any other message opens
    nothing and changes no gateway. *)
Theorem message_connects_when_new server_url own msg l e :
  links_ok own l ->
  let '(_, l', e') := handle_message server_url msg l e in
  match beacon_gateway_url (beacon_payload msg) with
  | Some url =>
      if is_gateway_known url (lp_registry l)
      then omap opened (trace e') = omap opened (trace e) /\ omap queued (trace e') = omap queued (trace e)
           /\ known_gateways (lp_registry l') = known_gateways (lp_registry l)
      else connects server_url msg url l l' (trace e) (trace e')
  | None => omap opened (trace e') = omap opened (trace e) /\ omap queued (trace e') = omap queued (trace e)
            /\ known_gateways (lp_registry l') = known_gateways (lp_registry l)
  end.
Proof. apply message_effect. Qed.

Lemma known_opens_nothing server_url msg url l e :
  beacon_gateway_url (beacon_payload msg) = Some url -> url ∈ known_gateways (lp_registry l) ->
  omap opened (trace (handle_message server_url msg l e).2) = omap opened (trace e).
Proof.
  intros Hurl Hu. rewrite handle_message_eq. pose proof (note_sender_keeps msg l e) as Hn.
  destruct (note_sender msg l e) as [[u l1] e1]. destruct Hn as (_ & Hkn & _ & Ho & _).
  unfold is_gateway_known. by rewrite Hurl, Hkn, bool_decide_eq_true_2.
Qed.

(** C21: a connection a message opens without a registered sender (on the topic
    [registration], say) is stored nowhere, so it is closed at the end of the round,
    its payload possibly unsent; but its gateway stays known, and whatever arrives
    afterwards, no message advertising that gateway ever opens a connection again. *)
Theorem unstored_connection_loses_gateway server_url own msg url l e :
  links_ok own l ->
  beacon_gateway_url (beacon_payload msg) = Some url ->
  is_gateway_known url (lp_registry l) = false ->
  (forall id, sender_id msg = Some id -> records (lp_registry l) !! id = None) ->
  let '(_, l1, e1) := handle_message server_url msg l e in
  omap opened (trace e1) = omap opened (trace e) ++ [compute_ws_url url] /\
  (forall id record, records (lp_registry l1) !! id = Some record ->
     gateway_shutdown_tx record <> Some (lp_next l)) /\
  forall arrivals msg', beacon_gateway_url (beacon_payload msg') = Some url ->
    let '(_, l2, e2) := run_arrivals server_url arrivals l1 e1 in
    omap opened (trace (handle_message server_url msg' l2 e2).2) = omap opened (trace e2).
Proof.
  intros Hl Hurl Hu Hs.
  pose proof (loop_step_links own server_url (ArrMessage msg) l e Hl) as [Hl1 _]. cbn [loop_step] in Hl1.
  pose proof (message_effect server_url own msg l e Hl) as Hc. rewrite Hurl, Hu in Hc.
  rewrite handle_message_eq in *. pose proof (note_sender_keeps msg l e) as Hn.
  pose proof (note_sender_records msg l e) as Hrec.
  destruct (note_sender msg l e) as [[u l0] e0]. destruct Hn as (Hnext & Hkn & Hk & _). cbn in Hrec.
  rewrite Hurl in *. unfold is_gateway_known in *. rewrite Hkn, Hu in *.
  assert (Hl0 := keeps_links_ok own l _ Hk Hl).
  (* a link of the new state was there before *)
  assert (Hold : forall id record, records (link_up (sender_id msg) url (lp_next l0) (lp_registry l0)) !! id
    = Some record -> records (lp_registry l0) !! id = Some record).
  { intros id record Hr. pose proof Hr as [[Hid _]|]%link_up_lookup; [|done].
    rewrite Hid in Hr. cbn in Hr. rewrite lookup_alter_eq in Hr.
    apply fmap_Some in Hr as (record0 & Hr & _). specialize (Hs id Hid).
    rewrite eq_None_not_Some, <- Hrec in Hs. by destruct Hs. }
  unfold connects in Hc. cbn [lp_registry lp_next trace] in *. destruct Hc as (Ho & _ & Hkn1 & _). split; [done|]. split.
  - intros id record Hr%Hold Hg. pose proof (lk_opened _ _ Hl0 id record _ Hr Hg) as H. cbn in H. lia.
  - intros arrivals msg' Hurl'.
    assert (Hun : unowned url (link_up (sender_id msg) url (lp_next l0) (lp_registry l0))).
    { split; [rewrite Hkn1; set_solver|]. intros id record Hr%Hold Hg.
      apply bool_decide_eq_false in Hu. apply Hu. rewrite <- Hkn.
      by apply (lk_known _ _ Hl0 id record). }
    match goal with |- context [run_arrivals server_url arrivals ?l1 ?e1] =>
      destruct (run_arrivals_links own server_url arrivals l1 e1 Hl1) as [_ H2];
      destruct (run_arrivals server_url arrivals l1 e1) as [[v l2] e2] end.
    eapply known_opens_nothing; [done|]. by apply H2.
Qed.
End Theory.

(** ** Broadcast topics *)

(** The broadcast topic a beacon is registered with; [""] for none yet. *)
Definition cast_of (r : BeaconRegistry) (id : string) : option string :=
  broadcast_topic <$> records r !! id.

(** Every beacon's topic is its own, and is published to. *)
Definition casts_listed (r : BeaconRegistry) : Prop :=
  forall id t, cast_of r id = Some t -> t = "" \/ t = id +:+ "/cast" /\ t ∈ broadcast_topics r.

(** Every topic published to is some beacon's. *)
Definition topics_owned (r : BeaconRegistry) : Prop :=
  forall t, t ∈ broadcast_topics r -> t <> "" /\ exists id, cast_of r id = Some t.

(** The topics of a handshake (handlers.rs), and sweeps that are not dropped. *)
Definition from_handshake (a : Arrival) : Prop :=
  match a with
  | ArrChannel ch => exists id, ch = listen_channel id \/ ch = broadcast_channel id
  | _ => True
  end.

Definition uninterrupted (a : Arrival) : Prop :=
  match a with ArrSweep _ b => b = None | _ => True end.

Lemma cast_name_inj id1 id2 : id1 +:+ "/cast" = id2 +:+ "/cast" -> id1 = id2.
Proof. apply app_str_inj_r. Qed.

Lemma cast_name_nonempty id : id +:+ "/cast" <> "".
Proof. by destruct id. Qed.

Section Topics.
Context {X : Ext}.
Implicit Types (r : BeaconRegistry) (l : MsgLoop) (e : Env).

Definition same_topics r r' : Prop :=
  broadcast_topics r' = broadcast_topics r /\ forall id, cast_of r' id = cast_of r id.

Lemma alter_same_topics id f r :
  (forall record, broadcast_topic (f record) = broadcast_topic record) ->
  same_topics r (set_records (alter f id) r).
Proof.
  intros Hf. split; [done|]. intros i. unfold cast_of. cbn. rewrite lookup_alter. case_decide; [subst|done].
  destruct (records r !! i); cbn; by rewrite ?Hf.
Qed.

Lemma handle_message_topics server_url msg l e :
  same_topics (lp_registry l) (lp_registry (handle_message server_url msg l e).1.2).
Proof.
  rewrite handle_message_eq.
  assert (Hn : same_topics (lp_registry l) (lp_registry (note_sender msg l e).1.2)).
  { unfold note_sender. destruct (sender_id msg) as [id|]; [|done].
    unfold on_registry, zoom, update_last_seen. run_prog.
    destruct (records (lp_registry l) !! id); run_prog; [|done]. by apply alter_same_topics. }
  destruct (note_sender msg l e) as [[u l1] e1]. cbn in Hn.
  destruct (beacon_gateway_url (beacon_payload msg)) as [url|]; [|done].
  destruct (is_gateway_known url (lp_registry l1)); [done|]. cbn. unfold link_up.
  destruct (sender_id msg) as [id|]; [|done].
  destruct Hn as [H1 H2]. destruct (alter_same_topics id (with_gateway url (lp_next l1))
    (set_gateways (fun g => {[ url ]} ∪ g) (lp_registry l1))) as [H3 H4]; [done|].
  split; [by rewrite H3|]. intros i. rewrite H4. apply H2.
Qed.

(** The cases of a handshake's topics. *)
Lemma ensure_record_casts id r e :
  broadcast_topics (ensure_record id r e).1.2 = broadcast_topics r /\
  is_Some (records (ensure_record id r e).1.2 !! id) /\
  forall i, cast_of (ensure_record id r e).1.2 i =
    if decide (i = id /\ records r !! id = None) then Some "" else cast_of r i.
Proof.
  unfold ensure_record. run_prog. destruct (records r !! id) eqn:Hr; run_prog.
  - split; [done|]. split; [eauto|]. intros i. rewrite decide_False; [done|]. by intros [_ ?].
  - split; [done|]. split; [rewrite lookup_insert_eq; eauto|]. intros i. unfold cast_of. cbn.
    rewrite lookup_insert. case_decide; [subst; by rewrite decide_True|].
    rewrite decide_False; [done|]. by intros [-> _].
Qed.

Lemma ensure_record_ok id r e :
  (casts_listed r -> casts_listed (ensure_record id r e).1.2) /\
  (topics_owned r -> topics_owned (ensure_record id r e).1.2).
Proof.
  destruct (ensure_record_casts id r e) as (H1 & _ & H3). split; intros Hr.
  - intros i t. rewrite H1, H3. case_decide; [intros [= <-]; by left|apply Hr].
  - intros t. rewrite H1. intros Ht. destruct (Hr t Ht) as [Hne [i Hi]]. split; [done|]. exists i. rewrite H3.
    case_decide as Hd; [|done]. destruct Hd as [-> Hd]. unfold cast_of in Hi. by rewrite Hd in Hi.
Qed.

Lemma listen_channel_topics id r e :
  same_topics (ensure_record id r e).1.2 (register_channel (listen_channel id) r e).1.2.
Proof.
  unfold register_channel, mbind, prog_bind. cbn [ch_beacon_id listen_channel ch_topic_type].
  destruct (ensure_record id r e) as [[u r1] e1]. cbn.
  match goal with |- context [subscribe ?t ?q r1 e1] =>
    pose proof (subscribe_state t q r1 e1) as Hs; destruct (subscribe t q r1 e1) as [[[] r2] e2] end;
    cbn in Hs; subst r2; [|done]. by apply alter_same_topics.
Qed.

Lemma broadcast_channel_topics id r e :
  let r1 := (ensure_record id r e).1.2 in
  let r' := (register_channel (broadcast_channel id) r e).1.2 in
  broadcast_topics r' = broadcast_topics r1 ++ [id +:+ "/cast"] /\
  forall i, cast_of r' i = if decide (i = id) then Some (id +:+ "/cast") else cast_of r1 i.
Proof.
  destruct (ensure_record_casts id r e) as (_ & [record H2] & _). cbn zeta.
  unfold register_channel, mbind, prog_bind. cbn [ch_beacon_id broadcast_channel ch_topic_type].
  destruct (ensure_record id r e) as [[u r1] e1]. cbn in *. split; [done|].
  intros i. unfold cast_of. cbn. rewrite lookup_alter. destruct (decide (id = i)) as [->|].
  - by rewrite decide_True, H2.
  - by rewrite decide_False.
Qed.

Lemma same_topics_ok r r' :
  same_topics r r' -> (casts_listed r -> casts_listed r') /\ (topics_owned r -> topics_owned r').
Proof.
  intros [H1 H2]. unfold casts_listed, topics_owned. rewrite H1.
  split; intros Hr; [intros id t|intros t Ht]; setoid_rewrite H2; auto.
Qed.

Lemma register_channel_topics ch r e :
  from_handshake (ArrChannel ch) ->
  (casts_listed r -> casts_listed (register_channel ch r e).1.2) /\
  (casts_listed r -> topics_owned r -> topics_owned (register_channel ch r e).1.2).
Proof.
  intros [id [-> | ->]]; destruct (ensure_record_ok id r e) as [E1 E2].
  - destruct (same_topics_ok _ _ (listen_channel_topics id r e)). tauto.
  - destruct (broadcast_channel_topics id r e) as [H1 H2]. split.
    + intros Hr%E1 i t. rewrite H1, H2. case_decide; [intros [= <-]; subst; right; set_solver|].
      intros Ht. destruct (Hr i t Ht) as [?|[? ?]]; [by left|right; set_solver].
    + intros Hc%E1 Hr%E2 t. rewrite H1. rewrite elem_of_app, list_elem_of_singleton.
      intros [Ht| ->]; [|split; [apply cast_name_nonempty|]; exists id; by rewrite H2, decide_True].
      destruct (Hr t Ht) as [Hne [i Hi]]. split; [done|]. exists i. rewrite H2.
      case_decide; [subst|done]. by destruct (Hc id t Hi) as [?|[-> _]].
Qed.

Lemma drop_effect_casts id r r' : drop_effect id r r' -> casts_listed r -> casts_listed r'.
Proof.
  intros Hd Hr. destruct Hd as [|record Hi|record Hi]; [done|..].
  - intros i t. unfold cast_of. cbn. intros (record' & Hr' & ->)%fmap_Some.
    apply lookup_delete_Some in Hr' as [? Hr']. apply Hr. unfold cast_of. by rewrite Hr'.
  - intros i t. unfold cast_of. cbn. intros (record' & Hr' & ->)%fmap_Some.
    apply lookup_delete_Some in Hr' as [Hne Hr'].
    destruct (Hr i (broadcast_topic record')) as [?|[H1 H2]]; [unfold cast_of; by rewrite Hr'|by left|].
    right. split; [done|]. unfold drop_topic. case_decide as Hb; [done|]. apply list_elem_of_filter.
    split; [|done]. intros Heq. destruct (Hr id (broadcast_topic record)) as [?|[H3 _]];
      [unfold cast_of; by rewrite Hi|done|].
    apply Hne, cast_name_inj. congruence.
Qed.

Lemma sweep_topics order b r e :
  (casts_listed r -> casts_listed (check_timeouts order b r e).1.2) /\
  (b = None -> topics_owned r -> topics_owned (check_timeouts order b r e).1.2).
Proof.
  rewrite check_timeouts_eq. split.
  - apply deregister_all_inv. intros id r1 r2 _. apply drop_effect_casts.
  - intros -> Hr. rewrite deregister_all_None.
    destruct (drop_all_spec (stale_ids order (sweep_time e) r) r) as (H1 & _ & H3).
    intros t [Ht Hn]%H3. destruct (Hr t Ht) as [Hne [id Hid]]. split; [done|]. exists id. unfold cast_of in *. rewrite H1.
    case_decide as Hs; [|done]. destruct Hn. apply (fmap_Some broadcast_topic) in Hid as (record & Hrec & ->).
    exists record. split; [by exists id|]. done.
Qed.

Lemma loop_step_topics server_url a l e :
  from_handshake a ->
  let r := lp_registry l in
  let r' := lp_registry (loop_step server_url a l e).1.2 in
  (casts_listed r -> casts_listed r') /\ (uninterrupted a -> casts_listed r -> topics_owned r -> topics_owned r').
Proof.
  intros Ha. cbn zeta. destruct a as [ch|order b|msg]; cbn [loop_step]; unfold on_registry, zoom.
  - pose proof (register_channel_topics ch (lp_registry l) e Ha) as H.
    destruct (register_channel ch (lp_registry l) e) as [[u r'] e']. cbn in *. tauto.
  - pose proof (sweep_topics order b (lp_registry l) e) as H.
    destruct (check_timeouts order b (lp_registry l) e) as [[u r'] e']. cbn in *. tauto.
  - pose proof (same_topics_ok _ _ (handle_message_topics server_url msg l e)). tauto.
Qed.

(** C11: with the topics the handshake hands out, the node publishes to the topic of every
    registered beacon, whatever interleaving of handshakes, messages and sweeps led
    there; and as long as no sweep has been dropped half-way, it publishes to nothing
    else. *)
Theorem beacon_topics_published server_url own arrivals e :
  Forall from_handshake arrivals ->
  let r := lp_registry (run_beacon_message_loop server_url own [] arrivals e).1 in
  casts_listed r /\ (Forall uninterrupted arrivals -> topics_owned r).
Proof.
  intros Ha. cbn zeta. unfold run_beacon_message_loop.
  assert (Hg : forall arrivals l e, Forall from_handshake arrivals -> casts_listed (lp_registry l) ->
    let r := lp_registry (run_arrivals server_url arrivals l e).1.2 in
    casts_listed r /\ (Forall uninterrupted arrivals -> topics_owned (lp_registry l) -> topics_owned r)).
  { clear. intros arrivals. induction arrivals as [|a arrivals IH]; intros l e Hf Hc; [done|].
    apply Forall_cons in Hf as [Hf1 Hf2]. unfold run_arrivals in *. cbn [for_each]. unfold mbind, prog_bind.
    destruct (loop_step_topics server_url a l e Hf1) as [H1 H2].
    destruct (loop_step server_url a l e) as [[u l1] e1]. cbn in H1, H2.
    destruct (IH l1 e1 Hf2 (H1 Hc)) as [H3 H4]. split; [done|].
    intros [Hu1 Hu2]%Forall_cons Ho. auto. }
  specialize (Hg arrivals (mkLoop (BeaconRegistry_new own []) 0) e Ha).
  destruct (run_arrivals _ _ _ e) as [[u l'] e']. cbn in *.
  destruct Hg as [H1 H2]; [by intros id t|]. split; [done|]. intros Hu. apply H2; [done|]. intros t Ht. set_solver.
Qed.
End Topics.

(** ** Concrete runs *)

Definition demo_message (topic payload : string) : MqttMessage :=
  {| msg_topic := topic; msg_payload := bytes_of_string payload |}.

(** A handshake, then the beacon advertises a gateway: the connection stays open; a second
    gateway announced on [registration] is lost. *)
Definition demo_arrivals : list Arrival :=
  [ArrChannel (listen_channel "b1"); ArrChannel (broadcast_channel "b1");
   ArrMessage (demo_message "b1/rec" "gw:https://gw1");
   ArrMessage (demo_message "registration" "gw:https://gw2");
   ArrSweep ["b1"] None].

Definition demo_loop : MsgLoop := (run_beacon_message_loop "http://me" (Some "https://own") [] demo_arrivals demo_env).1.

Example demo_loop_state :
  records (lp_registry demo_loop) =
    {[ "b1" := mkBeacon "b1/rec" "b1/cast" 0 (Some "https://gw1") (Some 0%nat) ]} /\
  broadcast_topics (lp_registry demo_loop) = ["b1/cast"] /\ lp_next demo_loop = 2%nat.
Proof. by vm_compute. Qed.

Lemma demo_loop_ok : links_ok (Some "https://own") demo_loop.
Proof. apply loop_links_ok. Qed.

Lemma message_connects_when_new_witness :
  let msg := demo_message "b1/rec" "gw:https://gw3" in
  let '(_, l', e') := handle_message "http://me" msg demo_loop demo_env in
  connects "http://me" msg "https://gw3" demo_loop l' [] (trace e').
Proof.
  exact (message_connects_when_new "http://me" (Some "https://own")
    (demo_message "b1/rec" "gw:https://gw3") demo_loop demo_env demo_loop_ok).
Defined.

Lemma unstored_connection_loses_gateway_witness :
  let msg := demo_message "registration" "gw:https://gw3" in
  let '(_, l1, e1) := handle_message "http://me" msg demo_loop demo_env in
  let '(_, l2, e2) := run_arrivals "http://me" [ArrMessage msg] l1 e1 in
  omap opened (trace (handle_message "http://me" (demo_message "b1/rec" "gw:https://gw3") l2 e2).2)
    = omap opened (trace e2).
Proof.
  cbv zeta.
  pose proof (unstored_connection_loses_gateway "http://me" (Some "https://own")
    (demo_message "registration" "gw:https://gw3") "https://gw3" demo_loop demo_env demo_loop_ok
    ltac:(vm_compute; reflexivity) ltac:(vm_compute; reflexivity)
    ltac:(intros id Hid; vm_compute in Hid; discriminate Hid)) as H.
  destruct (handle_message _ _ demo_loop demo_env) as [[u l1] e1]. destruct H as (_ & _ & H).
  apply (H [ArrMessage (demo_message "registration" "gw:https://gw3")]
           (demo_message "b1/rec" "gw:https://gw3") ltac:(vm_compute; reflexivity)).
Defined.

Lemma beacon_topics_published_witness :
  let r := lp_registry demo_loop in casts_listed r /\ topics_owned r.
Proof.
  pose proof (beacon_topics_published "http://me" (Some "https://own") demo_arrivals demo_env) as H.
  destruct H as [H1 H2].
  - repeat (apply Forall_cons; split); try exact I; try (exists "b1"; auto); constructor.
  - split; [exact H1|]. apply H2. repeat (apply Forall_cons; split); try exact I; try reflexivity; constructor.
Defined.
