(* ===== verification/Broadcast.v ===== *)
(** * Broadcast: announcing the node to its beacons (app.rs, [BroadcastState])

    One cycle of [run_broadcast_loop], between two ticks of its interval.  The state is
    the key table; the topics are those the cycle reads from the shared list, whose read
    lock it holds until its last publication. *)

From Stdlib Require Import ZArith Lia.
From stdpp Require Import base list strings gmap vector.
From S2P Require Import Prelude RustStr Types Env Demo KeyManagement MqttClient CloudGateway.

Record BroadcastState := mkBroadcast {
  bs_server_url : string;
  bs_use_jitter : bool;
  bs_broadcast_interval : Z;
  bs_key_management : BroadcastKeyManagement;
}.

Section Broadcast.
Context {X : Ext}.

Definition broadcast_payload (server_url kid tok : string) : string :=
  json_to_string (json_of_object [("url", json_of_string server_url);
                                  ("kid", json_of_string kid); ("tok", json_of_string tok)]).

(** [rand::random::<u64>() % 10 + 1] seconds, in milliseconds *)
Definition jitter_ms (r : Z) : Z := (r `mod` 10 + 1) * 1000.

Definition broadcast_to {S} (use_jitter : bool) (payload : string) (topic : string) : Prog S unit :=
  _ ← (if use_jitter then r ← call RandU64; _ ← call (Sleep (jitter_ms r)); mret tt else mret tt);
  _ ← publish topic AtLeastOnce (bytes_of_string payload);
  mret tt.

(** [base_interval.saturating_sub(start.elapsed())], in nanoseconds *)
Definition remaining_wait (interval start now : Z) : Z :=
  Z.max 0 (interval * 10 ^ 9 - Z.max 0 (now - start)).

(** [use_jitter.then(Instant::now)] *)
Definition mark_start {S} (use_jitter : bool) : Prog S (option Z) :=
  if use_jitter then Some <$> call InstantNow else mret None.

Definition broadcast_cycle (st : BroadcastState) (topics : list string) : Prog (list KeyRow) unit :=
  let km := bs_key_management st in
  key ← get_or_rotate_key km;
  match key with
  | Err _ => mret tt
  | Ok key =>
      _ ← sweep_expired;
      '(kid, tok) ← ota_fields km key;
      let payload := broadcast_payload (bs_server_url st) kid tok in
      cycle_start ← mark_start (bs_use_jitter st);
      _ ← for_each topics (broadcast_to (bs_use_jitter st) payload);
      match cycle_start with
      | None => mret tt
      | Some start =>
          now ← call InstantNow;
          let remaining := remaining_wait (bs_broadcast_interval st) start now in
          if decide (remaining = 0)%Z then mret tt else _ ← call (SleepNanos remaining); mret tt
      end
  end.

(** The loop, given the topics each cycle finds. *)
Definition run_broadcast_loop (st : BroadcastState) (cycles : list (list string))
  : Prog (list KeyRow) unit := for_each cycles (broadcast_cycle st).

(** ** Properties *)

Definition slept_ns (ev : Event) : option Z :=
  match ev with Ev c _ => match c with SleepNanos ns => Some ns | _ => None end end.

Definition announcement (payload topic : string) : MqttCommand :=
  Publish topic AtLeastOnce (bytes_of_string payload).

(** What a projection of the trace sees of the whole loop over the topics. *)
Lemma broadcast_to_sent {S} j payload topic (s : S) e :
  omap sent_command (trace (broadcast_to j payload topic s e).2)
  = omap sent_command (trace e) ++ [announcement payload topic].
Proof.
  unfold broadcast_to, publish, send_command. destruct j; run_prog; case_answer; run_prog;
    rewrite ?omap_app; cbn; by rewrite ?app_nil_r.
Qed.

Lemma broadcast_all_sent {S} j payload topics (s : S) e :
  omap sent_command (trace (for_each topics (broadcast_to j payload) s e).2)
  = omap sent_command (trace e) ++ (announcement payload <$> topics).
Proof.
  revert s e. induction topics as [|t topics IH]; intros s e; [by rewrite app_nil_r|].
  cbn [for_each]. unfold mbind, prog_bind. pose proof (broadcast_to_sent j payload t s e) as H.
  destruct (broadcast_to j payload t s e) as [[u s1] e1]. cbn in H. by rewrite IH, H, <- app_assoc.
Qed.

Lemma rotate_key_silent {B} (f : Event -> option B) km :
  (forall y, f (Ev SystemTimeNow y) = None) -> (forall n y, f (Ev (RandArray n) y) = None) ->
  (forall stmt y, f (Ev (SqlExec stmt) y) = None) -> silent f (rotate_key km).
Proof. intros. unfold rotate_key. silence. Qed.

Lemma get_or_rotate_silent {B} (f : Event -> option B) km :
  (forall y, f (Ev SystemTimeNow y) = None) -> (forall n y, f (Ev (RandArray n) y) = None) ->
  (forall stmt y, f (Ev (SqlExec stmt) y) = None) -> silent f (get_or_rotate_key km).
Proof.
  intros. unfold get_or_rotate_key. silence. by apply rotate_key_silent.
Qed.

Lemma sweep_silent {B} (f : Event -> option B) :
  (forall y, f (Ev SystemTimeNow y) = None) ->
  (forall stmt y, f (Ev (SqlExec stmt) y) = None) -> silent f sweep_expired.
Proof. intros. unfold sweep_expired. silence. Qed.

Lemma keys_oracle km rows e :
  oracle (get_or_rotate_key km rows e).2 = oracle e /\ oracle (sweep_expired rows e).2 = oracle e.
Proof.
  pose proof (run_op_effect km OpGetOrRotate rows e) as [_ H1].
  pose proof (run_op_effect km OpSweep rows e) as [_ H2].
  cbn in H1, H2. unfold mbind, prog_bind, mret, prog_ret in H1, H2.
  by destruct (get_or_rotate_key km rows e) as [[? ?] ?], (sweep_expired rows e) as [[? ?] ?].
Qed.

(** A cycle that has its key: the state of the rest of it. *)
Definition cycle_rest (st : BroadcastState) (key : BroadcastKey) (slot : Z) (topics : list string)
  : Prog (list KeyRow) unit :=
  let payload := broadcast_payload (bs_server_url st) (hex_encode (key_id key))
                   (hex_encode (vec_to_list (token_for key slot))) in
  cycle_start ← mark_start (bs_use_jitter st);
  _ ← for_each topics (broadcast_to (bs_use_jitter st) payload);
  match cycle_start with
  | None => mret tt
  | Some start =>
      now ← call InstantNow;
      let remaining := remaining_wait (bs_broadcast_interval st) start now in
      if decide (remaining = 0)%Z then mret tt else _ ← call (SleepNanos remaining); mret tt
  end.

Lemma broadcast_cycle_eq st topics rows e :
  let km := bs_key_management st in
  broadcast_cycle st topics rows e =
  match get_or_rotate_key km rows e with
  | (Err _, rows1, e1) => (tt, rows1, e1)
  | (Ok key, rows1, e1) =>
      let rows2 := (sweep_expired rows1 e1).1.2 in
      let e2 := (sweep_expired rows1 e1).2 in
      cycle_rest st key (slot_at km (clock_at e2 (clk e2))) topics rows2 (ota_fields km key rows2 e2).2
  end.
Proof.
  unfold broadcast_cycle. cbn zeta. unfold mbind at 1, prog_bind.
  destruct (get_or_rotate_key _ rows e) as [[[key|err] rows1] e1]; [|done].
  unfold mbind at 1, prog_bind. by destruct (sweep_expired rows1 e1) as [[r rows2] e2].
Qed.

Lemma cycle_rest_sent st key slot topics rows e :
  omap sent_command (trace (cycle_rest st key slot topics rows e).2)
  = omap sent_command (trace e) ++
    (announcement (broadcast_payload (bs_server_url st) (hex_encode (key_id key))
       (hex_encode (vec_to_list (token_for key slot)))) <$> topics).
Proof.
  unfold cycle_rest. set (p := broadcast_payload _ _ _). unfold mbind at 1, prog_bind.
  assert (Hc : omap sent_command (trace (mark_start (bs_use_jitter st) rows e).2) = omap sent_command (trace e)).
  { unfold mark_start. destruct (bs_use_jitter st); [|done]. run_prog. by rewrite omap_app, app_nil_r. }
  destruct (mark_start _ rows e) as [[start rows1] e1]. cbn in Hc.
  unfold mbind at 1, prog_bind.
  pose proof (broadcast_all_sent (bs_use_jitter st) p topics rows1 e1) as Ha. rewrite Hc in Ha.
  destruct (for_each topics _ rows1 e1) as [[u rows2] e2]. cbn in Ha. rewrite <- Ha.
  destruct start as [start|]; [|done]. run_prog. case_decide; run_prog; rewrite ?omap_app; cbn; by rewrite ?app_nil_r.
Qed.

(** *** When things happen in a cycle *)

(** The waits, publications and readings of the monotonic clock, as they happen. *)
Inductive CycleEvent :=
| Waited (ms : Z)
| Published (cmd : MqttCommand)
| ReadInstant (t : Z)
| WaitedNanos (ns : Z).

Definition cycle_event (ev : Event) : option CycleEvent :=
  match ev with
  | Ev c y => match c in Call Y return Y -> option CycleEvent with
              | Sleep ms => fun _ => Some (Waited ms)
              | CmdSend cmd => fun _ => Some (Published cmd)
              | InstantNow => fun t => Some (ReadInstant t)
              | SleepNanos ns => fun _ => Some (WaitedNanos ns)
              | _ => fun _ => None
              end y
  end.

(** Each publication right after its wait. *)
Definition paced (ws : list Z) (cmds : list MqttCommand) : list CycleEvent :=
  concat (zip_with (fun ms cmd => [Waited ms; Published cmd]) ws cmds).

Definition jitter_range (ms : Z) : Prop := (1000 <= ms <= 10000)%Z.

Lemma jitter_ms_range r : jitter_range (jitter_ms r).
Proof. unfold jitter_range, jitter_ms. pose proof (Z.mod_pos_bound r 10 ltac:(lia)). lia. Qed.

(** A publication: with jitter it waits first. *)
Lemma broadcast_to_paced {S} j payload topic (s : S) e :
  let e' := (broadcast_to j payload topic s e).2 in
  if j then exists ms, jitter_range ms /\
    omap cycle_event (trace e') = omap cycle_event (trace e) ++ [Waited ms; Published (announcement payload topic)]
  else omap cycle_event (trace e') = omap cycle_event (trace e) ++ [Published (announcement payload topic)].
Proof.
  unfold broadcast_to, publish, send_command.
  destruct j; run_prog; [eexists; split; [apply jitter_ms_range|]|];
    case_answer; run_prog; rewrite !omap_app; cbn; rewrite ?app_nil_r, <- ?app_assoc; done.
Qed.

Lemma broadcast_all_paced {S} payload topics (s : S) e :
  exists ws, length ws = length topics /\ Forall jitter_range ws /\
    omap cycle_event (trace (for_each topics (broadcast_to true payload) s e).2)
    = omap cycle_event (trace e) ++ paced ws (announcement payload <$> topics).
Proof.
  revert s e. induction topics as [|t topics IH]; intros s e; [exists []; by rewrite app_nil_r|].
  cbn [for_each]. unfold mbind, prog_bind. destruct (broadcast_to_paced true payload t s e) as (ms & Hms & Ht).
  destruct (broadcast_to true payload t s e) as [[u s1] e1]. destruct (IH s1 e1) as (ws & Hl & Hf & Hw).
  exists (ms :: ws). split; [cbn; by rewrite Hl|]. split; [by constructor|].
  rewrite Hw. cbn in Ht. by rewrite Ht, <- app_assoc.
Qed.

Lemma broadcast_all_unpaced {S} payload topics (s : S) e :
  omap cycle_event (trace (for_each topics (broadcast_to false payload) s e).2)
  = omap cycle_event (trace e) ++ (Published <$> (announcement payload <$> topics)).
Proof.
  revert s e. induction topics as [|t topics IH]; intros s e; [by rewrite app_nil_r|].
  cbn [for_each]. unfold mbind, prog_bind. pose proof (broadcast_to_paced false payload t s e) as Ht.
  destruct (broadcast_to false payload t s e) as [[u s1] e1]. rewrite IH. cbn in Ht. by rewrite Ht, <- app_assoc.
Qed.

(** What precedes the publications is neither a publication nor a wait. *)
Lemma cycle_prefix_silent {B} (f : Event -> option B) km rows1 e1 key :
  (forall y, f (Ev SystemTimeNow y) = None) -> (forall stmt y, f (Ev (SqlExec stmt) y) = None) ->
  let '(_, rows2, e2) := sweep_expired rows1 e1 in
  omap f (trace (ota_fields km key rows2 e2).2) = omap f (trace e1).
Proof.
  intros H1 H2. pose proof (sweep_silent f H1 H2 rows1 e1) as Hs.
  destruct (sweep_expired rows1 e1) as [[r rows2] e2]. cbn in Hs.
  assert (Ho : silent (S := list KeyRow) f (ota_fields km key)) by (unfold ota_fields, generate_token; silence).
  by rewrite Ho.
Qed.

(** C6: a cycle that cannot get a key publishes nothing.  Otherwise it publishes, on every
    topic of the list exactly once and in order, whatever happens to the publications
    before, one and the same payload: the node's URL, the key's id, and the token of
    that key for the slot of a clock reading made after the key was obtained. *)
Theorem broadcast_cycle_announces st topics rows e :
  let km := bs_key_management st in
  let '(r, _, e1) := get_or_rotate_key km rows e in
  let '(_, _, e') := broadcast_cycle st topics rows e in
  match r with
  | Err _ => omap sent_command (trace e') = omap sent_command (trace e)
  | Ok key => exists n, (clk e1 <= n)%nat /\
      omap sent_command (trace e') = omap sent_command (trace e) ++
        (announcement (broadcast_payload (bs_server_url st) (hex_encode (key_id key))
           (hex_encode (vec_to_list (token_for key (slot_at km (clock_at e n)))))) <$> topics)
  end.
Proof.
  cbn zeta. rewrite broadcast_cycle_eq. cbn zeta.
  pose proof (get_or_rotate_silent sent_command (bs_key_management st) ltac:(done) ltac:(done) ltac:(done) rows e) as Hk.
  destruct (keys_oracle (bs_key_management st) rows e) as [Ho _].
  destruct (get_or_rotate_key _ rows e) as [[[key|err] rows1] e1]; cbn in Hk, Ho; [|done].
  pose proof (cycle_prefix_silent sent_command (bs_key_management st) rows1 e1 key ltac:(done) ltac:(done)) as Hs.
  destruct (keys_oracle (bs_key_management st) rows1 e1) as [_ Ho2].
  assert (Hclk : (clk e1 <= clk (sweep_expired rows1 e1).2)%nat).
  { unfold sweep_expired, unix_now. run_prog. case_answer; cbn; lia. }
  destruct (sweep_expired rows1 e1) as [[r rows2] e2]. cbn in Hs, Ho2, Hclk |- *.
  pose proof (cycle_rest_sent st key (slot_at (bs_key_management st) (clock_at e2 (clk e2))) topics rows2
    (ota_fields (bs_key_management st) key rows2 e2).2) as Hr.
  rewrite Hs, Hk in Hr. destruct (cycle_rest _ _ _ _ _ _) as [[u rows3] e3]. cbn in Hr.
  exists (clk e2). split; [done|]. rewrite Hr. unfold clock_at. by rewrite Ho2, Ho.
Qed.

Definition cycle_timing (st : BroadcastState) (topics : list string) (evs : list CycleEvent) : Prop :=
  exists payload, let cmds := announcement payload <$> topics in
  if bs_use_jitter st then exists ws t0 t1 w,
    evs = [ReadInstant t0] ++ paced ws cmds ++ [ReadInstant t1] ++ (if decide (w = 0)%Z then [] else [WaitedNanos w]) /\
    length ws = length topics /\ Forall jitter_range ws /\
    (let interval := (bs_broadcast_interval st * 10 ^ 9)%Z in
     ((0 <= t1 - t0 <= interval -> (t1 - t0) + w = interval) /\ (interval < t1 - t0 -> w = 0) /\
      0 <= w <= Z.max 0 interval)%Z)
  else evs = Published <$> cmds.

Lemma cycle_rest_timing st key slot topics rows e :
  exists evs, cycle_timing st topics evs /\
    omap cycle_event (trace (cycle_rest st key slot topics rows e).2) = omap cycle_event (trace e) ++ evs.
Proof.
  unfold cycle_rest. set (p := broadcast_payload _ _ _). unfold mbind at 1, prog_bind, mark_start.
  destruct (bs_use_jitter st) eqn:Hj.
  - unfold fmap at 1, prog_fmap, call. set (t0 := oracle e Z InstantNow (clk e)).
    set (e1 := mkEnv _ _ _).
    unfold mbind at 1, prog_bind. destruct (broadcast_all_paced p topics rows e1) as (ws & H1 & H2 & H3).
    destruct (for_each topics _ rows e1) as [[u rows2] e2]. cbn [snd] in *.
    unfold e1 in H3. cbn [trace] in H3. rewrite omap_app in H3. cbn in H3.
    unfold mbind, prog_bind, call. cbn. set (t1 := oracle e2 Z InstantNow (clk e2)).
    eexists. split; [exists p; rewrite Hj; exists ws, t0, t1, (remaining_wait (bs_broadcast_interval st) t0 t1); split; [reflexivity|]|].
    + split; [done|]. split; [done|]. unfold remaining_wait. lia.
    + case_decide; run_prog; rewrite !omap_app, H3; cbn; by rewrite <- !app_assoc, ?app_nil_r.
  - unfold mret, prog_ret, mbind, prog_bind.
    pose proof (broadcast_all_unpaced p topics rows e) as H.
    destruct (for_each topics _ rows e) as [[u rows2] e2]. cbn in *. eexists. split; [exists p; rewrite Hj; reflexivity|done].
Qed.

(** C37: when a cycle waits and publishes, as one sequence.  With jitter it reads the clock,
    then for each topic in order waits 1 to 10 s and only then publishes, then reads the
    clock again and waits once more for what is left of the broadcast interval, exactly,
    or not at all when the publications have used the interval up.  Without jitter it
    publishes on every topic and never waits or reads the clock; without a key it does
    neither. *)
Theorem broadcast_cycle_waits st topics rows e :
  let '(r, _, _) := get_or_rotate_key (bs_key_management st) rows e in
  let '(_, _, e') := broadcast_cycle st topics rows e in
  if is_ok r then exists evs, cycle_timing st topics evs /\
    omap cycle_event (trace e') = omap cycle_event (trace e) ++ evs
  else omap cycle_event (trace e') = omap cycle_event (trace e).
Proof.
  rewrite broadcast_cycle_eq. cbn zeta.
  pose proof (get_or_rotate_silent cycle_event (bs_key_management st) ltac:(done) ltac:(done) ltac:(done) rows e) as Hk.
  destruct (get_or_rotate_key _ rows e) as [[[key|err] rows1] e1]; cbn in Hk |- *; [|done].
  pose proof (cycle_prefix_silent cycle_event (bs_key_management st) rows1 e1 key ltac:(done) ltac:(done)) as Hs.
  destruct (sweep_expired rows1 e1) as [[r rows2] e2]. cbn [fst snd].
  destruct (cycle_rest_timing st key (slot_at (bs_key_management st) (clock_at e2 (clk e2))) topics rows2
    (ota_fields (bs_key_management st) key rows2 e2).2) as (evs & Ht & He).
  destruct (cycle_rest _ _ _ _ _ _) as [[u rows3] e3]. exists evs. split; [done|].
  cbn in He. by rewrite He, Hs, Hk.
Qed.
End Broadcast.

#[export] Hint Resolve rotate_key_silent get_or_rotate_silent sweep_silent : silent.

(** ** A concrete cycle *)

Definition demo_broadcast : BroadcastState := mkBroadcast "http://me" true 60 demo_km.

Example demo_cycle :
  let e' := (broadcast_cycle demo_broadcast ["a/cast"; "b/cast"] [demo_row] demo_env).2 in
  omap slept (trace e') = [1000; 1000]%Z /\ omap slept_ns (trace e') = [60 * 10 ^ 9]%Z /\
  length (omap sent_command (trace e')) = 2%nat.
Proof. by vm_compute. Qed.
