(* ===== verification/System.v ===== *)
(** * System: from a handshake to the broadcasts

    The components put together: the topics a handshake offers on the gateway's listener
    (Proxy.v) go through a bounded channel to the application's loop (MessageLoop.v),
    which keeps the list of topics that the broadcast cycles (Broadcast.v) publish to.
    The three run as tasks of their own, each in an environment of its own here; what
    passes between them is the channel, and the list. *)

From Stdlib Require Import ZArith Lia.
From Stdlib Require Import List.
From stdpp Require Import base list strings gmap.
From S2P Require Import Prelude RustStr Types Env Demo Config Ca Brokerage MqttClient CloudGateway KeyManagement.
From S2P Require Import Handshake Proxy Registry MessageLoop Broadcast.

(** The topics the channel took: [try_send] fails when it is full. *)
Definition enqueued {X : Ext} (ev : Event) : option TopicChannel :=
  match ev with
  | Ev c y => match c in Call Y return Y -> option TopicChannel with
              | TrySendTopic ch => fun r => if is_ok r then Some ch else None
              | _ => fun _ => None
              end y
  end.

(** The topics among the arrivals of the application's loop. *)
Definition channel_of (a : Arrival) : option TopicChannel :=
  match a with ArrChannel ch => Some ch | _ => None end.

(** The connections of a listener, served one after the other: whether over TLS, the requests
    read, how it ended. *)
Definition Connection : Type := bool * list HttpRequest * result unit string.

Section System.
Context {X : Ext}.

Fixpoint serve_listener (state : AppState) (conns : list Connection) : Prog CaWorld (list Served) :=
  match conns with
  | [] => mret []
  | (tls, reqs, ended) :: conns =>
      out ← (if (tls : bool) then serve_tls_connection else serve_connection) state reqs ended;
      outs ← serve_listener state conns;
      mret (out :: outs)
  end.

Implicit Types (r : BeaconRegistry) (l : MsgLoop) (e : Env).

(** ** What is published comes from a handshake *)

Lemma enqueued_offered (tr : list Event) ch : ch ∈ omap enqueued tr -> ch ∈ omap offered tr.
Proof.
  rewrite !list_elem_of_omap. intros ([Y c y] & Hev & Hs). exists (Ev c y). split; [done|].
  destruct c; try done. cbn in *. by destruct (is_ok y).
Qed.

(** The id a request was answered with. *)
Definition answered_with (state : AppState) (req : HttpRequest) (resp : HttpResponse) (id : string) : Prop :=
  contains_key HEADER_INIT req = true /\
  exists pem host, resp = init_response pem (as_brokerage_info state) host id.

Lemma serve_one_offers (tls : bool) state reqs ended w e :
  let '(out, _, e') := (if tls then serve_tls_connection else serve_connection) state reqs ended w e in
  forall ch, ch ∈ omap offered (trace e') -> ch ∈ omap offered (trace e) \/
    exists j req resp id, reqs !! j = Some req /\ sv_responses out !! j = Some resp /\
      answered_with state req resp id /\ ch ∈ handshake_topics id.
Proof.
  assert (Hreqs : forall e0, omap offered (trace e0) = omap offered (trace e) ->
    let '(resps, _, e') := serve_requests state reqs w e0 in
    forall ch, ch ∈ omap offered (trace e') -> ch ∈ omap offered (trace e) \/
      exists j req resp id, reqs !! j = Some req /\ resps !! j = Some resp /\
        answered_with state req resp id /\ ch ∈ handshake_topics id).
  { intros e0 He0. pose proof (serve_requests_spec state reqs w e0) as H.
    destruct (serve_requests state reqs w e0) as [[resps w'] e']. destruct H as (_ & _ & offers & Ho & Hf).
    intros ch. rewrite Ho, He0, elem_of_app. intros [?|Hc]; [by left|right].
    apply list_elem_of_In, in_concat in Hc as (o & Ho' & Hch). apply list_elem_of_In in Ho', Hch.
    apply list_elem_of_lookup in Ho' as [j Hj].
    destruct (Forall3_lookup_r _ _ _ _ _ _ Hf Hj) as (req & resp & Hreq & Hresp & [[-> _]|Hx]); [set_solver|].
    destruct Hx as (pem & host & id & -> & _ & Hi & Hr). exists j, req, resp, id.
    repeat (split; [done|]). split; [|done]. split; [done|]. by exists pem, host. }
  destruct tls; unfold serve_tls_connection, serve_connection, mbind, prog_bind, mret, prog_ret.
  - unfold call. destruct (oracle e _ TlsAccept (clk e)).
    + match goal with |- context [serve_requests state reqs w ?e0] =>
        specialize (Hreqs e0 ltac:(cbn; by rewrite omap_app, app_nil_r));
        by destruct (serve_requests state reqs w e0) as [[resps w'] e'] end.
    + intros ch. cbn. rewrite omap_app, app_nil_r. by left.
  - specialize (Hreqs e eq_refl). by destruct (serve_requests state reqs w e) as [[resps w'] e'].
Qed.

(** A handshake on one of the connections of a listener was answered with this id. *)
Definition handshaken (state : AppState) (conns : list Connection) (outs : list Served) (id : string) : Prop :=
  exists i tls reqs ended out j req resp,
    conns !! i = Some (tls, reqs, ended) /\ outs !! i = Some out /\
    reqs !! j = Some req /\ sv_responses out !! j = Some resp /\ answered_with state req resp id.

Lemma serve_listener_offers state conns w e :
  let '(outs, _, e') := serve_listener state conns w e in
  forall ch, ch ∈ omap offered (trace e') -> ch ∈ omap offered (trace e) \/
    exists id, handshaken state conns outs id /\ ch ∈ handshake_topics id.
Proof.
  revert w e. induction conns as [|[[tls reqs] ended] conns IH]; intros w e; [by left|].
  cbn [serve_listener]. unfold mbind, prog_bind, mret, prog_ret.
  pose proof (serve_one_offers tls state reqs ended w e) as H1.
  destruct ((if tls then serve_tls_connection else serve_connection) state reqs ended w e) as [[out w1] e1].
  specialize (IH w1 e1). destruct (serve_listener state conns w1 e1) as [[outs w2] e2].
  intros ch [Hc|(id & (i & tls' & reqs' & ended' & out' & j & req & resp & H) & Hc)]%IH.
  - destruct (H1 ch Hc) as [?|(j & req & resp & id & ? & ? & ? & ?)]; [by left|right].
    exists id. split; [|done]. by exists 0%nat, tls, reqs, ended, out, j, req, resp.
  - right. exists id. split; [|done]. by exists (S i), tls', reqs', ended', out', j, req, resp.
Qed.

(** *** The loop's side *)

(** The topics published to are old ones or arrived as broadcast topics. *)
Definition topics_from (arrivals : list Arrival) r r' : Prop :=
  forall t, t ∈ broadcast_topics r' -> t ∈ broadcast_topics r \/
    exists id, ArrChannel (broadcast_channel id) ∈ arrivals /\ t = id +:+ "/cast".

Lemma drop_effect_topics id r r' : drop_effect id r r' -> broadcast_topics r' ⊆ broadcast_topics r.
Proof.
  destruct 1; cbn; [done|done|]. unfold drop_topic. case_decide; [done|].
  intros t. rewrite list_elem_of_filter. tauto.
Qed.

Lemma loop_step_from server_url a l e :
  from_handshake a -> topics_from [a] (lp_registry l) (lp_registry (loop_step server_url a l e).1.2).
Proof.
  intros Ha. destruct a as [ch|order b|msg]; cbn [loop_step]; unfold on_registry, zoom.
  - destruct Ha as [id Hid]. destruct (ensure_record_casts id (lp_registry l) e) as (E1 & _).
    destruct Hid as [-> | ->].
    + destruct (listen_channel_topics id (lp_registry l) e) as [H1 _].
      destruct (register_channel _ _ e) as [[u r'] e']. cbn in *. intros t. rewrite H1, E1. by left.
    + destruct (broadcast_channel_topics id (lp_registry l) e) as [H1 _].
      destruct (register_channel _ _ e) as [[u r'] e']. cbn in *. intros t.
      rewrite H1, E1, elem_of_app, list_elem_of_singleton. intros [?| ->]; [by left|right].
      exists id. split; [by left|done].
  - assert (Hs : broadcast_topics (check_timeouts order b (lp_registry l) e).1.2 ⊆ broadcast_topics (lp_registry l)).
    { rewrite check_timeouts_eq. apply deregister_all_inv; [|done].
      intros id r1 r2 _ Hd%drop_effect_topics. set_solver. }
    destruct (check_timeouts _ _ _ e) as [[u r'] e']. intros t Ht. left. by apply Hs.
  - destruct (handle_message_topics server_url msg l e) as [H1 _]. intros t. rewrite H1. by left.
Qed.

Lemma run_arrivals_from server_url arrivals l e :
  Forall from_handshake arrivals ->
  topics_from arrivals (lp_registry l) (lp_registry (run_arrivals server_url arrivals l e).1.2).
Proof.
  revert l e. induction arrivals as [|a arrivals IH]; intros l e; [by left|].
  intros [Ha Hf]%Forall_cons. unfold run_arrivals in *. cbn [for_each]. unfold mbind, prog_bind.
  pose proof (loop_step_from server_url a l e Ha) as H1.
  destruct (loop_step server_url a l e) as [[u l1] e1]. cbn in H1.
  intros t [Ht|(id & Hid & ->)]%(IH l1 e1 Hf); [|right; exists id; set_solver].
  destruct (H1 t Ht) as [?|(id & Hid & ->)]; [by left|right; exists id]. set_solver.
Qed.

(** A cycle sends its announcements, to the topics of the list and to nothing else. *)
Lemma cycle_sent st topics rows e :
  let '(k, _, _) := get_or_rotate_key (bs_key_management st) rows e in
  let e' := (broadcast_cycle st topics rows e).2 in
  exists payload, omap sent_command (trace e') = omap sent_command (trace e) ++
    if is_ok k then announcement payload <$> topics else [].
Proof.
  rewrite broadcast_cycle_eq. cbn zeta.
  pose proof (get_or_rotate_silent sent_command (bs_key_management st) ltac:(done) ltac:(done) ltac:(done) rows e) as Hk.
  destruct (get_or_rotate_key _ rows e) as [[[key|err] rows1] e1]; cbn in Hk |- *.
  2: { exists "". by rewrite Hk, app_nil_r. }
  pose proof (cycle_prefix_silent sent_command (bs_key_management st) rows1 e1 key ltac:(done) ltac:(done)) as Hs.
  destruct (sweep_expired rows1 e1) as [[r rows2] e2]. cbn [fst snd].
  eexists. by rewrite cycle_rest_sent, Hs, Hk.
Qed.

(** C1: from end to end, the node announces itself only to beacons it has shaken hands with.
    Let the gateway serve any connections, let the channel deliver any of the topics it
    took, mixed with any messages and sweeps: every command a later broadcast cycle sends
    is a publication on the topic of an id that a handshake on one of the connections
    was answered with. *)
Theorem announces_only_to_handshaken state conns w eh server_url own arrivals el st rows eb :
  trace eh = [] ->
  let '(outs, _, eh') := serve_listener state conns w eh in
  omap channel_of arrivals ⊆ omap enqueued (trace eh') ->
  let r := lp_registry (run_beacon_message_loop server_url own [] arrivals el).1 in
  let eb' := (broadcast_cycle st (broadcast_topics r) rows eb).2 in
  forall cmd, cmd ∈ omap sent_command (trace eb') -> cmd ∈ omap sent_command (trace eb) \/
    exists id payload, handshaken state conns outs id /\ cmd = announcement payload (id +:+ "/cast").
Proof.
  intros Hnil. pose proof (serve_listener_offers state conns w eh) as Hoff. rewrite Hnil in Hoff.
  destruct (serve_listener state conns w eh) as [[outs w'] eh']. cbn zeta. intros Hsub cmd Hcmd.
  set (r := lp_registry _) in *.
  pose proof (cycle_sent st (broadcast_topics r) rows eb) as Hc.
  destruct (get_or_rotate_key _ rows eb) as [[k rows1] eb1]. cbn zeta in Hc. destruct Hc as [payload Hc].
  rewrite Hc, elem_of_app in Hcmd. destruct Hcmd as [?|Hcmd]; [by left|right].
  destruct (is_ok k); [|set_solver]. apply list_elem_of_fmap in Hcmd as (t & -> & Ht).
  assert (Hch : forall ch, ArrChannel ch ∈ arrivals -> exists id, handshaken state conns outs id /\ ch ∈ handshake_topics id).
  { intros ch Ha. destruct (Hoff ch) as [?|?]; [|set_solver|done]. apply enqueued_offered, Hsub.
    apply list_elem_of_omap. by exists (ArrChannel ch). }
  assert (Hf : Forall from_handshake arrivals).
  { apply Forall_forall. intros [ch| |] Ha; [|done|done]. destruct (Hch ch Ha) as (id & _ & Hid). exists id. set_solver. }
  pose proof (run_arrivals_from server_url arrivals (mkLoop (BeaconRegistry_new own []) 0) el Hf) as Hfrom.
  unfold r, run_beacon_message_loop in Ht.
  destruct (run_arrivals server_url arrivals _ el) as [[u l'] el']. cbn in Ht, Hfrom.
  destruct (Hfrom t Ht) as [?|(id & Hid & ->)]; [set_solver|].
  destruct (Hch _ Hid) as (id' & Hh & Hin). exists id', payload. split; [done|].
  assert (id = id') as ->; [|done].
  unfold handshake_topics in Hin. rewrite elem_of_cons, list_elem_of_singleton in Hin.
  destruct Hin as [[= ? ?]|[= ? ?]]; congruence.
Qed.

(** ** A beacon that is heard of is announced to *)

(** The beacon is registered with its topic, and was heard of at [t0] or later. *)
Definition alive (id : string) (t0 : Z) l : Prop :=
  exists record, records (lp_registry l) !! id = Some record /\
    (t0 <= last_seen record)%Z /\ broadcast_topic record = id +:+ "/cast".

(** Every clock reading still to come lies within a beacon's timeout of [t0]. *)
Definition within_timeout (t0 : Z) e : Prop :=
  forall n, (clk e <= n)%nat -> (t0 <= oracle e Z InstantNow n <= t0 + BEACON_TIMEOUT)%Z.

Lemma within_timeout_forward t0 e e' : forward e e' -> within_timeout t0 e -> within_timeout t0 e'.
Proof. unfold within_timeout. intros [-> Hc _] Hw n Hn. apply Hw. lia. Qed.

(** Changing one record keeps a beacon alive when the change does. *)
Lemma alive_alter id t0 i f r next next' :
  (forall record, (t0 <= last_seen record)%Z -> (t0 <= last_seen (f record))%Z) ->
  (forall record, broadcast_topic record = id +:+ "/cast" -> i = id -> broadcast_topic (f record) = id +:+ "/cast") ->
  alive id t0 (mkLoop r next) -> alive id t0 (mkLoop (set_records (alter f i) r) next').
Proof.
  intros H1 H2 (record & Hr & Hs & Ht). unfold alive. cbn in *. destruct (decide (i = id)) as [->|Hne].
  - exists (f record). rewrite lookup_alter_eq, Hr. auto.
  - exists record. rewrite lookup_alter_ne by done. auto.
Qed.

Lemma alive_records id t0 l l' :
  records (lp_registry l') = records (lp_registry l) -> alive id t0 l -> alive id t0 l'.
Proof. unfold alive. by intros ->. Qed.

Lemma ensure_record_alive id t0 i r e next next' :
  alive id t0 (mkLoop r next) -> alive id t0 (mkLoop (ensure_record i r e).1.2 next').
Proof.
  intros (record & Hr & Hs & Ht). exists record. split; [|done]. unfold ensure_record. run_prog.
  destruct (records r !! i) eqn:Hi; run_prog; [done|]. rewrite lookup_insert_ne; [done|]. cbn in Hr. congruence.
Qed.

Lemma register_alive id t0 ch r e next :
  from_handshake (ArrChannel ch) ->
  alive id t0 (mkLoop r next) -> alive id t0 (mkLoop (register_channel ch r e).1.2 next).
Proof.
  intros [i [-> | ->]] Ha; apply (ensure_record_alive id t0 i r e next next) in Ha;
    unfold register_channel, mbind, prog_bind; cbn [ch_beacon_id listen_channel broadcast_channel ch_topic_type];
    destruct (ensure_record i r e) as [[u r1] e1]; cbn [fst snd] in Ha |- *.
  - match goal with |- context [subscribe ?t ?q r1 e1] =>
      pose proof (subscribe_state t q r1 e1) as Hs; destruct (subscribe t q r1 e1) as [[[] r2] e2] end;
      cbn in Hs; subst r2; [|done]. cbn. by eapply alive_alter; [| |exact Ha].
  - cbn. eapply (alive_alter _ _ _ _ _ next); [done| |eapply alive_records; [|exact Ha]; done]. by intros record _ ->.
Qed.

Lemma sweep_alive id t0 order b r e next :
  within_timeout t0 e -> alive id t0 (mkLoop r next) ->
  alive id t0 (mkLoop (check_timeouts order b r e).1.2 next).
Proof.
  intros Hw (record & Hr & Hs & Ht). exists record. split; [|done]. rewrite check_timeouts_eq. cbn in *.
  apply (deregister_all_inv (fun r => records r !! id = Some record)); [|done].
  intros i r1 r2 Hi Hd Hr1. rewrite (drop_effect_records _ _ _ Hd), lookup_delete_ne; [done|].
  intros ->. apply stale_ids_spec in Hi as (_ & record' & Hr' & Hst). rewrite Hr in Hr'. injection Hr' as <-.
  unfold is_stale in Hst. apply bool_decide_eq_true in Hst.
  specialize (Hw (clk e) ltac:(lia)). unfold sweep_time in Hst. lia.
Qed.

Lemma handle_message_alive id t0 server_url msg l e :
  within_timeout t0 e -> alive id t0 l -> alive id t0 (handle_message server_url msg l e).1.2.
Proof.
  intros Hw Ha. rewrite handle_message_eq.
  assert (Hn : alive id t0 (note_sender msg l e).1.2).
  { unfold note_sender. destruct (sender_id msg) as [i|]; [|done].
    unfold on_registry, zoom, update_last_seen. run_prog.
    destruct (records (lp_registry l) !! i); run_prog; [|by destruct l].
    apply (alive_alter _ _ _ _ _ (lp_next l)); [|done|by destruct l]. intros record _. cbn. apply Hw. lia. }
  destruct (note_sender msg l e) as [[u l1] e1]. cbn in Hn.
  destruct (beacon_gateway_url (beacon_payload msg)) as [url|]; [|done].
  destruct (is_gateway_known url (lp_registry l1)); [done|]. cbn. unfold link_up.
  destruct (sender_id msg) as [i|].
  - eapply (alive_alter _ _ _ _ _ (lp_next l1)); [done|done|]. eapply alive_records; [|exact Hn]. done.
  - eapply alive_records; [|exact Hn]. done.
Qed.

Lemma loop_step_alive id t0 server_url a l e :
  from_handshake a -> within_timeout t0 e -> alive id t0 l -> alive id t0 (loop_step server_url a l e).1.2.
Proof.
  intros Ha Hw Hl. destruct a as [ch|order b|msg]; cbn [loop_step]; unfold on_registry, zoom.
  - destruct l as [r next]. pose proof (register_alive id t0 ch r e next Ha Hl). cbn in *.
    by destruct (register_channel ch r e) as [[u r'] e'].
  - destruct l as [r next]. pose proof (sweep_alive id t0 order b r e next Hw Hl). cbn in *.
    by destruct (check_timeouts order b r e) as [[u r'] e'].
  - by apply handle_message_alive.
Qed.

Lemma steady_register_channel ch : steady (register_channel ch).
Proof. unfold register_channel, ensure_record, update_record, subscribe, send_command. steady. Qed.

Lemma steady_check_timeouts order b : steady (check_timeouts order b).
Proof.
  assert (Hd : forall ids b, steady (deregister_all ids b)).
  { intros ids. induction ids as [|i ids IH]; intros b'; cbn [deregister_all]; [apply steady_ret|].
    unfold deregister, unsubscribe_within. steady. }
  unfold check_timeouts. steady.
Qed.

Lemma steady_handle_message server_url msg : steady (handle_message server_url msg).
Proof.
  unfold handle_message, on_registry, update_last_seen, insert_gateway, associate_gateway, update_record,
    open_connection, connect_to_gateway, gateway_send. steady.
Qed.

Lemma steady_loop_step server_url a : steady (loop_step server_url a).
Proof.
  destruct a; cbn [loop_step]; [| |apply steady_handle_message]; apply steady_zoom;
    [apply steady_register_channel|apply steady_check_timeouts].
Qed.

Lemma run_arrivals_alive id t0 server_url arrivals l e :
  Forall from_handshake arrivals -> within_timeout t0 e -> alive id t0 l ->
  alive id t0 (run_arrivals server_url arrivals l e).1.2.
Proof.
  revert l e. induction arrivals as [|a arrivals IH]; intros l e; [done|].
  intros [Ha Hf]%Forall_cons Hw Hl. unfold run_arrivals in *. cbn [for_each]. unfold mbind, prog_bind.
  pose proof (loop_step_alive id t0 server_url a l e Ha Hw Hl) as H1.
  pose proof (steady_loop_step server_url a l e) as H2.
  destruct (loop_step server_url a l e) as [[u l1] e1]. cbn in H1, H2.
  apply IH; [done| |done]. by eapply within_timeout_forward.
Qed.

Lemma run_arrivals_listed server_url arrivals l e :
  Forall from_handshake arrivals -> casts_listed (lp_registry l) ->
  casts_listed (lp_registry (run_arrivals server_url arrivals l e).1.2).
Proof.
  revert l e. induction arrivals as [|a arrivals IH]; intros l e; [done|].
  intros [Ha Hf]%Forall_cons Hl. unfold run_arrivals in *. cbn [for_each]. unfold mbind, prog_bind.
  destruct (loop_step_topics server_url a l e Ha) as [H1 _].
  destruct (loop_step server_url a l e) as [[u l1] e1]. cbn in H1. auto.
Qed.

(** C5: a beacon that has been heard of is not forgotten and keeps being announced to.  When a
    message of a registered beacon arrives, then whatever arrives after it (handshakes,
    messages, sweeps, complete or dropped), as long as the clock stays within 120 s of
    that message, the beacon stays registered and every broadcast cycle that has a key
    publishes to its topic. *)
Theorem heard_beacon_is_announced server_url id msg arrivals l e st rows eb :
  sender_id msg = Some id -> cast_of (lp_registry l) id = Some (id +:+ "/cast") ->
  casts_listed (lp_registry l) -> Forall from_handshake arrivals ->
  within_timeout (oracle e Z InstantNow (clk e)) e ->
  let r := lp_registry (run_arrivals server_url (ArrMessage msg :: arrivals) l e).1.2 in
  cast_of r id = Some (id +:+ "/cast") /\
  let '(k, _, _) := get_or_rotate_key (bs_key_management st) rows eb in
  is_ok k = true -> exists payload,
    announcement payload (id +:+ "/cast") ∈ omap sent_command (trace (broadcast_cycle st (broadcast_topics r) rows eb).2).
Proof.
  intros Hid Hcast Hlist Hf Hw. set (t0 := oracle e Z InstantNow (clk e)) in *. cbn zeta.
  assert (Hstep : alive id t0 (loop_step server_url (ArrMessage msg) l e).1.2).
  { cbn [loop_step]. rewrite handle_message_eq.
    apply fmap_Some in Hcast as (record & Hr & Ht).
    assert (Hn : alive id t0 (note_sender msg l e).1.2).
    { unfold note_sender. rewrite Hid. unfold on_registry, zoom, update_last_seen. run_prog. rewrite Hr.
      run_prog. exists (with_last_seen t0 record). cbn. rewrite lookup_alter_eq, Hr.
      split; [done|]. split; [|done]. cbn. lia. }
    destruct (note_sender msg l e) as [[u l1] e1]. cbn in Hn.
    destruct (beacon_gateway_url (beacon_payload msg)) as [url|]; [|done].
    destruct (is_gateway_known url (lp_registry l1)); [done|]. cbn. unfold link_up. rewrite Hid.
    apply (alive_alter _ _ _ _ _ (lp_next l1)); [done|done|]. eapply alive_records; [|exact Hn]. done. }
  pose proof (run_arrivals_listed server_url (ArrMessage msg :: arrivals) l e) as Hl.
  specialize (Hl (Forall_cons_2 from_handshake (ArrMessage msg) _ I Hf) Hlist).
  assert (Ha : alive id t0 (run_arrivals server_url (ArrMessage msg :: arrivals) l e).1.2).
  { unfold run_arrivals. cbn [for_each]. unfold mbind, prog_bind.
    pose proof (steady_loop_step server_url (ArrMessage msg) l e) as Hs.
    destruct (loop_step server_url (ArrMessage msg) l e) as [[u l1] e1]. cbn in Hstep, Hs.
    apply run_arrivals_alive; [done| |done]. by eapply within_timeout_forward. }
  destruct (run_arrivals server_url (ArrMessage msg :: arrivals) l e) as [[u l'] e']. cbn [fst snd] in *.
  destruct Ha as (record & Hr & _ & Ht).
  assert (Hc : cast_of (lp_registry l') id = Some (id +:+ "/cast")) by (unfold cast_of; rewrite Hr; cbn; by rewrite Ht).
  split; [done|]. pose proof (cycle_sent st (broadcast_topics (lp_registry l')) rows eb) as Hs.
  destruct (get_or_rotate_key _ rows eb) as [[k rows1] eb1]. cbn zeta in Hs. destruct Hs as [payload Hs].
  intros Hk. rewrite Hk in Hs. exists payload. rewrite Hs. apply elem_of_app. right.
  apply list_elem_of_fmap. eexists. split; [done|].
  destruct (Hl id _ Hc) as [H0|[_ ?]]; [by apply cast_name_nonempty in H0|done].
Qed.
End System.

(** ** A concrete run

    A beacon shakes hands over TLS; the channel delivers its two topics to the loop, a
    message of the beacon follows, then a sweep; a cycle announces to the beacon. *)

Definition demo_conns : list Connection :=
  [(true, [demo_init "0.0.1" "192.168.2.39:8080" "hub|csr"], Ok tt)].

Definition demo_received : list Arrival :=
  [ArrChannel (listen_channel "uuid"); ArrChannel (broadcast_channel "uuid");
   ArrMessage (demo_message "uuid/rec" "hello"); ArrSweep ["uuid"] None].

Definition demo_end : @Env demo_ext :=
  let r := lp_registry (run_beacon_message_loop "http://me" None [] demo_received demo_env).1 in
  (broadcast_cycle demo_broadcast (broadcast_topics r) [demo_row] demo_env).2.

Example demo_end_to_end :
  omap enqueued (trace (@serve_listener demo_ext demo_state demo_conns demo_issued demo_env).2)
    = handshake_topics "uuid" /\
  (fun cmd => match cmd with Publish t _ _ => t | _ => "" end) <$> omap sent_command (trace demo_end) = ["uuid/cast"].
Proof. by vm_compute. Qed.

Lemma announces_only_to_handshaken_witness :
  let outs := (@serve_listener demo_ext demo_state demo_conns demo_issued demo_env).1.1 in
  Forall (fun cmd => exists id payload, handshaken (X := demo_ext) demo_state demo_conns outs id /\
            cmd = announcement payload (id +:+ "/cast"))
    (omap sent_command (trace demo_end)).
Proof.
  pose proof (announces_only_to_handshaken (X := demo_ext) demo_state demo_conns demo_issued demo_env
    "http://me" None demo_received demo_env demo_broadcast [demo_row] demo_env eq_refl) as H.
  assert (Hq : omap enqueued (trace (@serve_listener demo_ext demo_state demo_conns demo_issued demo_env).2)
    = handshake_topics "uuid") by (vm_compute; reflexivity).
  destruct (serve_listener demo_state demo_conns demo_issued demo_env) as [[outs w'] eh'].
  cbn [fst snd] in Hq. rewrite Hq in H. cbn zeta. cbn [fst snd]. apply Forall_forall. intros cmd Hcmd.
  destruct (H (fun ch Hch => Hch) cmd Hcmd) as [Hnil|Hx]; [exact (False_ind _ (not_elem_of_nil cmd Hnil))|exact Hx].
Defined.

Definition demo_loop_uuid : MsgLoop :=
  (run_beacon_message_loop "http://me" None [] [ArrChannel (listen_channel "uuid");
     ArrChannel (broadcast_channel "uuid")] demo_env).1.

Lemma heard_beacon_is_announced_witness :
  cast_of (lp_registry (run_arrivals "http://me"
    [ArrMessage (demo_message "uuid/rec" "hello"); ArrSweep ["uuid"] None] demo_loop_uuid demo_env).1.2) "uuid"
  = Some "uuid/cast".
Proof.
  refine (proj1 (heard_beacon_is_announced "http://me" "uuid" (demo_message "uuid/rec" "hello")
    [ArrSweep ["uuid"] None] demo_loop_uuid demo_env demo_broadcast [demo_row] demo_env _ _ _ _ _)).
  - vm_compute. reflexivity.
  - vm_compute. reflexivity.
  - intros id t Ht. unfold cast_of in Ht. apply fmap_Some in Ht as (record & Hr & ->).
    replace (records (lp_registry demo_loop_uuid)) with
      ({[ "uuid" := mkBeacon "uuid/rec" "uuid/cast" 0 None None ]} : gmap string BeaconRecord) in Hr
      by (vm_compute; reflexivity).
    apply lookup_singleton_Some in Hr as [<- <-]. right. split; [reflexivity|].
    vm_compute. apply list_elem_of_here.
  - repeat constructor.
  - intros n _. split; vm_compute; discriminate.
Defined.
