(* ===== verification/App.v ===== *)
(** * App: bringing the node up (app.rs, [App::initialize])

    [initialize] over the CA (memory and database) and the supervisor.  [prepare] is
    everything up to spawning the supervisor, where an error ends the process with exit
    code 1; [launch] starts the services, where errors are only logged.  Waiting for the
    first connection to the broker is the call [AwaitConnected], which may never return:
    the results below are about runs in which it does. *)

From Stdlib Require Import ZArith Lia.
From stdpp Require Import base list strings gmap.
From S2P Require Import Prelude RustStr Types Env Demo Supervisor KeyManagement Config Capabilities Ca Brokerage.
From S2P Require Import MqttClient CloudGateway GatewayMqtt Handshake Gateway Services Broadcast.
From S2P Require Import Contract ServiceLaws.

Section App.
Context {X : Ext}.

(** The fields of [App] that are data; its channels are the calls and arrivals of the
    other files. *)
Record App := mkApp {
  app_server_url : string;
  app_own_gateway_url : option string;
  app_broadcast_topics : list string;
  app_beacon_config : BeaconManagementConfig;
  app_key_management : BroadcastKeyManagement;
}.

Record AppWorld := mkAppWorld { aw_ca : CaWorld; aw_supervisor : Supervisor Service }.

Definition on_ca {A} (m : Prog CaWorld A) : Prog AppWorld A :=
  zoom aw_ca (fun ca w => mkAppWorld ca (aw_supervisor w)) m.
Definition on_supervisor {A} (m : Prog (Supervisor Service) A) : Prog AppWorld A :=
  zoom aw_supervisor (fun s w => mkAppWorld (aw_ca w) s) m.

Definition required_binaries : list string := ["mosquitto"; "mosquitto_passwd"].

Definition ca_database_url (env : gmap string string) : string :=
  var_or env "CA_DATABASE_URL" "sqlite://placenet_ca.db".

(** Whether the broker is available, and whether the cloud gateway client is. *)
Definition prepare (env : gmap string string) (config : Config)
  : Prog AppWorld (result (bool * bool) string) :=
  capabilities ← detect_capabilities required_binaries;
  _ ←? on_ca (ca_register (ca_database_url env));
  ca_pem ←? on_ca ca_cert_pem;
  let brokerage_info := build_brokerage_info (cfg_mqtt_brokerage config) ca_pem in
  _ ←? (if mb_tls_enabled (cfg_mqtt_brokerage config)
        then on_ca (provision_mqtt_broker_cert (cfg_mqtt_brokerage config)) else mret (Ok tt));
  '(broker_available, brokerage_handle) ←
    on_supervisor (register_mqtt_broker capabilities (cfg_mqtt_brokerage config));
  w ← get;
  _ ← on_supervisor (register_gateway (cfg_http config) brokerage_info brokerage_handle
        (ca_state (aw_ca w)) (Some tt));
  _ ←? (if decide (mc_tls_mode (cfg_mqtt_client config) = Mutual)
        then on_ca (provision_node_identity (cfg_mqtt_client config)) else mret (Ok tt));
  _ ← on_supervisor (register_mqtt_client (cfg_mqtt_client config) broker_available);
  cloud_gateway_available ← on_supervisor (register_gateway_mqtt (cfg_gateway_registration config));
  mret (Ok (broker_available, cloud_gateway_available)).

Definition subscribe_once_connected {S} (broker_available : bool) : Prog S unit :=
  if broker_available then
    connected ← call AwaitConnected;
    if (connected : bool) then _ ← subscribe_all required_subscriptions; mret tt else mret tt
  else mret tt.

Definition launch (broker_available cloud_gateway_available : bool) : Prog AppWorld unit :=
  _ ← on_supervisor (start_mosquitto_brokerage broker_available);
  _ ← on_supervisor (start_mqtt_client broker_available);
  _ ← subscribe_once_connected broker_available;
  _ ← on_supervisor start_gateway;
  if cloud_gateway_available then on_supervisor start_gateway_mqtt else mret tt.

(** [Err]: the process has exited. *)
Definition initialize (env : gmap string string) (config : Config)
  : Prog AppWorld (result App string) :=
  '(broker_available, cloud_gateway_available) ←? prepare env config;
  _ ← launch broker_available cloud_gateway_available;
  let beacon := cfg_beacon_management config in
  mret (Ok (mkApp (gr_server_url (cfg_gateway_registration config))
                  (gr_gateway_url (cfg_gateway_registration config)) [] beacon
                  (BroadcastKeyManagement_new (bm_key_rotation_interval beacon) (bm_key_expiry beacon)))).

Definition broadcast_state (app : App) : BroadcastState :=
  mkBroadcast (app_server_url app) (bm_use_jitter (app_beacon_config app))
    (bm_broadcast_interval (app_beacon_config app)) (app_key_management app).

(** ** Nothing runs before the configuration is known to be usable *)

(** The tasks and lasting child processes a trace started.  The helpers that are run to
    completion ([RunProcess]: which, --version, mosquitto_passwd) are not counted. *)
Definition started (ev : Event) : option unit :=
  match ev with Ev c _ => match c with Spawn _ | SpawnProcess _ => Some tt | _ => None end end.

Lemma detect_all_silent {S} names b : silent started (detect_all (S := S) names b).
Proof. revert b. induction names as [|n names IH]; intros b; cbn; [silence|]. unfold detect_binary. silence. Qed.

Lemma ca_register_silent url : silent started (ca_register url).
Proof.
  unfold ca_register, init, load_or_generate_ca, load_ca_from_db, generate_and_persist_ca, set_ca_state, with_db.
  silence.
Qed.

Lemma provision_broker_silent cfg : silent started (provision_mqtt_broker_cert cfg).
Proof.
  unfold provision_mqtt_broker_cert, ca_cert_pem, generate_broker_cert, loaded_ca, generate_broker_identity,
    get_local_ips. silence.
Qed.

Lemma provision_node_silent cfg : silent started (provision_node_identity cfg).
Proof.
  unfold provision_node_identity, ensure_node_identity, loaded_ca, generate_node_identity, with_db. silence.
Qed.

Lemma set_password_silent u p : silent started (set_password u p).
Proof. unfold set_password, run_passwd. silence. Qed.

Lemma write_config_silent {S} cfg : silent started (write_config (S := S) cfg).
Proof. unfold write_config. silence. Qed.

Lemma register_mqtt_broker_silent cap cfg : silent started (register_mqtt_broker cap cfg).
Proof.
  unfold register_mqtt_broker, register_service. silence.
  - apply write_config_silent.
  - intros s e. pose proof (set_password_silent (mb_username cfg) (mb_password cfg)
      (MosquittoBrokerageService_new (default "mosquitto" (binary_path cap "mosquitto"))
         (binary_path cap "mosquitto_passwd") cfg) e) as Hp.
    by destruct (set_password _ _ _ e) as [[r svc] e'].
Qed.

#[local] Hint Resolve detect_all_silent ca_register_silent provision_broker_silent provision_node_silent
  register_mqtt_broker_silent : silent.

Lemma prepare_silent env config : silent started (prepare env config).
Proof.
  unfold prepare, detect_capabilities, ca_cert_pem, loaded_ca, on_ca, on_supervisor, register_gateway,
    register_mqtt_client, register_gateway_mqtt, register_service. silence.
Qed.

(** *** What [prepare] leaves behind *)

Lemma on_ca_supervisor {A} (m : Prog CaWorld A) w e : aw_supervisor (on_ca m w e).1.2 = aw_supervisor w.
Proof. unfold on_ca, zoom. by destruct (m (aw_ca w) e) as [[? ?] ?]. Qed.

Lemma detect_stateless {S} names b : stateless (detect_all (S := S) names b).
Proof. revert b. induction names as [|n names IH]; intros b; cbn; [stateless|]. unfold detect_binary. stateless. Qed.

Lemma register_mqtt_broker_eq cap cfg s e :
  exists svc handle e', register_mqtt_broker cap cfg s e =
    ((is_available cap "mosquitto", handle),
     register Mosquitto (SvcMosquitto svc) (is_available cap "mosquitto") s, e') /\ fresh (SvcMosquitto svc).
Proof.
  unfold register_mqtt_broker. set (svc := MosquittoBrokerageService_new _ _ _).
  assert (Hf : fresh (SvcMosquitto svc)) by apply new_services_fresh.
  assert (Hw : stateless (write_config (S := Supervisor Service) cfg)) by (unfold write_config; stateless).
  unfold mbind, prog_bind. destruct (is_available cap "mosquitto"); [|by exists svc, None, e].
  specialize (Hw s e). destruct (write_config cfg s e) as [[r s1] e1]. cbn in Hw. subst s1.
  destruct (negb (mb_tls_enabled cfg)); [|by exists svc, (Some cfg), e1].
  destruct (set_password (mb_username cfg) (mb_password cfg) svc e1) as [[r2 svc2] e2].
  by exists svc, (Some cfg), e2.
Qed.

Lemma prepare_registers env config w e :
  aw_supervisor w = new ->
  let '(r, w', _) := prepare env config w e in
  match r with
  | Err _ => True
  | Ok (av, gm) =>
      exists broker gateway client cloud,
        aw_supervisor w' = registered ([(Mosquitto, broker, av); (Gateway, gateway, true); (MqttClient, client, av)]
          ++ (if gm then [(GatewayMqttClient, cloud, true)] else [])) /\
        av = is_available (detect_capabilities required_binaries w e).1.1 "mosquitto" /\
        gm = bool_decide (is_Some (gateway_mqtt_config (cfg_gateway_registration config))) /\
        Forall (fun '(_, svc, _) => fresh svc)
          ([(Mosquitto, broker, av); (Gateway, gateway, true); (MqttClient, client, av)]
           ++ (if gm then [(GatewayMqttClient, cloud, true)] else []))
  end.
Proof.
  intros Hw. unfold prepare. unfold mbind at 1, prog_bind.
  pose proof (detect_stateless required_binaries ∅ w e) as Hd. unfold detect_capabilities in *.
  destruct (detect_all required_binaries ∅ w e) as [[cap w1] e1]. cbn in Hd. subst w1. cbn [fst].
  unfold bind_ok at 1, mbind at 1, prog_bind.
  pose proof (on_ca_supervisor (ca_register (ca_database_url env)) w e1) as H1.
  destruct (on_ca _ w e1) as [[[u|err] w1] e2]; [|done]. cbn in H1.
  unfold bind_ok at 1, mbind at 1, prog_bind.
  pose proof (on_ca_supervisor ca_cert_pem w1 e2) as H2.
  destruct (on_ca _ w1 e2) as [[[pem|err] w2] e3]; [|done]. cbn in H2.
  unfold bind_ok at 1, mbind at 1, prog_bind.
  match goal with |- context [(if ?b then ?m else ?k) w2 e3] =>
    assert (H3 : aw_supervisor ((if b then m else k) w2 e3).1.2 = aw_supervisor w2)
      by (destruct b; [apply on_ca_supervisor|done]);
    destruct ((if b then m else k) w2 e3) as [[[u3|err] w3] e4]; [|done] end.
  cbn in H3.
  unfold mbind at 1, prog_bind. unfold on_supervisor at 1, zoom.
  destruct (register_mqtt_broker_eq cap (cfg_mqtt_brokerage config) (aw_supervisor w3) e4)
    as (broker & handle & e5 & -> & Hfb).
  unfold mbind at 1, prog_bind, get. unfold mbind at 1, prog_bind. unfold on_supervisor at 1, zoom.
  unfold register_gateway, register_service, modify.
  set (gateway := SvcGateway _). unfold bind_ok at 1, mbind at 1, prog_bind.
  match goal with |- context [(if decide ?c then ?m else ?k) ?w4 e5] =>
    assert (H4 : aw_supervisor ((if decide c then m else k) w4 e5).1.2 = aw_supervisor w4)
      by (destruct (decide c); [apply on_ca_supervisor|done]);
    destruct ((if decide c then m else k) w4 e5) as [[[u4|err] w5] e6]; [|done] end.
  cbn in H4. rewrite H3, H2, H1, Hw in H4.
  unfold mbind, prog_bind, on_supervisor, zoom, register_mqtt_client, register_service, modify,
    register_gateway_mqtt.
  set (client := SvcMqttClient _).
  assert (Hfresh : fresh gateway /\ fresh client) by (split; apply new_services_fresh).
  destruct Hfresh as [Hfg Hfc].
  destruct (gateway_mqtt_config (cfg_gateway_registration config)) as [gmc|] eqn:Hg; cbn -[register].
  - exists (SvcMosquitto broker), gateway, client, (SvcGatewayMqtt (GatewayMqttService_new gmc)).
    split; [by rewrite H4|]. split; [done|]. split; [done|].
    repeat (apply Forall_cons; split); [done..|apply new_services_fresh|constructor].
  - exists (SvcMosquitto broker), gateway, client, client. split; [by rewrite H4|]. split; [done|].
    split; [done|]. repeat (apply Forall_cons; split); [done..|constructor].
Qed.

(** *** What [launch] makes of it *)

Definition launched (st : ServiceStatus) : Prop :=
  (exists pid, st = Supervisor.Running pid) \/ (exists err, st = Supervisor.Failed err).

(** Running [m] starts the stopped service [id], or fails to, and touches no other. *)
Definition starts (id : ServiceId) (m : Prog (Supervisor Service) unit) : Prop :=
  forall s e, wf s -> statuses s !! id = Some Stopped ->
  let s' := (m s e).1.2 in
  wf s' /\ only_at id s s' /\ exists st, statuses s' !! id = Some st /\ launched st.

Lemma start_launches id s e :
  wf s -> statuses s !! id = Some Stopped ->
  let s' := (start_service id s e).1.2 in
  wf s' /\ only_at id s s' /\ exists st, statuses s' !! id = Some st /\ launched st.
Proof.
  intros Hw Hs. pose proof (handle_start_steps id s e Hw) as H. unfold start_service.
  destruct (handle_start id s e) as [[r s'] e']. destruct H as (H1 & H2 & H3).
  split; [done|]. split; [done|]. destruct (H3 _ Hs) as (st & Hst & Hl). exists st. split; [done|].
  unfold launched. inversion Hl; subst; [eauto|eauto|done].
Qed.

Lemma start_mosquitto_starts : starts Mosquitto (start_mosquitto_brokerage true).
Proof.
  intros s e Hw Hs. pose proof (start_launches Mosquitto s e Hw Hs) as H.
  unfold start_mosquitto_brokerage, mbind, prog_bind.
  by destruct (start_service Mosquitto s e) as [[[u|err] s'] e'].
Qed.

Lemma start_mqtt_client_starts : starts MqttClient (start_mqtt_client true).
Proof.
  intros s e Hw Hs. pose proof (start_launches MqttClient s e Hw Hs) as H.
  unfold start_mqtt_client, mbind, prog_bind. by destruct (start_service MqttClient s e) as [[r s'] e'].
Qed.

Lemma start_gateway_starts : starts Gateway start_gateway.
Proof.
  intros s e Hw Hs. pose proof (start_launches Gateway s e Hw Hs) as H.
  unfold start_gateway, mbind, prog_bind. by destruct (start_service Gateway s e) as [[r s'] e'].
Qed.

Lemma start_gateway_mqtt_starts : starts GatewayMqttClient start_gateway_mqtt.
Proof.
  intros s e Hw Hs. pose proof (start_launches GatewayMqttClient s e Hw Hs) as H.
  unfold start_gateway_mqtt, mbind, prog_bind. by destruct (start_service GatewayMqttClient s e) as [[r s'] e'].
Qed.

(** Once every id of [ids] has been tried: the others have the status they had. *)
Definition tried (ids : list ServiceId) (s s' : Supervisor Service) : Prop :=
  wf s' /\ (forall id, id ∈ ids -> exists st, statuses s' !! id = Some st /\ launched st) /\
  (forall id, id ∉ ids -> statuses s' !! id = statuses s !! id).

Lemma tried_step ids s s1 id m e :
  tried ids s s1 -> id ∉ ids -> statuses s !! id = Some Stopped -> starts id m ->
  tried (ids ++ [id]) s (m s1 e).1.2.
Proof.
  intros (H1 & H2 & H3) Hid Hs Hm. destruct (Hm s1 e H1) as (M1 & (M2 & _) & M3); [by rewrite H3|].
  split; [done|]. split.
  - intros i. rewrite elem_of_app, list_elem_of_singleton. intros [Hi| ->]; [|done].
    destruct (M2 i) as [_ ->]; [by intros ->|by apply H2].
  - intros i. rewrite elem_of_app, list_elem_of_singleton. intros Hi.
    destruct (M2 i) as [_ ->]; [naive_solver|]. apply H3. naive_solver.
Qed.

Lemma subscribe_all_stateless {S} subs : stateless (subscribe_all (S := S) subs).
Proof.
  induction subs as [|sub subs IH]; cbn; [stateless|]. apply stateless_bind_ok; [|done].
  unfold subscribe, send_command. stateless.
Qed.

Lemma subscribe_once_connected_state {S} av (s : S) e : (subscribe_once_connected av s e).1.2 = s.
Proof.
  revert s e. change (stateless (subscribe_once_connected (S := S) av)). unfold subscribe_once_connected.
  stateless. apply subscribe_all_stateless.
Qed.

Lemma on_supervisor_state {A} (m : Prog (Supervisor Service) A) w e :
  aw_supervisor (on_supervisor m w e).1.2 = (m (aw_supervisor w) e).1.2.
Proof. unfold on_supervisor, zoom. by destruct (m (aw_supervisor w) e) as [[? ?] ?]. Qed.

(** A list of programs run on the supervisor one after the other. *)
Lemma launch_tried av gm w e :
  let s := aw_supervisor w in
  wf s -> statuses s !! Gateway = Some Stopped ->
  (av = true -> statuses s !! Mosquitto = Some Stopped /\ statuses s !! MqttClient = Some Stopped) ->
  (gm = true -> statuses s !! GatewayMqttClient = Some Stopped) ->
  tried ((if av then [Mosquitto; MqttClient] else []) ++ [Gateway] ++ (if gm then [GatewayMqttClient] else []))
    s (aw_supervisor (launch av gm w e).1.2).
Proof.
  intros s Hw Hg Hb Hc. unfold launch.
  assert (H0 : tried [] s (aw_supervisor w)) by (split; [done|]; split; [set_solver|done]).
  unfold mbind, prog_bind.
  (* the broker, then the client *)
  pose proof (on_supervisor_state (start_mosquitto_brokerage av) w e) as E1.
  destruct (on_supervisor (start_mosquitto_brokerage av) w e) as [[u1 w1] e1]. cbn in E1.
  pose proof (on_supervisor_state (start_mqtt_client av) w1 e1) as E2.
  destruct (on_supervisor (start_mqtt_client av) w1 e1) as [[u2 w2] e2]. cbn in E2.
  assert (H2 : tried (if av then [Mosquitto; MqttClient] else []) s (aw_supervisor w2)).
  { rewrite E2, E1. destruct av; [|done]. destruct (Hb eq_refl) as [Hb1 Hb2].
    apply (tried_step [Mosquitto]); [|set_solver|done|apply start_mqtt_client_starts].
    apply (tried_step []); [done|set_solver|done|apply start_mosquitto_starts]. }
  pose proof (subscribe_once_connected_state av w2 e2) as E3.
  destruct (subscribe_once_connected av w2 e2) as [[u3 w3] e3]. cbn in E3. subst w3.
  pose proof (on_supervisor_state start_gateway w2 e3) as E4.
  destruct (on_supervisor start_gateway w2 e3) as [[u4 w4] e4]. cbn in E4.
  assert (H4 : tried ((if av then [Mosquitto; MqttClient] else []) ++ [Gateway]) s (aw_supervisor w4)).
  { rewrite E4. apply tried_step; [done|destruct av; set_solver|done|apply start_gateway_starts]. }
  rewrite app_assoc. destruct gm; cbn; [|by rewrite app_nil_r].
  rewrite on_supervisor_state. apply tried_step; [done|destruct av; set_solver|by apply Hc|].
  apply start_gateway_mqtt_starts.
Qed.

(** The services the configuration and the host call for. *)
Definition expected_services (gm : bool) : gset ServiceId :=
  {[ Mosquitto; Gateway; MqttClient ]} ∪ (if gm then {[ GatewayMqttClient ]} else ∅).

(** C13: bringing the node up.  When [initialize] ends the process, because the CA or a
    certificate cannot be had, no task and no lasting child process has been started (the
    helpers that detect the host's binaries have run and ended).
    Otherwise the supervisor knows exactly the gateway, the broker, the MQTT client
    and, when the gateway is configured, its client; each has been started, or has
    failed to with its error on record, except that without a broker on the host the
    broker and its client are unavailable for good; and the node's own gateway, its
    URL and the key intervals are those of the configuration. *)
Theorem initialize_outcome env config w e :
  aw_supervisor w = new ->
  let av := is_available (detect_capabilities required_binaries w e).1.1 "mosquitto" in
  let gm := bool_decide (is_Some (gateway_mqtt_config (cfg_gateway_registration config))) in
  let '(r, w', e') := initialize env config w e in
  match r with
  | Err _ => omap started (trace e') = omap started (trace e)
  | Ok app =>
      wf (aw_supervisor w') /\ dom (statuses (aw_supervisor w')) = expected_services gm /\
      (forall id st, statuses (aw_supervisor w') !! id = Some st ->
         if negb av && bool_decide (id = Mosquitto \/ id = MqttClient) then st = Unavailable else launched st) /\
      app_own_gateway_url app = gr_gateway_url (cfg_gateway_registration config) /\
      app_server_url app = gr_server_url (cfg_gateway_registration config) /\
      rotation_interval (app_key_management app) = bm_key_rotation_interval (cfg_beacon_management config) /\
      key_expiry (app_key_management app) = bm_key_expiry (cfg_beacon_management config)
  end.
Proof.
  intros Hw. cbn zeta. unfold initialize. unfold bind_ok, mbind, prog_bind.
  pose proof (prepare_silent env config w e) as Hs. pose proof (prepare_registers env config w e Hw) as Hp.
  destruct (prepare env config w e) as [[[[av gm]|err] w1] e1]; [|done].
  destruct Hp as (broker & gateway & client & cloud & Hr & <- & <- & _). clear Hs.
  pose proof (launch_tried av gm w1 e1) as Hl. rewrite Hr in Hl. cbn zeta in Hl.
  destruct (launch av gm w1 e1) as [[u w2] e2]. cbn [fst snd] in Hl. unfold mret, prog_ret.
  destruct Hl as (L1 & L2 & L3); [apply wf_registered|by destruct gm|intros ->; by destruct gm|by intros ->|].
  assert (Hst : forall id, match statuses (aw_supervisor w2) !! id with
    | Some st => id ∈ expected_services gm /\
        if negb av && bool_decide (id = Mosquitto \/ id = MqttClient) then st = Unavailable else launched st
    | None => id ∉ expected_services gm
    end).
  { intros id. destruct (decide (id ∈ (if av then [Mosquitto; MqttClient] else []) ++ [Gateway] ++
      (if gm then [GatewayMqttClient] else []))) as [Hin|Hin].
    - destruct (L2 id Hin) as (st & -> & Hl). unfold expected_services.
      rewrite !elem_of_app, list_elem_of_singleton in Hin.
      split; [destruct av, gm; set_solver|].
      destruct av; cbn; [done|]. rewrite bool_decide_eq_false_2; [done|]. destruct gm; set_solver.
    - rewrite (L3 id Hin). unfold expected_services. rewrite !elem_of_app, list_elem_of_singleton in Hin.
      destruct id, av, gm; try (exfalso; set_solver); cbn; rewrite ?lookup_insert; cbn;
        rewrite ?lookup_empty; first [split; [set_solver|done]|set_solver]. }
  split; [done|]. split; [|split; [|done]].
  - apply set_eq. intros id. rewrite elem_of_dom. specialize (Hst id).
    destruct (statuses _ !! id) eqn:E; [|split; [by intros []|done]]. split; [tauto|eauto].
  - intros id st Hid. specialize (Hst id). rewrite Hid in Hst. tauto.
Qed.
End App.

(** ** A concrete start

    On a host with mosquitto, with the default configuration and an empty database. *)

Definition demo_start : @AppWorld demo_ext := mkAppWorld (mkWorld None empty_db) new.

Example demo_initialize :
  let run := initialize ∅ default_config demo_start demo_env in
  is_ok run.1.1 = true /\
  statuses (aw_supervisor run.1.2) !! Gateway = Some (Supervisor.Running 0) /\
  statuses (aw_supervisor run.1.2) !! Mosquitto = Some (Supervisor.Running 42) /\
  statuses (aw_supervisor run.1.2) !! CloudGateway = None.
Proof. by vm_compute. Qed.

Lemma initialize_outcome_witness :
  let run := initialize ∅ default_config demo_start demo_env in
  is_ok run.1.1 = true /\ wf (aw_supervisor run.1.2) /\
  dom (statuses (aw_supervisor run.1.2)) = expected_services false.
Proof.
  intros run. assert (Hok : is_ok run.1.1 = true) by (vm_compute; reflexivity).
  split; [exact Hok|].
  pose proof (initialize_outcome ∅ default_config demo_start demo_env eq_refl) as H.
  fold run in H. destruct run as [[[app|err] w'] e']; [|discriminate Hok].
  destruct H as (H1 & H2 & _). split; [exact H1|]. exact H2.
Defined.
