(* ===== verification/Main.v ===== *)
(** * Main: the process (main.rs)

    [main] reads the configuration, brings the node up (App.v) and starts the two loops
    that run until the operator stops the process.  [None]: the configuration could not be
    read and the process panicked. *)

From Stdlib Require Import ZArith Lia.
From stdpp Require Import base list strings gmap.
From S2P Require Import Prelude RustStr Types Env Demo Supervisor Contract Config Capabilities Ca Brokerage.
From S2P Require Import MqttClient CloudGateway GatewayMqtt Handshake Gateway Services ServiceLaws KeyManagement.
From S2P Require Import Broadcast App.

Section Main.
Context {X : Ext}.

Definition main (env : gmap string string) (cwd : option string)
  : Prog AppWorld (option (result (BroadcastState * App) string)) :=
  match Config_from_env env cwd with
  | None => mret None
  | Some config =>
      ctx ← initialize env config;
      match ctx with
      | Err err => mret (Some (Err err))
      | Ok ctx =>
          let broadcast := broadcast_state ctx in
          _ ← call (Spawn BroadcastLoop);
          _ ← call (Spawn BeaconMessageLoop);
          _ ← call AwaitCtrlC;
          mret (Some (Ok (broadcast, ctx)))
      end
  end.

(** ** Properties *)

Lemma start_service_fits id (s : Supervisor Service) e :
  wf s -> fits s -> wf (start_service id s e).1.2 /\ fits (start_service id s e).1.2.
Proof.
  intros Hw Hf. unfold start_service. pose proof (handle_start_steps id s e Hw) as H.
  pose proof (handle_start_fits id s e Hw Hf). destruct (handle_start id s e) as [[r s'] e']. by destruct H.
Qed.

(** Programs on the supervisor that keep it well formed and truthful. *)
Definition truthful (m : Prog (Supervisor Service) unit) : Prop :=
  forall s e, wf s -> fits s -> wf (m s e).1.2 /\ fits (m s e).1.2.

Lemma truthful_starts :
  (forall av, truthful (start_mosquitto_brokerage av)) /\ (forall av, truthful (start_mqtt_client av)) /\
  truthful start_gateway /\ truthful start_gateway_mqtt.
Proof.
  split; [|split; [|split]].
  - intros [] s e Hw Hf; [|done]. pose proof (start_service_fits Mosquitto s e Hw Hf) as H.
    unfold start_mosquitto_brokerage, mbind, prog_bind.
    by destruct (start_service Mosquitto s e) as [[[u|err] s'] e'].
  - intros [] s e Hw Hf; [|done]. pose proof (start_service_fits MqttClient s e Hw Hf) as H.
    unfold start_mqtt_client, mbind, prog_bind. by destruct (start_service MqttClient s e) as [[r s'] e'].
  - intros s e Hw Hf. pose proof (start_service_fits Gateway s e Hw Hf) as H.
    unfold start_gateway, mbind, prog_bind. by destruct (start_service Gateway s e) as [[r s'] e'].
  - intros s e Hw Hf. pose proof (start_service_fits GatewayMqttClient s e Hw Hf) as H.
    unfold start_gateway_mqtt, mbind, prog_bind. by destruct (start_service GatewayMqttClient s e) as [[r s'] e'].
Qed.

Lemma launch_truthful av gm w e :
  wf (aw_supervisor w) -> fits (aw_supervisor w) ->
  wf (aw_supervisor (launch av gm w e).1.2) /\ fits (aw_supervisor (launch av gm w e).1.2).
Proof.
  intros Hw Hf. destruct truthful_starts as (T1 & T2 & T3 & T4). unfold launch, mbind, prog_bind.
  assert (Hstep : forall m w e, truthful m -> wf (aw_supervisor w) -> fits (aw_supervisor w) ->
    wf (aw_supervisor (on_supervisor m w e).1.2) /\ fits (aw_supervisor (on_supervisor m w e).1.2)).
  { intros m w0 e0 Hm H1 H2. rewrite on_supervisor_state. by apply Hm. }
  destruct (Hstep _ w e (T1 av) Hw Hf) as [H1 H2].
  destruct (on_supervisor (start_mosquitto_brokerage av) w e) as [[u1 w1] e1]. cbn in H1, H2.
  destruct (Hstep _ w1 e1 (T2 av) H1 H2) as [H3 H4].
  destruct (on_supervisor (start_mqtt_client av) w1 e1) as [[u2 w2] e2]. cbn in H3, H4.
  pose proof (subscribe_once_connected_state av w2 e2) as E3.
  destruct (subscribe_once_connected av w2 e2) as [[u3 w3] e3]. cbn in E3. subst w3.
  destruct (Hstep _ w2 e3 T3 H3 H4) as [H5 H6].
  destruct (on_supervisor start_gateway w2 e3) as [[u4 w4] e4]. cbn in H5, H6.
  destruct gm; [|done]. by apply Hstep.
Qed.

(** How [initialize] ends. *)
Lemma initialize_run env config w e :
  aw_supervisor w = new ->
  let '(r, w', e') := initialize env config w e in
  match r with
  | Err _ => omap started (trace e') = omap started (trace e)
  | Ok app => wf (aw_supervisor w') /\ fits (aw_supervisor w') /\
      app_server_url app = gr_server_url (cfg_gateway_registration config) /\
      app_beacon_config app = cfg_beacon_management config
  end.
Proof.
  intros Hw. unfold initialize, bind_ok, mbind, prog_bind.
  pose proof (prepare_silent env config w e) as Hs. pose proof (prepare_registers env config w e Hw) as Hp.
  destruct (prepare env config w e) as [[[[av gm]|err] w1] e1]; [|exact Hs].
  destruct Hp as (broker & gateway & client & cloud & Hr & _ & _ & Hf).
  pose proof (launch_truthful av gm w1 e1) as Hl. rewrite Hr in Hl.
  specialize (Hl (wf_registered _) (fits_registered _ Hf)).
  destruct (launch av gm w1 e1) as [[u w2] e2]. by destruct Hl.
Qed.

(** C12: what the process is when its loops run.  Without a usable configuration nothing is
    done; when the node cannot be brought up no task and no lasting child process has been
    started.  Otherwise every
    status of the supervisor tells the truth, [Running] services are up, [Stopped] and
    [Unavailable] ones are down; the broadcasts announce the configured URL with the
    configured intervals; and the two loops are started last, after every service has
    been tried. *)
Theorem main_outcome env cwd w e :
  aw_supervisor w = new ->
  let '(r, w', e') := main env cwd w e in
  match r with
  | None => Config_from_env env cwd = None /\ w' = w /\ e' = e
  | Some (Err _) => omap started (trace e') = omap started (trace e)
  | Some (Ok (broadcast, app)) =>
      exists config e1 y1 y2 y3, Config_from_env env cwd = Some config /\
        wf (aw_supervisor w') /\ fits (aw_supervisor w') /\
        bs_server_url broadcast = gr_server_url (cfg_gateway_registration config) /\
        bs_broadcast_interval broadcast = bm_broadcast_interval (cfg_beacon_management config) /\
        bs_key_management broadcast = app_key_management app /\
        e1 = (initialize env config w e).2 /\
        trace e' = trace e1 ++ [Ev (Spawn BroadcastLoop) y1; Ev (Spawn BeaconMessageLoop) y2; Ev AwaitCtrlC y3]
  end.
Proof.
  intros Hw. unfold main. destruct (Config_from_env env cwd) as [config|] eqn:Hc; [|done].
  pose proof (initialize_run env config w e Hw) as Hi. unfold mbind at 1, prog_bind.
  destruct (initialize env config w e) as [[[app|err] w2] e2] eqn:Hinit; [|done].
  destruct Hi as (Hl1 & Hl2 & H1 & H2). unfold mbind, prog_bind, mret, prog_ret, call. cbn [fst snd trace].
  eexists config, e2, _, _, _. split; [done|]. split; [done|]. split; [done|].
  split; [by cbn; rewrite H1|]. split; [by cbn; rewrite H2|]. split; [done|]. rewrite Hinit.
  split; [done|]. by rewrite <- !app_assoc.
Qed.
End Main.

(** ** A concrete process *)

Lemma main_outcome_witness :
  let w' := (main ∅ (Some "/srv") demo_start demo_env).1.2 in
  wf (aw_supervisor w') /\ fits (aw_supervisor w').
Proof.
  intros w'. pose proof (main_outcome ∅ (Some "/srv") demo_start demo_env eq_refl) as H.
  assert (Hok : match (main ∅ (Some "/srv") demo_start demo_env).1.1 with Some (Ok _) => true | _ => false end = true)
    by (vm_compute; reflexivity).
  subst w'. destruct (main ∅ (Some "/srv") demo_start demo_env) as [[[[[broadcast app]|err]|] w'] e'];
    [|discriminate Hok|discriminate Hok].
  destruct H as (config & e1 & y1 & y2 & y3 & _ & H1 & H2 & _). exact (conj H1 H2).
Defined.
